(** * Tariff-plan loader of cgrates: rating-plan builder and graph orchestrator

  A shallow embedding of [engine/ratingplan.go] (the rate-interval merge)
  and of the [TpReader] of package [engine] (the loader that walks the
  entity kinds of a tariff plan), with the properties the specification
  states about them. *)

From stdpp Require Import gmap strings list fin_maps pretty.
From Stdlib Require Import Lia.

Open Scope string_scope.
Open Scope list_scope.

(** ** Package [utils]: the well-known tags *)

Module utils.

(** Modelled from the spec: the constants of package [utils] are declared
    outside the sources at hand; the spec names the sentinel timing tags
    [*any], [*asap], [*every_minute] and [*hourly]. *)
Definition ANY : string := "*any".
Definition ASAP : string := "*asap".
Definition MetaEveryMinute : string := "*every_minute".
Definition MetaHourly : string := "*hourly".

(** Modelled from the spec: the text of the "not found" sentinel error
    ([utils.NotFoundCaps]); [LoadAll] compares an error's text with it. *)
Definition NotFoundCaps : string := "NOT_FOUND".

(** Modelled from the spec: the transaction id that means
    "non-transactional, immediate". *)
Definition NonTransactional : string := "".

(** The key prefixes handed to the store's probes; only their identity
    matters, so they are an enumeration here. *)
Inductive Prefix :=
| DESTINATION_PREFIX
| RATING_PLAN_PREFIX
| RATING_PROFILE_PREFIX
| ACTION_PREFIX
| REVERSE_DESTINATION_PREFIX
| AccountActionPlansPrefix
| REVERSE_ALIASES_PREFIX.

(** [utils.StringMap] is [map[string]bool]. *)
Abbreviation StringMap := (gmap string bool).

End utils.

(** ** [engine/ratingplan.go]: the rate-interval merge *)

Module RatingPlanBuilder.

Section Merge.

(** [float64], [time.Time] and [Rate] are declared outside the file; the
    merge only compares values of these types. *)
Context {float64 : Type} `{EqDecision float64}.
Context {Time : Type}.
Context {Rate : Type} `{EqDecision Rate}.

Record RITiming := mkRITiming {
  Years : list Z;
  Months : list Z;
  MonthDays : list Z;
  WeekDays : list Z;
  StartTime : string;
  EndTime : string
}.

#[export] Instance RITiming_eq_dec : EqDecision RITiming.
Proof. solve_decision. Defined.

(** A rate interval: the calendar pattern and the weight identify it, the
    rate list is what a merge extends. *)
Record RateInterval := mkRateInterval {
  Timing : RITiming;
  Weight : float64;
  Rates : list Rate
}.

Definition set_Rates (ri : RateInterval) (rs : list Rate) : RateInterval :=
  {| Timing := Timing ri; Weight := Weight ri; Rates := rs |}.

(** Modelled from the spec: [RateInterval.Equal] is declared outside the
    file. "Equality is defined over the interval's identity-bearing
    fields": two intervals are equal when they have the same weight and the
    same calendar pattern; the rate list does not count. *)
Definition Equal (i o : RateInterval) : bool :=
  bool_decide (Weight i = Weight o) && bool_decide (Timing i = Timing o).

(** Modelled from the spec: [RateList.AddRate] is declared outside the
    file. "The existing interval's rate list is extended (union) with the
    new interval's rates": each new rate is appended unless the list, as
    extended so far, already holds it. *)
Definition AddRate (pg ps : list Rate) : list Rate :=
  foldl (fun acc p => if bool_decide (p ∈ acc) then acc else acc ++ [p]) pg ps.

(** Rate intervals are handled through pointers ([*RateInterval]): a plan
    holds addresses into a store of intervals, and a merge updates the
    interval stored at the address found in the plan. *)
Definition loc := nat.
Abbreviation heap := (gmap loc RateInterval).

Record RatingPlan := mkRatingPlan {
  ActivationTime : Time;
  RateIntervals : list loc
}.

(** The inner loop of [AddRateInterval]: walk the plan's intervals, and at
    the first one [i] is equal to, add [i]'s rates to it and stop. The
    result tells whether one was found. [None] is the dereference of a nil
    pointer. *)
Fixpoint merge_existing (h : heap) (i : loc) (eis : list loc)
  : option (heap * bool) :=
  match eis with
  | [] => Some (h, false)
  | ei :: rest =>
      vi ← h !! i;
      ve ← h !! ei;
      if Equal vi ve
      then Some (<[ei := set_Rates ve (AddRate (Rates ve) (Rates vi))]> h, true)
      else merge_existing h i rest
  end.

(** One turn of the outer loop. *)
Definition add_interval (st : heap * RatingPlan) (i : loc)
  : option (heap * RatingPlan) :=
  let '(h, ap) := st in
  '(h', found) ← merge_existing h i (RateIntervals ap);
  if (found : bool) then Some (h', ap)
  else Some (h', {| ActivationTime := ActivationTime ap;
                    RateIntervals := RateIntervals ap ++ [i] |}).

(** [func (ap *RatingPlan) AddRateInterval(is ...*RateInterval)] *)
Fixpoint AddRateInterval (h : heap) (ap : RatingPlan) (is_ : list loc)
  : option (heap * RatingPlan) :=
  match is_ with
  | [] => Some (h, ap)
  | i :: rest =>
      '(h', ap') ← add_interval (h, ap) i;
      AddRateInterval h' ap' rest
  end.

(** [func (ap *RatingPlan) Equal(o *RatingPlan) bool] *)
Definition RatingPlan_Equal `{EqDecision Time} (ap o : RatingPlan) : bool :=
  bool_decide (ActivationTime ap = ActivationTime o).

(** The intervals of a plan that are equal to [v]. *)
Definition equal_at (h : heap) (v : RateInterval) (p : loc) : bool :=
  match h !! p with
  | Some e => Equal v e
  | None => false
  end.

Definition equal_in (h : heap) (v : RateInterval) (l : list loc) : list loc :=
  filter (fun p => Is_true (equal_at h v p)) l.

End Merge.

End RatingPlanBuilder.

(** ** The [TpReader] of package [engine] *)

Module Loader.

Import utils.
Export RatingPlanBuilder(RITiming, mkRITiming, Years, Months, MonthDays, WeekDays, StartTime, EndTime).

(** A Go [error], by its text. *)
Definition Error := string.

(** How [%v] prints an [error] value. *)
Definition show_err (err : option Error) : string :=
  match err with
  | Some e => e
  | None => "<nil>"
  end.

(** *** What is declared outside the file

    The types of the records the reader only stores or hands to the store,
    and the helper functions of other files of the package, are parameters
    of the development. *)
Class Env := {
  float64 : Type;
  Time : Type;
  (* rows as the data source returns them *)
  TPDestination : Type;
  TpTiming : Type;
  TpRate : Type;
  TpDestinationRate : Type;
  TpRatingPlan : Type;
  TpRatingProfile : Type;
  TpActionPlan : Type;
  TpAccountAction : Type;
  (* records the reader keeps or writes without looking into them *)
  Destination : Type;
  TPRate : Type;
  RateInterval : Type;
  RatingPlanBody : Type;
  Action : Type;
  ActionTriggers : Type;
  UnitCounters : Type;
  SharedGroup : Type;
  LCR : Type;
  DerivedChargers : Type;
  CdrStats : Type;
  UserProfile : Type;
  Alias : Type;
  TPResourceLimit : Type;
  ResourceLimit : Type;
  TenantRatingSubject : Type;
  TenantAccount : Type;
  (* the state of the persistent store *)
  store_state : Type;
  (* [utils.GenUUID]: the identifier drawn at the n-th call *)
  uuid_at : nat -> string;
  (* the order in which the n-th [range] over a map visits its entries *)
  range_at : nat -> forall V, gmap string V -> list (string * V);
  range_at_perm : forall n V (m : gmap string V), range_at n V m ≡ₚ map_to_list m;
}.

Section Reader.

Context `{Env}.

(** [utils.TPTiming] *)
Record TPTiming := mkTPTiming {
  tm_ID : string;
  tm_Years : list Z;
  tm_Months : list Z;
  tm_MonthDays : list Z;
  tm_WeekDays : list Z;
  tm_StartTime : string;
  tm_EndTime : string
}.

(** [utils.DestinationRate]: one line of a destination-rate group. *)
Record DestinationRate := mkDestinationRate {
  dr_DestinationId : string;
  dr_RateId : string;
  dr_Rate : option TPRate
}.

(** [utils.TPDestinationRate] *)
Record TPDestinationRate := mkTPDestinationRate {
  DestinationRatesId_ : string;
  DestinationRates : list DestinationRate
}.

(** [utils.TPRatingPlanBinding]; [timing] is the field [SetTiming] fills. *)
Record TPRatingPlanBinding := mkTPRatingPlanBinding {
  DestinationRatesId : string;
  TimingId : string;
  rpb_Weight : float64;
  timing : option TPTiming
}.

(** [RatingPlan] as this file uses it: an id, and a content only
    [AddRateInterval] touches. *)
Record RatingPlan := mkRatingPlan {
  rp_Id : string;
  rp_body : RatingPlanBody
}.

(** [utils.TPRatingActivation] and [utils.TPRatingProfile] *)
Record TPRatingActivation := mkTPRatingActivation {
  ra_ActivationTime : string;
  ra_RatingPlanId : string;
  ra_FallbackSubjects : string;
  ra_CdrStatQueueIds : string
}.

Record TPRatingProfile := mkTPRatingProfile {
  rpf_TPid : string;
  rpf_LoadId : string;
  rpf_Direction : string;
  rpf_Tenant : string;
  rpf_Category : string;
  rpf_Subject : string;
  rpf_RatingPlanActivations : list TPRatingActivation
}.

Record RatingPlanActivation := mkRatingPlanActivation {
  ActivationTime : Time;
  RatingPlanId : string;
  FallbackKeys : list string;
  CdrStatQueueIds : list string
}.

Record RatingProfile := mkRatingProfile {
  rpr_Id : string;
  RatingPlanActivations : list RatingPlanActivation
}.

(** [utils.TPActionTiming], an entry of what [MapTPActionTimings] returns. *)
Record TPActionTiming := mkTPActionTiming {
  ActionsId : string;
  tat_TimingId : string;
  tat_Weight : float64
}.

(** [ActionTiming]; its [Timing] is a [*RateInterval] of which the loader
    fills the [Timing] field only, with a [*RITiming]. *)
Record ActionTiming := mkActionTiming {
  Uuid : string;
  Timing : RITiming;
  Weight : float64;
  ActionsID : string
}.

Record ActionPlan := mkActionPlan {
  ap_Id : string;
  AccountIDs : StringMap;
  ActionTimings : list ActionTiming
}.

(** [utils.TPAccountActions] *)
Record TPAccountActions := mkTPAccountActions {
  aa_TPid : string;
  aa_LoadId : string;
  aa_Tenant : string;
  aa_Account : string;
  ActionPlanId : string;
  ActionTriggersId : string;
  aa_AllowNegative : bool;
  aa_Disabled : bool
}.

(** [Account]; [acc_ActionTriggers] is [None] for a nil slice. *)
Record Account := mkAccount {
  ID : string;
  acc_UnitCounters : option UnitCounters;
  acc_ActionTriggers : option ActionTriggers;
  AllowNegative : bool;
  Disabled : bool
}.

Record Task := mkTask {
  task_Uuid : string;
  AccountID : string;
  task_ActionsID : string
}.

(** The helper functions of the package that live in other files. The
    mappers turn rows into records keyed by tag. [MapTPTimings] may hand back
    a nil map ([None]); a map that is only read is given as it reads (nil
    reads as empty), and one the reader only ranges over is given as its
    entries in the order the range visits them. *)
Class Helpers := {
  NewDestinationFromTPDestination : TPDestination -> Destination;
  MapTPTimings : list TpTiming -> option (gmap string TPTiming) * option Error;
  MapTPRates : list TpRate -> gmap string TPRate * option Error;
  MapTPDestinationRates :
    list TpDestinationRate -> gmap string TPDestinationRate * option Error;
  MapTPRatingPlanBindings : list TpRatingPlan -> list (string * list TPRatingPlanBinding);
  MapTPRatingProfiles : list TpRatingProfile -> list TPRatingProfile * option Error;
  MapTPActionTimings : list TpActionPlan -> list (string * list TPActionTiming);
  MapTPAccountActions : list TpAccountAction -> list TPAccountActions * option Error;
  GetRateInterval : TPRatingPlanBinding -> DestinationRate -> RateInterval;
  AddRateInterval_body : RatingPlan -> string -> RateInterval -> RatingPlanBody;
  RatingPlanBody_zero : RatingPlanBody;
  TPRatingProfile_KeyId : TPRatingProfile -> string;
  TPAccountActions_KeyId : TPAccountActions -> string;
  ParseDate : string -> Time * option Error;
  FallbackSubjKeys : string -> string -> string -> string -> list string;
  Split_INFIELD_SEP : string -> list string;
  InitCounters : Account -> Account;
  APItoResourceLimit : TPResourceLimit -> string -> ResourceLimit * option Error;
}.

Context `{Helpers}.

(** Modelled from the spec: [RatingPlan.AddRateInterval(destinationId,
    interval)] as this file calls it is declared in another file; it
    "appends interval under destinationId's bucket" or extends the rates of
    an equal interval there, so the content of the plan changes and its id
    does not. *)
Definition AddRateInterval (plan : RatingPlan) (dId : string) (ri : RateInterval)
  : RatingPlan :=
  {| rp_Id := rp_Id plan; rp_body := AddRateInterval_body plan dId ri |}.

(** Modelled from the spec: [ActionTiming.IsASAP] is declared outside the
    file; an action-timing is immediate when its timing "resolves to the
    immediate-execution sentinel", the start time [*asap]. *)
Definition IsASAP (at_ : ActionTiming) : bool :=
  bool_decide (StartTime (Timing at_) = ASAP).

(** *** The two collaborators: data source and persistent store *)

(** [LoadReader]: the read accessors of the tabular source. Each returns
    the rows and an error, as the Go method does. *)
Record LoadReader := mkLoadReader {
  GetTPDestinations : string -> string -> list TPDestination * option Error;
  GetTPTimings : string -> string -> list TpTiming * option Error;
  GetTPRates : string -> string -> list TpRate * option Error;
  GetTPDestinationRates : string -> string -> list TpDestinationRate * option Error;
  GetTPRatingPlans : string -> string -> list TpRatingPlan * option Error;
  GetTPRatingProfiles : TPRatingProfile -> list TpRatingProfile * option Error;
  GetTPActionPlans : string -> string -> list TpActionPlan * option Error;
  GetTPAccountActions : TPAccountActions -> list TpAccountAction * option Error
}.

(** A call on the store ([DataDB]) or on the transaction helpers of package
    [cache], with its arguments; the text handed to [GetKeysForPrefix] is a
    key prefix followed by a key. *)
Inductive Call :=
| HasData (prefix : Prefix) (tag : string)
| GetKeysForPrefix (prefix : Prefix) (key : string)
| SetDestination (d : Destination) (transID : string)
| SetReverseDestination (d : Destination) (transID : string)
| SetRatingPlan (rp : RatingPlan) (transID : string)
| SetRatingProfile (rpf : RatingProfile) (transID : string)
| PushTask (t : Task)
| SetActionPlan (key : string) (ap : ActionPlan) (overwrite : bool) (transID : string)
| SetActionTriggers (key : string) (atrs : ActionTriggers) (transID : string)
| SetSharedGroup (sg : SharedGroup) (transID : string)
| SetLCR (lcr : LCR) (transID : string)
| SetActions (key : string) (acts : list Action) (transID : string)
| SetAccount (ub : Account)
| SetDerivedChargers (key : string) (dcs : DerivedChargers) (transID : string)
| SetCdrStats (sq : CdrStats)
| SetUser (u : UserProfile)
| SetAlias (al : Alias) (transID : string)
| SetResourceLimit (rl : ResourceLimit) (transID : string)
| RebuildReverseForPrefix (prefix : Prefix)
| NewReqFilterIndexer
| StoreIndexes (rls : list ResourceLimit)
| RollbackTransaction (transID : string)
| CommitTransaction (transID : string).

(** What a call answers: the error, and a boolean, which is what [HasData]
    found and, for [GetKeysForPrefix], whether any key came back (the
    reader looks at [len(keys) != 0] only). *)
Record Reply := mkReply {
  reply_err : option Error;
  reply_bool : bool
}.

(** [DataDB]: the store, as the function that answers a call in a state of
    the store and gives the next state. *)
Record DataDB := mkDataDB {
  db_exec : store_state -> Call -> store_state * Reply
}.

(** *** The reader *)

Record TpReader := mkTpReader {
  tpid : string;
  timezone : string;
  dataStorage : option DataDB;
  lr : LoadReader;
  actions : gmap string (list Action);
  actionPlans : gmap string ActionPlan;
  actionsTriggers : gmap string ActionTriggers;
  accountActions : gmap string Account;
  dirtyRpAliases : list TenantRatingSubject;
  dirtyAccAliases : list TenantAccount;
  destinations : gmap string Destination;
  timings : gmap string TPTiming;
  rates : gmap string TPRate;
  destinationRates : gmap string TPDestinationRate;
  ratingPlans : gmap string RatingPlan;
  ratingProfiles : gmap string RatingProfile;
  sharedGroups : gmap string SharedGroup;
  lcrs : gmap string LCR;
  derivedChargers : gmap string DerivedChargers;
  cdrStats : gmap string CdrStats;
  users : gmap string UserProfile;
  aliases : gmap string Alias;
  resLimits : gmap string TPResourceLimit;
  revDests : gmap string (list string);
  revAliases : gmap string (list string);
  acntActionPlans : gmap string (list string)
}.

(** Field updates of the reader. *)
Definition set_timings (t : TpReader) (m : gmap string TPTiming) : TpReader :=
  mkTpReader (tpid t) (timezone t) (dataStorage t) (lr t) (actions t) (actionPlans t)
    (actionsTriggers t) (accountActions t) (dirtyRpAliases t) (dirtyAccAliases t)
    (destinations t) m (rates t) (destinationRates t) (ratingPlans t)
    (ratingProfiles t) (sharedGroups t) (lcrs t) (derivedChargers t) (cdrStats t)
    (users t) (aliases t) (resLimits t) (revDests t) (revAliases t) (acntActionPlans t).

Definition set_destinationRates (t : TpReader) (m : gmap string TPDestinationRate)
  : TpReader :=
  mkTpReader (tpid t) (timezone t) (dataStorage t) (lr t) (actions t) (actionPlans t)
    (actionsTriggers t) (accountActions t) (dirtyRpAliases t) (dirtyAccAliases t)
    (destinations t) (timings t) (rates t) m (ratingPlans t)
    (ratingProfiles t) (sharedGroups t) (lcrs t) (derivedChargers t) (cdrStats t)
    (users t) (aliases t) (resLimits t) (revDests t) (revAliases t) (acntActionPlans t).

Definition set_ratingPlans (t : TpReader) (m : gmap string RatingPlan) : TpReader :=
  mkTpReader (tpid t) (timezone t) (dataStorage t) (lr t) (actions t) (actionPlans t)
    (actionsTriggers t) (accountActions t) (dirtyRpAliases t) (dirtyAccAliases t)
    (destinations t) (timings t) (rates t) (destinationRates t) m
    (ratingProfiles t) (sharedGroups t) (lcrs t) (derivedChargers t) (cdrStats t)
    (users t) (aliases t) (resLimits t) (revDests t) (revAliases t) (acntActionPlans t).

Definition set_ratingProfiles (t : TpReader) (m : gmap string RatingProfile) : TpReader :=
  mkTpReader (tpid t) (timezone t) (dataStorage t) (lr t) (actions t) (actionPlans t)
    (actionsTriggers t) (accountActions t) (dirtyRpAliases t) (dirtyAccAliases t)
    (destinations t) (timings t) (rates t) (destinationRates t) (ratingPlans t)
    m (sharedGroups t) (lcrs t) (derivedChargers t) (cdrStats t)
    (users t) (aliases t) (resLimits t) (revDests t) (revAliases t) (acntActionPlans t).

Definition set_actionPlans (t : TpReader) (m : gmap string ActionPlan) : TpReader :=
  mkTpReader (tpid t) (timezone t) (dataStorage t) (lr t) (actions t) m
    (actionsTriggers t) (accountActions t) (dirtyRpAliases t) (dirtyAccAliases t)
    (destinations t) (timings t) (rates t) (destinationRates t) (ratingPlans t)
    (ratingProfiles t) (sharedGroups t) (lcrs t) (derivedChargers t) (cdrStats t)
    (users t) (aliases t) (resLimits t) (revDests t) (revAliases t) (acntActionPlans t).

Definition set_accountActions (t : TpReader) (m : gmap string Account) : TpReader :=
  mkTpReader (tpid t) (timezone t) (dataStorage t) (lr t) (actions t) (actionPlans t)
    (actionsTriggers t) m (dirtyRpAliases t) (dirtyAccAliases t)
    (destinations t) (timings t) (rates t) (destinationRates t) (ratingPlans t)
    (ratingProfiles t) (sharedGroups t) (lcrs t) (derivedChargers t) (cdrStats t)
    (users t) (aliases t) (resLimits t) (revDests t) (revAliases t) (acntActionPlans t).

Definition set_acntActionPlans (t : TpReader) (m : gmap string (list string))
  : TpReader :=
  mkTpReader (tpid t) (timezone t) (dataStorage t) (lr t) (actions t) (actionPlans t)
    (actionsTriggers t) (accountActions t) (dirtyRpAliases t) (dirtyAccAliases t)
    (destinations t) (timings t) (rates t) (destinationRates t) (ratingPlans t)
    (ratingProfiles t) (sharedGroups t) (lcrs t) (derivedChargers t) (cdrStats t)
    (users t) (aliases t) (resLimits t) (revDests t) (revAliases t) m.

(** *** Running a method: state, early return, panic *)

(** What lies outside the reader: the store's state, the calls made so far
    with what each answered (latest last), and how many identifiers and
    [range] orders were drawn. *)
Record World := mkWorld {
  store : store_state;
  calls : list (Call * Reply);
  uuids : nat;
  ranges : nat
}.

Record State := mkState {
  reader : TpReader;
  world : World
}.

(** A statement either goes on with a value, leaves the method with its
    result ([return]), or panics. *)
Inductive Outcome (R A : Type) :=
| Next (a : A)
| Return (r : R)
| Panic.
Arguments Next {R A} a.
Arguments Return {R A} r.
Arguments Panic {R A}.

Definition M (R A : Type) : Type := State -> Outcome R A * State.

Definition ret {R A} (a : A) : M R A := fun s => (Next a, s).
Definition return_ {R A} (r : R) : M R A := fun s => (Return r, s).
Definition panic {R A} : M R A := fun s => (Panic, s).

Definition bind {R A B} (m : M R A) (k : A -> M R B) : M R B :=
  fun s =>
    match m s with
    | (Next a, s') => k a s'
    | (Return r, s') => (Return r, s')
    | (Panic, s') => (Panic, s')
    end.

#[export] Instance M_ret {R} : MRet (M R) := fun A => @ret R A.
#[export] Instance M_bind {R} : MBind (M R) := fun A B k m => @bind R A B m k.

Definition get_reader {R} : M R TpReader := fun s => (Next (reader s), s).

Definition modify_reader {R} (f : TpReader -> TpReader) : M R unit :=
  fun s => (Next tt, mkState (f (reader s)) (world s)).

(** [for _, x := range l { body }] over a slice. *)
Fixpoint for_each {R A} (l : list A) (body : A -> M R unit) : M R unit :=
  match l with
  | [] => ret tt
  | x :: rest => body x;; for_each rest body
  end.

(** A loop that carries a value from one turn to the next. *)
Fixpoint for_fold {R A B} (l : list A) (b : B) (body : B -> A -> M R B) : M R B :=
  match l with
  | [] => ret b
  | x :: rest => b' ← body b x; for_fold rest b' body
  end.

(** The entries of a map in the order this [range] visits them. *)
Definition range {R V} (m : gmap string V) : M R (list (string * V)) :=
  fun s =>
    let w := world s in
    (Next (range_at (ranges w) V m),
     mkState (reader s) (mkWorld (store w) (calls w) (uuids w) (S (ranges w)))).

(** [utils.GenUUID()] *)
Definition GenUUID {R} : M R string :=
  fun s =>
    let w := world s in
    (Next (uuid_at (uuids w)),
     mkState (reader s) (mkWorld (store w) (calls w) (S (uuids w)) (ranges w))).

(** A method call on [tpr.dataStorage]; on a nil store it panics. *)
Definition db_call {R} (c : Call) : M R Reply :=
  fun s =>
    match dataStorage (reader s) with
    | None => (Panic, s)
    | Some db =>
        let w := world s in
        let '(st', r) := db_exec db (store w) c in
        (Next r, mkState (reader s) (mkWorld st' (calls w ++ [(c, r)]) (uuids w) (ranges w)))
    end.

(** A call on package [cache]: recorded, nothing comes back. *)
Definition no_reply : Reply := {| reply_err := None; reply_bool := false |}.

Definition cache_call {R} (c : Call) : M R unit :=
  fun s =>
    let w := world s in
    (Next tt,
     mkState (reader s)
       (mkWorld (store w) (calls w ++ [(c, no_reply)]) (uuids w) (ranges w))).

(** Calling a method from another: its result, whichever way it left. *)
Definition invoke {R R'} (f : M R R) : M R' R :=
  fun s =>
    match f s with
    | (Next r, s') => (Next r, s')
    | (Return r, s') => (Next r, s')
    | (Panic, s') => (Panic, s')
    end.

(** A method run from a state: its result ([None] for a panic) and the
    state it leaves. *)
Definition run {R} (f : M R R) (s : State) : option R * State :=
  match f s with
  | (Next r, s') => (Some r, s')
  | (Return r, s') => (Some r, s')
  | (Panic, s') => (None, s')
  end.

(** *** Construction *)

(** [func (tpr *TpReader) Init()]: every map is made anew. *)
Definition Init (tpr : TpReader) : TpReader :=
  {| tpid := tpid tpr; timezone := timezone tpr;
     dataStorage := dataStorage tpr; lr := lr tpr;
     actions := ∅; actionPlans := ∅; actionsTriggers := ∅; accountActions := ∅;
     dirtyRpAliases := dirtyRpAliases tpr; dirtyAccAliases := dirtyAccAliases tpr;
     destinations := ∅; timings := ∅; rates := ∅; destinationRates := ∅;
     ratingPlans := ∅; ratingProfiles := ∅; sharedGroups := ∅; lcrs := ∅;
     derivedChargers := ∅; cdrStats := ∅; users := ∅; aliases := ∅;
     resLimits := ∅; revDests := ∅; revAliases := ∅; acntActionPlans := ∅ |}.

(** The timing the constructor and [LoadTimings] store under a sentinel
    tag: empty calendar sets, the given start time, no end time. *)
Definition sentinel_timing (id startTime : string) : TPTiming :=
  {| tm_ID := id; tm_Years := []; tm_Months := []; tm_MonthDays := [];
     tm_WeekDays := []; tm_StartTime := startTime; tm_EndTime := "" |}.

(** [func NewTpReader(db DataDB, lr LoadReader, tpid, timezone string) *TpReader].
    The struct literal leaves the maps nil; a nil map reads as the empty
    one, and [Init] replaces them all before anything is written. *)
Definition NewTpReader (db : option DataDB) (lr : LoadReader) (tpid timezone : string)
  : TpReader :=
  let tpr :=
    {| tpid := tpid; timezone := timezone; dataStorage := db; lr := lr;
       actions := ∅; actionPlans := ∅; actionsTriggers := ∅; accountActions := ∅;
       dirtyRpAliases := []; dirtyAccAliases := [];
       destinations := ∅; timings := ∅; rates := ∅; destinationRates := ∅;
       ratingPlans := ∅; ratingProfiles := ∅; sharedGroups := ∅; lcrs := ∅;
       derivedChargers := ∅; cdrStats := ∅; users := ∅; aliases := ∅;
       resLimits := ∅; revDests := ∅; revAliases := ∅; acntActionPlans := ∅ |} in
  let tpr := Init tpr in
  let tpr := set_timings tpr (<[ANY := sentinel_timing ANY "00:00:00"]> (timings tpr)) in
  let tpr := set_timings tpr (<[ASAP := sentinel_timing ASAP ASAP]> (timings tpr)) in
  let tpr := set_timings tpr
    (<[MetaEveryMinute := sentinel_timing MetaEveryMinute MetaEveryMinute]> (timings tpr)) in
  let tpr := set_timings tpr
    (<[MetaHourly := sentinel_timing MetaHourly MetaHourly]> (timings tpr)) in
  tpr.

(** *** Destinations and timings *)

(** [func (tpr *TpReader) LoadDestinationsFiltered(tag string) (bool, error)] *)
Definition LoadDestinationsFiltered (tag : string)
  : M (bool * option Error) (bool * option Error) :=
  tpr ← get_reader;
  let '(tpDests, err) := GetTPDestinations (lr tpr) (tpid tpr) tag in
  match err with
  | Some e => return_ (false, Some e)
  | None =>
      if bool_decide (length tpDests = 0) then return_ (false, None)
      else
        transID ← GenUUID;
        for_each tpDests (fun tpDst =>
          let dst := NewDestinationFromTPDestination tpDst in
          r ← db_call (SetDestination dst transID);
          match reply_err r with
          | Some _ => cache_call (RollbackTransaction transID)
          | None => ret tt
          end;;
          r ← db_call (SetReverseDestination dst transID);
          match reply_err r with
          | Some _ => cache_call (RollbackTransaction transID)
          | None => ret tt
          end);;
        cache_call (CommitTransaction transID);;
        return_ (true, None)
  end.

(** [func (tpr *TpReader) LoadTimings() (err error)]. When the mapper hands
    back a nil map, the assignment of the [*any] entry panics. *)
Definition LoadTimings : M (option Error) (option Error) :=
  tpr ← get_reader;
  let '(tps, err) := GetTPTimings (lr tpr) (tpid tpr) "" in
  match err with
  | Some e => return_ (Some e)
  | None =>
      let '(m, err) := MapTPTimings tps in
      match m with
      | None => modify_reader (fun t => set_timings t ∅);; panic
      | Some m =>
          modify_reader (fun t => set_timings t m);;
          modify_reader (fun t =>
            set_timings t (<[ANY := sentinel_timing ANY "00:00:00"]> (timings t)));;
          modify_reader (fun t =>
            set_timings t (<[ASAP := sentinel_timing ASAP ASAP]> (timings t)));;
          return_ err
      end
  end.

(** *** Destination rates, rating plans, rating profiles *)

Definition set_dr_Rate (dr : DestinationRate) (rate : option TPRate) : DestinationRate :=
  {| dr_DestinationId := dr_DestinationId dr; dr_RateId := dr_RateId dr;
     dr_Rate := rate |}.

(** [dr.Rate = rate] for the [j]-th line of the group stored under [key]:
    the lines are reached through pointers, so the stored group changes. *)
Definition store_dr_Rate (key : string) (j : nat) (rate : TPRate) (t : TpReader)
  : TpReader :=
  set_destinationRates t
    (alter (fun drs =>
              {| DestinationRatesId_ := DestinationRatesId_ drs;
                 DestinationRates :=
                   alter (fun dr => set_dr_Rate dr (Some rate)) j (DestinationRates drs) |})
       key (destinationRates t)).

(** [func (tpr *TpReader) LoadDestinationRates() (err error)] *)
Definition LoadDestinationRates : M (option Error) (option Error) :=
  tpr ← get_reader;
  let '(tps, err) := GetTPDestinationRates (lr tpr) (tpid tpr) "" in
  match err with
  | Some e => return_ (Some e)
  | None =>
      let '(m, err) := MapTPDestinationRates tps in
      modify_reader (fun t => set_destinationRates t m);;
      match err with
      | Some e => return_ (Some e)
      | None =>
          groups ← range m;
          for_each groups (fun '(key, drs) =>
            for_each (imap pair (DestinationRates drs)) (fun '(j, dr) =>
              tpr ← get_reader;
              match rates tpr !! dr_RateId dr with
              | None => return_ (Some ("could not find rate for tag " +:+ dr_RateId dr))
              | Some rate =>
                  modify_reader (store_dr_Rate key j rate);;
                  let destinationExists := bool_decide (dr_DestinationId dr = ANY) in
                  let destinationExists :=
                    if negb destinationExists
                    then bool_decide (is_Some (destinations tpr !! dr_DestinationId dr))
                    else destinationExists in
                  destinationExists ←
                    (if negb destinationExists && bool_decide (is_Some (dataStorage tpr))
                     then
                       r ← db_call (HasData DESTINATION_PREFIX (dr_DestinationId dr));
                       match reply_err r with
                       | Some e => return_ (Some e)
                       | None => ret (reply_bool r)
                       end
                     else ret destinationExists);
                  if negb destinationExists
                  then return_ (Some ("could not get destination for tag "
                                      +:+ dr_DestinationId dr))
                  else ret tt
              end));;
          return_ None
      end
  end.

Definition SetTiming (rp : TPRatingPlanBinding) (t : option TPTiming)
  : TPRatingPlanBinding :=
  {| DestinationRatesId := DestinationRatesId rp; TimingId := TimingId rp;
     rpb_Weight := rpb_Weight rp; timing := t |}.

(** [func (tpr *TpReader) LoadRatingPlans() (err error)] *)
Definition LoadRatingPlans : M (option Error) (option Error) :=
  tpr ← get_reader;
  let '(tps, err) := GetTPRatingPlans (lr tpr) (tpid tpr) "" in
  match err with
  | Some e => return_ (Some e)
  | None =>
      let bindings := MapTPRatingPlanBindings tps in
      for_each bindings (fun '(tag, rplBnds) =>
        for_each rplBnds (fun rplBnd =>
          tpr ← get_reader;
          match timings tpr !! TimingId rplBnd with
          | None => return_ (Some ("could not get timing for tag " +:+ TimingId rplBnd))
          | Some t =>
              let rplBnd := SetTiming rplBnd (Some t) in
              match destinationRates tpr !! DestinationRatesId rplBnd with
              | None => return_ (Some ("could not find destination rate for tag "
                                       +:+ DestinationRatesId rplBnd))
              | Some drs =>
                  match ratingPlans tpr !! tag with
                  | None =>
                      modify_reader (fun t =>
                        set_ratingPlans t
                          (<[tag := mkRatingPlan tag RatingPlanBody_zero]> (ratingPlans t)))
                  | Some _ => ret tt
                  end;;
                  for_each (DestinationRates drs) (fun dr =>
                    modify_reader (fun t =>
                      set_ratingPlans t
                        (alter (fun plan =>
                                  AddRateInterval plan (dr_DestinationId dr)
                                    (GetRateInterval rplBnd dr))
                           tag (ratingPlans t))))
              end
          end));;
      return_ None
  end.

(** [func (tpr *TpReader) LoadRatingProfiles() (err error)] *)
Definition LoadRatingProfiles : M (option Error) (option Error) :=
  tpr ← get_reader;
  let '(tps, err) :=
    GetTPRatingProfiles (lr tpr)
      {| rpf_TPid := tpid tpr; rpf_LoadId := ""; rpf_Direction := ""; rpf_Tenant := "";
         rpf_Category := ""; rpf_Subject := ""; rpf_RatingPlanActivations := [] |} in
  match err with
  | Some e => return_ (Some e)
  | None =>
      let '(mpTpRpfs, err) := MapTPRatingProfiles tps in
      match err with
      | Some e => return_ (Some e)
      | None =>
          for_each mpTpRpfs (fun tpRpf =>
            acts ← for_fold (rpf_RatingPlanActivations tpRpf) [] (fun acts tpRa =>
              let '(at_, err) := ParseDate (ra_ActivationTime tpRa) in
              match err with
              | Some _ => return_ (Some ("cannot parse activation time from "
                                         +:+ ra_ActivationTime tpRa))
              | None =>
                  tpr ← get_reader;
                  let exists_ := bool_decide (is_Some (ratingPlans tpr !! ra_RatingPlanId tpRa)) in
                  exists_ ←
                    (if negb exists_ && bool_decide (is_Some (dataStorage tpr))
                     then
                       r ← db_call (HasData RATING_PLAN_PREFIX (ra_RatingPlanId tpRa));
                       match reply_err r with
                       | Some e => return_ (Some e)
                       | None => ret (reply_bool r)
                       end
                     else ret exists_);
                  if negb exists_
                  then return_ (Some ("could not load rating plans for tag: "
                                      +:+ ra_RatingPlanId tpRa))
                  else ret (acts ++ [
                    {| ActivationTime := at_;
                       RatingPlanId := ra_RatingPlanId tpRa;
                       FallbackKeys :=
                         FallbackSubjKeys (rpf_Direction tpRpf) (rpf_Tenant tpRpf)
                           (rpf_Category tpRpf) (ra_FallbackSubjects tpRa);
                       CdrStatQueueIds := Split_INFIELD_SEP (ra_CdrStatQueueIds tpRa) |}])
              end);
            modify_reader (fun t =>
              set_ratingProfiles t
                (<[TPRatingProfile_KeyId tpRpf :=
                     {| rpr_Id := TPRatingProfile_KeyId tpRpf;
                        RatingPlanActivations := acts |}]> (ratingProfiles t))));;
          return_ None
      end
  end.

(** The innermost loop of [LoadRatingPlansFiltered], for one line [drate]
    of the destination-rate group of the binding [rp]: the rate is fetched,
    the interval added to the plan being built, and the destination looked
    for in the source, then in the store. *)
Definition load_destination_rate (tpr : TpReader) (rp : TPRatingPlanBinding)
    (ratingPlan : RatingPlan) (drate : DestinationRate)
  : M (bool * option Error) RatingPlan :=
  let '(tprt, err) := GetTPRates (lr tpr) (tpid tpr) (dr_RateId drate) in
  if bool_decide (is_Some err) || bool_decide (length tprt = 0)
  then return_ (false, Some ("no Rates profile with id " +:+ dr_RateId drate +:+ ": "
                             +:+ show_err err))
  else
    let '(rt, err) := MapTPRates tprt in
    match err with
    | Some e => return_ (false, Some e)
    | None =>
        let drate := set_dr_Rate drate (rt !! dr_RateId drate) in
        let ratingPlan :=
          AddRateInterval ratingPlan (dr_DestinationId drate) (GetRateInterval rp drate) in
        if bool_decide (dr_DestinationId drate = ANY)
        then ret ratingPlan
        else
          let '(tpDests, err) :=
            GetTPDestinations (lr tpr) (tpid tpr) (dr_DestinationId drate) in
          match err with
          | Some e => return_ (false, Some e)
          | None =>
              let dms := map NewDestinationFromTPDestination tpDests in
              let destsExist := negb (bool_decide (length dms = 0)) in
              if negb destsExist && bool_decide (is_Some (dataStorage tpr))
              then
                r ← db_call (HasData DESTINATION_PREFIX (dr_DestinationId drate));
                match reply_err r with
                | Some e => return_ (false, Some e)
                | None => ret ratingPlan
                end
              else if negb destsExist
              then return_ (false, Some ("could not get destination for tag "
                                         +:+ dr_DestinationId drate))
              else
                for_each dms (fun destination =>
                  db_call (SetDestination destination NonTransactional);;
                  db_call (SetReverseDestination destination NonTransactional);;
                  ret tt);;
                ret ratingPlan
          end
    end.

(** The loop over the bindings of one plan, for one binding [rp]: its
    timing and its destination-rate group are fetched from the source. *)
Definition load_binding (tpr : TpReader) (ratingPlan : RatingPlan)
    (rp : TPRatingPlanBinding) : M (bool * option Error) RatingPlan :=
  let '(tptm, err) := GetTPTimings (lr tpr) (tpid tpr) (TimingId rp) in
  if bool_decide (is_Some err) || bool_decide (length tptm = 0)
  then return_ (false, Some ("no timing with id " +:+ TimingId rp +:+ ": "
                             +:+ show_err err))
  else
    let '(tm, err) := MapTPTimings tptm in
    match err with
    | Some e => return_ (false, Some e)
    | None =>
        let rp := SetTiming rp (tm ≫= (fun tm => tm !! TimingId rp)) in
        let '(tpdrm, err) :=
          GetTPDestinationRates (lr tpr) (tpid tpr) (DestinationRatesId rp) in
        if bool_decide (is_Some err) || bool_decide (length tpdrm = 0)
        then return_ (false, Some ("no DestinationRates profile with id "
                                   +:+ DestinationRatesId rp +:+ ": "
                                   +:+ show_err err))
        else
          let '(drm, err) := MapTPDestinationRates tpdrm in
          match err with
          | Some e => return_ (false, Some e)
          | None =>
              match drm !! DestinationRatesId rp with
              | None => panic
              | Some drs =>
                  for_fold (DestinationRates drs) ratingPlan (load_destination_rate tpr rp)
              end
          end
    end.

(** The outer loop, for the bindings [rplBnds] of the plan [tag]: the plan
    is built from them and written to the store. *)
Definition load_rating_plan (tpr : TpReader)
    (binding : string * list TPRatingPlanBinding) : M (bool * option Error) unit :=
  let '(tag, rplBnds) := binding in
  let ratingPlan := mkRatingPlan tag RatingPlanBody_zero in
  ratingPlan ← for_fold rplBnds ratingPlan (load_binding tpr);
  r ← db_call (SetRatingPlan ratingPlan NonTransactional);
  match reply_err r with
  | Some e => return_ (false, Some e)
  | None => ret tt
  end.

(** [func (tpr *TpReader) LoadRatingPlansFiltered(tag string) (bool, error)] *)
Definition LoadRatingPlansFiltered (tag : string)
  : M (bool * option Error) (bool * option Error) :=
  tpr ← get_reader;
  let '(mpRpls, err) := GetTPRatingPlans (lr tpr) (tpid tpr) tag in
  match err with
  | Some e => return_ (false, Some e)
  | None =>
      if bool_decide (length mpRpls = 0) then return_ (false, None)
      else
        let bindings := MapTPRatingPlanBindings mpRpls in
        for_each bindings (load_rating_plan tpr);;
        return_ (true, None)
  end.

(** *** Action plans and account actions *)

(** [func (tpr *TpReader) LoadActionPlans() (err error)] *)
Definition LoadActionPlans : M (option Error) (option Error) :=
  tpr ← get_reader;
  let '(tps, err) := GetTPActionPlans (lr tpr) (tpid tpr) "" in
  match err with
  | Some e => return_ (Some e)
  | None =>
      let storAps := MapTPActionTimings tps in
      for_each storAps (fun '(atId, ats) =>
        for_each ats (fun at_ =>
          tpr ← get_reader;
          let exists_ := bool_decide (is_Some (actions tpr !! ActionsId at_)) in
          exists_ ←
            (if negb exists_ && bool_decide (is_Some (dataStorage tpr))
             then
               r ← db_call (HasData ACTION_PREFIX (ActionsId at_));
               match reply_err r with
               | Some e => return_ (Some ("[ActionPlans] Error querying actions: "
                                          +:+ ActionsId at_ +:+ " - " +:+ e))
               | None => ret (reply_bool r)
               end
             else ret exists_);
          if negb exists_
          then return_ (Some ("[ActionPlans] Could not load the action for tag: "
                              +:+ ActionsId at_))
          else
            match timings tpr !! tat_TimingId at_ with
            | None => return_ (Some ("[ActionPlans] Could not load the timing for tag: "
                                     +:+ tat_TimingId at_))
            | Some t =>
                let actPln :=
                  match actionPlans tpr !! atId with
                  | Some actPln => actPln
                  | None => {| ap_Id := atId; AccountIDs := ∅; ActionTimings := [] |}
                  end in
                uuid ← GenUUID;
                let actPln :=
                  {| ap_Id := ap_Id actPln; AccountIDs := AccountIDs actPln;
                     ActionTimings := ActionTimings actPln ++ [
                       {| Uuid := uuid;
                          Weight := tat_Weight at_;
                          Timing := mkRITiming (tm_Years t) (tm_Months t) (tm_MonthDays t)
                                      (tm_WeekDays t) (tm_StartTime t) "";
                          ActionsID := ActionsId at_ |}] |} in
                modify_reader (fun t =>
                  set_actionPlans t (<[atId := actPln]> (actionPlans t)))
            end));;
      return_ None
  end.

Definition bind_account (aaKeyID : string) (actionPlan : ActionPlan) : ActionPlan :=
  {| ap_Id := ap_Id actionPlan;
     AccountIDs := <[aaKeyID := true]> (AccountIDs actionPlan);
     ActionTimings := ActionTimings actionPlan |}.

(** The body of the loop of [LoadAccountActions], for one record. *)
Definition load_account_action (aa : TPAccountActions) : M (option Error) unit :=
  tpr ← get_reader;
  let aaKeyID := TPAccountActions_KeyId aa in
  match accountActions tpr !! TPAccountActions_KeyId aa with
  | Some _ => return_ (Some ("duplicate account action found: " +:+ aaKeyID))
  | None =>
      aTriggers ←
        (if negb (bool_decide (ActionTriggersId aa = ""))
         then
           match actionsTriggers tpr !! ActionTriggersId aa with
           | Some aTriggers => ret (Some aTriggers)
           | None => return_ (Some ("could not get action triggers for tag "
                                    +:+ ActionTriggersId aa))
           end
         else ret None);
      let ub :=
        {| ID := aaKeyID; acc_UnitCounters := None; acc_ActionTriggers := aTriggers;
           AllowNegative := aa_AllowNegative aa; Disabled := aa_Disabled aa |} in
      let ub := InitCounters ub in
      modify_reader (fun t => set_accountActions t (<[aaKeyID := ub]> (accountActions t)));;
      if negb (bool_decide (ActionPlanId aa = ""))
      then
        match actionPlans tpr !! ActionPlanId aa with
        | None => return_ (Some ("could not get action plan for tag " +:+ ActionPlanId aa))
        | Some actionPlan =>
            modify_reader (fun t =>
              set_actionPlans t
                (<[ActionPlanId aa := bind_account aaKeyID actionPlan]> (actionPlans t)));;
            modify_reader (fun t =>
              match acntActionPlans t !! aaKeyID with
              | None => set_acntActionPlans t (<[aaKeyID := []]> (acntActionPlans t))
              | Some _ => t
              end);;
            modify_reader (fun t =>
              set_acntActionPlans t
                (<[aaKeyID := default [] (acntActionPlans t !! aaKeyID) ++ [ActionPlanId aa]]>
                   (acntActionPlans t)))
        end
      else ret tt
  end.

(** [func (tpr *TpReader) LoadAccountActions() (err error)] *)
Definition LoadAccountActions : M (option Error) (option Error) :=
  tpr ← get_reader;
  let '(tps, err) :=
    GetTPAccountActions (lr tpr)
      {| aa_TPid := tpid tpr; aa_LoadId := ""; aa_Tenant := ""; aa_Account := "";
         ActionPlanId := ""; ActionTriggersId := "";
         aa_AllowNegative := false; aa_Disabled := false |} in
  match err with
  | Some e => return_ (Some e)
  | None =>
      let '(storAts, err) := MapTPAccountActions tps in
      match err with
      | Some e => return_ (Some e)
      | None =>
          for_each storAts load_account_action;;
          return_ None
      end
  end.

(** *** The whole load *)

(** The guard after each step of [LoadAll]:
    [err != nil && err.Error() != utils.NotFoundCaps]. *)
Definition halts (err : option Error) : bool :=
  match err with
  | Some e => negb (bool_decide (e = NotFoundCaps))
  | None => false
  end.

(** One line of [LoadAll]: run the step, leave with its error if the guard
    holds. *)
Definition load_step (step : M (option Error) (option Error)) : M (option Error) unit :=
  err ← invoke step;
  if halts err then return_ err else ret tt.

Section LoadAll.

(** The load-all methods of the file that are not embedded here. *)
Variables LoadDestinations LoadRates LoadSharedGroups LoadLCRs LoadActions
  LoadActionTriggers LoadDerivedChargers LoadCdrStats LoadUsers LoadAliases
  LoadResourceLimits : M (option Error) (option Error).

(** [func (tpr *TpReader) LoadAll() (err error)] *)
Definition LoadAll : M (option Error) (option Error) :=
  load_step LoadDestinations;;
  load_step LoadTimings;;
  load_step LoadRates;;
  load_step LoadDestinationRates;;
  load_step LoadRatingPlans;;
  load_step LoadRatingProfiles;;
  load_step LoadSharedGroups;;
  load_step LoadLCRs;;
  load_step LoadActions;;
  load_step LoadActionPlans;;
  load_step LoadActionTriggers;;
  load_step LoadAccountActions;;
  load_step LoadDerivedChargers;;
  load_step LoadCdrStats;;
  load_step LoadUsers;;
  load_step LoadAliases;;
  load_step LoadResourceLimits;;
  return_ None.

(** The steps in the order the specification lists them. *)
Definition load_order : list (M (option Error) (option Error)) :=
  [ LoadDestinations; LoadTimings; LoadRates; LoadDestinationRates; LoadRatingPlans;
    LoadRatingProfiles; LoadSharedGroups; LoadLCRs; LoadActions; LoadActionPlans;
    LoadActionTriggers; LoadAccountActions; LoadDerivedChargers; LoadCdrStats;
    LoadUsers; LoadAliases; LoadResourceLimits ].

End LoadAll.

(** The loop [LoadAll] unrolls, over a list of steps. *)
Fixpoint run_steps (steps : list (M (option Error) (option Error)))
  : M (option Error) (option Error) :=
  match steps with
  | [] => return_ None
  | step :: rest => load_step step;; run_steps rest
  end.

(** A run of steps that all come back with no error or with the "not
    found" sentinel, from one state to another. *)
Inductive passes : list (M (option Error) (option Error)) -> State -> State -> Prop :=
| passes_nil s : passes [] s s
| passes_cons step rest s s1 s2 err :
    run step s = (Some err, s1) ->
    halts err = false ->
    passes rest s1 s2 ->
    passes (step :: rest) s s2.

(** The state a passing run of the steps ends in, computed; [None] when a
    step halts the run or panics. *)
Fixpoint pass_through (steps : list (M (option Error) (option Error))) (s : State)
  : option State :=
  match steps with
  | [] => Some s
  | step :: rest =>
      match run step s with
      | (Some err, s1) => if halts err then None else pass_through rest s1
      | (None, _) => None
      end
  end.

(** *** Writing the graph to the store *)

(** A store write whose error ends the method. *)
Definition db_write (c : Call) : M (option Error) unit :=
  r ← db_call c;
  match reply_err r with
  | Some e => return_ (Some e)
  | None => ret tt
  end.

(** The tasks of one action-timing of a plan: the account ids to push, or
    the one unbound task. *)
Definition push_tasks (ap : ActionPlan) (at_ : ActionTiming) : M (option Error) unit :=
  if IsASAP at_
  then
    accs ← range (AccountIDs ap);
    for_each accs (fun '(accID, _) =>
      uuid ← GenUUID;
      db_write (PushTask {| task_Uuid := uuid; AccountID := accID;
                            task_ActionsID := ActionsID at_ |}));;
    if bool_decide (size (AccountIDs ap) = 0)
    then
      uuid ← GenUUID;
      db_write (PushTask {| task_Uuid := uuid; AccountID := "";
                            task_ActionsID := ActionsID at_ |})
    else ret tt
  else ret tt.

(** [func (tpr *TpReader) WriteToDatabase(flush, verbose, disable_reverse bool) (err error)].
    What [verbose] prints is left out. *)
Definition WriteToDatabase (flush verbose disable_reverse : bool)
  : M (option Error) (option Error) :=
  tpr ← get_reader;
  match dataStorage tpr with
  | None => return_ (Some "no database connection")
  | Some _ =>
      l ← range (destinations tpr);
      for_each l (fun '(_, d) => db_write (SetDestination d NonTransactional));;
      l ← range (ratingPlans tpr);
      for_each l (fun '(_, rp) => db_write (SetRatingPlan rp NonTransactional));;
      l ← range (ratingProfiles tpr);
      for_each l (fun '(_, rp) => db_write (SetRatingProfile rp NonTransactional));;
      l ← range (actionPlans tpr);
      for_each l (fun '(k, ap) =>
        for_each (ActionTimings ap) (push_tasks ap);;
        db_write (SetActionPlan k ap false NonTransactional));;
      l ← range (actionsTriggers tpr);
      for_each l (fun '(k, atrs) => db_write (SetActionTriggers k atrs NonTransactional));;
      l ← range (sharedGroups tpr);
      for_each l (fun '(_, sg) => db_write (SetSharedGroup sg NonTransactional));;
      l ← range (lcrs tpr);
      for_each l (fun '(_, lcr) => db_write (SetLCR lcr NonTransactional));;
      l ← range (actions tpr);
      for_each l (fun '(k, as_) => db_write (SetActions k as_ NonTransactional));;
      l ← range (accountActions tpr);
      for_each l (fun '(_, ub) => db_write (SetAccount ub));;
      l ← range (derivedChargers tpr);
      for_each l (fun '(key, dcs) => db_write (SetDerivedChargers key dcs NonTransactional));;
      l ← range (cdrStats tpr);
      for_each l (fun '(_, sq) => db_write (SetCdrStats sq));;
      l ← range (users tpr);
      for_each l (fun '(_, u) => db_write (SetUser u));;
      l ← range (aliases tpr);
      for_each l (fun '(_, al) => db_write (SetAlias al NonTransactional));;
      l ← range (resLimits tpr);
      for_each l (fun '(_, tpRL) =>
        let '(rl, err) := APItoResourceLimit tpRL (timezone tpr) in
        match err with
        | Some e => return_ (Some e)
        | None => db_write (SetResourceLimit rl NonTransactional)
        end);;
      (if negb disable_reverse
       then
         (if negb (bool_decide (size (destinations tpr) = 0))
          then db_write (RebuildReverseForPrefix REVERSE_DESTINATION_PREFIX)
          else ret tt);;
         (if negb (bool_decide (size (acntActionPlans tpr) = 0))
          then db_write (RebuildReverseForPrefix AccountActionPlansPrefix)
          else ret tt);;
         (if negb (bool_decide (size (aliases tpr) = 0))
          then db_write (RebuildReverseForPrefix REVERSE_ALIASES_PREFIX)
          else ret tt);;
         (if negb (bool_decide (size (resLimits tpr) = 0))
          then
            db_write NewReqFilterIndexer;;
            l ← range (resLimits tpr);
            rls ← for_fold l [] (fun rls '(_, tpRL) =>
              let '(rl, err) := APItoResourceLimit tpRL (timezone tpr) in
              match err with
              | Some e => return_ (Some e)
              | None => ret (rls ++ [rl])
              end);
            db_write (StoreIndexes rls)
          else ret tt)
       else ret tt);;
      return_ None
  end.

(** The calls made between two states. *)
Definition calls_between (s s' : State) (new : list (Call * Reply)) : Prop :=
  calls (world s') = calls (world s) ++ new.

(** The tasks pushed among the calls made on the store: the [PushTask]
    calls that answered without error, as account id and actions id, in the
    order pushed. *)
Definition pushed (cs : list (Call * Reply)) : list (string * string) :=
  omap (fun c => match c with
                 | (PushTask t, {| reply_err := None |}) =>
                     Some (AccountID t, task_ActionsID t)
                 | _ => None
                 end) cs.

(** The action-timings of the plans, each with its plan, in the order the
    plans are visited. *)
Definition plan_timings (plans : list (string * ActionPlan))
  : list (ActionPlan * ActionTiming) :=
  flat_map (fun p => map (pair p.2) (ActionTimings p.2)) plans.

(** The tasks of one action-timing of a plan, as the claim has them:
    none when the timing is not immediate; one with no account id when the
    plan binds no account; else one per bound account, in some order. *)
Definition tasks_ok (item : ActionPlan * ActionTiming) (block : list (string * string))
  : Prop :=
  let '(ap, at_) := item in
  if IsASAP at_
  then if bool_decide (size (AccountIDs ap) = 0)
       then block = [("", ActionsID at_)]
       else block ≡ₚ map (fun acc => (acc.1, ActionsID at_)) (map_to_list (AccountIDs ap))
  else block = [].

(** Every call among [cs] answered without error. *)
Definition all_answered (cs : list (Call * Reply)) : Prop :=
  Forall (fun cr => reply_err cr.2 = None) cs.

(** The resource limits of the reader all convert. *)
Definition limits_ok (t : TpReader) : Prop :=
  forall k tpRL, resLimits t !! k = Some tpRL ->
    (APItoResourceLimit tpRL (timezone t)).2 = None.

(** The state [s1] of a run begun in [s0] that has left the reader as it
    was and pushed the tasks [P], every call having answered without
    error. *)
Definition at_stage (s0 : State) (P : list (string * string)) (s1 : State) : Prop :=
  reader s1 = reader s0 /\
  exists new, calls_between s0 s1 new /\ pushed new = P /\ all_answered new.

(** Since [s0] the reader has had the store [db] attached, and every call
    made answered without error. *)
Definition answered (s0 : State) (db : DataDB) (s1 : State) : Prop :=
  dataStorage (reader s1) = Some db /\
  exists new, calls_between s0 s1 new /\ all_answered new.

(** The state [s1] in which a run begun in [s0] has come to a halt, the
    reader as it was and the tasks [P] pushed; [late] holds if every call
    answered without error. *)
Definition halted (s0 : State) (P : list (string * string)) (late : Prop) (s1 : State)
  : Prop :=
  reader s1 = reader s0 /\
  exists new, calls_between s0 s1 new /\ pushed new = P /\ (all_answered new -> late).

(** What one destination adds to the record of calls in
    [LoadDestinationsFiltered]: the two writes under the transaction id, each
    followed by a rollback of that id when it answered with an error. *)
Definition rollback_if (transID : string) (r : Reply) : list (Call * Reply) :=
  match reply_err r with
  | Some _ => [(RollbackTransaction transID, no_reply)]
  | None => []
  end.

Definition dest_block (transID : string) (tpDst : TPDestination) (rs : Reply * Reply)
  : list (Call * Reply) :=
  let dst := NewDestinationFromTPDestination tpDst in
  [(SetDestination dst transID, rs.1)] ++ rollback_if transID rs.1 ++
  [(SetReverseDestination dst transID, rs.2)] ++ rollback_if transID rs.2.



(** The rating plans written to the store among the calls, by id, in the
    order written. *)
Definition rating_plan_writes (cs : list (Call * Reply)) : list string :=
  omap (fun cr => match cr.1 with
                  | SetRatingPlan rp _ => Some (rp_Id rp)
                  | _ => None
                  end) cs.

(** Between [s1] and [s2] the reader did not change and no rating plan was
    written. *)
Definition no_plan_written (s1 s2 : State) : Prop :=
  reader s2 = reader s1 /\
  rating_plan_writes (calls (world s2)) = rating_plan_writes (calls (world s1)).

(** What a loop that is to push the tasks of [items], begun when [P] was
    pushed, has reached: when it goes on, a block of tasks for each item;
    when it returns (with an error), a part of such blocks, a call having
    answered with an error. *)
Definition next_post (s0 : State) (P : list (string * string))
    (items : list (ActionPlan * ActionTiming)) (s2 : State) : Prop :=
  exists blocks, Forall2 tasks_ok items blocks /\ at_stage s0 (P ++ concat blocks) s2.

Definition err_post (s0 : State) (P : list (string * string))
    (items : list (ActionPlan * ActionTiming)) (r : option Error) (s2 : State) : Prop :=
  is_Some r /\
  exists blocks partial,
    Forall2 tasks_ok items blocks /\ partial `prefix_of` concat blocks /\
    halted s0 (P ++ partial) False s2.

(** The records [LoadAccountActions] walks: the rows of the source for this
    tariff plan, mapped. *)
Definition account_action_records (t : TpReader) : list TPAccountActions :=
  (MapTPAccountActions
     (GetTPAccountActions (lr t)
        {| aa_TPid := tpid t; aa_LoadId := ""; aa_Tenant := ""; aa_Account := "";
           ActionPlanId := ""; ActionTriggersId := "";
           aa_AllowNegative := false; aa_Disabled := false |}).1).1.

(** The account [LoadAccountActions] stores for a record: the struct
    literal, after [InitCounters]. *)
Definition account_of (t : TpReader) (aa : TPAccountActions) : Account :=
  InitCounters
    {| ID := TPAccountActions_KeyId aa; acc_UnitCounters := None;
       acc_ActionTriggers :=
         if bool_decide (ActionTriggersId aa = "") then None
         else actionsTriggers t !! ActionTriggersId aa;
       AllowNegative := aa_AllowNegative aa; Disabled := aa_Disabled aa |}.

(** The tags a record names resolve in the reader's maps. *)
Definition resolves (t : TpReader) (aa : TPAccountActions) : Prop :=
  (ActionTriggersId aa = "" \/ is_Some (actionsTriggers t !! ActionTriggersId aa)) /\
  (ActionPlanId aa = "" \/ is_Some (actionPlans t !! ActionPlanId aa)).


(** *** Reasoning about a run

    [triple m s Qn Qr Qp]: run from [s], the statement [m] ends in a state
    that satisfies [Qn] with its value when it goes on, [Qr] with the result
    when it returns, [Qp] when it panics. *)
Definition triple {R A} (m : M R A) (s : State)
    (Qn : A -> State -> Prop) (Qr : R -> State -> Prop) (Qp : State -> Prop) : Prop :=
  match m s with
  | (Next a, s') => Qn a s'
  | (Return r, s') => Qr r s'
  | (Panic, s') => Qp s'
  end.


(** *** Further methods of the reader *)

(** The categories [GetLoadedIds] knows: the key prefixes of package
    [utils] met above, and nine more. *)
Inductive Category :=
| Cat (p : Prefix)
| ACTION_PLAN_PREFIX
| DERIVEDCHARGERS_PREFIX
| CDR_STATS_PREFIX
| SHARED_GROUP_PREFIX
| USERS_PREFIX
| ALIASES_PREFIX
| ResourceLimitsPrefix
| ACTION_TRIGGER_PREFIX
| LCR_PREFIX.

(** What the methods below read of records declared outside the file
    (fields, methods without effect), the further read accessors of the
    source, the text of a category's constant, how [%v] prints a
    rating-profile filter, and the user profile a struct literal makes. *)
Class Accessors := {
  TPDestination_ID : TPDestination -> string;
  Prefixes : Destination -> list string;
  TPResourceLimit_ID : TPResourceLimit -> string;
  isContinous : RatingPlan -> bool;
  getFirstUnsaneRating : RatingPlan -> string;
  getFirstUnsaneTiming : RatingPlan -> string;
  (* [len(rpl.DestinationRates)] *)
  DestinationRates_len : RatingPlan -> nat;
  GetTPResourceLimits : LoadReader -> string -> string -> list TPResourceLimit * option Error;
  category_key : Category -> string;
  show_TPRatingProfile : TPRatingProfile -> string;
  (* [utils.TPUsers], as a filter and as a row, and what is read of a row:
     tenant, user name, and the attributes as name and value *)
  TPUsers : Type;
  TPUsers_Tenant : TPUsers -> string;
  TPUsers_UserName : TPUsers -> string;
  TPUsers_Profile : TPUsers -> list (string * string);
  GetTPUsers : LoadReader -> TPUsers -> list TPUsers * option Error;
  (* [&UserProfile{Tenant: .., UserName: .., Profile: ..}] *)
  NewUserProfile : string -> string -> gmap string string -> UserProfile
}.

Context `{Accessors}.

Definition set_destinations (t : TpReader) (m : gmap string Destination) : TpReader :=
  mkTpReader (tpid t) (timezone t) (dataStorage t) (lr t) (actions t) (actionPlans t)
    (actionsTriggers t) (accountActions t) (dirtyRpAliases t) (dirtyAccAliases t)
    m (timings t) (rates t) (destinationRates t) (ratingPlans t)
    (ratingProfiles t) (sharedGroups t) (lcrs t) (derivedChargers t) (cdrStats t)
    (users t) (aliases t) (resLimits t) (revDests t) (revAliases t) (acntActionPlans t).

Definition set_rates (t : TpReader) (m : gmap string TPRate) : TpReader :=
  mkTpReader (tpid t) (timezone t) (dataStorage t) (lr t) (actions t) (actionPlans t)
    (actionsTriggers t) (accountActions t) (dirtyRpAliases t) (dirtyAccAliases t)
    (destinations t) (timings t) m (destinationRates t) (ratingPlans t)
    (ratingProfiles t) (sharedGroups t) (lcrs t) (derivedChargers t) (cdrStats t)
    (users t) (aliases t) (resLimits t) (revDests t) (revAliases t) (acntActionPlans t).

Definition set_resLimits (t : TpReader) (m : gmap string TPResourceLimit) : TpReader :=
  mkTpReader (tpid t) (timezone t) (dataStorage t) (lr t) (actions t) (actionPlans t)
    (actionsTriggers t) (accountActions t) (dirtyRpAliases t) (dirtyAccAliases t)
    (destinations t) (timings t) (rates t) (destinationRates t) (ratingPlans t)
    (ratingProfiles t) (sharedGroups t) (lcrs t) (derivedChargers t) (cdrStats t)
    (users t) (aliases t) m (revDests t) (revAliases t) (acntActionPlans t).

Definition set_revDests (t : TpReader) (m : gmap string (list string)) : TpReader :=
  mkTpReader (tpid t) (timezone t) (dataStorage t) (lr t) (actions t) (actionPlans t)
    (actionsTriggers t) (accountActions t) (dirtyRpAliases t) (dirtyAccAliases t)
    (destinations t) (timings t) (rates t) (destinationRates t) (ratingPlans t)
    (ratingProfiles t) (sharedGroups t) (lcrs t) (derivedChargers t) (cdrStats t)
    (users t) (aliases t) (resLimits t) m (revAliases t) (acntActionPlans t).

(** The inner loop of [LoadDestinations], for one prefix of the destination
    [id]: the reverse index gets an entry for the prefix if it has none, and
    the id is appended to it. *)
Definition index_prefix (id prfx : string) : M (option Error) unit :=
  modify_reader (fun t =>
    match revDests t !! prfx with
    | None => set_revDests t (<[prfx := []]> (revDests t))
    | Some _ => t
    end);;
  modify_reader (fun t =>
    set_revDests t (<[prfx := default [] (revDests t !! prfx) ++ [id]]> (revDests t))).

(** The body of the loop of [LoadDestinations], for one row: the prefixes
    are read off the destination just stored, through the map. *)
Definition load_destination (tpDst : TPDestination) : M (option Error) unit :=
  modify_reader (fun t =>
    set_destinations t
      (<[TPDestination_ID tpDst := NewDestinationFromTPDestination tpDst]>
         (destinations t)));;
  tpr ← get_reader;
  match destinations tpr !! TPDestination_ID tpDst with
  | None => panic
  | Some d => for_each (Prefixes d) (index_prefix (TPDestination_ID tpDst))
  end.

(** [func (tpr *TpReader) LoadDestinations() (err error)] *)
Definition LoadDestinations : M (option Error) (option Error) :=
  tpr ← get_reader;
  let '(tps, err) := GetTPDestinations (lr tpr) (tpid tpr) "" in
  match err with
  | Some e => return_ (Some e)
  | None =>
      for_each tps load_destination;;
      return_ None
  end.

(** [func (tpr *TpReader) LoadRates() (err error)] *)
Definition LoadRates : M (option Error) (option Error) :=
  tpr ← get_reader;
  let '(tps, err) := GetTPRates (lr tpr) (tpid tpr) "" in
  match err with
  | Some e => return_ (Some e)
  | None =>
      let '(m, err) := MapTPRates tps in
      modify_reader (fun t => set_rates t m);;
      return_ err
  end.

(** [func (tpr *TpReader) LoadRatingProfilesFiltered(qriedRpf *utils.TPRatingProfile) error] *)
Definition LoadRatingProfilesFiltered (qriedRpf : TPRatingProfile)
  : M (option Error) (option Error) :=
  tpr ← get_reader;
  let '(mpTpRpfs, err) := GetTPRatingProfiles (lr tpr) qriedRpf in
  match err with
  | Some e => return_ (Some ("no RateProfile for filter " +:+ show_TPRatingProfile qriedRpf
                             +:+ ", error: " +:+ e))
  | None =>
      let '(rpfs, err) := MapTPRatingProfiles mpTpRpfs in
      match err with
      | Some e => return_ (Some e)
      | None =>
          for_each rpfs (fun tpRpf =>
            acts ← for_fold (rpf_RatingPlanActivations tpRpf) [] (fun acts tpRa =>
              let '(at_, err) := ParseDate (ra_ActivationTime tpRa) in
              match err with
              | Some _ => return_ (Some ("cannot parse activation time from "
                                         +:+ ra_ActivationTime tpRa))
              | None =>
                  tpr ← get_reader;
                  let exists_ := bool_decide (is_Some (ratingPlans tpr !! ra_RatingPlanId tpRa)) in
                  exists_ ←
                    (if negb exists_ && bool_decide (is_Some (dataStorage tpr))
                     then
                       r ← db_call (HasData RATING_PLAN_PREFIX (ra_RatingPlanId tpRa));
                       match reply_err r with
                       | Some e => return_ (Some e)
                       | None => ret (reply_bool r)
                       end
                     else ret exists_);
                  if negb exists_
                  then return_ (Some ("could not load rating plans for tag: "
                                      +:+ ra_RatingPlanId tpRa))
                  else ret (acts ++ [
                    {| ActivationTime := at_;
                       RatingPlanId := ra_RatingPlanId tpRa;
                       FallbackKeys :=
                         FallbackSubjKeys (rpf_Direction tpRpf) (rpf_Tenant tpRpf)
                           (rpf_Category tpRpf) (ra_FallbackSubjects tpRa);
                       CdrStatQueueIds := Split_INFIELD_SEP (ra_CdrStatQueueIds tpRa) |}])
              end);
            db_write (SetRatingProfile
                        {| rpr_Id := TPRatingProfile_KeyId tpRpf;
                           RatingPlanActivations := acts |} NonTransactional));;
          return_ None
      end
  end.

(** [func (tpr *TpReader) LoadResourceLimitsFiltered(tag string) error] *)
Definition LoadResourceLimitsFiltered (tag : string) : M (option Error) (option Error) :=
  tpr ← get_reader;
  let '(rls, err) := GetTPResourceLimits (lr tpr) (tpid tpr) tag in
  match err with
  | Some e => return_ (Some e)
  | None =>
      mapRLs ← for_fold rls ∅ (fun mapRLs rl => ret (<[TPResourceLimit_ID rl := rl]> mapRLs));
      modify_reader (fun t => set_resLimits t mapRLs);;
      return_ None
  end.

(** [func (tpr *TpReader) LoadResourceLimits() error] *)
Definition LoadResourceLimits : M (option Error) (option Error) :=
  err ← invoke (LoadResourceLimitsFiltered "");
  return_ err.

(** [func (tpr *TpReader) IsValid() bool]. What it logs is left out. *)
Definition IsValid : M bool bool :=
  tpr ← get_reader;
  l ← range (ratingPlans tpr);
  valid ← for_fold l true (fun valid '(rplTag, rpl) =>
    let valid := if negb (isContinous rpl) then false else valid in
    let valid :=
      if negb (bool_decide (getFirstUnsaneRating rpl = "")) then false else valid in
    let valid :=
      if negb (bool_decide (getFirstUnsaneTiming rpl = "")) then false else valid in
    ret valid);
  return_ valid.

(** One case of [GetLoadedIds]:
    [keys := make([]string, len(m)); i := 0; for k := range m { keys[i] = k; i++ }].
    An index out of range panics. *)
Definition loaded_keys {R V} (m : gmap string V) : M R (list string) :=
  l ← range m;
  st ← for_fold l (replicate (size m) "", 0) (fun st kv =>
    if bool_decide (st.2 < length st.1)
    then ret (<[st.2 := kv.1]> st.1, S st.2)
    else panic);
  ret st.1.

(** The cases of the switch of [GetLoadedIds], in the order written. *)
Definition switch_cases : list Category :=
  [ Cat DESTINATION_PREFIX; Cat REVERSE_DESTINATION_PREFIX; Cat RATING_PLAN_PREFIX;
    Cat RATING_PROFILE_PREFIX; Cat ACTION_PREFIX; ACTION_PLAN_PREFIX;
    Cat AccountActionPlansPrefix; DERIVEDCHARGERS_PREFIX; CDR_STATS_PREFIX;
    SHARED_GROUP_PREFIX; USERS_PREFIX; ALIASES_PREFIX; Cat REVERSE_ALIASES_PREFIX;
    ResourceLimitsPrefix; ACTION_TRIGGER_PREFIX; LCR_PREFIX ].

(** The body of a case. *)
Definition case_keys {R} (tpr : TpReader) (c : Category) : M R (list string) :=
  match c with
  | Cat DESTINATION_PREFIX => loaded_keys (destinations tpr)
  | Cat REVERSE_DESTINATION_PREFIX => loaded_keys (revDests tpr)
  | Cat RATING_PLAN_PREFIX => loaded_keys (ratingPlans tpr)
  | Cat RATING_PROFILE_PREFIX => loaded_keys (ratingProfiles tpr)
  | Cat ACTION_PREFIX => loaded_keys (actions tpr)
  | ACTION_PLAN_PREFIX => loaded_keys (actionPlans tpr)
  | Cat AccountActionPlansPrefix => loaded_keys (acntActionPlans tpr)
  | DERIVEDCHARGERS_PREFIX => loaded_keys (derivedChargers tpr)
  | CDR_STATS_PREFIX => loaded_keys (cdrStats tpr)
  | SHARED_GROUP_PREFIX => loaded_keys (sharedGroups tpr)
  | USERS_PREFIX => loaded_keys (users tpr)
  | ALIASES_PREFIX => loaded_keys (aliases tpr)
  | Cat REVERSE_ALIASES_PREFIX => loaded_keys (revAliases tpr)
  | ResourceLimitsPrefix => loaded_keys (resLimits tpr)
  | ACTION_TRIGGER_PREFIX => loaded_keys (actionsTriggers tpr)
  | LCR_PREFIX => loaded_keys (lcrs tpr)
  end.

(** [func (tpr *TpReader) GetLoadedIds(categ string) ([]string, error)]: the
    first case whose constant is [categ] is taken. *)
Definition GetLoadedIds (categ : string)
  : M (list string * option Error) (list string * option Error) :=
  tpr ← get_reader;
  match List.find (fun c => bool_decide (categ = category_key c)) switch_cases with
  | Some c =>
      keys ← case_keys tpr c;
      return_ (keys, None)
  | None => return_ ([], Some "Unsupported load category")
  end.

(** The ids the reader holds for a category: the keys of its map. *)
Definition loaded_ids (tpr : TpReader) (c : Category) : gset string :=
  match c with
  | Cat DESTINATION_PREFIX => dom (destinations tpr)
  | Cat REVERSE_DESTINATION_PREFIX => dom (revDests tpr)
  | Cat RATING_PLAN_PREFIX => dom (ratingPlans tpr)
  | Cat RATING_PROFILE_PREFIX => dom (ratingProfiles tpr)
  | Cat ACTION_PREFIX => dom (actions tpr)
  | ACTION_PLAN_PREFIX => dom (actionPlans tpr)
  | Cat AccountActionPlansPrefix => dom (acntActionPlans tpr)
  | DERIVEDCHARGERS_PREFIX => dom (derivedChargers tpr)
  | CDR_STATS_PREFIX => dom (cdrStats tpr)
  | SHARED_GROUP_PREFIX => dom (sharedGroups tpr)
  | USERS_PREFIX => dom (users tpr)
  | ALIASES_PREFIX => dom (aliases tpr)
  | Cat REVERSE_ALIASES_PREFIX => dom (revAliases tpr)
  | ResourceLimitsPrefix => dom (resLimits tpr)
  | ACTION_TRIGGER_PREFIX => dom (actionsTriggers tpr)
  | LCR_PREFIX => dom (lcrs tpr)
  end.

(** A rating plan passes the three checks of [IsValid]. *)
Definition sane (rpl : RatingPlan) : Prop :=
  isContinous rpl = true /\ getFirstUnsaneRating rpl = "" /\ getFirstUnsaneTiming rpl = "".

(** The rating profiles written to the store among the calls, by id, in
    the order written. *)
Definition rating_profile_writes (cs : list (Call * Reply)) : list string :=
  omap (fun cr => match cr.1 with
                  | SetRatingProfile rpf _ => Some (rpr_Id rpf)
                  | _ => None
                  end) cs.

(** The ids the rows [tps] list under the prefix [prfx]: row after row, the
    row's id as often as the row's destination names the prefix. *)
Definition listed_under (prfx : string) (tps : list TPDestination) : list string :=
  flat_map (fun tp =>
              (fun _ => TPDestination_ID tp) <$>
                filter (fun p => p = prfx) (Prefixes (NewDestinationFromTPDestination tp)))
    tps.

(** What indexing the prefixes [ps] under [id], one after the other, makes
    of a reverse index [m]. *)
Definition indexed (id : string) (m : gmap string (list string)) (ps : list string)
  : gmap string (list string) :=
  foldl (fun m p => <[p := default [] (m !! p) ++ [id]]> m) m ps.

(** What a statement leaves alone: the reader, the store, the calls made
    and the identifiers drawn. *)
Definition untouched (s s' : State) : Prop :=
  reader s' = reader s /\ calls (world s') = calls (world s) /\
  store (world s') = store (world s) /\ uuids (world s') = uuids (world s).

(** From [s0] to [s1] the reader stayed as it was and every call made
    answered without error. *)
Definition clean (s0 s1 : State) : Prop :=
  reader s1 = reader s0 /\
  exists new, calls_between s0 s1 new /\ all_answered new.

(** A method begun in [s0] ended in [s1] with the result [r], the reader
    as it was; a nil result came after calls that all answered without
    error, and a call that answered with an error was the last call made,
    its error the result. *)
Definition stopped (s0 : State) (r : option Error) (s1 : State) : Prop :=
  reader s1 = reader s0 /\
  exists new, calls_between s0 s1 new /\
    (r = None -> all_answered new) /\
    (forall pre cr post e,
       new = pre ++ cr :: post -> reply_err cr.2 = Some e -> post = [] /\ r = Some e).

(** A line of a destination-rate group is resolved: it carries the rate
    that the reader [t] holds under the line's rate id, and its destination
    is [*any], is a destination of [t], or is one the store vouched for in
    one of the calls [cs]. *)
Definition line_resolved (t : TpReader) (cs : list (Call * Reply)) (dr : DestinationRate)
  : Prop :=
  (exists rate, dr_Rate dr = Some rate /\ rates t !! dr_RateId dr = Some rate) /\
  (dr_DestinationId dr = ANY \/
   is_Some (destinations t !! dr_DestinationId dr) \/
   exists r, (HasData DESTINATION_PREFIX (dr_DestinationId dr), r) ∈ cs /\
             reply_err r = None /\ reply_bool r = true).

(** The ids a line carries. *)
Definition line_ids (dr : DestinationRate) : string * string :=
  (dr_DestinationId dr, dr_RateId dr).

(** The rating profile the loaders make of a mapped row: its key as id,
    and an activation for each activation of the row. *)
Definition profile_of (tpRpf : TPRatingProfile) : RatingProfile :=
  {| rpr_Id := TPRatingProfile_KeyId tpRpf;
     RatingPlanActivations :=
       (fun tpRa =>
          {| ActivationTime := (ParseDate (ra_ActivationTime tpRa)).1;
             RatingPlanId := ra_RatingPlanId tpRa;
             FallbackKeys :=
               FallbackSubjKeys (rpf_Direction tpRpf) (rpf_Tenant tpRpf)
                 (rpf_Category tpRpf) (ra_FallbackSubjects tpRa);
             CdrStatQueueIds := Split_INFIELD_SEP (ra_CdrStatQueueIds tpRa) |})
         <$> rpf_RatingPlanActivations tpRpf |}.

(** An activation of a row is resolved: its activation time parses, and
    its rating plan is in the reader [t] or is one the store vouched for in
    one of the calls [cs], a probe that answered "present" without error. *)
Definition activation_ok (t : TpReader) (cs : list (Call * Reply))
    (tpRa : TPRatingActivation) : Prop :=
  (ParseDate (ra_ActivationTime tpRa)).2 = None /\
  (is_Some (ratingPlans t !! ra_RatingPlanId tpRa) \/
   exists r, (HasData RATING_PLAN_PREFIX (ra_RatingPlanId tpRa), r) ∈ cs /\
             reply_err r = None /\ reply_bool r = true).

(** What [WriteToDatabase] writes of the reader: an entity of one of the
    kinds it walks. *)
Inductive Entity :=
| a_destination (d : Destination)
| a_ratingPlan (rp : RatingPlan)
| a_ratingProfile (rpf : RatingProfile)
| an_actionPlan (key : string) (ap : ActionPlan)
| some_actionTriggers (key : string) (atrs : ActionTriggers)
| a_sharedGroup (sg : SharedGroup)
| an_lcr (lcr : LCR)
| some_actions (key : string) (acts : list Action)
| an_account (ub : Account)
| some_derivedChargers (key : string) (dcs : DerivedChargers)
| some_cdrStats (sq : CdrStats)
| a_user (u : UserProfile)
| an_alias (al : Alias)
| a_resourceLimit (rl : ResourceLimit).

(** The entity a call writes immediately, if it is such a write. *)
Definition entity_write (c : Call) : option Entity :=
  match c with
  | SetDestination d transID =>
      if bool_decide (transID = NonTransactional) then Some (a_destination d) else None
  | SetRatingPlan rp transID =>
      if bool_decide (transID = NonTransactional) then Some (a_ratingPlan rp) else None
  | SetRatingProfile rpf transID =>
      if bool_decide (transID = NonTransactional) then Some (a_ratingProfile rpf) else None
  | SetActionPlan key ap false transID =>
      if bool_decide (transID = NonTransactional) then Some (an_actionPlan key ap) else None
  | SetActionTriggers key atrs transID =>
      if bool_decide (transID = NonTransactional) then Some (some_actionTriggers key atrs)
      else None
  | SetSharedGroup sg transID =>
      if bool_decide (transID = NonTransactional) then Some (a_sharedGroup sg) else None
  | SetLCR lcr transID =>
      if bool_decide (transID = NonTransactional) then Some (an_lcr lcr) else None
  | SetActions key acts transID =>
      if bool_decide (transID = NonTransactional) then Some (some_actions key acts) else None
  | SetAccount ub => Some (an_account ub)
  | SetDerivedChargers key dcs transID =>
      if bool_decide (transID = NonTransactional) then Some (some_derivedChargers key dcs)
      else None
  | SetCdrStats sq => Some (some_cdrStats sq)
  | SetUser u => Some (a_user u)
  | SetAlias al transID =>
      if bool_decide (transID = NonTransactional) then Some (an_alias al) else None
  | SetResourceLimit rl transID =>
      if bool_decide (transID = NonTransactional) then Some (a_resourceLimit rl) else None
  | _ => None
  end.

Definition entity_writes (cs : list (Call * Reply)) : list Entity :=
  omap (fun cr => entity_write cr.1) cs.

(** The entities of the reader, kind after kind in the order
    [WriteToDatabase] walks the kinds; within a kind in the order of the
    map's entries. *)
Definition entities (t : TpReader) : list (list Entity) :=
  [ (fun kv => a_destination kv.2) <$> map_to_list (destinations t);
    (fun kv => a_ratingPlan kv.2) <$> map_to_list (ratingPlans t);
    (fun kv => a_ratingProfile kv.2) <$> map_to_list (ratingProfiles t);
    (fun kv => an_actionPlan kv.1 kv.2) <$> map_to_list (actionPlans t);
    (fun kv => some_actionTriggers kv.1 kv.2) <$> map_to_list (actionsTriggers t);
    (fun kv => a_sharedGroup kv.2) <$> map_to_list (sharedGroups t);
    (fun kv => an_lcr kv.2) <$> map_to_list (lcrs t);
    (fun kv => some_actions kv.1 kv.2) <$> map_to_list (actions t);
    (fun kv => an_account kv.2) <$> map_to_list (accountActions t);
    (fun kv => some_derivedChargers kv.1 kv.2) <$> map_to_list (derivedChargers t);
    (fun kv => some_cdrStats kv.2) <$> map_to_list (cdrStats t);
    (fun kv => a_user kv.2) <$> map_to_list (users t);
    (fun kv => an_alias kv.2) <$> map_to_list (aliases t);
    (fun kv => a_resourceLimit (APItoResourceLimit kv.2 (timezone t)).1)
      <$> map_to_list (resLimits t) ].

(** From [s0] to [s1] the reader stayed as it was and the entities
    written are [P]. *)
Definition wrote (s0 : State) (P : list Entity) (s1 : State) : Prop :=
  reader s1 = reader s0 /\
  exists new, calls_between s0 s1 new /\ entity_writes new = P.

(** The user profile [LoadUsersFiltered] makes of a row: the attributes
    are assigned one after the other, so the last value of a name stays. *)
Definition user_of (tpUser : TPUsers) : UserProfile :=
  NewUserProfile (TPUsers_Tenant tpUser) (TPUsers_UserName tpUser)
    (foldl (fun profile up => <[up.1 := up.2]> profile) ∅ (TPUsers_Profile tpUser)).

(** [func (tpr *TpReader) LoadUsersFiltered(filter *utils.TPUsers) (bool, error)].
    What [SetUser] answers is dropped. *)
Definition LoadUsersFiltered (filter : TPUsers) : M (bool * option Error) (bool * option Error) :=
  tpr ← get_reader;
  let '(tpUsers, err) := GetTPUsers (lr tpr) filter in
  match err with
  | Some e => return_ (false, Some e)
  | None =>
      for_each tpUsers (fun tpUser =>
        profile ← for_fold (TPUsers_Profile tpUser) ∅ (fun profile up =>
          ret (<[up.1 := up.2]> profile));
        let user := NewUserProfile (TPUsers_Tenant tpUser) (TPUsers_UserName tpUser) profile in
        db_call (SetUser user);;
        ret tt);;
      return_ (negb (bool_decide (length tpUsers = 0)), None)
  end.

(** Integer division: a zero divisor panics. *)
Definition div_int {R} (a b : nat) : M R nat :=
  if bool_decide (b = 0) then panic else ret (a / b).

(** [func (tpr *TpReader) ShowStatistics()]. What it logs is left out, and
    with it the distributions it only logs; the three averages are
    computed. *)
Definition ShowStatistics : M unit unit :=
  tpr ← get_reader;
  let destCount := size (destinations tpr) in
  l ← range (destinations tpr);
  prefixCount ← for_fold l 0 (fun prefixCount kv =>
    ret (prefixCount + length (Prefixes kv.2)));
  div_int prefixCount destCount;;
  let rplCount := size (ratingPlans tpr) in
  l ← range (ratingPlans tpr);
  destRatesCount ← for_fold l 0 (fun destRatesCount kv =>
    ret (destRatesCount + DestinationRates_len kv.2));
  div_int destRatesCount rplCount;;
  let rpfCount := size (ratingProfiles tpr) in
  l ← range (ratingProfiles tpr);
  activCount ← for_fold l 0 (fun activCount kv =>
    ret (activCount + length (RatingPlanActivations kv.2)));
  div_int activCount rpfCount;;
  return_ tt.

(** The calls that write the users of the rows, with what each answered. *)
Definition user_writes (tpUsers : list TPUsers) (replies : list Reply) : list (Call * Reply) :=
  zip_with (fun tpUser r => (SetUser (user_of tpUser), r)) tpUsers replies.

(** *** The remaining load-all methods

    Shared groups, LCR rules, actions, action triggers, derived chargers,
    CDR stats, users and aliases. *)

(** Types declared outside the file of which these methods hand values on
    without looking into them: what a parser returns, the rows of the
    source before they are mapped, and the records that serve as filter
    and as row. *)
Class Scalars := {
  ValueFormula : Type;
  Duration : Type;
  DerivedCharger : Type;
  TpSharedGroup : Type;
  TpAction : Type;
  TpActionTrigger : Type;
  TpDerivedCharger : Type;
  TpCdrStat : Type;
  TPCdrStat : Type;
  TPDerivedCharger : Type;
  TPDerivedChargers : Type;
  TPAliases : Type
}.

Context `{Scalars}.

(** [utils.TPSharedGroup] and [SharingParameters], as far as they are read
    and written. *)
Record TPSharedGroup := mkTPSharedGroup {
  sg_Account : string;
  sg_Strategy : string;
  sg_RatingSubject : string
}.

Record SharingParameters := mkSharingParameters {
  sp_Strategy : string;
  sp_RatingSubject : string
}.

(** [utils.TPLcrRule] and [utils.TPLcrRules]; the latter is also the filter
    handed to the source. *)
Record TPLcrRule := mkTPLcrRule {
  rule_RpCategory : string;
  rule_DestinationId : string;
  rule_ActivationTime : string;
  rule_Strategy : string;
  rule_StrategyParams : string;
  rule_Weight : float64
}.

Record TPLcrRules := mkTPLcrRules {
  lcr_TPid : string;
  lcr_Direction : string;
  lcr_Tenant : string;
  lcr_Category : string;
  lcr_Account : string;
  lcr_Subject : string;
  lcr_Rules : list TPLcrRule
}.

(** [LCREntry] and [LCRActivation] *)
Record LCREntry := mkLCREntry {
  le_DestinationId : string;
  le_RPCategory : string;
  le_Strategy : string;
  le_StrategyParams : string;
  le_Weight : float64
}.

Record LCRActivation := mkLCRActivation {
  la_ActivationTime : Time;
  la_Entries : list LCREntry
}.

(** [utils.TPAction], as far as it is read. *)
Record TPAction := mkTPAction {
  ta_Identifier : string;
  ta_BalanceId : string;
  ta_BalanceType : string;
  ta_Units : string;
  ta_ExpiryTime : string;
  ta_Filter : string;
  ta_TimingTags : string;
  ta_DestinationIds : string;
  ta_RatingSubject : string;
  ta_Categories : string;
  ta_Directions : string;
  ta_SharedGroups : string;
  ta_BalanceWeight : string;
  ta_ExtraParameters : string;
  ta_BalanceBlocker : string;
  ta_BalanceDisabled : string;
  ta_Weight : float64
}.

(** [BalanceFilter]: every field but [Timings] is a pointer, nil unless
    set. *)
Record BalanceFilter := mkBalanceFilter {
  bf_ID : option string;
  bf_Type : option string;
  bf_Value : option ValueFormula;
  bf_Weight : option float64;
  bf_ExpirationDate : option Time;
  bf_RatingSubject : option string;
  bf_Categories : option StringMap;
  bf_Directions : option StringMap;
  bf_DestinationIDs : option StringMap;
  bf_SharedGroups : option StringMap;
  bf_TimingIDs : option StringMap;
  bf_Timings : list RITiming;
  bf_Blocker : option bool;
  bf_Disabled : option bool
}.

Definition set_bf_Timings (b : BalanceFilter) (ts : list RITiming) : BalanceFilter :=
  mkBalanceFilter (bf_ID b) (bf_Type b) (bf_Value b) (bf_Weight b) (bf_ExpirationDate b)
    (bf_RatingSubject b) (bf_Categories b) (bf_Directions b) (bf_DestinationIDs b)
    (bf_SharedGroups b) (bf_TimingIDs b) ts (bf_Blocker b) (bf_Disabled b).

(** [utils.TPActionTrigger], as far as it is read. *)
Record TPActionTrigger := mkTPActionTrigger {
  atr_UniqueID : string;
  atr_ThresholdType : string;
  atr_ThresholdValue : float64;
  atr_Recurrent : bool;
  atr_MinSleep : string;
  atr_ExpirationDate : string;
  atr_ActivationDate : string;
  atr_BalanceId : string;
  atr_BalanceType : string;
  atr_BalanceWeight : string;
  atr_BalanceExpirationDate : string;
  atr_BalanceRatingSubject : string;
  atr_BalanceCategories : string;
  atr_BalanceDirections : string;
  atr_BalanceDestinationIds : string;
  atr_BalanceSharedGroups : string;
  atr_BalanceTimingTags : string;
  atr_BalanceBlocker : string;
  atr_BalanceDisabled : string;
  atr_MinQueuedItems : Z;
  atr_ActionsId : string;
  atr_Weight : float64
}.

(** [ActionTrigger], as far as the struct literals fill it. *)
Record ActionTrigger := mkActionTrigger {
  at_ID : string;
  at_UniqueID : string;
  at_ThresholdType : string;
  at_ThresholdValue : float64;
  at_Recurrent : bool;
  at_MinSleep : Duration;
  at_ExpirationDate : Time;
  at_ActivationDate : Time;
  at_Balance : BalanceFilter;
  at_Weight : float64;
  at_ActionsID : string;
  at_MinQueuedItems : Z
}.

(** [utils.TPAliasValue] and [AliasValue] *)
Record TPAliasValue := mkTPAliasValue {
  tav_DestinationId : string;
  tav_Target : string;
  tav_Original : string;
  tav_Alias : string;
  tav_Weight : float64
}.

Record AliasValue := mkAliasValue {
  av_DestinationId : string;
  av_Pairs : gmap string (gmap string string);
  av_Weight : float64
}.

(** The read accessors of the source for these kinds, the mappers and
    parsers of other files and packages, and what is read and written of
    the records declared outside the file. A map the reader only ranges
    over is given as its entries in the order the range visits them; a
    struct literal is given as a function of the fields it sets. *)
Class Kinds := {
  (* shared groups *)
  GetTPSharedGroups : LoadReader -> string -> string -> list TpSharedGroup * option Error;
  MapTPSharedGroup : list TpSharedGroup -> list (string * list TPSharedGroup);
  (* [&SharedGroup{Id: tag, AccountParameters: make(..)}] *)
  NewSharedGroup : string -> SharedGroup;
  (* [sg.AccountParameters[account] = params] *)
  SetAccountParameters : SharedGroup -> string -> SharingParameters -> SharedGroup;
  (* LCR rules; a row may be a nil pointer *)
  GetTPLCRs : LoadReader -> TPLcrRules -> list (option TPLcrRules) * option Error;
  ConcatenatedKey : list string -> string;
  LCRKey : string -> string -> string -> string -> string -> string;
  ParseTimeDetectLayout : string -> string -> Time * option Error;
  Time_Equal : Time -> Time -> bool;
  (* [&LCR{Direction: .., Tenant: .., Category: .., Account: .., Subject: ..}] *)
  NewLCR : string -> string -> string -> string -> string -> LCR;
  LCR_Activations : LCR -> list LCRActivation;
  LCR_set_Activations : LCR -> list LCRActivation -> LCR;
  (* actions *)
  GetTPActions : LoadReader -> string -> string -> list TpAction * option Error;
  MapTPActions : list TpAction -> list (string * list TPAction);
  (* [structmatcher.NewStructMatcher]: its error *)
  NewStructMatcher : string -> option Error;
  ParseBalanceFilterValue : string -> ValueFormula * option Error;
  (* [strconv.ParseFloat(s, 64)] and [strconv.ParseBool] *)
  ParseFloat : string -> float64 * option Error;
  ParseBool : string -> bool * option Error;
  ParseStringMap : string -> StringMap;
  (* [&Action{Id: .., ActionType: .., Weight: .., ExtraParameters: ..,
     ExpirationString: .., Filter: .., Balance: ..}] *)
  NewAction :
    string -> string -> float64 -> string -> string -> string -> BalanceFilter -> Action;
  (* action triggers; [ActionTriggers] is a slice of [*ActionTrigger] *)
  GetTPActionTriggers : LoadReader -> string -> string -> list TpActionTrigger * option Error;
  MapTPActionTriggers : list TpActionTrigger -> list (string * list TPActionTrigger);
  ParseDurationWithSecs : string -> Duration * option Error;
  UNLIMITED : string;
  ActionTriggers_of : list ActionTrigger -> ActionTriggers;
  ActionTriggers_list : ActionTriggers -> list ActionTrigger;
  (* derived chargers *)
  GetTPDerivedChargers :
    LoadReader -> TPDerivedChargers -> list TpDerivedCharger * option Error;
  MapTPDerivedChargers : list TpDerivedCharger -> list TPDerivedChargers * option Error;
  (* [&utils.TPDerivedChargers{TPid: tpid}] *)
  TPDerivedChargers_of_TPid : string -> TPDerivedChargers;
  GetDerivedChargersKey : TPDerivedChargers -> string;
  dcs_DestinationIds : TPDerivedChargers -> string;
  dcs_DerivedChargers : TPDerivedChargers -> list TPDerivedCharger;
  (* [utils.NewDerivedCharger], of the seventeen fields of a row *)
  NewDerivedCharger : TPDerivedCharger -> DerivedCharger * option Error;
  (* [&utils.DerivedChargers{DestinationIDs: make(..), Chargers: make(.., 0)}] *)
  DerivedChargers_empty : DerivedChargers;
  (* [dcs.DestinationIDs.Copy(ids)] and [dcs.Chargers = append(dcs.Chargers, dc)] *)
  DestinationIDs_Copy : DerivedChargers -> StringMap -> DerivedChargers;
  Chargers_append : DerivedChargers -> DerivedCharger -> DerivedChargers;
  (* CDR stats *)
  GetTPCdrStats : LoadReader -> string -> string -> list TpCdrStat * option Error;
  MapTPCdrStats : list TpCdrStat -> list (string * list TPCdrStat);
  cs_ActionTriggers : TPCdrStat -> string;
  (* [&CdrStats{Id: tag}] and [cs.Id] *)
  NewCdrStats : string -> CdrStats;
  CdrStats_Id : CdrStats -> string;
  UpdateCdrStats : CdrStats -> ActionTriggers -> TPCdrStat -> string -> CdrStats;
  (* users: [&utils.TPUsers{TPid: tpid}] and [up.Profile[name] = value] *)
  TPUsers_of_TPid : string -> TPUsers;
  MapTPUsers : list TPUsers -> list (string * TPUsers) * option Error;
  UserProfile_set : UserProfile -> string -> string -> UserProfile;
  (* aliases: [&utils.TPAliases{TPid: tpid}]; [&Alias{Direction: .., .., Context: ..,
     Values: make(AliasValues, 0)}] of the six fields of a row; a pointer
     into the values of an alias is given as its index *)
  TPAliases_of_TPid : string -> TPAliases;
  GetTPAliases : LoadReader -> TPAliases -> list TPAliases * option Error;
  MapTPAliases : list TPAliases -> list (string * TPAliases) * option Error;
  tal_Values : TPAliases -> list TPAliasValue;
  tal_Context : TPAliases -> string;
  NewAlias : TPAliases -> Alias;
  Alias_Values : Alias -> list AliasValue;
  Alias_set_Values : Alias -> list AliasValue -> Alias;
  Alias_GetId : Alias -> string;
  GetValueByDestId : list AliasValue -> string -> option nat
}.

Context `{Kinds}.

Definition set_sharedGroups (t : TpReader) (m : gmap string SharedGroup) : TpReader :=
  mkTpReader (tpid t) (timezone t) (dataStorage t) (lr t) (actions t) (actionPlans t)
    (actionsTriggers t) (accountActions t) (dirtyRpAliases t) (dirtyAccAliases t)
    (destinations t) (timings t) (rates t) (destinationRates t) (ratingPlans t)
    (ratingProfiles t) m (lcrs t) (derivedChargers t) (cdrStats t) (users t) (aliases t)
    (resLimits t) (revDests t) (revAliases t) (acntActionPlans t).

Definition set_lcrs (t : TpReader) (m : gmap string LCR) : TpReader :=
  mkTpReader (tpid t) (timezone t) (dataStorage t) (lr t) (actions t) (actionPlans t)
    (actionsTriggers t) (accountActions t) (dirtyRpAliases t) (dirtyAccAliases t)
    (destinations t) (timings t) (rates t) (destinationRates t) (ratingPlans t)
    (ratingProfiles t) (sharedGroups t) m (derivedChargers t) (cdrStats t) (users t)
    (aliases t) (resLimits t) (revDests t) (revAliases t) (acntActionPlans t).

Definition set_actions (t : TpReader) (m : gmap string (list Action)) : TpReader :=
  mkTpReader (tpid t) (timezone t) (dataStorage t) (lr t) m (actionPlans t)
    (actionsTriggers t) (accountActions t) (dirtyRpAliases t) (dirtyAccAliases t)
    (destinations t) (timings t) (rates t) (destinationRates t) (ratingPlans t)
    (ratingProfiles t) (sharedGroups t) (lcrs t) (derivedChargers t) (cdrStats t)
    (users t) (aliases t) (resLimits t) (revDests t) (revAliases t) (acntActionPlans t).

Definition set_actionsTriggers (t : TpReader) (m : gmap string ActionTriggers)
  : TpReader :=
  mkTpReader (tpid t) (timezone t) (dataStorage t) (lr t) (actions t) (actionPlans t) m
    (accountActions t) (dirtyRpAliases t) (dirtyAccAliases t) (destinations t)
    (timings t) (rates t) (destinationRates t) (ratingPlans t) (ratingProfiles t)
    (sharedGroups t) (lcrs t) (derivedChargers t) (cdrStats t) (users t) (aliases t)
    (resLimits t) (revDests t) (revAliases t) (acntActionPlans t).

Definition set_derivedChargers (t : TpReader) (m : gmap string DerivedChargers)
  : TpReader :=
  mkTpReader (tpid t) (timezone t) (dataStorage t) (lr t) (actions t) (actionPlans t)
    (actionsTriggers t) (accountActions t) (dirtyRpAliases t) (dirtyAccAliases t)
    (destinations t) (timings t) (rates t) (destinationRates t) (ratingPlans t)
    (ratingProfiles t) (sharedGroups t) (lcrs t) m (cdrStats t) (users t) (aliases t)
    (resLimits t) (revDests t) (revAliases t) (acntActionPlans t).

Definition set_cdrStats (t : TpReader) (m : gmap string CdrStats) : TpReader :=
  mkTpReader (tpid t) (timezone t) (dataStorage t) (lr t) (actions t) (actionPlans t)
    (actionsTriggers t) (accountActions t) (dirtyRpAliases t) (dirtyAccAliases t)
    (destinations t) (timings t) (rates t) (destinationRates t) (ratingPlans t)
    (ratingProfiles t) (sharedGroups t) (lcrs t) (derivedChargers t) m (users t)
    (aliases t) (resLimits t) (revDests t) (revAliases t) (acntActionPlans t).

Definition set_users (t : TpReader) (m : gmap string UserProfile) : TpReader :=
  mkTpReader (tpid t) (timezone t) (dataStorage t) (lr t) (actions t) (actionPlans t)
    (actionsTriggers t) (accountActions t) (dirtyRpAliases t) (dirtyAccAliases t)
    (destinations t) (timings t) (rates t) (destinationRates t) (ratingPlans t)
    (ratingProfiles t) (sharedGroups t) (lcrs t) (derivedChargers t) (cdrStats t) m
    (aliases t) (resLimits t) (revDests t) (revAliases t) (acntActionPlans t).

Definition set_aliases (t : TpReader) (m : gmap string Alias) : TpReader :=
  mkTpReader (tpid t) (timezone t) (dataStorage t) (lr t) (actions t) (actionPlans t)
    (actionsTriggers t) (accountActions t) (dirtyRpAliases t) (dirtyAccAliases t)
    (destinations t) (timings t) (rates t) (destinationRates t) (ratingPlans t)
    (ratingProfiles t) (sharedGroups t) (lcrs t) (derivedChargers t) (cdrStats t)
    (users t) m (resLimits t) (revDests t) (revAliases t) (acntActionPlans t).

Definition set_revAliases (t : TpReader) (m : gmap string (list string)) : TpReader :=
  mkTpReader (tpid t) (timezone t) (dataStorage t) (lr t) (actions t) (actionPlans t)
    (actionsTriggers t) (accountActions t) (dirtyRpAliases t) (dirtyAccAliases t)
    (destinations t) (timings t) (rates t) (destinationRates t) (ratingPlans t)
    (ratingProfiles t) (sharedGroups t) (lcrs t) (derivedChargers t) (cdrStats t)
    (users t) (aliases t) (resLimits t) (revDests t) m (acntActionPlans t).
(** [v, err := f(..); if err != nil { return err }] *)
Definition try_ {A} (x : A * option Error) : M (option Error) A :=
  match x.2 with
  | Some e => return_ (Some e)
  | None => ret x.1
  end.

(** The test [s != "" && s != utils.ANY] that guards a field of a row. *)
Definition given (s : string) : bool :=
  negb (bool_decide (s = "")) && negb (bool_decide (s = ANY)).

(** A guarded field that is copied, and one that is parsed first:
    [if s != "" && s != utils.ANY { u, err := parse(s); if err != nil
    { return err }; field = &u }]. *)
Definition opt_field {A} (s : string) (f : string -> A) : option A :=
  if given s then Some (f s) else None.

Definition opt_parse {A} (s : string) (parse : string -> A * option Error)
  : M (option Error) (option A) :=
  if given s then u ← try_ (parse s); ret (Some u) else ret None.

(** **** Shared groups *)

(** [func (tpr *TpReader) LoadSharedGroupsFiltered(tag string, save bool) (err error)];
    the source is asked with the empty tag, whatever [tag] is. *)
Definition LoadSharedGroupsFiltered (tag : string) (save : bool)
  : M (option Error) (option Error) :=
  tpr ← get_reader;
  let '(tps, err) := GetTPSharedGroups (lr tpr) (tpid tpr) "" in
  match err with
  | Some e => return_ (Some e)
  | None =>
      let storSgs := MapTPSharedGroup tps in
      for_each storSgs (fun '(tag, tpSgs) =>
        modify_reader (fun t =>
          let sg := default (NewSharedGroup tag) (sharedGroups t !! tag) in
          let sg :=
            foldl (fun sg tpSg =>
                     SetAccountParameters sg (sg_Account tpSg)
                       {| sp_Strategy := sg_Strategy tpSg;
                          sp_RatingSubject := sg_RatingSubject tpSg |})
              sg tpSgs in
          set_sharedGroups t (<[tag := sg]> (sharedGroups t))));;
      (if save
       then
         tpr ← get_reader;
         l ← range (sharedGroups tpr);
         for_each l (fun '(_, sg) => db_write (SetSharedGroup sg NonTransactional))
       else ret tt);;
      return_ None
  end.

(** [func (tpr *TpReader) LoadSharedGroups() error] *)
Definition LoadSharedGroups : M (option Error) (option Error) :=
  tpr ← get_reader;
  err ← invoke (LoadSharedGroupsFiltered (tpid tpr) false);
  return_ err.

(** **** LCR rules *)

(** The activations of an LCR once an entry was added for the activation
    time [t]: the entry goes to the first activation of that time, or to a
    new activation appended for it. *)
Fixpoint add_entry (acts : list LCRActivation) (t : Time) (e : LCREntry)
  : list LCRActivation :=
  match acts with
  | [] => [{| la_ActivationTime := t; la_Entries := [e] |}]
  | existingAct :: rest =>
      if Time_Equal (la_ActivationTime existingAct) t
      then {| la_ActivationTime := la_ActivationTime existingAct;
              la_Entries := la_Entries existingAct ++ [e] |} :: rest
      else existingAct :: add_entry rest t e
  end.

(** The body of the inner loop of [LoadLCRs], for one rule of the row
    [tpLcr]. *)
Definition load_lcr_rule (tpLcr : TPLcrRules) (rule : TPLcrRule) : M (option Error) unit :=
  tpr ← get_reader;
  let ratingProfileSearchKey :=
    ConcatenatedKey [lcr_Direction tpLcr; lcr_Tenant tpLcr; rule_RpCategory rule] in
  rpfs ← range (ratingProfiles tpr);
  let found := existsb (fun kv => String.prefix ratingProfileSearchKey kv.1) rpfs in
  found ←
    (if negb found && bool_decide (is_Some (dataStorage tpr))
     then
       r ← db_call (GetKeysForPrefix RATING_PROFILE_PREFIX ratingProfileSearchKey);
       match reply_err r with
       | Some e => return_ (Some ("[LCR] error querying dataDb " +:+ e))
       | None => ret (reply_bool r)
       end
     else ret found);
  if negb found
  then return_ (Some ("[LCR] could not find ratingProfiles with prefix "
                      +:+ ratingProfileSearchKey))
  else
    (if negb (bool_decide (rule_DestinationId rule = ""))
        && negb (bool_decide (rule_DestinationId rule = ANY))
     then
       let found := bool_decide (is_Some (destinations tpr !! rule_DestinationId rule)) in
       found ←
         (if negb found && bool_decide (is_Some (dataStorage tpr))
          then
            r ← db_call (HasData DESTINATION_PREFIX (rule_DestinationId rule));
            match reply_err r with
            | Some e => return_ (Some ("[LCR] error querying dataDb " +:+ e))
            | None => ret (reply_bool r)
            end
          else ret found);
       if negb found
       then return_ (Some ("[LCR] could not find destination with tag "
                           +:+ rule_DestinationId rule))
       else ret tt
     else ret tt);;
    let tag :=
      LCRKey (lcr_Direction tpLcr) (lcr_Tenant tpLcr) (lcr_Category tpLcr)
        (lcr_Account tpLcr) (lcr_Subject tpLcr) in
    let activationTime :=
      (ParseTimeDetectLayout (rule_ActivationTime rule) (timezone tpr)).1 in
    modify_reader (fun t =>
      let lcr :=
        default (NewLCR (lcr_Direction tpLcr) (lcr_Tenant tpLcr) (lcr_Category tpLcr)
                   (lcr_Account tpLcr) (lcr_Subject tpLcr))
          (lcrs t !! tag) in
      let lcr :=
        LCR_set_Activations lcr
          (add_entry (LCR_Activations lcr) activationTime
             {| le_DestinationId := rule_DestinationId rule;
                le_RPCategory := rule_RpCategory rule;
                le_Strategy := rule_Strategy rule;
                le_StrategyParams := rule_StrategyParams rule;
                le_Weight := rule_Weight rule |}) in
      set_lcrs t (<[tag := lcr]> (lcrs t))).

(** [func (tpr *TpReader) LoadLCRs() (err error)] *)
Definition LoadLCRs : M (option Error) (option Error) :=
  tpr ← get_reader;
  let '(tps, err) :=
    GetTPLCRs (lr tpr)
      {| lcr_TPid := tpid tpr; lcr_Direction := ""; lcr_Tenant := ""; lcr_Category := "";
         lcr_Account := ""; lcr_Subject := ""; lcr_Rules := [] |} in
  match err with
  | Some e => return_ (Some e)
  | None =>
      for_each tps (fun tpLcr =>
        match tpLcr with
        | Some tpLcr => for_each (lcr_Rules tpLcr) (load_lcr_rule tpLcr)
        | None => ret tt
        end);;
      return_ None
  end.

(** **** Actions *)

(** The balance filter of an action, its timings apart: the fields that
    are copied are gathered in the literal, the parses come first, in the
    order of the source. *)
Definition action_balance (tpact : TPAction) : M (option Error) BalanceFilter :=
  value ← opt_parse (ta_Units tpact) ParseBalanceFilterValue;
  weight ← opt_parse (ta_BalanceWeight tpact) ParseFloat;
  blocker ← opt_parse (ta_BalanceBlocker tpact) ParseBool;
  disabled ← opt_parse (ta_BalanceDisabled tpact) ParseBool;
  ret {| bf_ID := opt_field (ta_BalanceId tpact) id;
         bf_Type := opt_field (ta_BalanceType tpact) id;
         bf_Value := value;
         bf_Weight := weight;
         bf_ExpirationDate := None;
         bf_RatingSubject := opt_field (ta_RatingSubject tpact) id;
         bf_Categories := opt_field (ta_Categories tpact) ParseStringMap;
         bf_Directions := opt_field (ta_Directions tpact) ParseStringMap;
         bf_DestinationIDs := opt_field (ta_DestinationIds tpact) ParseStringMap;
         bf_SharedGroups := opt_field (ta_SharedGroups tpact) ParseStringMap;
         bf_TimingIDs := opt_field (ta_TimingTags tpact) ParseStringMap;
         bf_Timings := [];
         bf_Blocker := blocker;
         bf_Disabled := disabled |}.

(** The check of the filter field of an action of the group [tag]. *)
Definition check_filter (tag : string) (tpact : TPAction) : M (option Error) unit :=
  if bool_decide (0 < String.length (ta_Filter tpact))
  then
    match NewStructMatcher (ta_Filter tpact) with
    | Some e => return_ (Some ("error parsing action " +:+ tag +:+ " filter field: " +:+ e))
    | None => ret tt
    end
  else ret tt.

(** One action of the group [tag] as [LoadActions] makes it: the timings
    its tags name are copied from memory. *)
Definition load_action (tag : string) (tpact : TPAction) : M (option Error) Action :=
  check_filter tag tpact;;
  balance ← action_balance tpact;
  timings_ ←
    (if negb (bool_decide (ta_TimingTags tpact = ""))
     then
       for_fold (Split_INFIELD_SEP (ta_TimingTags tpact)) [] (fun ts timingID =>
         tpr ← get_reader;
         match timings tpr !! timingID with
         | Some timing =>
             ret (ts ++ [mkRITiming (tm_Years timing) (tm_Months timing)
                           (tm_MonthDays timing) (tm_WeekDays timing)
                           (tm_StartTime timing) (tm_EndTime timing)])
         | None => return_ (Some ("could not find timing: " +:+ timingID))
         end)
     else ret []);
  ret (NewAction tag (ta_Identifier tpact) (ta_Weight tpact) (ta_ExtraParameters tpact)
         (ta_ExpiryTime tpact) (ta_Filter tpact) (set_bf_Timings balance timings_)).

(** [func (tpr *TpReader) LoadActions() (err error)] *)
Definition LoadActions : M (option Error) (option Error) :=
  tpr ← get_reader;
  let '(tps, err) := GetTPActions (lr tpr) (tpid tpr) "" in
  match err with
  | Some e => return_ (Some e)
  | None =>
      let storActs := MapTPActions tps in
      for_each storActs (fun '(tag, tpacts) =>
        acts ← for_fold tpacts [] (fun acts tpact =>
          a ← load_action tag tpact;
          ret (acts ++ [a]));
        modify_reader (fun t => set_actions t (<[tag := acts]> (actions t))));;
      return_ None
  end.

(** **** Action triggers *)

(** The balance filter of an action trigger, built as that of an action. *)
Definition trigger_balance (timezone : string) (atr : TPActionTrigger)
  : M (option Error) BalanceFilter :=
  weight ← opt_parse (atr_BalanceWeight atr) ParseFloat;
  expirationDate ←
    (if given (atr_BalanceExpirationDate atr)
        && negb (bool_decide (atr_ExpirationDate atr = UNLIMITED))
     then
       u ← try_ (ParseTimeDetectLayout (atr_BalanceExpirationDate atr) timezone);
       ret (Some u)
     else ret None);
  blocker ← opt_parse (atr_BalanceBlocker atr) ParseBool;
  disabled ← opt_parse (atr_BalanceDisabled atr) ParseBool;
  ret {| bf_ID := opt_field (atr_BalanceId atr) id;
         bf_Type := opt_field (atr_BalanceType atr) id;
         bf_Value := None;
         bf_Weight := weight;
         bf_ExpirationDate := expirationDate;
         bf_RatingSubject := opt_field (atr_BalanceRatingSubject atr) id;
         bf_Categories := opt_field (atr_BalanceCategories atr) ParseStringMap;
         bf_Directions := opt_field (atr_BalanceDirections atr) ParseStringMap;
         bf_DestinationIDs := opt_field (atr_BalanceDestinationIds atr) ParseStringMap;
         bf_SharedGroups := opt_field (atr_BalanceSharedGroups atr) ParseStringMap;
         bf_TimingIDs := opt_field (atr_BalanceTimingTags atr) ParseStringMap;
         bf_Timings := [];
         bf_Blocker := blocker;
         bf_Disabled := disabled |}.

(** [if atr.UniqueID == "" { atr.UniqueID = utils.GenUUID() }] *)
Definition unique_id (atr : TPActionTrigger) : M (option Error) string :=
  if bool_decide (atr_UniqueID atr = "") then GenUUID else ret (atr_UniqueID atr).

(** One trigger of the group [key] as [LoadActionTriggers] makes it. *)
Definition load_action_trigger (key timezone : string) (atr : TPActionTrigger)
  : M (option Error) ActionTrigger :=
  expirationDate ← try_ (ParseTimeDetectLayout (atr_ExpirationDate atr) timezone);
  activationDate ← try_ (ParseTimeDetectLayout (atr_ActivationDate atr) timezone);
  minSleep ← try_ (ParseDurationWithSecs (atr_MinSleep atr));
  uniqueID ← unique_id atr;
  balance ← trigger_balance timezone atr;
  ret {| at_ID := key;
         at_UniqueID := uniqueID;
         at_ThresholdType := atr_ThresholdType atr;
         at_ThresholdValue := atr_ThresholdValue atr;
         at_Recurrent := atr_Recurrent atr;
         at_MinSleep := minSleep;
         at_ExpirationDate := expirationDate;
         at_ActivationDate := activationDate;
         at_Balance := balance;
         at_Weight := atr_Weight atr;
         at_ActionsID := atr_ActionsId atr;
         at_MinQueuedItems := atr_MinQueuedItems atr |}.

(** [func (tpr *TpReader) LoadActionTriggers() (err error)] *)
Definition LoadActionTriggers : M (option Error) (option Error) :=
  tpr ← get_reader;
  let '(tps, err) := GetTPActionTriggers (lr tpr) (tpid tpr) "" in
  match err with
  | Some e => return_ (Some e)
  | None =>
      let storAts := MapTPActionTriggers tps in
      for_each storAts (fun '(key, atrsLst) =>
        atrs ← for_fold atrsLst [] (fun atrs atr =>
          a ← load_action_trigger key (timezone tpr) atr;
          ret (atrs ++ [a]));
        modify_reader (fun t =>
          set_actionsTriggers t (<[key := ActionTriggers_of atrs]> (actionsTriggers t))));;
      return_ None
  end.

(** **** Derived chargers *)

(** [func (tpr *TpReader) LoadDerivedChargersFiltered(filter *utils.TPDerivedChargers,
    save bool) (err error)] *)
Definition LoadDerivedChargersFiltered (filter : TPDerivedChargers) (save : bool)
  : M (option Error) (option Error) :=
  tpr ← get_reader;
  let '(tps, err) := GetTPDerivedChargers (lr tpr) filter in
  match err with
  | Some e => return_ (Some e)
  | None =>
      let '(storDcs, err) := MapTPDerivedChargers tps in
      match err with
      | Some e => return_ (Some e)
      | None =>
          for_each storDcs (fun tpDcs =>
            let tag := GetDerivedChargersKey tpDcs in
            modify_reader (fun t =>
              match derivedChargers t !! tag with
              | None =>
                  set_derivedChargers t (<[tag := DerivedChargers_empty]> (derivedChargers t))
              | Some _ => t
              end);;
            for_each (dcs_DerivedChargers tpDcs) (fun tpDc =>
              dc ← try_ (NewDerivedCharger tpDc);
              modify_reader (fun t =>
                set_derivedChargers t
                  (alter (fun dcs =>
                            Chargers_append
                              (DestinationIDs_Copy dcs
                                 (ParseStringMap (dcs_DestinationIds tpDcs)))
                              dc)
                     tag (derivedChargers t)))));;
          (if save
           then
             tpr ← get_reader;
             l ← range (derivedChargers tpr);
             for_each l (fun '(dcsKey, dcs) =>
               db_write (SetDerivedChargers dcsKey dcs NonTransactional))
           else ret tt);;
          return_ None
      end
  end.

(** [func (tpr *TpReader) LoadDerivedChargers() (err error)] *)
Definition LoadDerivedChargers : M (option Error) (option Error) :=
  tpr ← get_reader;
  err ← invoke (LoadDerivedChargersFiltered (TPDerivedChargers_of_TPid (tpid tpr)) false);
  return_ err.

(** **** CDR stats *)

(** What the reader holds under a trigger tag; a missing key reads as the
    nil slice. *)
Definition triggers_at (t : TpReader) (tag : string) : ActionTriggers :=
  default (ActionTriggers_of []) (actionsTriggers t !! tag).

(** One trigger of the tag [triggerTag] as [LoadCdrStatsFiltered] makes it:
    the errors of the first three parses are dropped, and the number of
    queued items is not set. *)
Definition stats_action_trigger (triggerTag timezone : string) (atr : TPActionTrigger)
  : M (option Error) ActionTrigger :=
  let minSleep := (ParseDurationWithSecs (atr_MinSleep atr)).1 in
  let expTime := (ParseTimeDetectLayout (atr_ExpirationDate atr) timezone).1 in
  let actTime := (ParseTimeDetectLayout (atr_ActivationDate atr) timezone).1 in
  uniqueID ← unique_id atr;
  balance ← trigger_balance timezone atr;
  ret {| at_ID := triggerTag;
         at_UniqueID := uniqueID;
         at_ThresholdType := atr_ThresholdType atr;
         at_ThresholdValue := atr_ThresholdValue atr;
         at_Recurrent := atr_Recurrent atr;
         at_MinSleep := minSleep;
         at_ExpirationDate := expTime;
         at_ActivationDate := actTime;
         at_Balance := balance;
         at_Weight := atr_Weight atr;
         at_ActionsID := atr_ActionsId atr;
         at_MinQueuedItems := 0 |}.

(** One action of the group [tag] as [LoadCdrStatsFiltered] makes it: no
    timing is copied. *)
Definition stats_action (tag : string) (tpact : TPAction) : M (option Error) Action :=
  check_filter tag tpact;;
  balance ← action_balance tpact;
  ret (NewAction tag (ta_Identifier tpact) (ta_Weight tpact) (ta_ExtraParameters tpact)
         (ta_ExpiryTime tpact) (ta_Filter tpact) balance).

(** The triggers of a tag that memory lacks are fetched from the source. *)
Definition fetch_triggers (triggerTag : string) : M (option Error) unit :=
  tpr ← get_reader;
  let '(tpatrs, err) := GetTPActionTriggers (lr tpr) (tpid tpr) triggerTag in
  match err with
  | Some e => return_ (Some (e +:+ " (ActionTriggers): " +:+ triggerTag))
  | None =>
      let atrsM := MapTPActionTriggers tpatrs in
      for_each atrsM (fun '(_, atrsLst) =>
        atrs ← for_fold atrsLst [] (fun atrs atr =>
          a ← stats_action_trigger triggerTag (timezone tpr) atr;
          ret (atrs ++ [a]));
        modify_reader (fun t =>
          set_actionsTriggers t
            (<[triggerTag := ActionTriggers_of atrs]> (actionsTriggers t))))
  end.

(** The body of the inner loop of [LoadCdrStatsFiltered], for one row of
    the stats [tag]; the action ids collected so far are carried along. The
    write of the triggers is guarded by nothing. *)
Definition load_cdr_stat (tag : string) (actionIDs : list string) (tpStat : TPCdrStat)
  : M (option Error) (list string) :=
  tpr ← get_reader;
  let cs := default (NewCdrStats tag) (cdrStats tpr !! tag) in
  let triggerTag := cs_ActionTriggers tpStat in
  actionIDs ←
    (if negb (bool_decide (triggerTag = ""))
     then
       (if negb (bool_decide (is_Some (actionsTriggers tpr !! triggerTag)))
        then fetch_triggers triggerTag
        else ret tt);;
       tpr ← get_reader;
       ret (actionIDs ++ (at_ActionsID <$> ActionTriggers_list (triggers_at tpr triggerTag)))
     else ret actionIDs);
  tpr ← get_reader;
  if negb (bool_decide (triggerTag = ""))
     && negb (bool_decide (is_Some (actionsTriggers tpr !! triggerTag)))
  then return_ (Some ("could not get action triggers for cdr stats id "
                      +:+ CdrStats_Id cs +:+ ": " +:+ triggerTag))
  else
    let triggers := triggers_at tpr triggerTag in
    r ← db_call (SetActionTriggers triggerTag triggers NonTransactional);
    match reply_err r with
    | Some e => return_ (Some (e +:+ " (SetActionTriggers): " +:+ triggerTag))
    | None =>
        modify_reader (fun t =>
          set_cdrStats t
            (<[tag := UpdateCdrStats cs triggers tpStat (timezone tpr)]> (cdrStats t)));;
        ret actionIDs
    end.

(** The actions of an id that memory lacks are fetched from the source. *)
Definition fetch_actions (actId : string) : M (option Error) unit :=
  tpr ← get_reader;
  if negb (bool_decide (is_Some (actions tpr !! actId)))
  then
    let '(tpas, err) := GetTPActions (lr tpr) (tpid tpr) actId in
    match err with
    | Some e => return_ (Some e)
    | None =>
        let as_ := MapTPActions tpas in
        for_each as_ (fun '(tag, tpacts) =>
          acts ← for_fold tpacts [] (fun acts tpact =>
            a ← stats_action tag tpact;
            ret (acts ++ [a]));
          modify_reader (fun t => set_actions t (<[tag := acts]> (actions t))))
    end
  else ret tt.

(** [func (tpr *TpReader) LoadCdrStatsFiltered(tag string, save bool) (err error)] *)
Definition LoadCdrStatsFiltered (tag : string) (save : bool)
  : M (option Error) (option Error) :=
  tpr ← get_reader;
  let '(tps, err) := GetTPCdrStats (lr tpr) (tpid tpr) tag in
  match err with
  | Some e => return_ (Some e)
  | None =>
      let storStats := MapTPCdrStats tps in
      actionIDs ← for_fold storStats [] (fun actionIDs '(tag, tpStats) =>
        for_fold tpStats actionIDs (load_cdr_stat tag));
      for_each actionIDs fetch_actions;;
      (if save
       then
         tpr ← get_reader;
         l ← range (actions tpr);
         for_each l (fun '(k, as_) => db_write (SetActions k as_ NonTransactional));;
         l ← range (cdrStats tpr);
         for_each l (fun '(_, stat) => db_write (SetCdrStats stat))
       else ret tt);;
      return_ None
  end.

(** [func (tpr *TpReader) LoadCdrStats() error] *)
Definition LoadCdrStats : M (option Error) (option Error) :=
  err ← invoke (LoadCdrStatsFiltered "" false);
  return_ err.

(** **** Users and aliases *)

(** [func (tpr *TpReader) LoadUsers() error] *)
Definition LoadUsers : M (option Error) (option Error) :=
  tpr ← get_reader;
  let '(tps, err) := GetTPUsers (lr tpr) (TPUsers_of_TPid (tpid tpr)) in
  match err with
  | Some e => return_ (Some e)
  | None =>
      let '(userMap, err) := MapTPUsers tps in
      match err with
      | Some e => return_ (Some e)
      | None =>
          for_each userMap (fun '(key, usr) =>
            modify_reader (fun t =>
              match users t !! key with
              | None =>
                  set_users t
                    (<[key := NewUserProfile (TPUsers_Tenant usr) (TPUsers_UserName usr) ∅]>
                       (users t))
              | Some _ => t
              end);;
            for_each (TPUsers_Profile usr) (fun p =>
              modify_reader (fun t =>
                set_users t (alter (fun up => UserProfile_set up p.1 p.2) key (users t)))));;
          return_ err
      end
  end.

(** The values of an alias once the row value [v] was added: the value of
    [v]'s destination is looked for, appended if there is none, and the
    pair is stored in it. *)
Definition add_alias_value (vals : list AliasValue) (v : TPAliasValue)
  : list AliasValue :=
  let '(vals, i) :=
    match GetValueByDestId vals (tav_DestinationId v) with
    | Some i => (vals, i)
    | None =>
        (vals ++ [{| av_DestinationId := tav_DestinationId v; av_Pairs := ∅;
                     av_Weight := tav_Weight v |}],
         length vals)
    end in
  alter (fun av =>
           {| av_DestinationId := av_DestinationId av;
              av_Pairs :=
                <[tav_Target v :=
                    <[tav_Original v := tav_Alias v]>
                      (default ∅ (av_Pairs av !! tav_Target v))]> (av_Pairs av);
              av_Weight := av_Weight av |})
    i vals.

(** [func (tpr *TpReader) LoadAliases() error] *)
Definition LoadAliases : M (option Error) (option Error) :=
  tpr ← get_reader;
  let '(tps, err) := GetTPAliases (lr tpr) (TPAliases_of_TPid (tpid tpr)) in
  match err with
  | Some e => return_ (Some e)
  | None =>
      let '(alMap, err) := MapTPAliases tps in
      match err with
      | Some e => return_ (Some e)
      | None =>
          for_each alMap (fun '(key, tal) =>
            modify_reader (fun t =>
              match aliases t !! key with
              | None => set_aliases t (<[key := NewAlias tal]> (aliases t))
              | Some _ => t
              end);;
            for_each (tal_Values tal) (fun v =>
              modify_reader (fun t =>
                set_aliases t
                  (alter (fun al => Alias_set_Values al (add_alias_value (Alias_Values al) v))
                     key (aliases t)));;
              tpr ← get_reader;
              let rvAlsKey := tav_Alias v +:+ tav_Target v +:+ tal_Context tal in
              modify_reader (fun t =>
                match revAliases t !! rvAlsKey with
                | None => set_revAliases t (<[rvAlsKey := []]> (revAliases t))
                | Some _ => t
                end);;
              match aliases tpr !! key with
              | None => panic
              | Some al =>
                  modify_reader (fun t =>
                    set_revAliases t
                      (<[rvAlsKey :=
                           default [] (revAliases t !! rvAlsKey)
                           ++ [ConcatenatedKey [Alias_GetId al; tav_DestinationId v]]]>
                         (revAliases t)))
              end));;
          return_ err
      end
  end.

(** **** The whole load, every step embedded *)




(** A statement keeps [Inv]: begun in a state where it holds, it ends in
    one where it holds, whichever way it ends. *)
Definition keeps {R A} (Inv : State -> Prop) (m : M R A) : Prop :=
  forall s, Inv s -> triple m s (fun _ => Inv) (fun _ => Inv) Inv.







End Reader.

Arguments Next {R A} a.
Arguments Return {R A} r.
Arguments Panic {R A}.

End Loader.

(** ** A small tariff plan to run the methods on *)

Module Fixtures.

Import utils Loader.

(** Rows are given as the tags they carry; the store is stateless and
    answers every probe with "present" and every write with success. *)
#[export] Instance test_env : Env := {|
  float64 := Z;
  Time := string;
  TPDestination := string;
  TpTiming := TPTiming;
  TpRate := string;
  TpDestinationRate := string * (string * string);
  TpRatingPlan := string * (string * string);
  TpRatingProfile := string * string;
  TpActionPlan := string * (string * string);
  TpAccountAction := string * (string * string);
  Destination := string;
  TPRate := string;
  RateInterval := string * string;
  RatingPlanBody := list (string * (string * string));
  Action := unit;
  ActionTriggers := unit;
  UnitCounters := unit;
  SharedGroup := unit;
  LCR := unit;
  DerivedChargers := unit;
  CdrStats := unit;
  UserProfile := unit;
  Alias := unit;
  TPResourceLimit := unit;
  ResourceLimit := unit;
  TenantRatingSubject := unit;
  TenantAccount := unit;
  store_state := unit;
  uuid_at := fun n => Nat.iter n (fun s => "+" +:+ s) "uuid";
  range_at := fun _ V m => map_to_list m;
  range_at_perm := fun _ V m => reflexivity (map_to_list m)
|}.

#[export] Instance test_helpers : Helpers := {|
  NewDestinationFromTPDestination := fun d => d;
  MapTPTimings := fun tps =>
    (Some (list_to_map (map (fun t => (tm_ID t, t)) tps)), None);
  MapTPRates := fun rs => (list_to_map (map (fun r => (r, r)) rs), None);
  MapTPDestinationRates := fun rows =>
    (list_to_map
       (map (fun '(id, (d, r)) =>
               (id, {| DestinationRatesId_ := id;
                       DestinationRates := [mkDestinationRate d r None] |})) rows),
     None);
  MapTPRatingPlanBindings := fun rows =>
    map (fun '(tag, (tm, dr)) =>
           (tag, [{| DestinationRatesId := dr; TimingId := tm; rpb_Weight := 10%Z;
                     timing := None |}])) rows;
  MapTPRatingProfiles := fun rows =>
    (map (fun '(key, rp) =>
            {| rpf_TPid := ""; rpf_LoadId := ""; rpf_Direction := "*out";
               rpf_Tenant := "cgrates.org"; rpf_Category := "call"; rpf_Subject := key;
               rpf_RatingPlanActivations := [mkTPRatingActivation "2012-01-01" rp "" ""] |})
       rows, None);
  MapTPActionTimings := fun rows =>
    map (fun '(id, (acts, tm)) =>
           (id, [{| ActionsId := acts; tat_TimingId := tm; tat_Weight := 10%Z |}])) rows;
  MapTPAccountActions := fun rows =>
    (map (fun '(key, (plan, trg)) =>
            {| aa_TPid := ""; aa_LoadId := ""; aa_Tenant := "cgrates.org";
               aa_Account := key; ActionPlanId := plan; ActionTriggersId := trg;
               aa_AllowNegative := false; aa_Disabled := false |}) rows, None);
  GetRateInterval := fun rp dr => (TimingId rp, dr_RateId dr);
  AddRateInterval_body := fun plan dId ri => rp_body plan ++ [(dId, ri)];
  RatingPlanBody_zero := [];
  TPRatingProfile_KeyId := fun rpf => rpf_Subject rpf;
  TPAccountActions_KeyId := fun aa => aa_Tenant aa +:+ ":" +:+ aa_Account aa;
  ParseDate := fun s => (s, None);
  FallbackSubjKeys := fun _ _ _ _ => [];
  Split_INFIELD_SEP := fun s => [s];
  InitCounters := fun acc =>
    mkAccount (ID acc) (Some tt) (acc_ActionTriggers acc) (AllowNegative acc) (Disabled acc);
  APItoResourceLimit := fun _ _ => (tt, None)
|}.

(** A source with no rows of any kind. *)
Definition empty_source : LoadReader := {|
  GetTPDestinations := fun _ _ => ([], None);
  GetTPTimings := fun _ _ => ([], None);
  GetTPRates := fun _ _ => ([], None);
  GetTPDestinationRates := fun _ _ => ([], None);
  GetTPRatingPlans := fun _ _ => ([], None);
  GetTPRatingProfiles := fun _ => ([], None);
  GetTPActionPlans := fun _ _ => ([], None);
  GetTPAccountActions := fun _ => ([], None)
|}.

(** A store that holds everything asked for and accepts every write. *)
Definition agreeable_store : DataDB :=
  {| db_exec := fun st _ => (st, {| reply_err := None; reply_bool := true |}) |}.

Definition fresh_world : World :=
  {| store := tt; calls := []; uuids := 0; ranges := 0 |}.

(** A source whose timing rows use the tags [*any] and [*every_minute], and
    a reader on it. *)
Definition timings_source : LoadReader := {|
  GetTPDestinations := fun _ _ => ([], None);
  GetTPTimings := fun _ _ =>
    ([ mkTPTiming ANY [2016%Z] [] [] [] "12:00:00" "";
       mkTPTiming MetaEveryMinute [] [] [] [1%Z] "08:00:00" "";
       mkTPTiming "WORKDAYS" [] [] [] [1%Z; 2%Z; 3%Z; 4%Z; 5%Z] "00:00:00" "" ], None);
  GetTPRates := fun _ _ => ([], None);
  GetTPDestinationRates := fun _ _ => ([], None);
  GetTPRatingPlans := fun _ _ => ([], None);
  GetTPRatingProfiles := fun _ => ([], None);
  GetTPActionPlans := fun _ _ => ([], None);
  GetTPAccountActions := fun _ => ([], None)
|}.

Definition timings_state : State :=
  {| reader := NewTpReader (Some agreeable_store) timings_source "TP1" "UTC";
     world := fresh_world |}.

(** A store that refuses to write the destination [BAD] and accepts all
    else. *)
Definition flaky_store : DataDB :=
  {| db_exec := fun st c =>
       match c with
       | SetDestination d _ =>
           if bool_decide (d = "BAD")
           then (st, {| reply_err := Some "write failed"; reply_bool := false |})
           else (st, {| reply_err := None; reply_bool := true |})
       | _ => (st, {| reply_err := None; reply_bool := true |})
       end |}.

(** A source with rows of several kinds: two rating plans, of which [RP2]
    names the destination-rate group [DR1] that has no rows; a rating
    profile on a rating plan that only the store holds; an immediate action
    plan; an account bound to it. *)
Definition plan_source : LoadReader := {|
  GetTPDestinations := fun _ tag =>
    if bool_decide (tag = "") then (["GERMANY"; "BAD"; "FRANCE"], None)
    else if bool_decide (tag = "GERMANY") then (["GERMANY"], None)
    else ([], None);
  GetTPTimings := fun _ tag =>
    if bool_decide (tag = "T1")
    then ([mkTPTiming "T1" [] [] [] [1%Z; 2%Z; 3%Z; 4%Z; 5%Z] "00:00:00" ""], None)
    else ([], None);
  GetTPRates := fun _ tag =>
    if bool_decide (tag = "R1") then (["R1"], None) else ([], None);
  GetTPDestinationRates := fun _ tag =>
    if bool_decide (tag = "DR_OK") then ([("DR_OK", (ANY, "R1"))], None)
    else ([], None);
  GetTPRatingPlans := fun _ _ =>
    ([("RP1", ("T1", "DR_OK")); ("RP2", ("T1", "DR1"))], None);
  GetTPRatingProfiles := fun _ => ([("subj1", "RP_STORE")], None);
  GetTPActionPlans := fun _ _ => ([("AP1", ("ACT1", ASAP))], None);
  GetTPAccountActions := fun _ => ([("acc1", ("AP1", ""))], None)
|}.

Definition plan_state : State :=
  {| reader := NewTpReader (Some agreeable_store) plan_source "TP1" "UTC";
     world := fresh_world |}.

Definition flaky_state : State :=
  {| reader := NewTpReader (Some flaky_store) plan_source "TP1" "UTC";
     world := fresh_world |}.

(** The reader after the action plans were loaded. *)
Definition plans_loaded : State := (run LoadActionPlans plan_state).2.

(** A source whose one account names an action plan nobody defines. *)
Definition orphan_source : LoadReader := {|
  GetTPDestinations := fun _ _ => ([], None);
  GetTPTimings := fun _ _ => ([], None);
  GetTPRates := fun _ _ => ([], None);
  GetTPDestinationRates := fun _ _ => ([], None);
  GetTPRatingPlans := fun _ _ => ([], None);
  GetTPRatingProfiles := fun _ => ([], None);
  GetTPActionPlans := fun _ _ => ([], None);
  GetTPAccountActions := fun _ => ([("acc1", ("AP_MISSING", ""))], None)
|}.

Definition orphan_state : State :=
  {| reader := NewTpReader (Some agreeable_store) orphan_source "TP1" "UTC";
     world := fresh_world |}.

Definition empty_state : State :=
  {| reader := NewTpReader None empty_source "TP1" "UTC"; world := fresh_world |}.

(** Stand-ins for load-all methods that are not embedded: one that finds no
    rows, one that fails. *)
Definition step_not_found : M (option Error) (option Error) :=
  return_ (Some NotFoundCaps).

Definition step_fails : M (option Error) (option Error) :=
  return_ (Some "connection lost").

End Fixtures.

(** ** Intervals and plans to run the merge on *)

Module MergeFixtures.

Import RatingPlanBuilder.

Definition interval (w : Z) (rs : list Z) : @RateInterval Z Z :=
  {| Timing := mkRITiming [] [] [] [] "00:00:00" ""; Weight := w; Rates := rs |}.

(** Three stored intervals: those at 1 and 2 are equal, the one at 3 has
    another weight. *)
Definition three_intervals : gmap loc (@RateInterval Z Z) :=
  {[ 1 := interval 10 [1%Z; 2%Z]; 2 := interval 10 [2%Z; 3%Z]; 3 := interval 20 [7%Z] ]}.

(** The same after the rates of the second were merged into the first. *)
Definition merged_intervals : gmap loc (@RateInterval Z Z) :=
  <[1 := interval 10 [1%Z; 2%Z; 3%Z]]> three_intervals.

Definition plan_of (l : list loc) : @RatingPlan string :=
  {| ActivationTime := "2012-01-01"; RateIntervals := l |}.

End MergeFixtures.

(** ** More of the small tariff plan *)

Module MoreFixtures.

Import utils Loader Fixtures.

(** What a destination, a resource limit and a rating plan of the small
    plan show: a row of destinations is its id, each resource-limit row has
    the id [RL1], a rating plan is continuous once it has an interval. The
    source holds two resource-limit rows and two users. *)
Definition test_prefixes (d : string) : list string :=
  if bool_decide (d = "GERMANY") then ["49"; "4930"]
  else if bool_decide (d = "FRANCE") then ["33"]
  else ["49"].

Definition test_category_key (c : Category) : string :=
  match c with
  | Cat DESTINATION_PREFIX => "dst_"
  | Cat RATING_PLAN_PREFIX => "rpl_"
  | Cat RATING_PROFILE_PREFIX => "rpf_"
  | Cat ACTION_PREFIX => "act_"
  | Cat REVERSE_DESTINATION_PREFIX => "rds_"
  | Cat AccountActionPlansPrefix => "aap_"
  | Cat REVERSE_ALIASES_PREFIX => "rls_"
  | ACTION_PLAN_PREFIX => "apl_"
  | DERIVEDCHARGERS_PREFIX => "dcs_"
  | CDR_STATS_PREFIX => "cst_"
  | SHARED_GROUP_PREFIX => "shg_"
  | USERS_PREFIX => "usr_"
  | ALIASES_PREFIX => "als_"
  | ResourceLimitsPrefix => "rlm_"
  | ACTION_TRIGGER_PREFIX => "atr_"
  | LCR_PREFIX => "lcr_"
  end.

(** The category a text is the constant of. *)
Definition test_key_category (k : string) : option Category :=
  List.find (fun c => bool_decide (k = test_category_key c)) switch_cases.

(** Two users, as user name and attributes; the first has two values for
    one attribute. *)
Definition test_users : list (string * list (string * string)) :=
  [("rif", [("phone", "+49123"); ("phone", "+49456")]); ("danb", [])].

#[export] Instance test_accessors : Accessors := {|
  TPDestination_ID := fun d => d;
  Prefixes := test_prefixes;
  TPResourceLimit_ID := fun _ => "RL1";
  isContinous := fun rpl => negb (bool_decide (rp_body rpl = []));
  getFirstUnsaneRating := fun _ => "";
  getFirstUnsaneTiming := fun _ => "";
  DestinationRates_len := fun rpl => length (rp_body rpl);
  GetTPResourceLimits := fun _ _ _ => ([tt; tt], None);
  category_key := test_category_key;
  show_TPRatingProfile := fun rpf => rpf_Subject rpf;
  TPUsers := string * list (string * string);
  TPUsers_Tenant := fun _ => "cgrates.org";
  TPUsers_UserName := fun u => u.1;
  TPUsers_Profile := fun u => u.2;
  GetTPUsers := fun _ _ => (test_users, None);
  NewUserProfile := fun _ _ _ => tt
|}.

(** The filter that asks for every user. *)
Definition any_user : TPUsers := ("", []).

(** A source whose rows fit together: two destinations, a timing, a rate,
    two destination-rate groups, a rating plan, a rating profile on it, an
    immediate action plan and an account bound to it. *)
Definition full_source : LoadReader := {|
  GetTPDestinations := fun _ tag =>
    if bool_decide (tag = "") then (["GERMANY"; "FRANCE"], None)
    else ([], None);
  GetTPTimings := fun _ _ =>
    ([mkTPTiming "T1" [] [] [] [1%Z; 2%Z; 3%Z; 4%Z; 5%Z] "00:00:00" ""], None);
  GetTPRates := fun _ _ => (["R1"], None);
  GetTPDestinationRates := fun _ _ =>
    ([("DR_DE", ("GERMANY", "R1")); ("DR_ANY", (ANY, "R1"))], None);
  GetTPRatingPlans := fun _ _ => ([("RP1", ("T1", "DR_DE"))], None);
  GetTPRatingProfiles := fun _ => ([("subj1", "RP1")], None);
  GetTPActionPlans := fun _ _ => ([("AP1", ("ACT1", ASAP))], None);
  GetTPAccountActions := fun _ => ([("acc1", ("AP1", ""))], None)
|}.

Definition full_state : State :=
  {| reader := NewTpReader (Some agreeable_store) full_source "TP1" "UTC";
     world := fresh_world |}.

(** The reader after the destinations, after the rates, after the timings
    and destination rates, after the rating plans, and after all the kinds
    the source has were loaded. *)
Definition destinations_loaded : State := (run LoadDestinations full_state).2.

Definition rates_loaded : State := (run LoadRates destinations_loaded).2.

Definition lines_loaded : State :=
  default full_state (pass_through [LoadTimings; LoadDestinationRates] rates_loaded).

Definition plans_built : State :=
  default full_state
    (pass_through [LoadTimings; LoadDestinationRates; LoadRatingPlans] rates_loaded).

Definition all_loaded : State :=
  default full_state
    (pass_through [LoadRatingProfiles; LoadActionPlans; LoadAccountActions] plans_built).

(** The reader on the source of [plan_state], with no store attached. *)
Definition dry_state : State :=
  {| reader := NewTpReader None plan_source "TP1" "UTC"; world := fresh_world |}.

(** A source that fails on every question. *)
Definition failing_source : LoadReader := {|
  GetTPDestinations := fun _ _ => ([], Some "connection lost");
  GetTPTimings := fun _ _ => ([], Some "connection lost");
  GetTPRates := fun _ _ => ([], Some "connection lost");
  GetTPDestinationRates := fun _ _ => ([], Some "connection lost");
  GetTPRatingPlans := fun _ _ => ([], Some "connection lost");
  GetTPRatingProfiles := fun _ => ([], Some "connection lost");
  GetTPActionPlans := fun _ _ => ([], Some "connection lost");
  GetTPAccountActions := fun _ => ([], Some "connection lost")
|}.

(** A store that refuses every write. *)
Definition refusing_store : DataDB :=
  {| db_exec := fun st _ => (st, {| reply_err := Some "read only"; reply_bool := false |}) |}.

Definition refused_state : State :=
  {| reader := NewTpReader (Some refusing_store) full_source "TP1" "UTC";
     world := fresh_world |}.

Definition failing_state : State :=
  {| reader := NewTpReader (Some agreeable_store) failing_source "TP1" "UTC";
     world := fresh_world |}.

End MoreFixtures.

(** ** The small tariff plan, every kind *)

Module WholeFixtures.

Import utils Loader Fixtures MoreFixtures.

(** The rows of the kinds the whole load adds: a shared group, an LCR rule
    on a rating-profile category and a destination that only the store
    holds, an action, an action trigger, a derived charger, CDR stats on
    that trigger, and an alias. A row of stats is its trigger tag, a row of
    aliases its values. *)
#[export] Instance test_scalars : Scalars := {|
  ValueFormula := string;
  Duration := string;
  DerivedCharger := unit;
  TpSharedGroup := unit;
  TpAction := unit;
  TpActionTrigger := unit;
  TpDerivedCharger := unit;
  TpCdrStat := unit;
  TPCdrStat := string;
  TPDerivedCharger := unit;
  TPDerivedChargers := unit;
  TPAliases := list TPAliasValue
|}.

Definition test_rule : TPLcrRule :=
  {| rule_RpCategory := "lcr_profile1"; rule_DestinationId := "SPAIN";
     rule_ActivationTime := "2012-01-01"; rule_Strategy := "*static";
     rule_StrategyParams := "ivo"; rule_Weight := 10%Z |}.

Definition test_lcr : TPLcrRules :=
  {| lcr_TPid := "TP1"; lcr_Direction := "*out"; lcr_Tenant := "cgrates.org";
     lcr_Category := "call"; lcr_Account := ANY; lcr_Subject := ANY;
     lcr_Rules := [test_rule] |}.

Definition test_action : TPAction :=
  {| ta_Identifier := "*topup"; ta_BalanceId := ""; ta_BalanceType := "*monetary";
     ta_Units := "10"; ta_ExpiryTime := "*unlimited"; ta_Filter := "";
     ta_TimingTags := "T1"; ta_DestinationIds := ANY; ta_RatingSubject := "";
     ta_Categories := ""; ta_Directions := "*out"; ta_SharedGroups := "";
     ta_BalanceWeight := "10"; ta_ExtraParameters := ""; ta_BalanceBlocker := "false";
     ta_BalanceDisabled := "false"; ta_Weight := 10%Z |}.

Definition test_trigger : TPActionTrigger :=
  {| atr_UniqueID := ""; atr_ThresholdType := "*min_balance";
     atr_ThresholdValue := 2%Z; atr_Recurrent := false; atr_MinSleep := "0";
     atr_ExpirationDate := ""; atr_ActivationDate := ""; atr_BalanceId := "";
     atr_BalanceType := "*monetary"; atr_BalanceWeight := "";
     atr_BalanceExpirationDate := ""; atr_BalanceRatingSubject := "";
     atr_BalanceCategories := ""; atr_BalanceDirections := "*out";
     atr_BalanceDestinationIds := ""; atr_BalanceSharedGroups := "";
     atr_BalanceTimingTags := ""; atr_BalanceBlocker := "false";
     atr_BalanceDisabled := "false"; atr_MinQueuedItems := 0%Z;
     atr_ActionsId := "ACT1"; atr_Weight := 10%Z |}.

Definition test_alias_value : TPAliasValue :=
  {| tav_DestinationId := "GERMANY"; tav_Target := "Subject"; tav_Original := "rif";
     tav_Alias := "rif1"; tav_Weight := 10%Z |}.

#[export] Instance test_kinds : Kinds := {|
  GetTPSharedGroups := fun _ _ _ => ([tt], None);
  MapTPSharedGroup := fun _ => [("SG1", [mkTPSharedGroup "cgrates.org:acc1" "*lowest" ""])];
  NewSharedGroup := fun _ => tt;
  SetAccountParameters := fun _ _ _ => tt;
  GetTPLCRs := fun _ _ => ([Some test_lcr; None], None);
  ConcatenatedKey := String.concat ":";
  LCRKey := fun direction tenant category account subject =>
    String.concat ":" [direction; tenant; category; account; subject];
  ParseTimeDetectLayout := fun s _ => (s, None);
  Time_Equal := fun t1 t2 => bool_decide (t1 = t2);
  NewLCR := fun _ _ _ _ _ => tt;
  LCR_Activations := fun _ => [];
  LCR_set_Activations := fun _ _ => tt;
  GetTPActions := fun _ _ _ => ([tt], None);
  MapTPActions := fun _ => [("ACT1", [test_action])];
  NewStructMatcher := fun _ => None;
  ParseBalanceFilterValue := fun s => (s, None);
  ParseFloat := fun _ => (10%Z, None);
  ParseBool := fun s => (bool_decide (s = "true"), None);
  ParseStringMap := fun s => {[ s := true ]};
  NewAction := fun _ _ _ _ _ _ _ => tt;
  GetTPActionTriggers := fun _ _ _ => ([tt], None);
  MapTPActionTriggers := fun _ => [("TRG1", [test_trigger])];
  ParseDurationWithSecs := fun s => (s, None);
  UNLIMITED := "*unlimited";
  ActionTriggers_of := fun _ => tt;
  ActionTriggers_list := fun _ => [];
  GetTPDerivedChargers := fun _ _ => ([tt], None);
  MapTPDerivedChargers := fun _ => ([tt], None);
  TPDerivedChargers_of_TPid := fun _ => tt;
  GetDerivedChargersKey := fun _ => "*out:cgrates.org:call:*any:*any";
  dcs_DestinationIds := fun _ => "";
  dcs_DerivedChargers := fun _ => [tt];
  NewDerivedCharger := fun _ => (tt, None);
  DerivedChargers_empty := tt;
  DestinationIDs_Copy := fun _ _ => tt;
  Chargers_append := fun _ _ => tt;
  GetTPCdrStats := fun _ _ _ => ([tt], None);
  MapTPCdrStats := fun _ => [("CDRST1", ["TRG1"])];
  cs_ActionTriggers := fun tpStat => tpStat;
  NewCdrStats := fun _ => tt;
  CdrStats_Id := fun _ => "CDRST1";
  UpdateCdrStats := fun _ _ _ _ => tt;
  TPUsers_of_TPid := fun _ => any_user;
  MapTPUsers := fun tps => (map (fun u : TPUsers => (TPUsers_UserName u, u)) tps, None);
  UserProfile_set := fun _ _ _ => tt;
  TPAliases_of_TPid := fun _ => [];
  GetTPAliases := fun _ _ => ([[test_alias_value]], None);
  MapTPAliases := fun tps => (map (fun tal => ("*out:cgrates.org:call:rif", tal)) tps, None);
  tal_Values := fun tal => tal;
  tal_Context := fun _ => "*rating";
  NewAlias := fun _ => tt;
  Alias_Values := fun _ => [];
  Alias_set_Values := fun _ _ => tt;
  Alias_GetId := fun _ => "*out:cgrates.org:call:rif";
  GetValueByDestId := fun _ _ => None
|}.


End WholeFixtures.

(** * Properties *)

(** ** The rate-interval merge *)

Module RatingPlanFacts.
Import RatingPlanBuilder.

Section Merge.

Context {float64 : Type} `{EqDecision float64}.
Context {Time : Type}.
Context {Rate : Type} `{EqDecision Rate}.

Abbreviation RateInterval := (@RateInterval float64 Rate).
Abbreviation RatingPlan := (@RatingPlan Time).
Abbreviation heap := (gmap loc RateInterval).

Implicit Types (pg ps : list Rate) (h : heap) (v : RateInterval) (ap : RatingPlan).

Lemma AddRate_snoc pg ps p :
  AddRate pg (ps ++ [p]) =
  if bool_decide (p ∈ AddRate pg ps) then AddRate pg ps else AddRate pg ps ++ [p].
Proof. unfold AddRate. by rewrite foldl_app. Qed.

(** What [AddRate] appends: rates of [ps] that [pg] lacks, each once. *)
Lemma AddRate_extends pg ps :
  exists extra, AddRate pg ps = pg ++ extra /\ NoDup extra /\
    (forall r, r ∈ extra <-> r ∈ ps /\ r ∉ pg).
Proof.
  induction ps as [|p ps IH] using rev_ind.
  - exists []. rewrite app_nil_r. split_and!; [done|constructor|].
    intros r. split; [by intros ?%elem_of_nil|]. by intros [?%elem_of_nil _].
  - destruct IH as (extra & Heq & Hnd & Hin). rewrite AddRate_snoc.
    case_bool_decide as Hp.
    + exists extra. split_and!; [done..|]. intros r. rewrite Hin, elem_of_app.
      split; [naive_solver|]. intros [[?|Hr%list_elem_of_singleton] ?]; [done|].
      subst r. rewrite Heq, elem_of_app in Hp. destruct Hp as [?|Hp]; [done|].
      by apply Hin in Hp.
    + exists (extra ++ [p]). rewrite Heq, <-(assoc_L (++)). split_and!; [done| |].
      * apply NoDup_app. split_and!; [done| |apply NoDup_singleton].
        intros r Hr ->%list_elem_of_singleton. apply Hp. rewrite Heq. set_solver.
      * intros r. rewrite !elem_of_app, Hin, list_elem_of_singleton.
        split.
        -- intros [[? ?]| ->]; [by auto|]. split; [by right|].
           intros Hpg. apply Hp. rewrite Heq. apply elem_of_app. by left.
        -- intros [[?|?] ?]; [by left|by right].
Qed.

Lemma elem_of_AddRate pg ps r : r ∈ AddRate pg ps <-> r ∈ pg \/ r ∈ ps.
Proof.
  destruct (AddRate_extends pg ps) as (extra & -> & _ & Hin).
  rewrite elem_of_app, Hin. destruct (decide (r ∈ pg)); naive_solver.
Qed.

(** Rates the list already holds are not added again. *)
Lemma AddRate_absorb pg ps : (forall r, r ∈ ps -> r ∈ pg) -> AddRate pg ps = pg.
Proof.
  intros Hsub. destruct (AddRate_extends pg ps) as (extra & -> & _ & Hin).
  destruct extra as [|r extra]; [by rewrite app_nil_r|].
  destruct (proj1 (Hin r)) as [Hr Hn]; [left|]. by apply Hsub in Hr.
Qed.

Lemma AddRate_self pg : AddRate pg pg = pg.
Proof. by apply AddRate_absorb. Qed.

Lemma Equal_sym v1 v2 : Equal v1 v2 = Equal v2 v1.
Proof.
  unfold Equal. by rewrite (bool_decide_ext _ _ (symmetry_iff (=) (Weight v1) (Weight v2))),
    (bool_decide_ext _ _ (symmetry_iff (=) (Timing v1) (Timing v2))).
Qed.

Lemma Equal_refl v : Equal v v = true.
Proof. unfold Equal. by rewrite !bool_decide_eq_true_2. Qed.

Lemma Equal_trans v1 v2 v3 : Equal v1 v2 = true -> Equal v2 v3 = true -> Equal v1 v3 = true.
Proof.
  unfold Equal. rewrite !andb_true_iff, !bool_decide_eq_true. naive_solver congruence.
Qed.

Lemma Equal_set_Rates_r v e rs : Equal v (set_Rates e rs) = Equal v e.
Proof. done. Qed.

Lemma set_Rates_id v : set_Rates v (Rates v) = v.
Proof. by destruct v. Qed.

(** A merge changes the rates of one stored interval only, so which stored
    intervals are equal to [v] does not change. *)
Lemma equal_at_merge h v e ve rs p :
  h !! e = Some ve -> equal_at (<[e := set_Rates ve rs]> h) v p = equal_at h v p.
Proof.
  intros He. unfold equal_at. destruct (decide (e = p)) as [->|Hne].
  - by rewrite lookup_insert_eq, He.
  - by rewrite lookup_insert_ne.
Qed.

Lemma equal_in_merge h v e ve rs l :
  h !! e = Some ve -> equal_in (<[e := set_Rates ve rs]> h) v l = equal_in h v l.
Proof.
  intros He. unfold equal_in. apply list_filter_iff. intros p.
  by rewrite (equal_at_merge _ _ _ _ _ _ He).
Qed.

Lemma equal_in_nil h v l :
  equal_in h v l = [] <-> forall p, p ∈ l -> equal_at h v p = false.
Proof.
  unfold equal_in. induction l as [|q l IH]; [by split; [intros _ ? ?%elem_of_nil|]|].
  rewrite filter_cons. destruct (equal_at h v q) eqn:Hq.
  - rewrite decide_True by done. split; [done|].
    intros Hl. specialize (Hl q). rewrite Hq in Hl. discriminate Hl. left.
  - rewrite decide_False by auto. rewrite IH. split.
    + intros Hl p [->|Hp]%elem_of_cons; auto.
    + intros Hl p Hp. apply Hl. by right.
Qed.

(** The inner loop finds nothing in a plan that holds no equal interval. *)
Lemma merge_existing_fresh h i v eis :
  h !! i = Some v ->
  Forall (fun p => is_Some (h !! p)) eis ->
  equal_in h v eis = [] ->
  merge_existing h i eis = Some (h, false).
Proof.
  intros Hi Hall Hnone. rewrite equal_in_nil in Hnone.
  induction Hall as [|ei rest [ve Hve] _ IH]; [done|].
  cbn. rewrite Hi, Hve. cbn.
  assert (Equal v ve = false) as ->.
  { specialize (Hnone ei). unfold equal_at in Hnone. rewrite Hve in Hnone.
    apply Hnone. left. }
  apply IH. intros p Hp. apply Hnone. by right.
Qed.

(** The inner loop merges into a stored interval when the plan holds an
    equal one. *)
Lemma merge_existing_present h i v eis :
  h !! i = Some v ->
  Forall (fun p => is_Some (h !! p)) eis ->
  equal_in h v eis <> [] ->
  exists e ve, e ∈ eis /\ h !! e = Some ve /\ Equal v ve = true /\
    merge_existing h i eis =
      Some (<[e := set_Rates ve (AddRate (Rates ve) (Rates v))]> h, true).
Proof.
  intros Hi Hall Hsome.
  induction Hall as [|ei rest [ve Hve] _ IH]; [done|].
  cbn. rewrite Hi, Hve. cbn. destruct (Equal v ve) eqn:Heq.
  - exists ei, ve. split_and!; [left|done..].
  - destruct IH as (e & ve' & ? & ? & ? & ?).
    + intros Hnil. apply Hsome. unfold equal_in in *. rewrite filter_cons.
      assert (equal_at h v ei = false) as Hei by (unfold equal_at; by rewrite Hve).
      rewrite decide_False; [exact Hnil|]. rewrite Hei. auto.
    + exists e, ve'. split_and!; [by right|done..].
Qed.

Lemma merge_existing_skip h i v l1 l2 :
  h !! i = Some v ->
  Forall (fun p => is_Some (h !! p)) l1 ->
  equal_in h v l1 = [] ->
  merge_existing h i (l1 ++ l2) = merge_existing h i l2.
Proof.
  intros Hi Hall Hnone. rewrite equal_in_nil in Hnone.
  induction Hall as [|ei rest [ve Hve] _ IH]; [done|].
  cbn. rewrite Hi, Hve. cbn.
  assert (Equal v ve = false) as ->.
  { specialize (Hnone ei). unfold equal_at in Hnone. rewrite Hve in Hnone.
    apply Hnone. left. }
  apply IH. intros p Hp. apply Hnone. by right.
Qed.

Lemma equal_in_Equal h v1 v2 l :
  Equal v1 v2 = true -> equal_in h v2 l = equal_in h v1 l.
Proof.
  intros H12. unfold equal_in. apply list_filter_iff. intros p.
  unfold equal_at. destruct (h !! p) as [e|]; [|done].
  destruct (Equal v1 e) eqn:H1e.
  - rewrite (Equal_trans v2 v1 e); [done| |done]. by rewrite Equal_sym.
  - destruct (Equal v2 e) eqn:H2e; [|done].
    by rewrite (Equal_trans v1 v2 e) in H1e.
Qed.

(** C1. Two equal rate intervals [i1], [i2] added to a plan's interval list
    that holds no interval equal to them leave exactly one such interval in
    it, [i1], and its rate list is the union of the rates of [i1] and of
    [i2]; when [i2] is [i1] itself the interval and its rates are as after
    one addition. Adding an interval to a list that already holds an equal
    one inserts nothing: the rates of the first equal interval [e] are
    extended by the new rates it lacks, each once, and nothing changes when
    the interval added is [e] itself. *)
Theorem AddRateInterval_merges_equal h ap i1 i2 v1 v2 :
  h !! i1 = Some v1 -> h !! i2 = Some v2 ->
  Forall (fun p => is_Some (h !! p)) (RateIntervals ap) ->
  Equal v1 v2 = true ->
  (equal_in h v1 (RateIntervals ap) = [] ->
   exists h' ap' m,
     AddRateInterval h ap [i1; i2] = Some (h', ap') /\
     RateIntervals ap' = RateIntervals ap ++ [i1] /\
     equal_in h' v1 (RateIntervals ap') = [i1] /\
     h' !! i1 = Some m /\ Equal m v1 = true /\
     Rates m = AddRate (Rates v1) (Rates v2) /\
     (forall r, r ∈ Rates m <-> r ∈ Rates v1 \/ r ∈ Rates v2) /\
     (i1 = i2 -> h' = h /\ AddRateInterval h ap [i1] = Some (h', ap')))
  /\
  (equal_in h v1 (RateIntervals ap) <> [] ->
   exists h' e ve extra,
     AddRateInterval h ap [i1] = Some (h', ap) /\
     e ∈ RateIntervals ap /\ h !! e = Some ve /\ Equal v1 ve = true /\
     h' = <[e := set_Rates ve (Rates ve ++ extra)]> h /\
     NoDup extra /\ (forall r, r ∈ extra <-> r ∈ Rates v1 /\ r ∉ Rates ve) /\
     equal_in h' v1 (RateIntervals ap) = equal_in h v1 (RateIntervals ap) /\
     (e = i1 -> h' = h)).
Proof.
  intros Hi1 Hi2 Hall H12. split.
  - intros Hnone.
    set (m := set_Rates v1 (AddRate (Rates v1) (Rates v2))).
    set (ap1 := {| ActivationTime := ActivationTime ap;
                   RateIntervals := RateIntervals ap ++ [i1] |}).
    assert (AddRateInterval h ap [i1] = Some (h, ap1)) as Hone.
    { cbn. by rewrite (merge_existing_fresh h i1 v1 _ Hi1 Hall Hnone). }
    assert (merge_existing h i2 (RateIntervals ap ++ [i1]) = Some (<[i1 := m]> h, true)) as Htwo.
    { rewrite (merge_existing_skip h i2 v2); [|done..|].
      - cbn. rewrite Hi2, Hi1. cbn. by rewrite Equal_sym, H12.
      - by rewrite (equal_in_Equal h v1 v2). }
    exists (<[i1 := m]> h), ap1, m. split_and!.
    + cbn. rewrite (merge_existing_fresh h i1 v1 _ Hi1 Hall Hnone). cbn.
      by rewrite Htwo.
    + done.
    + cbn. unfold equal_in. rewrite filter_app. fold (equal_in (<[i1:=m]> h) v1 (RateIntervals ap)).
      unfold m at 1. rewrite (equal_in_merge h v1 i1 v1 _ _ Hi1), Hnone.
      rewrite filter_cons, filter_nil. rewrite decide_True; [done|].
      unfold equal_at. rewrite lookup_insert_eq. unfold m.
      rewrite Equal_set_Rates_r, Equal_refl. done.
    + by rewrite lookup_insert_eq.
    + unfold m. by rewrite Equal_sym, Equal_set_Rates_r, Equal_refl.
    + done.
    + intros r. cbn. apply elem_of_AddRate.
    + intros <-. assert (v2 = v1) as -> by congruence.
      assert (m = v1) as Hm.
      { unfold m. rewrite AddRate_self. apply set_Rates_id. }
      rewrite Hm. rewrite (insert_id h i1 v1 Hi1). done.
  - intros Hsome.
    destruct (merge_existing_present h i1 v1 _ Hi1 Hall Hsome)
      as (e & ve & He & Hve & Heq & Hmerge).
    destruct (AddRate_extends (Rates ve) (Rates v1)) as (extra & Hext & Hnd & Hin).
    exists (<[e := set_Rates ve (Rates ve ++ extra)]> h), e, ve, extra. split_and!.
    + cbn. rewrite Hmerge. cbn. by rewrite Hext.
    + done.
    + done.
    + done.
    + done.
    + done.
    + done.
    + by apply equal_in_merge.
    + intros ->. assert (ve = v1) as -> by congruence.
      rewrite <-Hext, AddRate_self, set_Rates_id. by apply insert_id.
Qed.


(** *** What a merge leaves alone *)

(** The inner loop changes the store of intervals at one address of the
    plan at most, and there the rates only. *)
Lemma merge_existing_frame h i eis h' found :
  merge_existing h i eis = Some (h', found) ->
  (found = false -> h' = h) /\
  dom h' = dom h /\
  forall p v', h' !! p = Some v' ->
    exists v, h !! p = Some v /\ Timing v' = Timing v /\ Weight v' = Weight v /\
      (p ∉ eis -> v' = v).
Proof.
  induction eis as [|ei rest IH]; cbn.
  - intros [= <- <-]. split_and!; [done..|]. intros p v' Hp. by exists v'.
  - destruct (h !! i) as [vi|] eqn:Hi; [|done]. cbn.
    destruct (h !! ei) as [ve|] eqn:Hei; [|done]. cbn.
    destruct (Equal vi ve).
    + intros [= <- <-]. split_and!; [done| |].
      * rewrite dom_insert_L. apply elem_of_dom_2 in Hei. set_solver.
      * intros p v'. destruct (decide (p = ei)) as [->|Hne].
        -- rewrite lookup_insert_eq. intros [= <-]. exists ve.
           split_and!; [done..|]. intros Hnot. destruct Hnot. left.
        -- rewrite lookup_insert_ne by done. intros Hp. by exists v'.
    + intros Hrest. destruct (IH Hrest) as (Hf & Hd & Hfr). split_and!; [done..|].
      intros p v' Hp. destruct (Hfr p v' Hp) as (v & Hv & Ht & Hw & Hsame).
      exists v. split_and!; [done..|]. intros Hnot. apply Hsame.
      intros Hin. apply Hnot. by right.
Qed.

(** The whole of what [AddRateInterval] keeps. *)
Lemma AddRateInterval_frame h ap is_ h' ap' :
  AddRateInterval h ap is_ = Some (h', ap') ->
  ActivationTime ap' = ActivationTime ap /\
  (exists added, RateIntervals ap' = RateIntervals ap ++ added /\ added `sublist_of` is_) /\
  dom h' = dom h /\
  forall p v', h' !! p = Some v' ->
    exists v, h !! p = Some v /\ Timing v' = Timing v /\ Weight v' = Weight v /\
      (p ∉ RateIntervals ap' -> v' = v).
Proof.
  revert h ap. induction is_ as [|i rest IH]; intros h ap; cbn.
  - intros [= <- <-]. split_and!; [done| |done|].
    + exists []. by rewrite app_nil_r.
    + intros p v' Hp. by exists v'.
  - destruct (merge_existing h i (RateIntervals ap)) as [[h1 found]|] eqn:Hm; [|done].
    cbn. destruct (merge_existing_frame _ _ _ _ _ Hm) as (Hf & Hd & Hfr).
    set (ap1 := if found then ap
                else {| ActivationTime := ActivationTime ap;
                        RateIntervals := RateIntervals ap ++ [i] |}).
    assert (AddRateInterval h1 ap1 rest = Some (h', ap') ->
            ActivationTime ap1 = ActivationTime ap ->
            (exists a1, RateIntervals ap1 = RateIntervals ap ++ a1 /\ a1 `sublist_of` [i]) ->
            ActivationTime ap' = ActivationTime ap /\
            (exists added, RateIntervals ap' = RateIntervals ap ++ added /\
                           added `sublist_of` i :: rest) /\
            dom h' = dom h /\
            forall p v', h' !! p = Some v' ->
              exists v, h !! p = Some v /\ Timing v' = Timing v /\ Weight v' = Weight v /\
                (p ∉ RateIntervals ap' -> v' = v)) as Hstep.
    { intros Hrest Hat (a1 & Hl1 & Hs1).
      destruct (IH _ _ Hrest) as (Hat' & (a2 & Hl2 & Hs2) & Hd' & Hfr').
      split_and!.
      - by rewrite Hat'.
      - exists (a1 ++ a2). split; [by rewrite Hl2, Hl1, (assoc_L (++))|].
        by apply (sublist_app a1 [i] a2 rest).
      - by rewrite Hd'.
      - intros p v' Hp. destruct (Hfr' p v' Hp) as (v1 & Hv1 & Ht1 & Hw1 & Hs1').
        destruct (Hfr p v1 Hv1) as (v & Hv & Ht & Hw & Hs).
        exists v. split_and!; [done|congruence|congruence|].
        intros Hnot. rewrite Hs1' by done. apply Hs.
        intros Hin. apply Hnot. rewrite Hl2, Hl1.
        apply elem_of_app. left. apply elem_of_app. by left. }
    subst ap1. destruct found; intros Hrest; apply Hstep; try done.
    + exists []. split; [by rewrite app_nil_r|apply sublist_nil_l].
    + by exists [i].
Qed.

(** Neither loop dereferences a nil pointer when every address at hand is
    allocated. *)
Lemma merge_existing_allocated h i eis :
  is_Some (h !! i) -> Forall (fun p => is_Some (h !! p)) eis ->
  is_Some (merge_existing h i eis).
Proof.
  intros [vi Hi] Hall. induction Hall as [|ei rest [ve Hve] _ IH]; [done|].
  cbn. rewrite Hi, Hve. cbn. by destruct (Equal vi ve).
Qed.

(** X1. [AddRateInterval] never removes or moves an interval of the plan:
    the interval list it leaves is the old one followed by some of the
    intervals given, in the order given. *)
Theorem AddRateInterval_appends h ap is_ h' ap' :
  AddRateInterval h ap is_ = Some (h', ap') ->
  exists added,
    RateIntervals ap' = RateIntervals ap ++ added /\
    added `sublist_of` is_ /\
    length (RateIntervals ap') <= length (RateIntervals ap) + length is_.
Proof.
  intros Hrun. destruct (AddRateInterval_frame _ _ _ _ _ Hrun) as (_ & (added & Hl & Hs) & _).
  exists added. split_and!; [done..|].
  rewrite Hl, length_app. apply sublist_length in Hs. lia.
Qed.

(** X2. [AddRateInterval] allocates and frees nothing, and of a stored
    interval it changes the rates only: timing and weight stay, and an
    interval that is not in the plan's list afterwards is left as it was. *)
Theorem AddRateInterval_changes_rates_only h ap is_ h' ap' :
  AddRateInterval h ap is_ = Some (h', ap') ->
  dom h' = dom h /\
  forall p v', h' !! p = Some v' ->
    exists v, h !! p = Some v /\ Timing v' = Timing v /\ Weight v' = Weight v /\
      (p ∉ RateIntervals ap' -> v' = v).
Proof.
  intros Hrun. by destruct (AddRateInterval_frame _ _ _ _ _ Hrun) as (_ & _ & Hd & Hfr).
Qed.

(** X3. [AddRateInterval] runs to its end when the plan's intervals and the
    intervals given are all allocated; and an interval added to a plan with
    no intervals is appended without being looked at, allocated or not. *)
Theorem AddRateInterval_allocated h ap is_ :
  (Forall (fun p => is_Some (h !! p)) (RateIntervals ap ++ is_) ->
   is_Some (AddRateInterval h ap is_)) /\
  (RateIntervals ap = [] ->
   forall i, AddRateInterval h ap [i]
             = Some (h, {| ActivationTime := ActivationTime ap; RateIntervals := [i] |})).
Proof.
  split.
  - revert h ap. induction is_ as [|i rest IH]; intros h ap Hall; [done|].
    apply Forall_app in Hall as [Hplan Hargs]. apply Forall_cons in Hargs as [Hi Hrest].
    cbn. destruct (merge_existing_allocated h i _ Hi Hplan) as [[h1 found] Hm].
    rewrite Hm. cbn.
    destruct (merge_existing_frame _ _ _ _ _ Hm) as (_ & Hd & _).
    assert (forall p, is_Some (h !! p) -> is_Some (h1 !! p)) as Hkeep.
    { intros p. rewrite <-!elem_of_dom. by rewrite Hd. }
    destruct found; apply IH; cbn; rewrite ?Forall_app, ?Forall_singleton;
      split_and!; try (eapply Forall_impl; [eassumption|exact Hkeep]); by apply Hkeep.
  - intros Hnil i. cbn. by rewrite Hnil.
Qed.

(** X4. [RatingPlan.Equal] looks at the activation time only, which
    [AddRateInterval] does not touch: the plan after a merge is [Equal] to
    the plan before, and to every plan the one before was [Equal] to. *)
Theorem AddRateInterval_Equal `{EqDecision Time} h ap is_ h' ap' :
  AddRateInterval h ap is_ = Some (h', ap') ->
  RatingPlan_Equal ap' ap = true /\
  forall o, RatingPlan_Equal ap' o = RatingPlan_Equal ap o /\
            RatingPlan_Equal o ap' = RatingPlan_Equal o ap.
Proof.
  intros Hrun. destruct (AddRateInterval_frame _ _ _ _ _ Hrun) as (Hat & _).
  unfold RatingPlan_Equal. rewrite Hat. split; [by apply bool_decide_eq_true_2|done].
Qed.
End Merge.

(** A run of the theorem: two equal intervals with rates [1;2] and [2;3]
    added to an empty plan. *)
Lemma AddRateInterval_merges_equal_witness :
  let ri rs := {| Timing := mkRITiming [] [] [] [] "00:00:00" ""; Weight := 10%Z;
                  Rates := rs |} in
  let h : gmap loc (@RateInterval Z Z) := {[ 1 := ri [1%Z; 2%Z]; 2 := ri [2%Z; 3%Z] ]} in
  let ap : @RatingPlan unit := {| ActivationTime := tt; RateIntervals := [] |} in
  exists h' ap' m,
    AddRateInterval h ap [1; 2] = Some (h', ap') /\
    RateIntervals ap' = [1] /\
    h' !! 1 = Some m /\ Rates m = [1%Z; 2%Z; 3%Z].
Proof.
  intros ri h ap.
  destruct (AddRateInterval_merges_equal h ap 1 2 (ri [1%Z; 2%Z]) (ri [2%Z; 3%Z]))
    as [Hfresh _]; [reflexivity|reflexivity|constructor|reflexivity|].
  destruct (Hfresh eq_refl) as (h' & ap' & m & Hrun & Hl & _ & Hm & _ & Hr & _).
  exists h', ap', m. split_and!; [exact Hrun|exact Hl|exact Hm|exact Hr].
Defined.


Import MergeFixtures.

(** The intervals at 1 and 2 added to the plan that holds the one at 3. *)
Example AddRateInterval_run :
  AddRateInterval three_intervals (plan_of [3]) [1; 2]
    = Some (merged_intervals, plan_of [3; 1]).
Proof. vm_compute. reflexivity. Qed.

Lemma AddRateInterval_appends_witness :
  exists added,
    RateIntervals (plan_of [3; 1]) = RateIntervals (plan_of [3]) ++ added /\
    added `sublist_of` [1; 2] /\
    length (RateIntervals (plan_of [3; 1])) <= length (RateIntervals (plan_of [3])) + 2.
Proof.
  apply (AddRateInterval_appends three_intervals (plan_of [3]) [1; 2] merged_intervals).
  vm_compute. reflexivity.
Defined.

Lemma AddRateInterval_changes_rates_only_witness :
  dom merged_intervals = dom three_intervals /\
  forall p v', merged_intervals !! p = Some v' ->
    exists v, three_intervals !! p = Some v /\ Timing v' = Timing v /\
      Weight v' = Weight v /\ (p ∉ [3; 1] -> v' = v).
Proof.
  apply (AddRateInterval_changes_rates_only three_intervals (plan_of [3]) [1; 2]
           merged_intervals (plan_of [3; 1])).
  vm_compute. reflexivity.
Defined.

Lemma AddRateInterval_allocated_witness :
  is_Some (AddRateInterval three_intervals (plan_of [3]) [1; 2]) /\
  AddRateInterval three_intervals (plan_of []) [9]
    = Some (three_intervals, plan_of [9]).
Proof.
  split.
  - apply (proj1 (AddRateInterval_allocated three_intervals (plan_of [3]) [1; 2])).
    repeat (apply Forall_cons; split); [..|apply Forall_nil];
      eexists; vm_compute; reflexivity.
  - apply (proj2 (AddRateInterval_allocated three_intervals (plan_of []) [9]) eq_refl).
Defined.

Lemma AddRateInterval_Equal_witness :
  RatingPlan_Equal (plan_of [3; 1]) (plan_of [3]) = true /\
  forall o, RatingPlan_Equal (plan_of [3; 1]) o = RatingPlan_Equal (plan_of [3]) o /\
            RatingPlan_Equal o (plan_of [3; 1]) = RatingPlan_Equal o (plan_of [3]).
Proof.
  apply (AddRateInterval_Equal three_intervals (plan_of [3]) [1; 2] merged_intervals).
  vm_compute. reflexivity.
Defined.
End RatingPlanFacts.

(** ** The reader *)

Module LoaderFacts.

Import utils Loader.

Section Reader.

Context {E : Env} {Hlp : Helpers}.

(** *** Rules for [triple] *)

Section Rules.

Context {R : Type}.
Implicit Types (s : State) (Qr : R -> State -> Prop) (Qp : State -> Prop).

Lemma triple_bind {A B} (m : M R A) (k : A -> M R B) s (Qn : B -> State -> Prop) Qr Qp :
  triple m s (fun a s1 => triple (k a) s1 Qn Qr Qp) Qr Qp ->
  triple (m ≫= k) s Qn Qr Qp.
Proof.
  unfold triple, mbind, M_bind, bind. by destruct (m s) as [[a|r|] s1].
Qed.

Lemma triple_conseq {A} (m : M R A) s (Qn Qn' : A -> State -> Prop) Qr Qr' Qp Qp' :
  triple m s Qn Qr Qp ->
  (forall a s', Qn a s' -> Qn' a s') ->
  (forall r s', Qr r s' -> Qr' r s') ->
  (forall s', Qp s' -> Qp' s') ->
  triple m s Qn' Qr' Qp'.
Proof.
  unfold triple. destruct (m s) as [[a|r|] s1]; auto.
Qed.

Context {A : Type}.

Lemma triple_ret (a : A) s (Qn : A -> State -> Prop) Qr Qp :
  Qn a s -> triple (mret a : M R A) s Qn Qr Qp.
Proof. done. Qed.

Lemma triple_ret' (a : A) s (Qn : A -> State -> Prop) Qr Qp :
  Qn a s -> triple (ret a : M R A) s Qn Qr Qp.
Proof. done. Qed.

Lemma triple_return (r : R) s (Qn : A -> State -> Prop) Qr Qp :
  Qr r s -> triple (return_ r : M R A) s Qn Qr Qp.
Proof. done. Qed.

Lemma triple_panic s (Qn : A -> State -> Prop) Qr Qp :
  Qp s -> triple (panic : M R A) s Qn Qr Qp.
Proof. done. Qed.

Lemma triple_for_each (Inv : list A -> State -> Prop) (l : list A)
    (body : A -> M R unit) s Qr Qp :
  Inv [] s ->
  (forall done x rest s1, l = done ++ x :: rest -> Inv done s1 ->
     triple (body x) s1 (fun _ s2 => Inv (done ++ [x]) s2) Qr Qp) ->
  triple (for_each l body) s (fun _ s' => Inv l s') Qr Qp.
Proof.
  intros Hinit Hbody.
  assert (forall rest done s1, l = done ++ rest -> Inv done s1 ->
            triple (for_each rest body) s1 (fun _ s' => Inv l s') Qr Qp) as Hgen.
  { induction rest as [|x rest IH]; intros done s1 Hl Hinv.
    - rewrite app_nil_r in Hl. by subst done.
    - cbn [for_each]. apply triple_bind.
      eapply triple_conseq; [by apply (Hbody done x rest)|..]; [|done..].
      intros [] s2 Hinv2. apply (IH (done ++ [x])); [|done].
      by rewrite <-(assoc_L (++)). }
  by apply (Hgen l []).
Qed.

Lemma triple_for_fold {B} (Inv : list A -> B -> State -> Prop) (l : list A) (b : B)
    (body : B -> A -> M R B) s Qr Qp :
  Inv [] b s ->
  (forall done x rest b1 s1, l = done ++ x :: rest -> Inv done b1 s1 ->
     triple (body b1 x) s1 (fun b2 s2 => Inv (done ++ [x]) b2 s2) Qr Qp) ->
  triple (for_fold l b body) s (fun b' s' => Inv l b' s') Qr Qp.
Proof.
  intros Hinit Hbody.
  assert (forall rest done b1 s1, l = done ++ rest -> Inv done b1 s1 ->
            triple (for_fold rest b1 body) s1 (fun b' s' => Inv l b' s') Qr Qp) as Hgen.
  { induction rest as [|x rest IH]; intros done b1 s1 Hl Hinv.
    - rewrite app_nil_r in Hl. by subst done.
    - cbn [for_fold]. apply triple_bind.
      eapply triple_conseq; [by apply (Hbody done x rest)|..]; [|done..].
      intros b2 s2 Hinv2. apply (IH (done ++ [x])); [|done].
      by rewrite <-(assoc_L (++)). }
  by apply (Hgen l []).
Qed.

End Rules.

(** What [run] gives, read off a triple. *)
Lemma triple_run {R} (f : M R R) s (Q : R -> State -> Prop) r s' :
  triple f s Q Q (fun _ => True) ->
  run f s = (Some r, s') -> Q r s'.
Proof.
  unfold triple, run. destruct (f s) as [[a|a|] s1]; intros HQ [= <- <-]; done.
Qed.

Lemma triple_run_total {R} (f : M R R) s (Q : R -> State -> Prop) :
  triple f s Q Q (fun _ => False) ->
  exists r s', run f s = (Some r, s') /\ Q r s'.
Proof.
  unfold triple, run. destruct (f s) as [[a|a|] s1]; intros HQ; [by eauto..|done].
Qed.

Lemma triple_invoke {R R'} (f : M R R) s (Qn : R -> State -> Prop)
    (Qr : R' -> State -> Prop) Qp :
  triple f s Qn Qn Qp -> triple (invoke f) s Qn Qr Qp.
Proof. unfold triple, invoke. by destruct (f s) as [[a|a|] s1]. Qed.


(** The primitive statements. *)
Lemma triple_get_reader {R} s (Qn : TpReader -> State -> Prop) (Qr : R -> State -> Prop) Qp :
  Qn (reader s) s -> triple get_reader s Qn Qr Qp.
Proof. done. Qed.

Lemma triple_modify_reader {R} f s (Qn : unit -> State -> Prop) (Qr : R -> State -> Prop) Qp :
  Qn tt (mkState (f (reader s)) (world s)) -> triple (modify_reader f) s Qn Qr Qp.
Proof. done. Qed.

Lemma triple_range {R V} (m : gmap string V) s
    (Qn : list (string * V) -> State -> Prop) (Qr : R -> State -> Prop) Qp :
  (forall l, l ≡ₚ map_to_list m ->
     Qn l (mkState (reader s)
             (mkWorld (store (world s)) (calls (world s)) (uuids (world s))
                (S (ranges (world s)))))) ->
  triple (range m) s Qn Qr Qp.
Proof. intros HQ. apply HQ, range_at_perm. Qed.

Lemma triple_GenUUID {R} s (Qn : string -> State -> Prop) (Qr : R -> State -> Prop) Qp :
  Qn (uuid_at (uuids (world s)))
     (mkState (reader s)
        (mkWorld (store (world s)) (calls (world s)) (S (uuids (world s)))
           (ranges (world s)))) ->
  triple GenUUID s Qn Qr Qp.
Proof. done. Qed.

Lemma triple_db_call {R} c s (Qn : Reply -> State -> Prop) (Qr : R -> State -> Prop) Qp :
  (dataStorage (reader s) = None -> Qp s) ->
  (forall r st', is_Some (dataStorage (reader s)) ->
     Qn r (mkState (reader s)
             (mkWorld st' (calls (world s) ++ [(c, r)]) (uuids (world s))
                (ranges (world s))))) ->
  triple (db_call c) s Qn Qr Qp.
Proof.
  intros Hp' Hn. unfold triple, db_call.
  destruct (dataStorage (reader s)) as [db|]; [|by apply Hp'].
  destruct (db_exec db _ c) as [st' r]. by apply Hn.
Qed.

Lemma triple_cache_call {R} c s (Qn : unit -> State -> Prop) (Qr : R -> State -> Prop) Qp :
  Qn tt (mkState (reader s)
           (mkWorld (store (world s)) (calls (world s) ++ [(c, no_reply)])
              (uuids (world s)) (ranges (world s)))) ->
  triple (cache_call c) s Qn Qr Qp.
Proof. done. Qed.

(** C7, as the code has it. The reader [NewTpReader] builds holds, whatever
    the source provides, a timing under the tag [*asap] whose start time is
    the immediate-execution sentinel and whose years, months, month days and
    week days are empty. [Init] alone leaves the timings empty: the
    sentinels are stored by the constructor, after its call of [Init]. *)
Theorem NewTpReader_asap db lr tpid timezone :
  exists t,
    timings (NewTpReader db lr tpid timezone) !! ASAP = Some t /\
    tm_StartTime t = ASAP /\
    tm_Years t = [] /\ tm_Months t = [] /\ tm_MonthDays t = [] /\ tm_WeekDays t = [] /\
    forall tpr, timings (Init tpr) = ∅.
Proof.
  exists (sentinel_timing ASAP ASAP). split_and!; [|done..].
  unfold NewTpReader. cbn.
  rewrite lookup_insert_ne by done. rewrite lookup_insert_ne by done.
  apply lookup_insert_eq.
Qed.

(** C10. When [LoadTimings] returns no error, the timings map holds the
    fixed sentinel under [*any] (empty calendar sets, start time 00:00:00)
    and under [*asap] (empty calendar sets, start time [*asap]), whatever
    the source gave for these tags; every other tag, [*every_minute] and
    [*hourly] among them, maps to what the source's rows were mapped to and
    to nothing else. *)
Theorem LoadTimings_sentinels s s' :
  run LoadTimings s = (Some None, s') ->
  exists tps m,
    GetTPTimings (lr (reader s)) (tpid (reader s)) "" = (tps, None) /\
    MapTPTimings tps = (Some m, None) /\
    timings (reader s') !! ANY = Some (sentinel_timing ANY "00:00:00") /\
    timings (reader s') !! ASAP = Some (sentinel_timing ASAP ASAP) /\
    (forall tag, tag <> ANY -> tag <> ASAP -> timings (reader s') !! tag = m !! tag) /\
    timings (reader s') !! MetaEveryMinute = m !! MetaEveryMinute /\
    timings (reader s') !! MetaHourly = m !! MetaHourly.
Proof.
  unfold run, LoadTimings, mbind, M_bind, bind, get_reader. cbn.
  destruct (GetTPTimings _ _ _) as [tps [e|]] eqn:Hget; cbn; [by intros [= ]|].
  destruct (MapTPTimings tps) as [[m|] [e|]] eqn:Hmap; cbn; intros [= <-]; exists tps, m.
  split_and!; [done|done|..]; cbn.
  - rewrite lookup_insert_ne by done. apply lookup_insert_eq.
  - apply lookup_insert_eq.
  - intros tag H1 H2. by rewrite !lookup_insert_ne.
  - by rewrite !lookup_insert_ne.
  - by rewrite !lookup_insert_ne.
Qed.


(** *** Invariants of a run *)

(** The state a run ends in satisfies what every way of ending does. *)
Lemma triple_final {R} (f : M R R) s (Q : State -> Prop) :
  triple f s (fun _ => Q) (fun _ => Q) Q -> Q (run f s).2.
Proof. unfold triple, run. by destruct (f s) as [[a|a|] s1]. Qed.

(** A loop with an invariant that does not depend on the turn. *)
Lemma triple_loop {R A} (Inv : State -> Prop) (l : list A) (body : A -> M R unit) s
    (Qr : R -> State -> Prop) Qp :
  Inv s ->
  (forall x s1, Inv s1 -> triple (body x) s1 (fun _ => Inv) Qr Qp) ->
  triple (for_each l body) s (fun _ => Inv) Qr Qp.
Proof.
  intros Hs Hbody. apply (triple_for_each (fun _ => Inv)); [done|].
  intros done x rest s1 _ Hs1. by apply Hbody.
Qed.

Lemma triple_fold_loop {R A B} (Inv : State -> Prop) (l : list A) (b : B)
    (body : B -> A -> M R B) s (Qr : R -> State -> Prop) Qp :
  Inv s ->
  (forall b1 x s1, Inv s1 -> triple (body b1 x) s1 (fun _ => Inv) Qr Qp) ->
  triple (for_fold l b body) s (fun _ => Inv) Qr Qp.
Proof.
  intros Hs Hbody. apply (triple_for_fold (fun _ _ => Inv)); [done|].
  intros done x rest b1 s1 _ Hs1. by apply Hbody.
Qed.

(** What a statement keeps, statement by statement. *)
Section Keeps.

Context {R : Type} (Inv : State -> Prop).

Lemma keeps_ret {A} (a : A) : keeps Inv (ret a : M R A).
Proof. by intros s Hs. Qed.

Lemma keeps_return {A} (r : R) : keeps Inv (return_ r : M R A).
Proof. by intros s Hs. Qed.

Lemma keeps_panic {A} : keeps Inv (panic : M R A).
Proof. by intros s Hs. Qed.

Lemma keeps_get_reader : keeps Inv (get_reader : M R TpReader).
Proof. by intros s Hs. Qed.

Lemma keeps_bind {A B} (m : M R A) (k : A -> M R B) :
  keeps Inv m -> (forall a, keeps Inv (k a)) -> keeps Inv (m ≫= k).
Proof.
  intros Hm Hk s Hs. apply triple_bind.
  eapply triple_conseq; [by apply Hm|..]; [|done..].
  intros a s1 Hs1. by apply Hk.
Qed.

Lemma keeps_for_each {A} (l : list A) (body : A -> M R unit) :
  (forall x, keeps Inv (body x)) -> keeps Inv (for_each l body).
Proof.
  intros Hbody s Hs. apply triple_loop; [done|]. intros x s1 Hs1. by apply Hbody.
Qed.

Lemma keeps_for_fold {A B} (l : list A) (b : B) (body : B -> A -> M R B) :
  (forall b1 x, keeps Inv (body b1 x)) -> keeps Inv (for_fold l b body).
Proof.
  intros Hbody s Hs. apply triple_fold_loop; [done|]. intros b1 x s1 Hs1. by apply Hbody.
Qed.


Lemma keeps_invoke {R'} (f : M R' R') :
  keeps Inv f -> keeps Inv (invoke f : M R R').
Proof. intros Hf s Hs. by apply triple_invoke, Hf. Qed.

(** What a run ends in. *)
Lemma keeps_run (f : M R R) s : keeps Inv f -> Inv s -> Inv (run f s).2.
Proof. intros Hf Hs. by apply triple_final, Hf. Qed.


End Keeps.

Lemma keeps_try (Inv : State -> Prop) {A} (x : A * option Error) : keeps Inv (try_ x).
Proof. intros s Hs. unfold try_. by destruct x.2. Qed.

Lemma keeps_opt_parse (Inv : State -> Prop) {A} (x : string)
    (parse : string -> A * option Error) :
  keeps Inv (opt_parse x parse).
Proof.
  unfold opt_parse. destruct (given x); [|apply keeps_ret].
  apply keeps_bind; [apply keeps_try|]. intros u. apply keeps_ret.
Qed.

(** One step through a statement that keeps an invariant; [prim] deals
    with the statements that touch the state. *)
Ltac keeps_step prim :=
  first
    [ progress cbv beta iota
    | apply keeps_ret | apply keeps_return | apply keeps_panic | apply keeps_get_reader
    | apply keeps_try | apply keeps_opt_parse
    | prim
    | apply keeps_invoke
    | apply keeps_for_each; intros ?
    | apply keeps_for_fold; intros ? ?
    | match goal with H : context [keeps] |- _ => apply H end
    | apply keeps_bind; [|intros ?]
    | match goal with
      | |- keeps _ (match ?x with _ => _ end) => destruct x
      | |- keeps _ (if ?b then _ else _) => destruct b
      end ].

(** One line of [LoadAll], by what the step comes back with. *)
Lemma load_step_pass step s err s1 :
  run step s = (Some err, s1) -> halts err = false ->
  load_step step s = (Next tt, s1).
Proof.
  unfold load_step, run, mbind, M_bind, bind, invoke.
  destruct (step s) as [[a|a|] s0]; intros [= -> ->] Hh; by rewrite Hh.
Qed.

Lemma load_step_halt step s err s1 :
  run step s = (Some err, s1) -> halts err = true ->
  load_step step s = (Return err, s1).
Proof.
  unfold load_step, run, mbind, M_bind, bind, invoke.
  destruct (step s) as [[a|a|] s0]; intros [= -> ->] Hh; by rewrite Hh.
Qed.

(** A passing run of the first steps leaves the rest to run. *)
Lemma run_steps_passes steps s s1 :
  passes steps s s1 -> forall rest, run_steps (steps ++ rest) s = run_steps rest s1.
Proof.
  induction 1 as [|step steps s s1 s2 err Hrun Hhalt _ IH]; intros rest; [done|].
  cbn [app run_steps]. unfold mbind at 1, M_bind, bind.
  rewrite (load_step_pass _ _ _ _ Hrun Hhalt). apply IH.
Qed.

Lemma pass_through_passes steps s s' :
  pass_through steps s = Some s' -> passes steps s s'.
Proof.
  revert s. induction steps as [|step steps IH]; intros s; cbn [pass_through].
  - intros [= <-]. constructor.
  - destruct (run step s) as [[err|] s1] eqn:Hrun; [|done].
    destruct (halts err) eqn:Hh; [done|]. intros Hrest.
    by apply (passes_cons _ _ _ s1 _ err), IH.
Qed.

Section LoadAll.

Variables LoadDestinations LoadRates LoadSharedGroups LoadLCRs LoadActions
  LoadActionTriggers LoadDerivedChargers LoadCdrStats LoadUsers LoadAliases
  LoadResourceLimits : M (option Error) (option Error).

Let steps := load_order LoadDestinations LoadRates LoadSharedGroups LoadLCRs LoadActions
  LoadActionTriggers LoadDerivedChargers LoadCdrStats LoadUsers LoadAliases
  LoadResourceLimits.
Let LoadAll' := LoadAll LoadDestinations LoadRates LoadSharedGroups LoadLCRs LoadActions
  LoadActionTriggers LoadDerivedChargers LoadCdrStats LoadUsers LoadAliases
  LoadResourceLimits.

(** C4. [LoadAll] runs the steps in the order Destinations, Timings, Rates,
    DestinationRates, RatingPlans, RatingProfiles, SharedGroups, LCRs,
    Actions, ActionPlans, ActionTriggers, AccountActions, DerivedChargers,
    CdrStats, Users, Aliases, ResourceLimits, each from the state the one
    before left. When every step comes back with no error or with the "not
    found" sentinel, [LoadAll] returns nil in the state the last step left.
    When the steps before one pass and that one comes back with another
    error, [LoadAll] returns that error in the state that step left: no
    later step has run. *)
Theorem LoadAll_order s :
  (forall s', passes steps s s' -> run LoadAll' s = (Some None, s')) /\
  (forall pre step post s1 s2 e,
     steps = pre ++ step :: post ->
     passes pre s s1 ->
     run step s1 = (Some (Some e), s2) ->
     e <> NotFoundCaps ->
     run LoadAll' s = (Some (Some e), s2)).
Proof.
  assert (LoadAll' = run_steps steps) as -> by reflexivity.
  split.
  - intros s' Hpass. unfold run.
    rewrite <-(app_nil_r steps), (run_steps_passes _ _ _ Hpass). done.
  - intros pre step post s1 s2 e -> Hpass Hrun He. unfold run.
    rewrite (run_steps_passes _ _ _ Hpass). cbn [run_steps].
    assert (halts (Some e) = true) as Hh.
    { cbn. by rewrite bool_decide_eq_false_2. }
    unfold mbind at 1, M_bind, bind.
    by rewrite (load_step_halt _ _ _ _ Hrun Hh).
Qed.

End LoadAll.

(** C8. On a source that yields destinations, with a store attached,
    [LoadDestinationsFiltered] draws one transaction id and returns
    [(true, nil)]; the calls it makes are, for each destination in turn,
    [SetDestination] and [SetReverseDestination] under that id, each
    followed by [RollbackTransaction] of that id exactly when it answered
    with an error, and after the last destination [CommitTransaction] of
    that id. A failed write does not end the loop. *)
Theorem LoadDestinationsFiltered_transaction s tag tpDests :
  is_Some (dataStorage (reader s)) ->
  GetTPDestinations (lr (reader s)) (tpid (reader s)) tag = (tpDests, None) ->
  tpDests <> [] ->
  exists s' replies,
    run (LoadDestinationsFiltered tag) s = (Some (true, None), s') /\
    length replies = length tpDests /\
    calls_between s s'
      (concat (zip_with (dest_block (uuid_at (uuids (world s)))) tpDests replies)
       ++ [(CommitTransaction (uuid_at (uuids (world s))), no_reply)]).
Proof.
  intros Hdb Hget Hne.
  assert (length tpDests <> 0) as Hlen0 by (by destruct tpDests).
  set (transID := uuid_at (uuids (world s))).
  set (Q := fun (r : bool * option Error) (s' : State) =>
              r = (true, None) /\
              exists replies, length replies = length tpDests /\
                calls_between s s'
                  (concat (zip_with (dest_block transID) tpDests replies)
                   ++ [(CommitTransaction transID, no_reply)])).
  destruct (triple_run_total (LoadDestinationsFiltered tag) s Q) as (r & s' & Hrun & -> & Hcalls).
  2:{ destruct Hcalls as (replies & ? & ?). by exists s', replies. }
  unfold LoadDestinationsFiltered.
  apply triple_bind, triple_get_reader. rewrite Hget.
  rewrite bool_decide_eq_false_2 by done.
  apply triple_bind, triple_GenUUID. fold transID.
  apply triple_bind.
  set (Inv := fun (done : list TPDestination) (s1 : State) =>
                dataStorage (reader s1) = dataStorage (reader s) /\
                exists replies, length replies = length done /\
                  calls_between s s1 (concat (zip_with (dest_block transID) done replies))).
  eapply triple_conseq; [apply (triple_for_each Inv)|..].
  - split; [done|]. exists []. split; [done|]. unfold calls_between. cbn.
    by rewrite app_nil_r.
  - intros done x rest s1 _ (Hst & replies & Hlen & Hc).
    assert (forall (r1 r2 : Reply) (s2 : State),
              dataStorage (reader s2) = dataStorage (reader s) ->
              calls (world s2) = calls (world s1) ++ dest_block transID x (r1, r2) ->
              Inv (done ++ [x]) s2) as Hstep.
    { intros r1 r2 s2 Hst2 Hc2. split; [done|]. exists (replies ++ [(r1, r2)]).
      split; [by rewrite !length_app, Hlen|].
      unfold calls_between in *. rewrite Hc2, Hc.
      rewrite zip_with_app by done. rewrite concat_app. cbn.
      by rewrite app_nil_r, (assoc_L (++)). }
    apply triple_bind, triple_db_call; [intros Hn; rewrite Hst in Hn; destruct Hdb; congruence|].
    intros r1 st1 _. apply triple_bind.
    destruct (reply_err r1) as [e1|] eqn:He1.
    + apply triple_cache_call. apply triple_bind, triple_db_call; cbn; [intros Hn; rewrite Hst in Hn; destruct Hdb; congruence|].
      intros r2 st2 _. destruct (reply_err r2) as [e2|] eqn:He2.
      * apply triple_cache_call. apply (Hstep r1 r2); [done|]. cbn.
        unfold dest_block, rollback_if. cbn. rewrite He1, He2.
        by rewrite <-!(assoc_L (++)).
      * apply triple_ret'. apply (Hstep r1 r2); [done|]. cbn.
        unfold dest_block, rollback_if. cbn. rewrite He1, He2.
        by rewrite <-!(assoc_L (++)).
    + apply triple_ret'. apply triple_bind, triple_db_call; cbn; [intros Hn; rewrite Hst in Hn; destruct Hdb; congruence|].
      intros r2 st2 _. destruct (reply_err r2) as [e2|] eqn:He2.
      * apply triple_cache_call. apply (Hstep r1 r2); [done|]. cbn.
        unfold dest_block, rollback_if. cbn. rewrite He1, He2.
        by rewrite <-!(assoc_L (++)).
      * apply triple_ret'. apply (Hstep r1 r2); [done|]. cbn.
        unfold dest_block, rollback_if. cbn. rewrite He1, He2.
        by rewrite <-!(assoc_L (++)).
  - intros [] s1 (Hst & replies & Hlen & Hc).
    apply triple_bind, triple_cache_call, triple_return.
    split; [done|]. exists replies. split; [done|].
    unfold calls_between in *. cbn. by rewrite Hc, (assoc_L (++)).
  - intros r s' Hr. exact Hr.
  - intros s' Hs'. exact Hs'.
Qed.

(** *** [LoadAccountActions] *)

(** What one turn of the loop does when it goes on. *)
Lemma load_account_action_next aa s s2 :
  load_account_action aa s = (Next tt, s2) ->
  let t := reader s in
  let key := TPAccountActions_KeyId aa in
  world s2 = world s /\
  accountActions t !! key = None /\
  resolves t aa /\
  accountActions (reader s2) = <[key := account_of t aa]> (accountActions t) /\
  actionsTriggers (reader s2) = actionsTriggers t /\
  (ActionPlanId aa = "" ->
     actionPlans (reader s2) = actionPlans t /\
     acntActionPlans (reader s2) = acntActionPlans t) /\
  (ActionPlanId aa <> "" ->
     exists ap, actionPlans t !! ActionPlanId aa = Some ap /\
       actionPlans (reader s2) = <[ActionPlanId aa := bind_account key ap]> (actionPlans t) /\
       acntActionPlans (reader s2) =
         <[key := default [] (acntActionPlans t !! key) ++ [ActionPlanId aa]]>
           (acntActionPlans t)).
Proof.
  unfold load_account_action, resolves, account_of, mbind, M_bind, bind, get_reader,
    modify_reader, ret, return_.
  destruct s as [t w]. cbn.
  destruct (accountActions t !! TPAccountActions_KeyId aa) eqn:Hacc; [done|].
  destruct (acntActionPlans t !! TPAccountActions_KeyId aa) eqn:Hl;
  destruct (actionPlans t !! ActionPlanId aa) as [ap|] eqn:Hap;
  destruct (actionsTriggers t !! ActionTriggersId aa) as [trg|] eqn:Htr;
  repeat case_bool_decide; cbn; try done;
  intros [= <-]; cbn; rewrite ?Hl; cbn;
  (split; [done|]; split; [done|];
   split; [split; first [by left|by right; eexists]|];
   split; [done|]; split; [done|]; split);
  intros ?; try done; exists ap; split_and!; try done;
  by rewrite ?Hl, ?lookup_insert_eq, ?insert_insert_eq.
Qed.

(** A turn of the loop on a key already loaded returns the duplicate
    error. *)
Lemma load_account_action_dup aa s :
  is_Some (accountActions (reader s) !! TPAccountActions_KeyId aa) ->
  load_account_action aa s =
    (Return (Some ("duplicate account action found: " +:+ TPAccountActions_KeyId aa)), s).
Proof.
  intros [acc Hacc]. unfold load_account_action, mbind, M_bind, bind, get_reader.
  by rewrite Hacc.
Qed.

(** A turn of the loop neither panics nor returns nil. *)
Lemma load_account_action_returns aa s :
  triple (load_account_action aa) s (fun _ _ => True) (fun r _ => is_Some r)
    (fun _ => False).
Proof.
  unfold triple, load_account_action, mbind, M_bind, bind, get_reader,
    modify_reader, ret, return_.
  destruct s as [t w]. cbn.
  destruct (accountActions t !! TPAccountActions_KeyId aa); [by eexists|].
  destruct (actionPlans t !! ActionPlanId aa);
  destruct (actionsTriggers t !! ActionTriggersId aa);
  repeat case_bool_decide; cbn; by eauto.
Qed.

(** A turn of the loop goes on when the key is new and the tags resolve. *)
Lemma load_account_action_resolved aa s :
  accountActions (reader s) !! TPAccountActions_KeyId aa = None ->
  resolves (reader s) aa ->
  exists s2, load_account_action aa s = (Next tt, s2).
Proof.
  intros Hacc [Htrg Hpl].
  unfold load_account_action, mbind, M_bind, bind, get_reader,
    modify_reader, ret, return_.
  destruct s as [t w]. cbn in *. rewrite Hacc.
  destruct (actionPlans t !! ActionPlanId aa);
  destruct (actionsTriggers t !! ActionTriggersId aa);
  repeat case_bool_decide; cbn; try by eauto.
  all: destruct Htrg as [?|[? ?]]; destruct Hpl as [?|[? ?]]; done.
Qed.




(** A loop over a list in two parts. *)
Lemma for_each_app {R A} (l1 l2 : list A) (body : A -> M R unit) s :
  for_each (l1 ++ l2) body s =
  match for_each l1 body s with
  | (Next _, s1) => for_each l2 body s1
  | (Return r, s1) => (Return r, s1)
  | (Panic, s1) => (Panic, s1)
  end.
Proof.
  revert s. induction l1 as [|x l1 IH]; intros s; [done|].
  cbn [app for_each]. unfold mbind, M_bind, bind.
  destruct (body x s) as [[[]|r|] s1]; [apply IH|done..].
Qed.

(** The loop of [LoadAccountActions] over records with fresh, distinct keys
    whose tags resolve: it goes through, and each record's account is
    stored under its key. *)
Lemma load_account_actions_loop storAts s :
  NoDup (TPAccountActions_KeyId <$> storAts) ->
  (forall aa, aa ∈ storAts ->
     accountActions (reader s) !! TPAccountActions_KeyId aa = None /\
     resolves (reader s) aa) ->
  exists s',
    for_each storAts load_account_action s = (Next tt, s') /\
    forall aa, aa ∈ storAts ->
      accountActions (reader s') !! TPAccountActions_KeyId aa
        = Some (account_of (reader s) aa).
Proof.
  intros Hnd Hok.
  set (Inv := fun (done : list TPAccountActions) (s1 : State) =>
    actionsTriggers (reader s1) = actionsTriggers (reader s) /\
    (forall k, is_Some (actionPlans (reader s) !! k) ->
               is_Some (actionPlans (reader s1) !! k)) /\
    (forall k, accountActions (reader s) !! k = None ->
               k ∉ TPAccountActions_KeyId <$> done ->
               accountActions (reader s1) !! k = None) /\
    (forall aa, aa ∈ done ->
       accountActions (reader s1) !! TPAccountActions_KeyId aa
         = Some (account_of (reader s) aa))).
  assert (triple (for_each storAts load_account_action) s
            (fun _ s' => Inv storAts s') (fun _ _ => False) (fun _ => False)) as Hloop.
  { apply triple_for_each.
    - split_and!; [done..|]. by intros ? ?%elem_of_nil.
    - intros done x rest s1 Hl (Htrg & Hpl & Hfresh & Hdone).
      rewrite Hl, fmap_app, fmap_cons in Hnd.
      apply NoDup_app in Hnd as (Hnd1 & Hdisj & Hnd2).
      apply NoDup_cons in Hnd2 as [Hx _].
      destruct (Hok x) as [Hxnew Hxres]; [rewrite Hl; set_solver|].
      destruct (load_account_action_resolved x s1) as [s2 Hbody].
      { apply Hfresh; [done|]. intros Hin. by apply (Hdisj _ Hin); left. }
      { destruct Hxres as [Ht Hp0]. split.
        - rewrite Htrg. done.
        - destruct Hp0 as [?|Hp0]; [by left|right; by apply Hpl]. }
      unfold triple. rewrite Hbody.
      destruct (load_account_action_next _ _ _ Hbody)
        as (_ & _ & _ & Hacc & Htrg2 & Hnone & Hsome).
      assert (account_of (reader s1) x = account_of (reader s) x) as Hsame.
      { unfold account_of. by rewrite Htrg. }
      split_and!.
      + by rewrite Htrg2.
      + intros k Hk. apply Hpl in Hk.
        destruct (decide (ActionPlanId x = "")) as [He|He].
        * destruct (Hnone He) as [-> _]. done.
        * destruct (Hsome He) as (ap & _ & -> & _).
          destruct (decide (ActionPlanId x = k)) as [->|?].
          -- rewrite lookup_insert_eq. by eexists.
          -- by rewrite lookup_insert_ne.
      + intros k Hk Hnotin. rewrite Hacc.
        rewrite fmap_app, elem_of_app in Hnotin. rewrite lookup_insert_ne.
        * apply Hfresh; [done|]. intros ?. apply Hnotin. by left.
        * intros <-. apply Hnotin. right. cbn. left.
      + intros aa [Haa| ->%list_elem_of_singleton]%elem_of_app; rewrite Hacc.
        * rewrite lookup_insert_ne; [by apply Hdone|].
          intros Heq. apply (Hdisj (TPAccountActions_KeyId aa)).
          -- apply list_elem_of_fmap. by exists aa.
          -- rewrite <-Heq. left.
        * by rewrite lookup_insert_eq, Hsame. }
  unfold triple in Hloop.
  destruct (for_each storAts load_account_action s) as [[[]|r|] s']; [|done..].
  exists s'. split; [done|]. apply Hloop.
Qed.

(** Records that share a key never get through the loop: a turn that goes
    on stores its key, and a turn on a stored key returns. *)
Lemma load_account_actions_clash storAts s :
  ~ NoDup (TPAccountActions_KeyId <$> storAts) ->
  exists e s', for_each storAts load_account_action s = (Return (Some e), s').
Proof.
  intros Hdup.
  set (Inv := fun (done : list TPAccountActions) (s1 : State) =>
    NoDup (TPAccountActions_KeyId <$> done) /\
    forall aa, aa ∈ done ->
      is_Some (accountActions (reader s1) !! TPAccountActions_KeyId aa)).
  assert (triple (for_each storAts load_account_action) s
            (fun _ s' => Inv storAts s') (fun r _ => is_Some r) (fun _ => False)) as Hloop.
  { apply triple_for_each.
    - split; [constructor|]. by intros ? ?%elem_of_nil.
    - intros done x rest s1 _ [Hnd Hin].
      pose proof (load_account_action_returns x s1) as Hret. unfold triple in *.
      destruct (load_account_action x s1) as [[[]|r|] s2] eqn:Hbody; [|exact Hret..].
      destruct (load_account_action_next _ _ _ Hbody) as (_ & Hnew & _ & Hacc & _).
      split.
      + rewrite fmap_app. apply NoDup_app. split_and!; [done| |apply NoDup_singleton].
        intros k [aa [-> Haa]]%list_elem_of_fmap Heq%list_elem_of_singleton.
        destruct (Hin aa Haa) as [? Hs]. rewrite Heq in Hs. congruence.
      + intros aa [Haa| ->%list_elem_of_singleton]%elem_of_app; rewrite Hacc.
        * destruct (decide (TPAccountActions_KeyId x = TPAccountActions_KeyId aa)) as [->|?].
          -- rewrite lookup_insert_eq. by eexists.
          -- rewrite lookup_insert_ne by done. by apply Hin.
        * rewrite lookup_insert_eq. by eexists. }
  unfold triple in Hloop.
  destruct (for_each storAts load_account_action s) as [[[]|r|] s'].
  - by destruct Hloop.
  - destruct Hloop as [e ->]. by exists e, s'.
  - done.
Qed.

(** C5, as the code has it. With the source read and mapped without error:
    a record whose key is already loaded when its turn comes, by an earlier
    record of the call or before the call, makes [LoadAccountActions] return
    the duplicate-account error naming the key; two records with one key
    always make it return an error; and records with distinct keys, none
    loaded before, whose action-trigger and action-plan tags are in memory
    make it return nil with, under each key, the record's account after
    [InitCounters]. *)
Theorem LoadAccountActions_duplicates s tps storAts :
  GetTPAccountActions (lr (reader s))
    {| aa_TPid := tpid (reader s); aa_LoadId := ""; aa_Tenant := ""; aa_Account := "";
       ActionPlanId := ""; ActionTriggersId := "";
       aa_AllowNegative := false; aa_Disabled := false |} = (tps, None) ->
  MapTPAccountActions tps = (storAts, None) ->
  (forall pre b post s1,
     storAts = pre ++ b :: post ->
     for_each pre load_account_action s = (Next tt, s1) ->
     is_Some (accountActions (reader s1) !! TPAccountActions_KeyId b) ->
     run LoadAccountActions s =
       (Some (Some ("duplicate account action found: " +:+ TPAccountActions_KeyId b)), s1)) /\
  (forall l1 a l2 b l3,
     storAts = l1 ++ a :: l2 ++ b :: l3 ->
     TPAccountActions_KeyId a = TPAccountActions_KeyId b ->
     exists e s', run LoadAccountActions s = (Some (Some e), s')) /\
  (NoDup (TPAccountActions_KeyId <$> storAts) ->
   (forall aa, aa ∈ storAts ->
      accountActions (reader s) !! TPAccountActions_KeyId aa = None /\
      resolves (reader s) aa) ->
   exists s',
     run LoadAccountActions s = (Some None, s') /\
     forall aa, aa ∈ storAts ->
       accountActions (reader s') !! TPAccountActions_KeyId aa
         = Some (account_of (reader s) aa)).
Proof.
  intros Hget Hmap.
  assert (forall o s', for_each storAts load_account_action s = (o, s') ->
            run LoadAccountActions s =
              match o with
              | Next _ => (Some None, s')
              | Return r => (Some r, s')
              | Panic => (None, s')
              end) as Hrun.
  { intros o s' Hloop. unfold run, LoadAccountActions, mbind, M_bind, bind, get_reader.
    rewrite Hget, Hmap, Hloop. by destruct o. }
  split_and!.
  - intros pre b post s1 -> Hpre Hdup.
    erewrite Hrun; [|rewrite for_each_app, Hpre; cbn [for_each];
                     unfold mbind, M_bind, bind;
                     by rewrite (load_account_action_dup _ _ Hdup)].
    done.
  - intros l1 a l2 b l3 -> Hkey.
    destruct (load_account_actions_clash (l1 ++ a :: l2 ++ b :: l3) s) as (e & s' & Hloop).
    { rewrite fmap_app, fmap_cons, fmap_app, fmap_cons, Hkey.
      intros (_ & _ & Hnd)%NoDup_app. apply NoDup_cons in Hnd as [Hnotin _].
      apply Hnotin. apply elem_of_app. right. left. }
    exists e, s'. by rewrite (Hrun _ _ Hloop).
  - intros Hnd Hok.
    destruct (load_account_actions_loop storAts s Hnd Hok) as (s' & Hloop & Hacc).
    exists s'. by rewrite (Hrun _ _ Hloop).
Qed.

(** *** [WriteToDatabase] *)

Lemma pushed_app cs1 cs2 : pushed (cs1 ++ cs2) = pushed cs1 ++ pushed cs2.
Proof. apply omap_app. Qed.

Lemma tasks_ok_exists item : exists block, tasks_ok item block.
Proof.
  destruct item as [ap at_]. unfold tasks_ok.
  destruct (IsASAP at_); [|by eexists]. case_bool_decide; by eexists.
Qed.

Lemma tasks_ok_all items : exists blocks, Forall2 tasks_ok items blocks.
Proof.
  induction items as [|item items [blocks IH]]; [by exists []|].
  destruct (tasks_ok_exists item) as [block Hb]. exists (block :: blocks). by constructor.
Qed.

Section Write.

Variable s0 : State.
Hypothesis Hdb : is_Some (dataStorage (reader s0)).

Lemma at_stage_call P s1 c r st' :
  at_stage s0 P s1 -> reply_err r = None ->
  at_stage s0 (P ++ pushed [(c, r)])
    (mkState (reader s1)
       (mkWorld st' (calls (world s1) ++ [(c, r)]) (uuids (world s1)) (ranges (world s1)))).
Proof.
  intros [Hrd (new & Hc & Hp & Hall)] Hr. split; [done|]. exists (new ++ [(c, r)]).
  split_and!.
  - unfold calls_between in *. cbn. by rewrite Hc, (assoc_L (++)).
  - by rewrite pushed_app, Hp.
  - apply Forall_app. split; [done|]. by apply Forall_singleton.
Qed.

(** A call that answers with an error pushes nothing and brings the run
    to a halt. *)
Lemma halted_call P s1 c r st' e late :
  at_stage s0 P s1 -> reply_err r = Some e ->
  halted s0 P late
    (mkState (reader s1)
       (mkWorld st' (calls (world s1) ++ [(c, r)]) (uuids (world s1)) (ranges (world s1)))).
Proof.
  intros [Hrd (new & Hc & Hp & Hall)] Hr. split; [done|]. exists (new ++ [(c, r)]).
  split_and!.
  - unfold calls_between in *. cbn. by rewrite Hc, (assoc_L (++)).
  - rewrite pushed_app, Hp. destruct r as [[e'|] b]; [|done].
    destruct c; cbn; by rewrite app_nil_r.
  - intros Hf. apply Forall_app in Hf as [_ Hlast]. apply Forall_inv in Hlast.
    cbn in Hlast. congruence.
Qed.

(** A write that pushes no task. *)
Lemma triple_db_write_quiet c P s1 late :
  (forall r, pushed [(c, r)] = []) ->
  at_stage s0 P s1 ->
  triple (db_write c) s1 (fun _ s2 => at_stage s0 P s2)
    (fun r s2 => is_Some r /\ halted s0 P late s2) (fun _ => False).
Proof.
  intros Hc Hst. unfold db_write. apply triple_bind, triple_db_call.
  - intros Hn. destruct Hst as [Hrd _]. rewrite Hrd in Hn. destruct Hdb. congruence.
  - intros r st' _. destruct (reply_err r) as [e|] eqn:Hr.
    + apply triple_return. split; [done|]. by eapply halted_call.
    + apply triple_ret'. pose proof (at_stage_call P s1 c r st' Hst Hr) as Hst'.
      by rewrite Hc, app_nil_r in Hst'.
Qed.

(** Pushing one task. *)
Lemma triple_push P s1 acc id late :
  at_stage s0 P s1 ->
  triple (uuid ← GenUUID;
          db_write (PushTask {| task_Uuid := uuid; AccountID := acc; task_ActionsID := id |}))
    s1 (fun _ s2 => at_stage s0 (P ++ [(acc, id)]) s2)
    (fun r s2 => is_Some r /\ halted s0 P late s2) (fun _ => False).
Proof.
  intros Hst. apply triple_bind, triple_GenUUID. unfold db_write.
  apply triple_bind, triple_db_call; cbn.
  - intros Hn. destruct Hst as [Hrd _]. rewrite Hrd in Hn. destruct Hdb. congruence.
  - intros r st' _.
    assert (at_stage s0 P
              (mkState (reader s1)
                 (mkWorld (store (world s1)) (calls (world s1)) (S (uuids (world s1)))
                    (ranges (world s1))))) as Hst1.
    { destruct Hst as [Hrd (new & Hc & Hp)]. split; [done|]. by exists new. }
    destruct (reply_err r) as [e|] eqn:Hr.
    + apply triple_return. split; [done|].
      exact (halted_call P _ (PushTask (mkTask (uuid_at (uuids (world s1))) acc id))
               r st' e late Hst1 Hr).
    + apply triple_ret'.
      pose proof (at_stage_call P _ (PushTask (mkTask (uuid_at (uuids (world s1))) acc id))
                    r st' Hst1 Hr) as Hst'.
      destruct r as [[e|] b]; [done|]. exact Hst'.
Qed.

(** A loop whose turns push no task. *)
Lemma triple_quiet_loop {A} (l : list A) (body : A -> M (option Error) unit) P s late :
  (forall x s1, at_stage s0 P s1 ->
     triple (body x) s1 (fun _ s2 => at_stage s0 P s2)
       (fun r s2 => is_Some r /\ halted s0 P late s2) (fun _ => False)) ->
  at_stage s0 P s ->
  triple (for_each l body) s (fun _ s2 => at_stage s0 P s2)
    (fun r s2 => is_Some r /\ halted s0 P late s2) (fun _ => False).
Proof.
  intros Hbody Hst.
  apply (triple_for_each (fun _ s1 => at_stage s0 P s1)); [done|].
  intros done x rest s1 _ Hst1. by apply Hbody.
Qed.

Lemma triple_range_stage {V} (m : gmap string V) P s1 :
  at_stage s0 P s1 ->
  triple (range m) s1 (fun l s2 => l ≡ₚ map_to_list m /\ at_stage s0 P s2)
    (fun (r : option Error) _ => False) (fun _ => False).
Proof.
  intros [Hrd (new & Hc & Hp)]. apply triple_range. intros l Hl.
  split; [done|]. split; [done|]. by exists new.
Qed.

(** The tasks of one action-timing. *)
Lemma triple_push_tasks ap at_ P s1 :
  at_stage s0 P s1 ->
  triple (push_tasks ap at_) s1 (fun _ s2 => next_post s0 P [(ap, at_)] s2)
    (fun r s2 => err_post s0 P [(ap, at_)] r s2) (fun _ => False).
Proof.
  intros Hst. unfold push_tasks.
  destruct (IsASAP at_) eqn:Hasap.
  2:{ apply triple_ret'. exists [[]]. split.
      - constructor; [|constructor]. unfold tasks_ok. by rewrite Hasap.
      - cbn. by rewrite app_nil_r. }
  apply triple_bind.
  eapply triple_conseq; [by apply triple_range_stage|..]; [|done..].
  intros accs s2 [Hperm Hst2].
  set (f := fun acc : string * bool => (acc.1, ActionsID at_)).
  set (full := if bool_decide (size (AccountIDs ap) = 0)
               then [("", ActionsID at_)] else map f accs).
  assert (tasks_ok (ap, at_) full) as Hfull.
  { unfold tasks_ok, full. rewrite Hasap. case_bool_decide; [done|].
    by rewrite Hperm. }
  apply triple_bind.
  eapply triple_conseq;
    [apply (triple_for_each (fun done s3 => at_stage s0 (P ++ map f done) s3)
              accs _ _ (fun r s3 => err_post s0 P [(ap, at_)] r s3) (fun _ => False))|..].
  - cbn. by rewrite app_nil_r.
  - intros done [acc b] rest s3 Hl Hst3.
    eapply triple_conseq;
      [exact (triple_push _ s3 acc (ActionsID at_) False Hst3)|..]; [| |done].
    + intros [] s4 Hst4. by rewrite map_app, (assoc_L (++)).
    + intros r s4 [Hr Hst4]. split; [done|].
      exists [full], (map f done). split_and!; [by repeat constructor| |done].
      cbn. rewrite app_nil_r. unfold full.
      case_bool_decide as Hsz.
      * apply map_size_empty_inv in Hsz. rewrite Hsz, map_to_list_empty in Hperm.
        apply Permutation_nil_r in Hperm. rewrite Hperm in Hl. by destruct done.
      * rewrite Hl, map_app. by apply prefix_app_r.
  - intros [] s3 Hst3. unfold full in *. case_bool_decide as Hsz.
    + apply map_size_empty_inv in Hsz.
      assert (accs = []) as ->.
      { rewrite Hsz, map_to_list_empty in Hperm. by apply Permutation_nil_r in Hperm. }
      cbn in Hst3. rewrite app_nil_r in Hst3.
      apply triple_bind. apply triple_ret'.
      eapply triple_conseq;
        [exact (triple_push _ s3 "" (ActionsID at_) False Hst3)|..]; [| |done].
      * intros [] s4 Hst4. exists [[("", ActionsID at_)]]. split; [by repeat constructor|].
        cbn. done.
      * intros r s4 [Hr Hst4]. split; [done|].
        exists [[("", ActionsID at_)]], []. split_and!; [by repeat constructor| |].
        -- apply prefix_nil.
        -- by rewrite app_nil_r.
    + apply triple_ret'. exists [map f accs]. split; [by repeat constructor|].
      cbn. by rewrite app_nil_r.
  - done.
  - done.
Qed.

(** A loop whose turns each push the tasks of some items. *)
Lemma triple_items_loop {X} (g : X -> list (ActionPlan * ActionTiming)) (l : list X)
    (body : X -> M (option Error) unit) P s :
  (forall x P1 s1, at_stage s0 P1 s1 ->
     triple (body x) s1 (fun _ s2 => next_post s0 P1 (g x) s2)
       (fun r s2 => err_post s0 P1 (g x) r s2) (fun _ => False)) ->
  at_stage s0 P s ->
  triple (for_each l body) s (fun _ s2 => next_post s0 P (flat_map g l) s2)
    (fun r s2 => err_post s0 P (flat_map g l) r s2) (fun _ => False).
Proof.
  intros Hbody Hst.
  apply (triple_for_each (fun done s1 => next_post s0 P (flat_map g done) s1)).
  - exists []. split; [constructor|]. cbn. by rewrite app_nil_r.
  - intros done x rest s1 Hl (blocks & Hok & Hst1).
    eapply triple_conseq; [by apply Hbody|..]; [| |done].
    + intros [] s2 (blocks2 & Hok2 & Hst2). exists (blocks ++ blocks2). split.
      * rewrite flat_map_app. cbn. rewrite app_nil_r. by apply Forall2_app.
      * by rewrite concat_app, (assoc_L (++)).
    + intros r s2 (Hr & blocks2 & partial & Hok2 & Hpre & Hst2). split; [done|].
      destruct (tasks_ok_all (flat_map g rest)) as [blocks3 Hok3].
      exists (blocks ++ blocks2 ++ blocks3), (concat blocks ++ partial). split_and!.
      * rewrite Hl, flat_map_app. cbn. by repeat apply Forall2_app.
      * rewrite !concat_app. apply prefix_app. by apply prefix_app_r.
      * by rewrite (assoc_L (++)).
Qed.

Lemma flat_map_singleton_pair (ap : ActionPlan) (l : list ActionTiming) :
  flat_map (fun at_ => [(ap, at_)]) l = map (pair ap) l.
Proof. induction l as [|x l IH]; [done|]. cbn. by rewrite IH. Qed.

(** One turn of the loop over the action plans. *)
Lemma triple_write_action_plan (k : string) (ap : ActionPlan) P s1 :
  at_stage s0 P s1 ->
  triple (for_each (ActionTimings ap) (push_tasks ap);;
          db_write (SetActionPlan k ap false NonTransactional)) s1
    (fun _ s2 => next_post s0 P (map (pair ap) (ActionTimings ap)) s2)
    (fun r s2 => err_post s0 P (map (pair ap) (ActionTimings ap)) r s2)
    (fun _ => False).
Proof.
  intros Hst. rewrite <-flat_map_singleton_pair. apply triple_bind.
  eapply triple_conseq;
    [apply (triple_items_loop (fun at_ => [(ap, at_)]) _ (push_tasks ap) P s1); [|done]|..];
    [|cbn beta|done|done].
  - intros at_ P1 s2 Hst2. by apply triple_push_tasks.
  - intros [] s2 (blocks & Hok & Hst2).
    eapply triple_conseq;
      [exact (triple_db_write_quiet (SetActionPlan k ap false NonTransactional)
                (P ++ concat blocks) s2 False (fun r => eq_refl) Hst2)|..];
      [| |done].
    + intros [] s3 Hst3. by exists blocks.
    + intros r s3 [Hr Hst3]. split; [done|]. by exists blocks, (concat blocks).
Qed.

(** A [range] over a map followed by a loop whose turns push no task, and
    what comes after. *)
Lemma triple_quiet_phase {V A} (m : gmap string V)
    (body : string * V -> M (option Error) unit) (k : M (option Error) A) P s1
    (Qn : A -> State -> Prop) (Qr : option Error -> State -> Prop) :
  (forall x s2, at_stage s0 P s2 ->
     triple (body x) s2 (fun _ s3 => at_stage s0 P s3)
       (fun r s3 => is_Some r /\ halted s0 P False s3) (fun _ => False)) ->
  (forall e s2, halted s0 P False s2 -> Qr (Some e) s2) ->
  (forall s2, at_stage s0 P s2 -> triple k s2 Qn Qr (fun _ => False)) ->
  at_stage s0 P s1 ->
  triple (l ← range m; for_each l body;; k) s1 Qn Qr (fun _ => False).
Proof.
  intros Hbody Herr Hk Hst. apply triple_bind.
  eapply triple_conseq; [by apply triple_range_stage|..]; [|done..].
  intros l s2 [_ Hst2]. apply triple_bind.
  eapply triple_conseq; [by apply triple_quiet_loop|..]; [| |done].
  - intros [] s3 Hst3. by apply Hk.
  - intros r s3 [[e ->] Hst3]. by apply Herr.
Qed.

(** One write that pushes no task, and what comes after. *)
Lemma triple_quiet_write {A} c (k : M (option Error) A) P s1
    (Qn : A -> State -> Prop) (Qr : option Error -> State -> Prop) :
  (forall r, pushed [(c, r)] = []) ->
  (forall e s2, halted s0 P False s2 -> Qr (Some e) s2) ->
  (forall s2, at_stage s0 P s2 -> triple k s2 Qn Qr (fun _ => False)) ->
  at_stage s0 P s1 ->
  triple (db_write c;; k) s1 Qn Qr (fun _ => False).
Proof.
  intros Hc Herr Hk Hst. apply triple_bind.
  eapply triple_conseq; [by apply triple_db_write_quiet|..]; [| |done].
  - intros [] s3 Hst3. by apply Hk.
  - intros r s3 [[e ->] Hst3]. by apply Herr.
Qed.

End Write.

Ltac quiet_write :=
  intros [? ?] ? ?; apply triple_db_write_quiet; [done|by intros|done].

(** A store that refuses no call answers every call of [WriteToDatabase]
    without error. *)
Section Answered.

Variables (s0 : State) (db : DataDB).
Hypothesis Hagree : forall st c, reply_err (db_exec db st c).2 = None.

Lemma answered_db_call {R} c : keeps (answered s0 db) (db_call c : M R Reply).
Proof.
  intros s (Hd & new & Hc & Hall). unfold triple, db_call. rewrite Hd.
  destruct (db_exec db (store (world s)) c) as [st' r] eqn:Hex.
  split; [done|]. exists (new ++ [(c, r)]). split.
  - unfold calls_between in *. cbn. by rewrite Hc, (assoc_L (++)).
  - apply Forall_app. split; [done|]. apply Forall_singleton. cbn.
    specialize (Hagree (store (world s)) c). by rewrite Hex in Hagree.
Qed.

Lemma answered_range {R V} (m : gmap string V) :
  keeps (answered s0 db) (range m : M R (list (string * V))).
Proof. intros s Hs. by apply triple_range. Qed.

Lemma answered_GenUUID {R} : keeps (answered s0 db) (GenUUID : M R string).
Proof. by intros s Hs. Qed.

Lemma WriteToDatabase_answered flush verbose disable_reverse :
  keeps (answered s0 db) (WriteToDatabase flush verbose disable_reverse).
Proof.
  unfold WriteToDatabase, push_tasks, db_write.
  repeat keeps_step
    ltac:(first [apply answered_db_call | apply answered_range | apply answered_GenUUID]).
Qed.

End Answered.

(** What [WriteToDatabase] pushes, by the way it ends. *)
Lemma WriteToDatabase_pushes flush verbose disable_reverse s :
  exists r s' new plans blocks,
    run (WriteToDatabase flush verbose disable_reverse) s = (Some r, s') /\
    calls_between s s' new /\
    plans ≡ₚ map_to_list (actionPlans (reader s)) /\
    Forall2 tasks_ok (plan_timings plans) blocks /\
    pushed new `prefix_of` concat blocks /\
    (r = None -> pushed new = concat blocks) /\
    (is_Some (dataStorage (reader s)) -> all_answered new ->
     pushed new = concat blocks /\ (limits_ok (reader s) -> r = None)).
Proof.
  set (Q := fun (r : option Error) (s' : State) =>
    exists new plans blocks,
      calls_between s s' new /\
      plans ≡ₚ map_to_list (actionPlans (reader s)) /\
      Forall2 tasks_ok (plan_timings plans) blocks /\
      pushed new `prefix_of` concat blocks /\
      (r = None -> pushed new = concat blocks) /\
      (is_Some (dataStorage (reader s)) -> all_answered new ->
       pushed new = concat blocks /\ (limits_ok (reader s) -> r = None))).
  destruct (triple_run_total (WriteToDatabase flush verbose disable_reverse) s Q)
    as (r & s' & Hrun & new & plans & blocks & Hres); [|by exists r, s', new, plans, blocks].
  assert (at_stage s [] s) as Hst0.
  { split; [done|]. exists []. split_and!; [|done|constructor].
    unfold calls_between. by rewrite app_nil_r. }
  assert (forall e s2, halted s [] False s2 -> Q (Some e) s2) as Hearly.
  { intros e s2 [_ (new & Hc & Hp & Hall)].
    destruct (tasks_ok_all (plan_timings (map_to_list (actionPlans (reader s)))))
      as [blocks Hok].
    exists new, (map_to_list (actionPlans (reader s))), blocks.
    split_and!; [done..| |done|by intros _ ?%Hall]. rewrite Hp. apply prefix_nil. }
  unfold WriteToDatabase. apply triple_bind, triple_get_reader.
  destruct (dataStorage (reader s)) as [db|] eqn:Hdb.
  2:{ apply triple_return.
      destruct (tasks_ok_all (plan_timings (map_to_list (actionPlans (reader s)))))
        as [blocks Hok].
      exists [], (map_to_list (actionPlans (reader s))), blocks.
      split_and!; [|done..|apply prefix_nil|done|by intros []%is_Some_None].
      unfold calls_between. by rewrite app_nil_r. }
  assert (is_Some (dataStorage (reader s))) as Hsome by (by rewrite Hdb).
  apply (triple_quiet_phase s) with (P := []); [quiet_write|done| |done]. intros s1 Hst1.
  apply (triple_quiet_phase s) with (P := []); [quiet_write|done| |done]. clear s1 Hst1. intros s1 Hst1.
  apply (triple_quiet_phase s) with (P := []); [quiet_write|done| |done]. clear s1 Hst1. intros s1 Hst1.
  (* the action plans *)
  apply triple_bind.
  eapply triple_conseq; [by apply (triple_range_stage s)|..]; [|done..].
  intros plans s2 [Hperm Hst2]. apply triple_bind.
  eapply triple_conseq;
    [apply (triple_items_loop s (fun p => map (pair p.2) (ActionTimings p.2)) plans _ [] s2);
     [|done]|..]; [| | |done].
  { intros [k ap] P1 s3 Hst3. by apply triple_write_action_plan. }
  2:{ intros r s3 (Hr & blocks & partial & Hok & Hpre & [_ (new & Hc & Hp & Hall)]).
      exists new, plans, blocks. split_and!; [done..| | |by intros _ ?%Hall].
      - by rewrite Hp.
      - intros ->. by destruct Hr. }
  intros [] s3 (blocks & Hok & Hst3). cbn [app] in Hst3.
  assert (forall e s4, halted s (concat blocks) False s4 -> Q (Some e) s4) as Hlate.
  { intros e s4 [_ (new & Hc & Hp & Hall)]. exists new, plans, blocks.
    split_and!; [done..| |done|by intros _ ?%Hall]. by rewrite Hp. }
  assert (forall e s4, at_stage s (concat blocks) s4 -> ~ limits_ok (reader s) ->
            Q (Some e) s4) as Hconv.
  { intros e s4 [_ (new & Hc & Hp & Hall)] Hbad. exists new, plans, blocks.
    split_and!; [done..| |done|]. { by rewrite Hp. }
    intros _ _. split; [done|]. by intros ?%Hbad. }
  assert (forall k tpRL rl e,
            (k, tpRL) ∈ map_to_list (resLimits (reader s)) ->
            APItoResourceLimit tpRL (timezone (reader s)) = (rl, Some e) ->
            ~ limits_ok (reader s)) as Hbad.
  { intros k tpRL rl e Hin%elem_of_map_to_list Hc Hlim.
    specialize (Hlim k tpRL Hin). by rewrite Hc in Hlim. }
  clear Hearly s1 Hst1 s2 Hst2.
  apply (triple_quiet_phase s) with (P := concat blocks); [quiet_write|done| |done]. clear s3 Hst3. intros s3 Hst3.
  apply (triple_quiet_phase s) with (P := concat blocks); [quiet_write|done| |done]. clear s3 Hst3. intros s3 Hst3.
  apply (triple_quiet_phase s) with (P := concat blocks); [quiet_write|done| |done]. clear s3 Hst3. intros s3 Hst3.
  apply (triple_quiet_phase s) with (P := concat blocks); [quiet_write|done| |done]. clear s3 Hst3. intros s3 Hst3.
  apply (triple_quiet_phase s) with (P := concat blocks); [quiet_write|done| |done]. clear s3 Hst3. intros s3 Hst3.
  apply (triple_quiet_phase s) with (P := concat blocks); [quiet_write|done| |done]. clear s3 Hst3. intros s3 Hst3.
  apply (triple_quiet_phase s) with (P := concat blocks); [quiet_write|done| |done]. clear s3 Hst3. intros s3 Hst3.
  apply (triple_quiet_phase s) with (P := concat blocks); [quiet_write|done| |done]. clear s3 Hst3. intros s3 Hst3.
  apply (triple_quiet_phase s) with (P := concat blocks); [quiet_write|done| |done]. clear s3 Hst3. intros s3 Hst3.
  (* the resource limits *)
  apply triple_bind.
  eapply triple_conseq; [by apply (triple_range_stage s)|..]; [|done..].
  intros limits s4 [Hlimits Hst4]. apply triple_bind.
  eapply triple_conseq;
    [apply (triple_for_each (fun _ s5 => at_stage s (concat blocks) s5) limits _ s4
              Q (fun _ => False)); [done|]|..]; [| |done|done].
  { intros done [k tpRL] rest s5 Hl Hst5.
    destruct (APItoResourceLimit tpRL _) as [rl [e|]] eqn:Hc.
    - apply triple_return. apply Hconv; [done|]. apply (Hbad k tpRL rl e); [|done].
      rewrite <-Hlimits, Hl. apply elem_of_app. right. left.
    - eapply triple_conseq;
        [by apply (triple_db_write_quiet s Hsome _ (concat blocks) s5 False)|..];
        [done| |done].
      intros r s6 [[e ->] Hh]. by apply Hlate. }
  clear s3 Hst3 s4 Hst4. intros [] s3 Hst3.
  assert (forall s4, at_stage s (concat blocks) s4 ->
            triple (return_ None : M (option Error) (option Error)) s4 Q Q (fun _ => False))
    as Hfinal.
  { intros s4 [_ (new & Hc & Hp & Hall)]. apply triple_return. exists new, plans, blocks.
    split_and!; [done..| |done|done]. by rewrite Hp. }
  assert (forall (c : Call) s4, (forall r, pushed [(c, r)] = []) ->
            at_stage s (concat blocks) s4 ->
            forall (b : bool) {A} (k : M (option Error) A) Qn,
              (forall s5, at_stage s (concat blocks) s5 -> triple k s5 Qn Q (fun _ => False)) ->
              triple ((if b then db_write c else ret tt);; k) s4 Qn Q (fun _ => False))
    as Hopt.
  { intros c s4 Hc Hst4 b A k Qn Hk. destruct b.
    - by apply (triple_quiet_write s Hsome _ _ (concat blocks)).
    - apply triple_bind, triple_ret'. by apply Hk. }
  apply triple_bind.
  destruct disable_reverse; cbn [negb].
  { apply triple_ret'. by apply Hfinal. }
  apply Hopt; [done|done|]. clear s3 Hst3. intros s3 Hst3.
  apply Hopt; [done|done|]. clear s3 Hst3. intros s3 Hst3.
  apply Hopt; [done|done|]. clear s3 Hst3. intros s3 Hst3.
  destruct (negb _); [|apply triple_ret'; by apply Hfinal].
  apply (triple_quiet_write s Hsome _ _ (concat blocks)); [done|done| |done].
  clear s3 Hst3. intros s3 Hst3.
  apply triple_bind.
  eapply triple_conseq; [by apply (triple_range_stage s)|..]; [|done..].
  intros l s4 [Hl4 Hst4]. apply triple_bind.
  eapply triple_conseq;
    [apply (triple_for_fold (fun _ _ s5 => at_stage s (concat blocks) s5) l []
              _ s4 Q (fun _ => False)); [done|]|..]; [| |done|done].
  - intros done [k tpRL] rest rls s5 Hl Hst5.
    destruct (APItoResourceLimit tpRL _) as [rl [e|]] eqn:Hc.
    + apply triple_return. apply Hconv; [done|]. apply (Hbad k tpRL rl e); [|done].
      rewrite <-Hl4, Hl. apply elem_of_app. right. left.
    + by apply triple_ret'.
  - intros rls s5 Hst5.
    eapply triple_conseq;
      [exact (triple_db_write_quiet s Hsome (StoreIndexes rls) (concat blocks) s5 False
                (fun r => eq_refl) Hst5)|..]; [| |done].
    + intros [] s6 Hst6. by apply Hfinal.
    + intros r s6 [[e ->] Hst6]. by apply Hlate.
Qed.

(** C3. [WriteToDatabase] always returns; the tasks it pushes are those of
    the action-timings of the action plans, plan after plan in the order
    the plans are visited and timing after timing: for a timing that is not
    [*asap] none; for an [*asap] timing of a plan with no bound account one
    task with no account id and the timing's actions id; for an [*asap]
    timing of a plan with bound accounts one task per bound account, with
    that account's id and the timing's actions id. All of them are pushed
    when the method returns nil, and when a store is attached and no call
    answered with an error - as is the case with a store that refuses no
    call - and then the method returns nil if the resource limits convert.
    When a store write fails the method returns its error and the tasks
    pushed by then are the first of these. *)
Theorem WriteToDatabase_tasks flush verbose disable_reverse s :
  exists r s' new plans blocks,
    run (WriteToDatabase flush verbose disable_reverse) s = (Some r, s') /\
    calls_between s s' new /\
    plans ≡ₚ map_to_list (actionPlans (reader s)) /\
    Forall2 tasks_ok (plan_timings plans) blocks /\
    pushed new `prefix_of` concat blocks /\
    (r = None -> pushed new = concat blocks) /\
    (is_Some (dataStorage (reader s)) -> all_answered new ->
     pushed new = concat blocks /\ (limits_ok (reader s) -> r = None)) /\
    (forall db, dataStorage (reader s) = Some db ->
       (forall st c, reply_err (db_exec db st c).2 = None) -> all_answered new).
Proof.
  destruct (WriteToDatabase_pushes flush verbose disable_reverse s)
    as (r & s' & new & plans & blocks & Hrun & Hc & Hperm & Hok & Hpre & Hnil & Hall).
  exists r, s', new, plans, blocks. split_and!; [done..|].
  intros db Hdb Hagree.
  destruct (keeps_run _ _ s
              (WriteToDatabase_answered s db Hagree flush verbose disable_reverse))
    as (_ & new' & Hc' & Hall').
  { split; [done|]. exists []. split; [|constructor].
    unfold calls_between. by rewrite app_nil_r. }
  rewrite Hrun in Hc'. unfold calls_between in *. cbn in Hc'. rewrite Hc in Hc'.
  by apply app_inv_head in Hc' as ->.
Qed.

(** *** The load-all methods and the store *)

Section Probes.

Variables (s : State) (pfx : Prefix) (absent : string -> Prop).




End Probes.




(** *** [LoadRatingPlansFiltered] *)

Lemma for_fold_app {R A B} (l1 l2 : list A) (b : B) (body : B -> A -> M R B) s :
  for_fold (l1 ++ l2) b body s =
  match for_fold l1 b body s with
  | (Next b1, s1) => for_fold l2 b1 body s1
  | (Return r, s1) => (Return r, s1)
  | (Panic, s1) => (Panic, s1)
  end.
Proof.
  revert b s. induction l1 as [|x l1 IH]; intros b s; [done|].
  cbn [app for_fold]. unfold mbind, M_bind, bind.
  destruct (body b x s) as [[b1|r|] s1]; [apply IH|done..].
Qed.

(** What a statement gives when it goes on, read off a triple. *)
Lemma triple_next {R A} (m : M R A) s (Qn : A -> State -> Prop) a s' :
  triple m s Qn (fun _ _ => True) (fun _ => True) ->
  m s = (Next a, s') -> Qn a s'.
Proof. unfold triple. intros H Heq. by rewrite Heq in H. Qed.

Lemma rating_plan_writes_app cs1 cs2 :
  rating_plan_writes (cs1 ++ cs2) = rating_plan_writes cs1 ++ rating_plan_writes cs2.
Proof. apply omap_app. Qed.

Lemma no_plan_written_refl s : no_plan_written s s.
Proof. done. Qed.

Lemma no_plan_written_call s1 s2 c r st' :
  no_plan_written s1 s2 -> rating_plan_writes [(c, r)] = [] ->
  no_plan_written s1
    (mkState (reader s2)
       (mkWorld st' (calls (world s2) ++ [(c, r)]) (uuids (world s2)) (ranges (world s2)))).
Proof.
  intros [Hrd Hw] Hc. split; [done|]. cbn [calls world].
  by rewrite rating_plan_writes_app, Hc, app_nil_r.
Qed.

(** The loops inside the building of one plan write no rating plan and
    keep the id of the plan being built. *)
Lemma load_destination_rate_writes tpr rp ratingPlan drate s0 s1 :
  no_plan_written s0 s1 ->
  triple (load_destination_rate tpr rp ratingPlan drate) s1
    (fun rpl s2 => rp_Id rpl = rp_Id ratingPlan /\ no_plan_written s0 s2)
    (fun _ _ => True) (fun _ => True).
Proof.
  intros Hs1. unfold load_destination_rate.
  destruct (GetTPRates _ _ _) as [tprt err].
  destruct (_ || _); [done|].
  destruct (MapTPRates tprt) as [rt [e|]]; [done|].
  case_bool_decide; [by apply triple_ret'|].
  destruct (GetTPDestinations _ _ _) as [tpDests [e|]]; [done|].
  destruct (_ && _).
  { apply triple_bind, triple_db_call; [done|]. intros r st' _.
    destruct (reply_err r); [done|]. apply triple_ret'. split; [done|].
    by apply no_plan_written_call. }
  destruct (negb _); [done|].
  apply triple_bind.
  eapply triple_conseq;
    [apply (triple_loop (no_plan_written s0) _ _ _ (fun _ _ => True) (fun _ => True))|..];
    [done| |intros [] s2 H2; by apply triple_ret'|done|done].
  intros destination s2 H2.
  apply triple_bind, triple_db_call; [done|]. intros r st' _.
  apply triple_bind, triple_db_call; [done|]. intros r2 st2 _.
  apply triple_ret'.
  pose proof (no_plan_written_call s0 s2 _ r st' H2 (eq_refl : rating_plan_writes
    [(SetDestination destination NonTransactional, r)] = [])) as H3.
  exact (no_plan_written_call s0 _ _ r2 st2 H3 (eq_refl : rating_plan_writes
    [(SetReverseDestination destination NonTransactional, r2)] = [])).
Qed.

Lemma load_binding_writes tpr ratingPlan rp s0 s1 :
  no_plan_written s0 s1 ->
  triple (load_binding tpr ratingPlan rp) s1
    (fun rpl s2 => rp_Id rpl = rp_Id ratingPlan /\ no_plan_written s0 s2)
    (fun _ _ => True) (fun _ => True).
Proof.
  intros Hs1. unfold load_binding.
  destruct (GetTPTimings _ _ _) as [tptm err].
  destruct (_ || _); [done|].
  destruct (MapTPTimings tptm) as [tm [e|]]; [done|].
  destruct (GetTPDestinationRates _ _ _) as [tpdrm err2].
  destruct (_ || _); [done|].
  destruct (MapTPDestinationRates tpdrm) as [drm [e|]]; [done|].
  destruct (drm !! _) as [drs|]; [|done].
  apply (triple_for_fold
           (fun _ rpl s2 => rp_Id rpl = rp_Id ratingPlan /\ no_plan_written s0 s2));
    [done|].
  intros done drate rest rpl s2 _ [Hid H2].
  eapply triple_conseq; [by apply (load_destination_rate_writes _ _ _ _ s0)|..]; [|done..].
  intros rpl2 s3 [Hid2 H3]. split; [congruence|done].
Qed.

Lemma load_bindings_writes tpr tag rplBnds s0 s1 :
  no_plan_written s0 s1 ->
  triple (for_fold rplBnds (mkRatingPlan tag RatingPlanBody_zero) (load_binding tpr)) s1
    (fun rpl s2 => rp_Id rpl = tag /\ no_plan_written s0 s2)
    (fun _ _ => True) (fun _ => True).
Proof.
  intros Hs1.
  apply (triple_for_fold (fun _ rpl s2 => rp_Id rpl = tag /\ no_plan_written s0 s2));
    [done|].
  intros done rp rest rpl s2 _ [Hid H2].
  eapply triple_conseq; [by apply (load_binding_writes _ _ _ s0)|..]; [|done..].
  intros rpl2 s3 [Hid2 H3]. split; [congruence|done].
Qed.

(** A plan whose turn goes on has been written, once, and nothing else. *)
Lemma load_rating_plan_next tpr tag rplBnds s1 s2 :
  load_rating_plan tpr (tag, rplBnds) s1 = (Next tt, s2) ->
  reader s2 = reader s1 /\
  rating_plan_writes (calls (world s2)) = rating_plan_writes (calls (world s1)) ++ [tag].
Proof.
  apply (triple_next (load_rating_plan tpr (tag, rplBnds)) s1
           (fun _ s2 => reader s2 = reader s1 /\
              rating_plan_writes (calls (world s2))
                = rating_plan_writes (calls (world s1)) ++ [tag]) tt s2).
  unfold load_rating_plan.
  apply triple_bind.
  eapply triple_conseq; [by apply (load_bindings_writes _ _ _ s1)|..]; [|done..].
  intros rpl s3 [Hid [Hrd Hw]].
  apply triple_bind, triple_db_call; [done|]. intros r st' _.
  destruct (reply_err r); [done|]. apply triple_ret'. split; [done|]. cbn [calls world].
  by rewrite rating_plan_writes_app, Hw, <-Hid.
Qed.

Lemma load_rating_plans_next tpr before s s1 :
  for_each before (load_rating_plan tpr) s = (Next tt, s1) ->
  reader s1 = reader s /\
  rating_plan_writes (calls (world s1))
    = rating_plan_writes (calls (world s)) ++ before.*1.
Proof.
  revert s. induction before as [|[tag rplBnds] before IH]; intros s.
  - intros [= <-]. by rewrite app_nil_r.
  - cbn [for_each]. unfold mbind, M_bind, bind.
    destruct (load_rating_plan tpr (tag, rplBnds) s) as [[[]|r|] s2] eqn:Hplan; [|done..].
    intros Hrest. apply load_rating_plan_next in Hplan as [Hrd Hw].
    apply IH in Hrest as [Hrd' Hw']. split; [congruence|].
    rewrite Hw', Hw. cbn. by rewrite <-(assoc_L (++)).
Qed.

(** C6, as the code has it. Let the bindings the source yields for the call
    be those of the plans [before], then those of a plan [ptag], then
    others; let the plans [before] load, and the bindings [pre] of [ptag]
    load; let the next binding [rp] of [ptag] have a timing in the source
    and a DestinationRates id for which the source yields no rows. Then
    [LoadRatingPlansFiltered] returns false and an error that names that id,
    and the rating plans written to the store by the call are those of the
    plans [before], one each: neither [ptag] nor a later plan is written,
    and no plan at all when [ptag] is the first. *)
Theorem LoadRatingPlansFiltered_missing_rates s tag mpRpls before ptag pre rp post after
    s1 rpl s2 tptm :
  GetTPRatingPlans (lr (reader s)) (tpid (reader s)) tag = (mpRpls, None) ->
  mpRpls <> [] ->
  MapTPRatingPlanBindings mpRpls = before ++ (ptag, pre ++ rp :: post) :: after ->
  for_each before (load_rating_plan (reader s)) s = (Next tt, s1) ->
  for_fold pre (mkRatingPlan ptag RatingPlanBody_zero) (load_binding (reader s)) s1
    = (Next rpl, s2) ->
  GetTPTimings (lr (reader s)) (tpid (reader s)) (TimingId rp) = (tptm, None) ->
  tptm <> [] ->
  (MapTPTimings tptm).2 = None ->
  GetTPDestinationRates (lr (reader s)) (tpid (reader s)) (DestinationRatesId rp)
    = ([], None) ->
  run (LoadRatingPlansFiltered tag) s =
    (Some (false, Some ("no DestinationRates profile with id "
                        +:+ DestinationRatesId rp +:+ ": <nil>")), s2) /\
  rating_plan_writes (calls (world s2))
    = rating_plan_writes (calls (world s)) ++ before.*1 /\
  (before = [] ->
   rating_plan_writes (calls (world s2)) = rating_plan_writes (calls (world s))).
Proof.
  intros Hget Hne Hmap Hbefore Hpre Htm Htmne Htmok Hdr.
  assert (rating_plan_writes (calls (world s2))
            = rating_plan_writes (calls (world s)) ++ before.*1) as Hw.
  { apply load_rating_plans_next in Hbefore as [Hrd Hw1].
    pose proof (triple_next _ _ _ _ _
                  (load_bindings_writes (reader s) ptag pre s1 s1 (no_plan_written_refl s1))
                  Hpre) as [_ [_ Hw2]].
    by rewrite Hw2, Hw1. }
  split_and!; [|done|intros ->; by rewrite Hw, app_nil_r].
  assert (load_binding (reader s) rpl rp s2 =
            (Return (false, Some ("no DestinationRates profile with id "
                                  +:+ DestinationRatesId rp +:+ ": <nil>")), s2)) as Hrp.
  { unfold load_binding. rewrite Htm.
    rewrite (bool_decide_eq_false_2 (is_Some None)) by (by intros [? ?]).
    rewrite bool_decide_eq_false_2 by (by destruct tptm).
    cbn [orb]. destruct (MapTPTimings tptm) as [tm err]. cbn in Htmok. subst err.
    cbn [SetTiming DestinationRatesId]. rewrite Hdr. done. }
  unfold run, LoadRatingPlansFiltered, mbind, M_bind, bind, get_reader.
  rewrite Hget, bool_decide_eq_false_2 by (by destruct mpRpls).
  rewrite Hmap, for_each_app, Hbefore. cbn [for_each].
  unfold mbind, M_bind, bind, load_rating_plan at 1.
  unfold mbind, M_bind, bind. rewrite for_fold_app, Hpre. cbn [for_fold].
  unfold mbind, M_bind, bind. by rewrite Hrp.
Qed.


(** *** Further methods: construction, destinations, resource limits *)

Section More.

Context {Acc : Accessors}.

(** A map filled by a loop of assignments holds, under a key, what the
    last element with that key gave. *)
Lemma foldl_insert_last {A V} (kf : A -> string) (vf : A -> V) (l : list A)
    (m0 : gmap string V) k :
  foldl (fun m x => <[kf x := vf x]> m) m0 l !! k =
    match last (filter (fun x => kf x = k) l) with
    | Some x => Some (vf x)
    | None => m0 !! k
    end.
Proof.
  induction l as [|x l IH] using rev_ind; [done|].
  rewrite foldl_app, filter_app. cbn [foldl]. rewrite filter_cons, filter_nil.
  destruct (decide (kf x = k)) as [<-|Hne].
  - by rewrite last_snoc, lookup_insert_eq.
  - by rewrite app_nil_r, lookup_insert_ne.
Qed.

(** A loop whose body only computes. *)
Lemma for_fold_pure {R A B} (f : B -> A -> B) (l : list A) (b : B) s :
  for_fold l b (fun b x => ret (f b x) : M R B) s = (Next (foldl f b l), s).
Proof. revert b. induction l as [|x l IH]; intros b; [done|]. cbn. apply IH. Qed.

(** X5. A reader fresh from [NewTpReader] holds the four sentinel timings
    and no other: [*any] with start time 00:00:00, and [*asap],
    [*every_minute], [*hourly] with their own tag as start time. It holds no
    id of any category [GetLoadedIds] knows. *)
Theorem NewTpReader_holds db lr_ tpid_ timezone_ :
  (forall tag t,
     timings (NewTpReader db lr_ tpid_ timezone_) !! tag = Some t <->
     tag ∈ [ANY; ASAP; MetaEveryMinute; MetaHourly] /\
     t = sentinel_timing tag (if bool_decide (tag = ANY) then "00:00:00" else tag)) /\
  (forall c, loaded_ids (NewTpReader db lr_ tpid_ timezone_) c = ∅).
Proof.
  split.
  - intros tag t. unfold NewTpReader. cbn.
    rewrite !elem_of_cons, elem_of_nil.
    destruct (decide (tag = MetaHourly)) as [->|H1];
      [rewrite lookup_insert_eq, bool_decide_eq_false_2 by done
      |rewrite lookup_insert_ne by done].
    { split; [intros [= <-]; split; [tauto|done]|by intros [_ ->]]. }
    destruct (decide (tag = MetaEveryMinute)) as [->|H2];
      [rewrite lookup_insert_eq, bool_decide_eq_false_2 by done
      |rewrite lookup_insert_ne by done].
    { split; [intros [= <-]; split; [tauto|done]|by intros [_ ->]]. }
    destruct (decide (tag = ASAP)) as [->|H3];
      [rewrite lookup_insert_eq, bool_decide_eq_false_2 by done
      |rewrite lookup_insert_ne by done].
    { split; [intros [= <-]; split; [tauto|done]|by intros [_ ->]]. }
    destruct (decide (tag = ANY)) as [->|H4];
      [rewrite lookup_insert_eq, bool_decide_eq_true_2 by done
      |rewrite lookup_insert_ne by done].
    { split; [intros [= <-]; split; [tauto|done]|by intros [_ ->]]. }
    rewrite lookup_empty. split; [done|]. intros [[?|[?|[?|[?|[]]]]] _]; done.
  - intros c. unfold NewTpReader. destruct c as [[]| | | | | | | | |]; cbn; apply dom_empty_L.
Qed.

(** X6. [LoadDestinationsFiltered] with nothing to load leaves everything
    as it was: on an error of the source it returns false and the error, on
    no rows false and nil, and no transaction id is drawn. With rows and no
    store attached it panics at the first write, after the id was drawn. *)
Theorem LoadDestinationsFiltered_nothing_to_load s tag tpDests err :
  GetTPDestinations (lr (reader s)) (tpid (reader s)) tag = (tpDests, err) ->
  (err <> None \/ tpDests = [] ->
   run (LoadDestinationsFiltered tag) s = (Some (false, err), s)) /\
  (err = None -> tpDests <> [] -> dataStorage (reader s) = None ->
   exists s', run (LoadDestinationsFiltered tag) s = (None, s') /\
     reader s' = reader s /\
     calls (world s') = calls (world s) /\
     uuids (world s') = S (uuids (world s))).
Proof.
  intros Hget. split.
  - intros Hnone. unfold run, LoadDestinationsFiltered, mbind, M_bind, bind, get_reader.
    rewrite Hget. destruct err as [e|]; [done|].
    destruct Hnone as [?| ->]; done.
  - intros -> Hne Hdb. unfold run, LoadDestinationsFiltered, mbind, M_bind, bind, get_reader.
    rewrite Hget. destruct tpDests as [|tpDst rest]; [done|].
    rewrite bool_decide_eq_false_2 by done.
    unfold GenUUID. cbn [for_each]. unfold mbind, M_bind, bind, db_call. cbn. rewrite Hdb.
    by eexists.
Qed.

(** X7. How [LoadTimings] fails. On an error of the source it returns the
    error and leaves everything as it was. On an error of the mapper it
    returns the error after it replaced the timings by what the mapper gave
    and set the two sentinels. When the mapper hands back a nil map it
    panics, the timings lost. *)
Theorem LoadTimings_failures s tps err :
  GetTPTimings (lr (reader s)) (tpid (reader s)) "" = (tps, err) ->
  (forall e, err = Some e -> run LoadTimings s = (Some (Some e), s)) /\
  (err = None -> forall m e, MapTPTimings tps = (Some m, e) ->
   exists s', run LoadTimings s = (Some e, s') /\
     world s' = world s /\
     timings (reader s')
       = <[ASAP := sentinel_timing ASAP ASAP]> (<[ANY := sentinel_timing ANY "00:00:00"]> m)) /\
  (err = None -> (MapTPTimings tps).1 = None ->
   exists s', run LoadTimings s = (None, s') /\ timings (reader s') = ∅).
Proof.
  intros Hget. split_and!.
  - intros e ->. unfold run, LoadTimings, mbind, M_bind, bind, get_reader.
    by rewrite Hget.
  - intros -> m e Hmap. unfold run, LoadTimings, mbind, M_bind, bind, get_reader.
    rewrite Hget, Hmap. cbn. by eexists.
  - intros -> Hmap. unfold run, LoadTimings, mbind, M_bind, bind, get_reader.
    rewrite Hget. destruct (MapTPTimings tps) as [[m|] e]; [done|]. cbn. by eexists.
Qed.

(** One prefix indexed: the id is appended to the prefix's entry, made if
    need be. *)
Lemma index_prefix_run id prfx s :
  index_prefix id prfx s =
    (Next tt,
     mkState (set_revDests (reader s)
                (<[prfx := default [] (revDests (reader s) !! prfx) ++ [id]]>
                   (revDests (reader s))))
       (world s)).
Proof.
  unfold index_prefix, mbind, M_bind, bind, modify_reader. cbn.
  destruct (revDests (reader s) !! prfx) as [l|] eqn:Hl; cbn.
  - by rewrite Hl.
  - by rewrite lookup_insert_eq, insert_insert_eq.
Qed.

Lemma indexed_lookup id m ps q :
  default [] (indexed id m ps !! q)
    = default [] (m !! q) ++ ((fun _ => id) <$> filter (fun p => p = q) ps) /\
  (is_Some (indexed id m ps !! q) <-> is_Some (m !! q) \/ q ∈ ps).
Proof.
  unfold indexed. induction ps as [|p ps IH] using rev_ind.
  - cbn. rewrite app_nil_r. split; [done|]. rewrite elem_of_nil. tauto.
  - rewrite foldl_app, filter_app, fmap_app, elem_of_app, list_elem_of_singleton.
    cbn [foldl]. rewrite filter_cons, filter_nil. destruct IH as [IH1 IH2].
    destruct (decide (p = q)) as [->|Hne].
    + rewrite lookup_insert_eq. cbn. rewrite IH1, (assoc_L (++)). split; [done|].
      split; [auto|by eexists].
    + rewrite lookup_insert_ne by done. cbn. rewrite app_nil_r. split; [done|].
      rewrite IH2. split; [tauto|]. intros [?|[?|?]]; [tauto..|congruence].
Qed.

Lemma index_prefixes_run id ps s :
  for_each ps (index_prefix id) s =
    (Next tt,
     mkState (set_revDests (reader s) (indexed id (revDests (reader s)) ps)) (world s)).
Proof.
  revert s. induction ps as [|p ps IH]; intros s.
  - by destruct s as [[] ?].
  - cbn [for_each]. unfold mbind, M_bind, bind. rewrite index_prefix_run, IH. done.
Qed.

(** One row loaded. *)
Lemma load_destination_run tpDst s :
  load_destination tpDst s =
    (Next tt,
     mkState
       (set_revDests
          (set_destinations (reader s)
             (<[TPDestination_ID tpDst := NewDestinationFromTPDestination tpDst]>
                (destinations (reader s))))
          (indexed (TPDestination_ID tpDst) (revDests (reader s))
             (Prefixes (NewDestinationFromTPDestination tpDst))))
       (world s)).
Proof.
  unfold load_destination, mbind, M_bind, bind, modify_reader, get_reader. cbn.
  rewrite lookup_insert_eq, index_prefixes_run. done.
Qed.

(** The loop of [LoadDestinations] over the rows [tps]. *)
Lemma load_destinations_loop tps s :
  exists s',
    for_each tps load_destination s = (Next tt, s') /\
    world s' = world s /\
    reader s' = set_revDests (set_destinations (reader s) (destinations (reader s')))
                  (revDests (reader s')) /\
    destinations (reader s')
      = foldl (fun m tp => <[TPDestination_ID tp := NewDestinationFromTPDestination tp]> m)
          (destinations (reader s)) tps /\
    (forall prfx,
       default [] (revDests (reader s') !! prfx)
         = default [] (revDests (reader s) !! prfx) ++ listed_under prfx tps) /\
    (forall prfx,
       is_Some (revDests (reader s') !! prfx) <->
       is_Some (revDests (reader s) !! prfx) \/
       exists tp, tp ∈ tps /\ prfx ∈ Prefixes (NewDestinationFromTPDestination tp)).
Proof.
  induction tps as [|tp tps IH] using rev_ind.
  - exists s. split_and!; [done|done|by destruct s as [[] ?]|done| |].
    + intros prfx. by rewrite app_nil_r.
    + intros prfx. split; [auto|]. intros [?|(tp & []%elem_of_nil & _)]. done.
  - destruct IH as (s1 & Hloop & Hw & Hrd & Hd & Hidx & Hkey).
    eexists. split_and!.
    + rewrite for_each_app, Hloop. cbn [for_each]. unfold mbind, M_bind, bind.
      rewrite load_destination_run. reflexivity.
    + done.
    + cbn. rewrite Hrd. done.
    + cbn. by rewrite foldl_app, Hd.
    + intros prfx. cbn.
      destruct (indexed_lookup (TPDestination_ID tp) (revDests (reader s1))
                  (Prefixes (NewDestinationFromTPDestination tp)) prfx) as [-> _].
      rewrite Hidx. unfold listed_under. rewrite flat_map_app. cbn.
      by rewrite app_nil_r, (assoc_L (++)).
    + intros prfx. cbn.
      destruct (indexed_lookup (TPDestination_ID tp) (revDests (reader s1))
                  (Prefixes (NewDestinationFromTPDestination tp)) prfx) as [_ ->].
      rewrite Hkey. split.
      * intros [[?|(tp' & Hin & Hp)]|Hp]; [by left| |].
        -- right. exists tp'. split; [|done]. apply elem_of_app. by left.
        -- right. exists tp. split; [|done]. apply elem_of_app. right. left.
      * intros [?|(tp' & [Hin| ->%list_elem_of_singleton]%elem_of_app & Hp)].
        -- by left; left.
        -- left. right. by exists tp'.
        -- by right.
Qed.

Lemma LoadDestinations_run s tps s' :
  GetTPDestinations (lr (reader s)) (tpid (reader s)) "" = (tps, None) ->
  for_each tps load_destination s = (Next tt, s') ->
  run LoadDestinations s = (Some None, s').
Proof.
  intros Hget Hloop. unfold run, LoadDestinations, mbind, M_bind, bind, get_reader.
  by rewrite Hget, Hloop.
Qed.

(** X8. [LoadDestinations] on a source that answers: it returns nil and
    does not panic; of the reader it changes the destinations and the
    reverse index only, and it leaves the store alone. Under an id the
    destinations hold what the last row with that id gave, else what they
    held. Under a prefix the reverse index holds what it held, followed by
    the ids of the rows that name the prefix, row after row - so a second
    load lists every id a second time - and a prefix gets an entry only if
    it had one or a row names it. On an error of the source the error is
    returned and nothing changes. *)
Theorem LoadDestinations_index s tps err :
  GetTPDestinations (lr (reader s)) (tpid (reader s)) "" = (tps, err) ->
  (forall e, err = Some e -> run LoadDestinations s = (Some (Some e), s)) /\
  (err = None ->
   exists s',
     run LoadDestinations s = (Some None, s') /\
     world s' = world s /\
     reader s' = set_revDests (set_destinations (reader s) (destinations (reader s')))
                   (revDests (reader s')) /\
     (forall id,
        destinations (reader s') !! id =
          match last (filter (fun tp => TPDestination_ID tp = id) tps) with
          | Some tp => Some (NewDestinationFromTPDestination tp)
          | None => destinations (reader s) !! id
          end) /\
     (forall prfx,
        default [] (revDests (reader s') !! prfx)
          = default [] (revDests (reader s) !! prfx) ++ listed_under prfx tps) /\
     (forall prfx,
        is_Some (revDests (reader s') !! prfx) <->
        is_Some (revDests (reader s) !! prfx) \/
        exists tp, tp ∈ tps /\ prfx ∈ Prefixes (NewDestinationFromTPDestination tp))).
Proof.
  intros Hget. split.
  { intros e ->. unfold run, LoadDestinations, mbind, M_bind, bind, get_reader.
    by rewrite Hget. }
  intros ->.
  destruct (load_destinations_loop tps s) as (s' & Hloop & Hw & Hrd & Hd & Hidx & Hkey).
  exists s'. split_and!; [by apply (LoadDestinations_run s tps)|done..| |done|done].
  intros id. rewrite Hd. apply foldl_insert_last.
Qed.

(** X9. [LoadResourceLimitsFiltered] on a source that answers returns nil
    and replaces the resource limits: under an id they hold the last row
    with that id, and nothing of what was loaded before. On an error of the
    source the error is returned and nothing changes. Nothing but the
    resource limits is touched. *)
Theorem LoadResourceLimitsFiltered_last_wins s tag rls err :
  GetTPResourceLimits (lr (reader s)) (tpid (reader s)) tag = (rls, err) ->
  (forall e, err = Some e -> run (LoadResourceLimitsFiltered tag) s = (Some (Some e), s)) /\
  (err = None ->
   exists s',
     run (LoadResourceLimitsFiltered tag) s = (Some None, s') /\
     world s' = world s /\
     reader s' = set_resLimits (reader s) (resLimits (reader s')) /\
     forall id,
       resLimits (reader s') !! id
         = last (filter (fun rl => TPResourceLimit_ID rl = id) rls)).
Proof.
  intros Hget. split.
  - intros e ->. unfold run, LoadResourceLimitsFiltered, mbind, M_bind, bind, get_reader.
    by rewrite Hget.
  - intros ->. eexists. split_and!.
    + unfold run, LoadResourceLimitsFiltered, mbind, M_bind, bind, get_reader.
      rewrite Hget.
      rewrite (for_fold_pure (fun mapRLs rl => <[TPResourceLimit_ID rl := rl]> mapRLs)).
      cbn. reflexivity.
    + done.
    + done.
    + intros id. cbn.
      rewrite (foldl_insert_last TPResourceLimit_ID (fun rl => rl)), lookup_empty.
      by destruct (last _).
Qed.

(** *** [GetLoadedIds] and [IsValid] *)

(** The loop that fills the slice of keys stays within it, and fills it
    with the keys in the order the map is visited. *)
Lemma triple_loaded_keys {R V} (m : gmap string V) s (Qr : R -> State -> Prop) :
  triple (loaded_keys m) s
    (fun keys s' => keys ≡ₚ (map_to_list m).*1 /\ untouched s s')
    Qr (fun _ => False).
Proof.
  unfold loaded_keys. apply triple_bind, triple_range. intros l Hl.
  assert (length l = size m) as Hlen by (by rewrite Hl, length_map_to_list).
  apply triple_bind.
  match goal with |- triple _ ?s1 _ _ _ => set (s1' := s1) end.
  eapply triple_conseq;
    [apply (triple_for_fold
              (fun done (st : list string * nat) s2 =>
                 s2 = s1' /\ st.2 = length done /\ length st.1 = size m /\
                 take (length done) st.1 = done.*1)
              l _ _ s1' Qr (fun _ => False))|..].
  - cbn. split_and!; [done|done|by rewrite length_replicate|done].
  - intros done x rest [keys i] s2 Hl' (-> & Hi & Hk & Htake). cbn in Hi, Hk, Htake. cbn.
    assert (i < length keys) as Hlt.
    { rewrite Hk, <-Hlen, Hl', length_app. cbn. lia. }
    rewrite bool_decide_eq_true_2 by done. apply triple_ret'. cbn.
    split_and!; [done|rewrite length_app; cbn; lia|by rewrite length_insert|].
    rewrite length_app, fmap_app. cbn. rewrite Nat.add_1_r, <-Hi.
    rewrite (take_S_r _ _ x.1) by (by apply list_lookup_insert_eq).
    rewrite take_insert_ge by lia. by rewrite Hi, Htake.
  - intros [keys i] s2 (-> & Hi & Hk & Htake). apply triple_ret'. cbn in *. split.
    + rewrite take_ge in Htake by lia. by rewrite Htake, Hl.
    + done.
  - done.
  - done.
Qed.

Lemma triple_loaded_keys_dom {R V} (m : gmap string V) s (Qr : R -> State -> Prop) :
  triple (loaded_keys m) s
    (fun keys s' => NoDup keys /\ (forall k, k ∈ keys <-> k ∈ dom m) /\ untouched s s')
    Qr (fun _ => False).
Proof.
  eapply triple_conseq; [apply triple_loaded_keys|..];
    [|intros r s' Hr; exact Hr|done].
  intros keys s' [Hperm Hun]. split_and!; [|intros k|done].
  - rewrite Hperm. apply NoDup_fst_map_to_list.
  - rewrite Hperm, elem_of_dom, list_elem_of_fmap. split.
    + intros ([k' v] & -> & Hin%elem_of_map_to_list). by exists v.
    + intros [v Hv]. exists (k, v). split; [done|]. by apply elem_of_map_to_list.
Qed.

Lemma triple_case_keys {R} tpr c s (Qr : R -> State -> Prop) :
  triple (case_keys tpr c) s
    (fun keys s' => NoDup keys /\ (forall k, k ∈ keys <-> k ∈ loaded_ids tpr c) /\
                    untouched s s')
    Qr (fun _ => False).
Proof. destruct c as [[]| | | | | | | | |]; apply triple_loaded_keys_dom. Qed.

(** Every category is a case of the switch. *)
Lemma switch_cases_all c : In c switch_cases.
Proof. destruct c as [[]| | | | | | | | |]; cbn; tauto. Qed.

(** The case the switch takes for the constant of a category, when no two
    constants are the same. *)
Lemma switch_finds c :
  (forall c1 c2, category_key c1 = category_key c2 -> c1 = c2) ->
  List.find (fun c' => bool_decide (category_key c = category_key c')) switch_cases = Some c.
Proof.
  intros Hinj.
  destruct (List.find _ switch_cases) as [c'|] eqn:Hf.
  - apply find_some in Hf as [_ Hk%bool_decide_eq_true]. by rewrite (Hinj _ _ Hk).
  - pose proof (find_none _ _ Hf c (switch_cases_all c)) as Hk.
    by apply bool_decide_eq_false in Hk.
Qed.

Lemma switch_misses categ :
  (forall c, categ <> category_key c) ->
  List.find (fun c => bool_decide (categ = category_key c)) switch_cases = None.
Proof.
  intros Hne. induction switch_cases as [|c l IH]; [done|].
  cbn. by rewrite bool_decide_eq_false_2.
Qed.

Lemma GetLoadedIds_case s c :
  (forall c1 c2, category_key c1 = category_key c2 -> c1 = c2) ->
  exists keys s',
    run (GetLoadedIds (category_key c)) s = (Some (keys, None), s') /\
    NoDup keys /\
    (forall k, k ∈ keys <-> k ∈ loaded_ids (reader s) c) /\
    untouched s s'.
Proof.
  intros Hinj.
  destruct (triple_run_total (GetLoadedIds (category_key c)) s
              (fun r s' => exists keys, r = (keys, None) /\ NoDup keys /\
                 (forall k, k ∈ keys <-> k ∈ loaded_ids (reader s) c) /\ untouched s s'))
    as (r & s' & Hrun & keys & -> & Hrest); [|by exists keys, s'].
  unfold GetLoadedIds. apply triple_bind, triple_get_reader.
  rewrite (switch_finds c Hinj). apply triple_bind.
  eapply triple_conseq; [apply triple_case_keys|..];
    [|intros r s' Hr; exact Hr|done].
  intros keys s' (Hnd & Hin & Hun). apply triple_return. by exists keys.
Qed.

(** X10. [GetLoadedIds], the constants of the categories being distinct
    texts: for the constant of a category it returns, with no error, the
    keys of the category's map, each once, in some order - the loop that
    fills the slice never leaves it - and touches nothing. For any other
    text it returns no ids and the error "Unsupported load category". *)
Theorem GetLoadedIds_keys s :
  (forall c1 c2, category_key c1 = category_key c2 -> c1 = c2) ->
  (forall c, exists keys s',
     run (GetLoadedIds (category_key c)) s = (Some (keys, None), s') /\
     NoDup keys /\
     (forall k, k ∈ keys <-> k ∈ loaded_ids (reader s) c) /\
     untouched s s') /\
  (forall categ, (forall c, categ <> category_key c) ->
     run (GetLoadedIds categ) s = (Some ([], Some "Unsupported load category"), s)).
Proof.
  intros Hinj. split.
  - intros c. by apply GetLoadedIds_case.
  - intros categ Hne. unfold run, GetLoadedIds, mbind, M_bind, bind, get_reader.
    by rewrite (switch_misses categ Hne).
Qed.

(** X11. [IsValid] always returns, and returns true exactly when every
    rating plan in memory is continuous and has no unsane rating and no
    unsane timing, whatever the order the plans are visited in; with no
    rating plan it returns true. It touches nothing. *)
Theorem IsValid_all_sane s :
  exists valid s',
    run IsValid s = (Some valid, s') /\
    (valid = true <->
     forall tag rpl, ratingPlans (reader s) !! tag = Some rpl -> sane rpl) /\
    (ratingPlans (reader s) = ∅ -> valid = true) /\
    untouched s s'.
Proof.
  destruct (triple_run_total IsValid s
              (fun valid s' =>
                 (valid = true <->
                  forall tag rpl, ratingPlans (reader s) !! tag = Some rpl -> sane rpl) /\
                 untouched s s'))
    as (valid & s' & Hrun & Hiff & Hun).
  2:{ exists valid, s'. split_and!; [done..| |done].
      intros Hempty. apply Hiff. intros tag rpl. by rewrite Hempty, lookup_empty. }
  unfold IsValid. apply triple_bind, triple_get_reader.
  apply triple_bind, triple_range. intros l Hl.
  apply triple_bind.
  match goal with |- triple _ ?s1 _ _ _ => set (s1' := s1) end.
  eapply triple_conseq;
    [apply (triple_for_fold
              (fun done (valid : bool) s2 =>
                 s2 = s1' /\ (valid = true <-> Forall (fun kv => sane kv.2) done))
              l _ _ s1' _ (fun _ => False))|..].
  - split; [done|]. split; [by constructor|done].
  - intros done [tag rpl] rest valid s2 _ (-> & Hv). apply triple_ret'. split; [done|].
    rewrite Forall_app, Forall_singleton, <-Hv. unfold sane. cbn.
    destruct (isContinous rpl), valid; repeat case_bool_decide; cbn;
      intuition discriminate.
  - intros valid s2 (-> & Hv). apply triple_return. split; [|done].
    rewrite Hv, Forall_forall. split.
    + intros Hall tag rpl Hin. apply (Hall (tag, rpl)). rewrite Hl.
      by apply elem_of_map_to_list.
    + intros Hall [tag rpl] Hin. apply (Hall tag). rewrite Hl in Hin.
      by apply elem_of_map_to_list in Hin.
  - intros r s2 Hr. exact Hr.
  - done.
Qed.

(** X12. What was loaded is what [GetLoadedIds] reports. After
    [LoadDestinations] on a fresh reader, the ids of the destination
    category are the ids of the rows, and the ids of the
    reverse-destination category are the prefixes the rows' destinations
    name. After [LoadResourceLimitsFiltered], the ids of the resource-limit
    category are the ids of the rows, whatever was loaded before. *)
Theorem GetLoadedIds_after_load db lr_ tpid_ timezone_ :
  (forall c1 c2, category_key c1 = category_key c2 -> c1 = c2) ->
  (forall tps w,
     GetTPDestinations lr_ tpid_ "" = (tps, None) ->
     exists s1 ids s2 prfxs s3,
       run LoadDestinations (mkState (NewTpReader db lr_ tpid_ timezone_) w)
         = (Some None, s1) /\
       run (GetLoadedIds (category_key (Cat DESTINATION_PREFIX))) s1
         = (Some (ids, None), s2) /\
       run (GetLoadedIds (category_key (Cat REVERSE_DESTINATION_PREFIX))) s2
         = (Some (prfxs, None), s3) /\
       NoDup ids /\ NoDup prfxs /\
       (forall id, id ∈ ids <-> exists tp, tp ∈ tps /\ TPDestination_ID tp = id) /\
       (forall p, p ∈ prfxs <->
          exists tp, tp ∈ tps /\ p ∈ Prefixes (NewDestinationFromTPDestination tp))) /\
  (forall s tag rls,
     GetTPResourceLimits (lr (reader s)) (tpid (reader s)) tag = (rls, None) ->
     exists s1 ids s2,
       run (LoadResourceLimitsFiltered tag) s = (Some None, s1) /\
       run (GetLoadedIds (category_key ResourceLimitsPrefix)) s1 = (Some (ids, None), s2) /\
       NoDup ids /\
       (forall id, id ∈ ids <-> exists rl, rl ∈ rls /\ TPResourceLimit_ID rl = id)).
Proof.
  intros Hinj. split.
  - intros tps w Hget.
    set (s := mkState (NewTpReader db lr_ tpid_ timezone_) w).
    destruct (load_destinations_loop tps s) as (s1 & Hloop & Hw & Hrd & Hd & Hidx & Hkey).
    destruct (GetLoadedIds_case s1 (Cat DESTINATION_PREFIX) Hinj)
      as (ids & s2 & Hrun2 & Hnd2 & Hin2 & Hun2).
    destruct (GetLoadedIds_case s2 (Cat REVERSE_DESTINATION_PREFIX) Hinj)
      as (prfxs & s3 & Hrun3 & Hnd3 & Hin3 & Hun3).
    exists s1, ids, s2, prfxs, s3. split_and!; [|done..| |].
    + by apply (LoadDestinations_run s tps).
    + intros id. rewrite Hin2. cbn. rewrite elem_of_dom, Hd, foldl_insert_last.
      destruct (last _) as [tp|] eqn:Hlast.
      * split; [|by eexists]. intros _. exists tp.
        apply last_Some_elem_of, list_elem_of_filter in Hlast as [? ?]. done.
      * cbn. rewrite lookup_empty. split; [by intros [? ?]|].
        intros (tp & Hin & Hid). apply last_None in Hlast.
        assert (tp ∈ filter (fun tp => TPDestination_ID tp = id) tps) as Hf
          by (by apply list_elem_of_filter).
        rewrite Hlast in Hf. by apply elem_of_nil in Hf.
    + intros p. rewrite Hin3. destruct Hun2 as [-> _]. cbn.
      rewrite elem_of_dom, Hkey. cbn. rewrite lookup_empty. split.
      * intros [[? ?]|?]; done.
      * auto.
  - intros s tag rls Hget.
    set (m := foldl (fun mapRLs rl => <[TPResourceLimit_ID rl := rl]> mapRLs)
                (∅ : gmap string TPResourceLimit) rls).
    assert (run (LoadResourceLimitsFiltered tag) s
              = (Some None, mkState (set_resLimits (reader s) m) (world s))) as Hrun1.
    { unfold run, LoadResourceLimitsFiltered, mbind, M_bind, bind, get_reader.
      rewrite Hget.
      by rewrite (for_fold_pure (fun mapRLs rl => <[TPResourceLimit_ID rl := rl]> mapRLs)). }
    destruct (GetLoadedIds_case (mkState (set_resLimits (reader s) m) (world s))
                ResourceLimitsPrefix Hinj) as (ids & s2 & Hrun2 & Hnd2 & Hin2 & Hun2).
    exists (mkState (set_resLimits (reader s) m) (world s)), ids, s2.
    split_and!; [done..|].
    intros id. rewrite Hin2. cbn. unfold m.
    rewrite elem_of_dom, (foldl_insert_last TPResourceLimit_ID (fun rl => rl)), lookup_empty.
    destruct (last _) as [rl|] eqn:Hlast.
    + split; [|by eexists]. intros _. exists rl.
      apply last_Some_elem_of, list_elem_of_filter in Hlast as [? ?]. done.
    + split; [by intros [? ?]|].
      intros (rl & Hin & Hid). apply last_None in Hlast.
      assert (rl ∈ filter (fun rl => TPResourceLimit_ID rl = id) rls) as Hf
        by (by apply list_elem_of_filter).
      rewrite Hlast in Hf. by apply elem_of_nil in Hf.
Qed.

(** *** [WriteToDatabase]: the first failed write ends it *)

(** A statement that keeps [Inv], then what comes after. *)
Lemma triple_seq {R A B} (Inv : State -> Prop) (m : M R A) (k : A -> M R B) s
    (Qn : B -> State -> Prop) (Qr : R -> State -> Prop) Qp :
  triple m s (fun _ => Inv) Qr Qp ->
  (forall a s1, Inv s1 -> triple (k a) s1 Qn Qr Qp) ->
  triple (m ≫= k) s Qn Qr Qp.
Proof.
  intros Hm Hk. apply triple_bind.
  eapply triple_conseq; [exact Hm|..]; [|done..]. intros a s1 H1. by apply Hk.
Qed.

Section Clean.

Variable s0 : State.
Hypothesis Hdb : is_Some (dataStorage (reader s0)).

Lemma clean_refl : clean s0 s0.
Proof.
  split; [done|]. exists []. split; [|constructor].
  unfold calls_between. by rewrite app_nil_r.
Qed.

Lemma clean_stopped r s1 : clean s0 s1 -> stopped s0 r s1.
Proof.
  intros [Hrd (new & Hc & Hall)]. split; [done|]. exists new. split_and!; [done..|].
  intros pre cr post e -> He. apply Forall_app in Hall as [_ Hall].
  apply Forall_cons in Hall as [Hcr _]. congruence.
Qed.

Lemma clean_world s1 w :
  clean s0 s1 -> calls w = calls (world s1) -> clean s0 (mkState (reader s1) w).
Proof.
  intros [Hrd (new & Hc & Hall)] Hw. split; [done|]. exists new. split; [|done].
  unfold calls_between in *. cbn. by rewrite Hw.
Qed.

Lemma clean_range {R V} (m : gmap string V) s1 (Qr : R -> State -> Prop) Qp :
  clean s0 s1 -> triple (range m) s1 (fun _ => clean s0) Qr Qp.
Proof. intros H1. apply triple_range. intros l _. by apply clean_world. Qed.

Lemma clean_GenUUID {R} s1 (Qr : R -> State -> Prop) Qp :
  clean s0 s1 -> triple GenUUID s1 (fun _ => clean s0) Qr Qp.
Proof. intros H1. apply triple_GenUUID. by apply clean_world. Qed.

(** A write on the store: it goes on after an answer without error, and
    ends the method with the error else. *)
Lemma clean_db_write c s1 :
  clean s0 s1 ->
  triple (db_write c) s1 (fun _ => clean s0) (stopped s0) (fun _ => False).
Proof.
  intros [Hrd (new & Hc & Hall)]. unfold db_write. apply triple_bind, triple_db_call.
  { intros Hn. rewrite Hrd in Hn. destruct Hdb. congruence. }
  intros r st' _. destruct (reply_err r) as [e|] eqn:Hr.
  - apply triple_return. split; [done|]. exists (new ++ [(c, r)]). split_and!.
    + unfold calls_between in *. cbn. by rewrite Hc, (assoc_L (++)).
    + done.
    + intros pre cr post e' Heq He'.
      destruct post as [|x post _] using rev_ind.
      * apply app_inj_tail in Heq as [_ <-]. cbn in He'. split; [done|congruence].
      * rewrite app_comm_cons, (assoc_L (++)) in Heq.
        apply app_inj_tail in Heq as [-> _].
        apply Forall_app in Hall as [_ Hall]. apply Forall_cons in Hall as [Hcr _].
        congruence.
  - apply triple_ret'. split; [done|]. exists (new ++ [(c, r)]). split.
    + unfold calls_between in *. cbn. by rewrite Hc, (assoc_L (++)).
    + apply Forall_app. split; [done|]. by repeat constructor.
Qed.

(** A [range] over a map followed by one write for each entry. *)
Lemma clean_phase {V A} (m : gmap string V) (body : string * V -> M (option Error) unit)
    (k : M (option Error) A) s1 (Qn : A -> State -> Prop) :
  (forall x s2, clean s0 s2 ->
     triple (body x) s2 (fun _ => clean s0) (stopped s0) (fun _ => False)) ->
  (forall s2, clean s0 s2 -> triple k s2 Qn (stopped s0) (fun _ => False)) ->
  clean s0 s1 ->
  triple (l ← range m; for_each l body;; k) s1 Qn (stopped s0) (fun _ => False).
Proof.
  intros Hbody Hk H1.
  apply (triple_seq (clean s0)); [by apply clean_range|]. intros l s2 H2.
  apply (triple_seq (clean s0)); [by apply triple_loop|]. intros [] s3 H3. by apply Hk.
Qed.

Lemma clean_push_tasks ap at_ s1 :
  clean s0 s1 ->
  triple (push_tasks ap at_) s1 (fun _ => clean s0) (stopped s0) (fun _ => False).
Proof.
  intros H1. unfold push_tasks. destruct (IsASAP at_); [|by apply triple_ret'].
  apply (triple_seq (clean s0)); [by apply clean_range|]. intros accs s2 H2.
  apply (triple_seq (clean s0)).
  { apply triple_loop; [done|]. intros [accID b] s3 H3.
    apply (triple_seq (clean s0)); [by apply clean_GenUUID|]. intros uuid s4 H4.
    by apply clean_db_write. }
  intros [] s3 H3. case_bool_decide; [|by apply triple_ret'].
  apply (triple_seq (clean s0)); [by apply clean_GenUUID|]. intros uuid s4 H4.
  by apply clean_db_write.
Qed.

End Clean.

Ltac clean_write := intros [? ?] ? ?; by apply clean_db_write.

(** X13. [WriteToDatabase] always returns and leaves the reader as it was.
    With no store attached it returns "no database connection" and changes
    nothing at all. With a store, the first call that answers with an error
    is the last call made, and its error is the result; a nil result means
    that every call answered without error. *)
Theorem WriteToDatabase_stops_at_failure flush verbose disable_reverse s :
  exists r s',
    run (WriteToDatabase flush verbose disable_reverse) s = (Some r, s') /\
    stopped s r s' /\
    (dataStorage (reader s) = None -> r = Some "no database connection" /\ s' = s).
Proof.
  destruct (dataStorage (reader s)) as [db|] eqn:Hdb.
  2:{ exists (Some "no database connection"), s.
      split_and!; [|by apply clean_stopped, clean_refl|done].
      unfold run, WriteToDatabase, mbind, M_bind, bind, get_reader. by rewrite Hdb. }
  assert (is_Some (dataStorage (reader s))) as Hsome by (by rewrite Hdb).
  destruct (triple_run_total (WriteToDatabase flush verbose disable_reverse) s (stopped s))
    as (r & s' & Hrun & Hst); [|by exists r, s'].
  pose proof (clean_refl s) as H0.
  unfold WriteToDatabase. apply triple_bind, triple_get_reader. rewrite Hdb.
  apply (clean_phase s); [clean_write| |done]. clear H0. intros s1 H1.
  apply (clean_phase s); [clean_write| |done]. clear s1 H1. intros s1 H1.
  apply (clean_phase s); [clean_write| |done]. clear s1 H1. intros s1 H1.
  apply (clean_phase s); [| |done].
  { intros [k ap] s2 H2.
    apply (triple_seq (clean s)); [|intros [] s3 H3; by apply clean_db_write].
    apply triple_loop; [done|]. intros at_ s3 H3. by apply clean_push_tasks. }
  clear s1 H1. intros s1 H1.
  apply (clean_phase s); [clean_write| |done]. clear s1 H1. intros s1 H1.
  apply (clean_phase s); [clean_write| |done]. clear s1 H1. intros s1 H1.
  apply (clean_phase s); [clean_write| |done]. clear s1 H1. intros s1 H1.
  apply (clean_phase s); [clean_write| |done]. clear s1 H1. intros s1 H1.
  apply (clean_phase s); [clean_write| |done]. clear s1 H1. intros s1 H1.
  apply (clean_phase s); [clean_write| |done]. clear s1 H1. intros s1 H1.
  apply (clean_phase s); [clean_write| |done]. clear s1 H1. intros s1 H1.
  apply (clean_phase s); [clean_write| |done]. clear s1 H1. intros s1 H1.
  apply (clean_phase s); [clean_write| |done]. clear s1 H1. intros s1 H1.
  apply (clean_phase s); [| |done].
  { intros [k tpRL] s2 H2. destruct (APItoResourceLimit tpRL _) as [rl [e|]].
    - apply triple_return. by apply clean_stopped.
    - by apply clean_db_write. }
  clear s1 H1. intros s1 H1.
  assert (forall s2, clean s s2 ->
            triple (return_ None : M (option Error) (option Error)) s2
              (stopped s) (stopped s) (fun _ => False)) as Hfinal.
  { intros s2 H2. apply triple_return. by apply clean_stopped. }
  assert (forall (b : bool) (c : Call) s2, clean s s2 ->
            triple (if b then db_write c else ret tt) s2 (fun _ => clean s) (stopped s)
              (fun _ => False)) as Hopt.
  { intros [] c s2 H2; [by apply clean_db_write|by apply triple_ret']. }
  apply (triple_seq (clean s)); [|intros [] s2 H2; by apply Hfinal].
  destruct disable_reverse; cbn [negb]; [by apply triple_ret'|].
  apply (triple_seq (clean s)); [by apply Hopt|]. clear s1 H1. intros [] s1 H1.
  apply (triple_seq (clean s)); [by apply Hopt|]. clear s1 H1. intros [] s1 H1.
  apply (triple_seq (clean s)); [by apply Hopt|]. clear s1 H1. intros [] s1 H1.
  destruct (negb _); [|by apply triple_ret'].
  apply (triple_seq (clean s)); [by apply clean_db_write|]. clear s1 H1. intros [] s1 H1.
  apply (triple_seq (clean s)); [by apply clean_range|]. clear s1 H1. intros l s1 H1.
  apply (triple_seq (clean s)); [|intros rls s2 H2; by apply clean_db_write].
  apply triple_fold_loop; [done|]. intros rls [k tpRL] s2 H2.
  destruct (APItoResourceLimit tpRL _) as [rl [e|]].
  - apply triple_return. by apply clean_stopped.
  - by apply triple_ret'.
Qed.

(** *** The filtered loaders of rating profiles and rating plans *)

(** What holds of every way a method can end holds of its run. *)
Lemma triple_outcome {R} (f : M R R) s (P : option R -> State -> Prop) :
  triple f s (fun r => P (Some r)) (fun r => P (Some r)) (P None) ->
  P (run f s).1 (run f s).2.
Proof. unfold triple, run. by destruct (f s) as [[a|a|] s1]. Qed.

Lemma rating_profile_writes_app cs1 cs2 :
  rating_profile_writes (cs1 ++ cs2) = rating_profile_writes cs1 ++ rating_profile_writes cs2.
Proof. apply omap_app. Qed.

(** X14. [LoadRatingProfilesFiltered], the source and the mapper having
    answered: it leaves the reader as it was, whichever way it ends - the
    profiles go to the store, not to memory. The profiles it writes are the
    first of the mapped ones, by id and in their order, and all of them when
    it returns nil. With a store attached it does not panic. With no store
    it makes no call and, given a profile to load, never returns nil: it
    returns an error or panics at the write. *)
Theorem LoadRatingProfilesFiltered_writes s qriedRpf mpTpRpfs rpfs :
  GetTPRatingProfiles (lr (reader s)) qriedRpf = (mpTpRpfs, None) ->
  MapTPRatingProfiles mpTpRpfs = (rpfs, None) ->
  reader (run (LoadRatingProfilesFiltered qriedRpf) s).2 = reader s /\
  (exists new,
     calls_between s (run (LoadRatingProfilesFiltered qriedRpf) s).2 new /\
     rating_profile_writes new `prefix_of` (TPRatingProfile_KeyId <$> rpfs) /\
     ((run (LoadRatingProfilesFiltered qriedRpf) s).1 = Some None ->
      rating_profile_writes new = TPRatingProfile_KeyId <$> rpfs) /\
     (dataStorage (reader s) = None -> new = [])) /\
  (is_Some (dataStorage (reader s)) ->
   is_Some (run (LoadRatingProfilesFiltered qriedRpf) s).1) /\
  (dataStorage (reader s) = None -> rpfs <> [] ->
   (run (LoadRatingProfilesFiltered qriedRpf) s).1 <> Some None).
Proof.
  intros Hget Hmap.
  set (all := TPRatingProfile_KeyId <$> rpfs).
  set (P := fun (r : option (option Error)) (s' : State) =>
              reader s' = reader s /\
              (exists new, calls_between s s' new /\
                 rating_profile_writes new `prefix_of` all /\
                 (r = Some None -> rating_profile_writes new = all) /\
                 (dataStorage (reader s) = None -> new = [])) /\
              (is_Some (dataStorage (reader s)) -> is_Some r) /\
              (dataStorage (reader s) = None -> rpfs <> [] -> r <> Some None)).
  apply (triple_outcome (LoadRatingProfilesFiltered qriedRpf) s P).
  unfold LoadRatingProfilesFiltered. apply triple_bind, triple_get_reader.
  rewrite Hget, Hmap.
  (* the state of the loop after the profiles [done] *)
  set (J := fun (done : list TPRatingProfile) (s1 : State) =>
              reader s1 = reader s /\
              exists new, calls_between s s1 new /\
                rating_profile_writes new = TPRatingProfile_KeyId <$> done /\
                (done <> [] -> is_Some (dataStorage (reader s))) /\
                (dataStorage (reader s) = None -> new = [])).
  set (Qe := fun (r : option Error) (s1 : State) => is_Some r /\ P (Some r) s1).
  assert (forall done rest e s1, rpfs = done ++ rest -> J done s1 -> Qe (Some e) s1) as Herr.
  { intros done rest e s1 Hl (Hrd & new & Hc & Hw & Hst & Hno). split; [done|].
    split_and!; [done| |done|done].
    exists new. split_and!; [done| |done|done].
    rewrite Hw. unfold all. rewrite Hl, fmap_app. by apply prefix_app_r. }
  apply triple_bind.
  eapply triple_conseq;
    [apply (triple_for_each J rpfs _ s Qe (P None))|..].
  - split; [done|]. exists []. split_and!; [|done..]. unfold calls_between. by rewrite app_nil_r.
  - intros done tpRpf rest s1 Hl HJ.
    apply (triple_seq (J done)).
    { apply triple_fold_loop; [done|]. intros acts tpRa s2 HJ2.
      destruct (ParseDate _) as [at_ [e|]]; [apply triple_return; by eapply Herr|].
      apply triple_bind, triple_get_reader.
      apply (triple_seq (J done)).
      - destruct (negb _ && _) eqn:Hprobe; [|by apply triple_ret'].
        apply triple_bind, triple_db_call.
        { apply andb_true_iff in Hprobe as [_ Hdb%bool_decide_eq_true].
          intros Hn. rewrite Hn in Hdb. by destruct Hdb. }
        intros r st' Hdb.
        assert (J done
                  (mkState (reader s2)
                     (mkWorld st'
                        (calls (world s2)
                         ++ [(HasData RATING_PLAN_PREFIX (ra_RatingPlanId tpRa), r)])
                        (uuids (world s2)) (ranges (world s2))))) as HJ3.
        { destruct HJ2 as (Hrd & new & Hc & Hw & Hst & Hno). split; [done|].
          exists (new ++ [(HasData RATING_PLAN_PREFIX (ra_RatingPlanId tpRa), r)]).
          split_and!; [| |done|].
          - unfold calls_between in *. cbn. by rewrite Hc, (assoc_L (++)).
          - rewrite rating_profile_writes_app, Hw. cbn. by rewrite app_nil_r.
          - intros Hn. rewrite Hrd in Hdb. rewrite Hn in Hdb. by destruct Hdb. }
        destruct (reply_err r); [apply triple_return; by eapply Herr|by apply triple_ret'].
      - intros exists_ s3 HJ3. destruct (negb exists_); [|by apply triple_ret'].
        apply triple_return. by eapply Herr. }
    intros acts s2 (Hrd & new & Hc & Hw & Hst & Hno).
    unfold db_write. apply triple_bind, triple_db_call.
    { intros Hn. rewrite Hrd in Hn. unfold P. split_and!; [done| |by intros [? ?]; congruence|done].
      exists new. split_and!; [done| |done|done].
      rewrite Hw. unfold all. rewrite Hl, fmap_app. by apply prefix_app_r. }
    intros r st' Hdb. rewrite Hrd in Hdb.
    set (c := SetRatingProfile _ _).
    assert (J (done ++ [tpRpf])
              (mkState (reader s2)
                 (mkWorld st' (calls (world s2) ++ [(c, r)]) (uuids (world s2))
                    (ranges (world s2))))) as HJ3.
    { split; [done|]. exists (new ++ [(c, r)]). split_and!; [| |done|].
      - unfold calls_between in *. cbn. by rewrite Hc, (assoc_L (++)).
      - rewrite rating_profile_writes_app, Hw, fmap_app. done.
      - intros Hn. rewrite Hn in Hdb. by destruct Hdb. }
    destruct (reply_err r) as [e|]; [|by apply triple_ret'].
    apply triple_return. apply (Herr (done ++ [tpRpf]) rest); [|done].
    by rewrite <-(assoc_L (++)).
  - intros [] s1 (Hrd & new & Hc & Hw & Hst & Hno). apply triple_return.
    split_and!; [done| |by eexists|].
    + exists new. split_and!; [done|by rewrite Hw|by rewrite Hw|done].
    + intros Hn Hne. apply Hst in Hne. rewrite Hn in Hne. by destruct Hne.
  - intros r s1 [_ HP]. exact HP.
  - done.
Qed.

(** *** [LoadRatingPlansFiltered] *)

Lemma load_destination_rate_keeps tpr rp ratingPlan drate s0 s1 :
  reader s1 = reader s0 ->
  triple (load_destination_rate tpr rp ratingPlan drate) s1
    (fun _ s2 => reader s2 = reader s0)
    (fun r s2 => r.1 = false /\ reader s2 = reader s0)
    (fun s2 => reader s2 = reader s0).
Proof.
  intros Hs1. unfold load_destination_rate.
  destruct (GetTPRates _ _ _) as [tprt err].
  destruct (_ || _); [done|].
  destruct (MapTPRates tprt) as [rt [e|]]; [done|].
  case_bool_decide; [by apply triple_ret'|].
  destruct (GetTPDestinations _ _ _) as [tpDests [e|]]; [done|].
  destruct (_ && _).
  { apply triple_bind, triple_db_call; [done|]. intros r st' _.
    destruct (reply_err r); [done|]. by apply triple_ret'. }
  destruct (negb _); [done|].
  apply (triple_seq (fun s2 => reader s2 = reader s0)); [|by intros [] s2 H2; apply triple_ret'].
  apply triple_loop; [done|]. intros destination s2 H2.
  apply triple_bind, triple_db_call; [done|]. intros r st' _.
  apply triple_bind, triple_db_call; [done|]. intros r2 st2 _.
  by apply triple_ret'.
Qed.

Lemma load_binding_keeps tpr ratingPlan rp s0 s1 :
  reader s1 = reader s0 ->
  triple (load_binding tpr ratingPlan rp) s1
    (fun _ s2 => reader s2 = reader s0)
    (fun r s2 => r.1 = false /\ reader s2 = reader s0)
    (fun s2 => reader s2 = reader s0).
Proof.
  intros Hs1. unfold load_binding.
  destruct (GetTPTimings _ _ _) as [tptm err].
  destruct (_ || _); [done|].
  destruct (MapTPTimings tptm) as [tm [e|]]; [done|].
  destruct (GetTPDestinationRates _ _ _) as [tpdrm err2].
  destruct (_ || _); [done|].
  destruct (MapTPDestinationRates tpdrm) as [drm [e|]]; [done|].
  destruct (drm !! _) as [drs|]; [|done].
  apply triple_fold_loop; [done|]. intros rpl drate s2 H2.
  by apply load_destination_rate_keeps.
Qed.

Lemma load_rating_plan_keeps tpr binding s0 s1 :
  reader s1 = reader s0 ->
  triple (load_rating_plan tpr binding) s1
    (fun _ s2 => reader s2 = reader s0)
    (fun r s2 => r.1 = false /\ reader s2 = reader s0)
    (fun s2 => reader s2 = reader s0).
Proof.
  intros Hs1. destruct binding as [tag rplBnds]. unfold load_rating_plan.
  apply (triple_seq (fun s2 => reader s2 = reader s0)).
  { apply triple_fold_loop; [done|]. intros rpl rp s2 H2. by apply load_binding_keeps. }
  intros rpl s2 H2. apply triple_bind, triple_db_call; [done|]. intros r st' _.
  destruct (reply_err r); [done|]. by apply triple_ret'.
Qed.

(** X15. [LoadRatingPlansFiltered] leaves the reader as it was, whichever
    way it ends: what it builds goes to the store. It returns true only
    along with a nil error, and then the source gave rows for the tag and
    the rating plans written by the call are those of the mapped bindings,
    one write each, in their order. With no rows it returns false and nil
    and changes nothing. *)
Theorem LoadRatingPlansFiltered_writes s tag :
  reader (run (LoadRatingPlansFiltered tag) s).2 = reader s /\
  (forall err s',
     run (LoadRatingPlansFiltered tag) s = (Some (true, err), s') ->
     err = None /\
     exists mpRpls,
       GetTPRatingPlans (lr (reader s)) (tpid (reader s)) tag = (mpRpls, None) /\
       mpRpls <> [] /\
       rating_plan_writes (calls (world s'))
         = rating_plan_writes (calls (world s)) ++ (MapTPRatingPlanBindings mpRpls).*1) /\
  (GetTPRatingPlans (lr (reader s)) (tpid (reader s)) tag = ([], None) ->
   run (LoadRatingPlansFiltered tag) s = (Some (false, None), s)).
Proof.
  assert (forall bindings,
            triple (for_each bindings (load_rating_plan (reader s))) s
              (fun _ s2 => reader s2 = reader s)
              (fun r s2 => r.1 = false /\ reader s2 = reader s)
              (fun s2 => reader s2 = reader s)) as Hloop.
  { intros bindings. apply triple_loop; [done|]. intros b s1 H1.
    by apply load_rating_plan_keeps. }
  split_and!.
  - apply (triple_outcome (LoadRatingPlansFiltered tag) s (fun _ s' => reader s' = reader s)).
    unfold LoadRatingPlansFiltered. apply triple_bind, triple_get_reader.
    destruct (GetTPRatingPlans _ _ _) as [mpRpls [e|]]; [done|].
    case_bool_decide; [done|].
    apply (triple_seq (fun s2 => reader s2 = reader s)); [|done].
    eapply triple_conseq; [apply Hloop|..]; [done| |done]. by intros r s2 [_ ?].
  - intros err s'. unfold run, LoadRatingPlansFiltered, mbind, M_bind, bind, get_reader.
    destruct (GetTPRatingPlans _ _ _) as [mpRpls [e|]]; [by intros [= ]|].
    case_bool_decide as Hlen; [by intros [= ]|].
    specialize (Hloop (MapTPRatingPlanBindings mpRpls)). unfold triple in Hloop.
    destruct (for_each _ _ s) as [[[]|r|] s1] eqn:Hfor.
    + intros [= <- <-]. split; [done|]. exists mpRpls. split_and!; [done|by destruct mpRpls|].
      by destruct (load_rating_plans_next _ _ _ _ Hfor) as [_ ->].
    + intros [= -> <-]. by destruct Hloop.
    + by intros [= ].
  - intros Hget. unfold run, LoadRatingPlansFiltered, mbind, M_bind, bind, get_reader.
    by rewrite Hget.
Qed.

(** *** [LoadAccountActions]: what a failure leaves behind *)

Lemma load_account_action_orphan aa s :
  accountActions (reader s) !! TPAccountActions_KeyId aa = None ->
  ActionTriggersId aa = "" \/ is_Some (actionsTriggers (reader s) !! ActionTriggersId aa) ->
  ActionPlanId aa <> "" ->
  actionPlans (reader s) !! ActionPlanId aa = None ->
  load_account_action aa s =
    (Return (Some ("could not get action plan for tag " +:+ ActionPlanId aa)),
     mkState (set_accountActions (reader s)
                (<[TPAccountActions_KeyId aa := account_of (reader s) aa]>
                   (accountActions (reader s))))
       (world s)).
Proof.
  intros Hacc Htrg Hpl Hnone.
  unfold load_account_action, mbind, M_bind, bind, get_reader, modify_reader, account_of.
  rewrite Hacc. destruct Htrg as [Htrg|[atrs Htrg]].
  - rewrite !(bool_decide_eq_true_2 _ Htrg). cbn.
    rewrite (bool_decide_eq_false_2 _ Hpl). cbn. by rewrite Hnone.
  - rewrite Htrg. case_bool_decide; cbn;
      rewrite (bool_decide_eq_false_2 _ Hpl); cbn; by rewrite Hnone.
Qed.

(** X16. A failure of [LoadAccountActions] is not undone. When the records
    before one load, and that one has a fresh key and known triggers but
    names an action plan that is not in memory, the method returns "could
    not get action plan for tag ..." - and the account of the record is in
    memory already, bound to no plan, next to the accounts of the records
    before; the action plans, the reverse index and the store are as the
    records before left them. *)
Theorem LoadAccountActions_orphan_account s tps storAts pre aa post s1 :
  GetTPAccountActions (lr (reader s))
    {| aa_TPid := tpid (reader s); aa_LoadId := ""; aa_Tenant := ""; aa_Account := "";
       ActionPlanId := ""; ActionTriggersId := "";
       aa_AllowNegative := false; aa_Disabled := false |} = (tps, None) ->
  MapTPAccountActions tps = (storAts, None) ->
  storAts = pre ++ aa :: post ->
  for_each pre load_account_action s = (Next tt, s1) ->
  accountActions (reader s1) !! TPAccountActions_KeyId aa = None ->
  ActionTriggersId aa = "" \/ is_Some (actionsTriggers (reader s1) !! ActionTriggersId aa) ->
  ActionPlanId aa <> "" ->
  actionPlans (reader s1) !! ActionPlanId aa = None ->
  exists s',
    run LoadAccountActions s
      = (Some (Some ("could not get action plan for tag " +:+ ActionPlanId aa)), s') /\
    accountActions (reader s')
      = <[TPAccountActions_KeyId aa := account_of (reader s1) aa]>
          (accountActions (reader s1)) /\
    actionPlans (reader s') = actionPlans (reader s1) /\
    acntActionPlans (reader s') = acntActionPlans (reader s1) /\
    world s' = world s1.
Proof.
  intros Hget Hmap -> Hpre Hacc Htrg Hpl Hnone.
  eexists. split.
  - unfold run, LoadAccountActions, mbind, M_bind, bind, get_reader.
    rewrite Hget, Hmap, for_each_app, Hpre. cbn [for_each].
    unfold mbind, M_bind, bind.
    rewrite (load_account_action_orphan aa s1 Hacc Htrg Hpl Hnone). reflexivity.
  - done.
Qed.

(** *** The load-all methods: what they add to memory *)

(** One action-timing appended to the plan [atId]. *)
Lemma append_timing_grows (t0 t : TpReader) atId (tm : ActionTiming) :
  (forall k ap, actionPlans t0 !! k = Some ap ->
     exists ap', actionPlans t !! k = Some ap' /\ ap_Id ap' = ap_Id ap /\
       AccountIDs ap' = AccountIDs ap /\
       ActionTimings ap `prefix_of` ActionTimings ap') ->
  (forall k ap', actionPlans t !! k = Some ap' -> actionPlans t0 !! k = None ->
     ap_Id ap' = k /\ AccountIDs ap' = ∅) ->
  t = set_actionPlans t0 (actionPlans t) ->
  let actPln := match actionPlans t !! atId with
                | Some actPln => actPln
                | None => {| ap_Id := atId; AccountIDs := ∅; ActionTimings := [] |}
                end in
  let t' := set_actionPlans t
              (<[atId := {| ap_Id := ap_Id actPln; AccountIDs := AccountIDs actPln;
                            ActionTimings := ActionTimings actPln ++ [tm] |}]>
                 (actionPlans t)) in
  (forall k ap, actionPlans t0 !! k = Some ap ->
     exists ap', actionPlans t' !! k = Some ap' /\ ap_Id ap' = ap_Id ap /\
       AccountIDs ap' = AccountIDs ap /\
       ActionTimings ap `prefix_of` ActionTimings ap') /\
  (forall k ap', actionPlans t' !! k = Some ap' -> actionPlans t0 !! k = None ->
     ap_Id ap' = k /\ AccountIDs ap' = ∅) /\
  t' = set_actionPlans t0 (actionPlans t').
Proof.
  intros Hold Hnew Hrest actPln t'. subst t'. cbn. split_and!.
  - intros k ap Hk. destruct (decide (k = atId)) as [->|Hne].
    + rewrite lookup_insert_eq. eexists. split; [done|]. cbn.
      destruct (Hold _ _ Hk) as (ap1 & Hap1 & Hid & Hacc & Hpre).
      subst actPln. rewrite Hap1. split_and!; [done..|].
      etrans; [exact Hpre|]. by apply prefix_app_r.
    + rewrite lookup_insert_ne by done. by apply Hold.
  - intros k ap'. destruct (decide (k = atId)) as [->|Hne].
    + rewrite lookup_insert_eq. intros [= <-] Hnone. cbn. subst actPln.
      destruct (actionPlans t !! atId) as [ap1|] eqn:Hap1; [|done].
      by apply Hnew.
    + rewrite lookup_insert_ne by done. by apply Hnew.
  - rewrite Hrest at 1. done.
Qed.

(** X17. [LoadActionPlans] only adds to the action plans, whichever way it
    ends: a plan that was in memory keeps its id and its bound accounts, and
    its action-timings are the first of those it has afterwards - a second
    load appends the timings a second time. A plan it makes has its tag as
    id and no account bound. Nothing but the action plans is changed in the
    reader. *)
Theorem LoadActionPlans_appends s :
  (forall k ap, actionPlans (reader s) !! k = Some ap ->
     exists ap', actionPlans (reader (run LoadActionPlans s).2) !! k = Some ap' /\
       ap_Id ap' = ap_Id ap /\ AccountIDs ap' = AccountIDs ap /\
       ActionTimings ap `prefix_of` ActionTimings ap') /\
  (forall k ap', actionPlans (reader (run LoadActionPlans s).2) !! k = Some ap' ->
     actionPlans (reader s) !! k = None -> ap_Id ap' = k /\ AccountIDs ap' = ∅) /\
  reader (run LoadActionPlans s).2
    = set_actionPlans (reader s) (actionPlans (reader (run LoadActionPlans s).2)).
Proof.
  set (I := fun s1 : State =>
    (forall k ap, actionPlans (reader s) !! k = Some ap ->
       exists ap', actionPlans (reader s1) !! k = Some ap' /\ ap_Id ap' = ap_Id ap /\
         AccountIDs ap' = AccountIDs ap /\
         ActionTimings ap `prefix_of` ActionTimings ap') /\
    (forall k ap', actionPlans (reader s1) !! k = Some ap' ->
       actionPlans (reader s) !! k = None -> ap_Id ap' = k /\ AccountIDs ap' = ∅) /\
    reader s1 = set_actionPlans (reader s) (actionPlans (reader s1))).
  assert (I s) as H0.
  { split_and!; [intros k ap Hk; by exists ap|intros k ap' ? ?; congruence|].
    by destruct s as [[] ?]. }
  apply (triple_final LoadActionPlans s I).
  unfold LoadActionPlans. apply triple_bind, triple_get_reader.
  destruct (GetTPActionPlans _ _ _) as [tps [e|]]; [by apply triple_return|].
  apply (triple_seq I); [|intros [] s1 H1; by apply triple_return].
  apply triple_loop; [done|]. intros [atId ats] s1 H1.
  apply triple_loop; [done|]. intros at_ s2 H2.
  apply triple_bind, triple_get_reader.
  apply (triple_seq (fun s3 => reader s3 = reader s2)).
  { destruct (negb _ && _); [|by apply triple_ret'].
    apply triple_bind, triple_db_call; [done|]. intros r st' _.
    destruct (reply_err r); [by apply triple_return|by apply triple_ret']. }
  intros exists_ s3 Hrd.
  assert (I s3) as H3 by (unfold I; by rewrite Hrd).
  destruct (negb exists_); [by apply triple_return|].
  destruct (timings (reader s2) !! tat_TimingId at_) as [t|]; [|by apply triple_return].
  apply triple_bind, triple_GenUUID. apply triple_modify_reader. cbn.
  rewrite <-Hrd. destruct H3 as (Hold & Hnew & Hrest).
  exact (append_timing_grows (reader s) (reader s3) atId _ Hold Hnew Hrest).
Qed.

(** X18. [LoadRatingPlans] only adds rating plans, whichever way it ends,
    and changes nothing else in the reader: a tag that had a plan has one
    afterwards, and a tag that has one afterwards had one before or is a tag
    of the mapped bindings. When it returns nil, every tag of the mapped
    bindings that has a binding has a plan. *)
Theorem LoadRatingPlans_adds s tps :
  GetTPRatingPlans (lr (reader s)) (tpid (reader s)) "" = (tps, None) ->
  reader (run LoadRatingPlans s).2
    = set_ratingPlans (reader s) (ratingPlans (reader (run LoadRatingPlans s).2)) /\
  (forall k, is_Some (ratingPlans (reader s) !! k) ->
     is_Some (ratingPlans (reader (run LoadRatingPlans s).2) !! k)) /\
  (forall k, is_Some (ratingPlans (reader (run LoadRatingPlans s).2) !! k) ->
     is_Some (ratingPlans (reader s) !! k) \/ k ∈ (MapTPRatingPlanBindings tps).*1) /\
  ((run LoadRatingPlans s).1 = Some None ->
   forall tag bnds, (tag, bnds) ∈ MapTPRatingPlanBindings tps -> bnds <> [] ->
     is_Some (ratingPlans (reader (run LoadRatingPlans s).2) !! tag)).
Proof.
  intros Hget.
  set (tags := (MapTPRatingPlanBindings tps).*1).
  set (I := fun s1 : State =>
    reader s1 = set_ratingPlans (reader s) (ratingPlans (reader s1)) /\
    (forall k, is_Some (ratingPlans (reader s) !! k) ->
       is_Some (ratingPlans (reader s1) !! k)) /\
    (forall k, is_Some (ratingPlans (reader s1) !! k) ->
       is_Some (ratingPlans (reader s) !! k) \/ k ∈ tags)).
  set (P := fun (r : option (option Error)) (s' : State) =>
    I s' /\
    (r = Some None ->
     forall tag bnds, (tag, bnds) ∈ MapTPRatingPlanBindings tps -> bnds <> [] ->
       is_Some (ratingPlans (reader s') !! tag))).
  assert (I s) as H0.
  { split_and!; [by destruct s as [[] ?]|done|by left]. }
  (* the reader after a plan was made or extended *)
  assert (forall s1 tag m',
            I s1 -> tag ∈ tags ->
            (forall k, is_Some (m' !! k) <->
                       is_Some (ratingPlans (reader s1) !! k) \/
                       (k = tag /\ is_Some (m' !! tag))) ->
            I (mkState (set_ratingPlans (reader s1) m') (world s1))) as Hupd.
  { intros s1 tag m' (Hrest & Hold & Hnew) Htag Hm'. split_and!; cbn.
    - rewrite Hrest at 1. done.
    - intros k Hk. apply Hm'. left. by apply Hold.
    - intros k [Hk|[-> _]]%Hm'; [by apply Hnew|by right]. }
  cut (P (run LoadRatingPlans s).1 (run LoadRatingPlans s).2).
  { intros [(? & ? & ?) ?]. done. }
  apply (triple_outcome LoadRatingPlans s P).
  unfold LoadRatingPlans. apply triple_bind, triple_get_reader. rewrite Hget.
  apply triple_bind.
  eapply triple_conseq;
    [apply (triple_for_each
              (fun done s1 => I s1 /\
                 forall tag bnds, (tag, bnds) ∈ done -> bnds <> [] ->
                   is_Some (ratingPlans (reader s1) !! tag))
              (MapTPRatingPlanBindings tps) _ s
              (fun r s1 => is_Some r /\ I s1) (fun s1 => I s1))|..].
  - split; [done|]. by intros ? ? ?%elem_of_nil.
  - intros done [tag rplBnds] rest s1 Hl [H1 Hdone].
    assert (tag ∈ tags) as Htag.
    { unfold tags. rewrite Hl, fmap_app, elem_of_app. right. left. }
    eapply triple_conseq;
      [apply (triple_for_each
                (fun done' s2 => I s2 /\
                   (forall tag' bnds, (tag', bnds) ∈ done -> bnds <> [] ->
                      is_Some (ratingPlans (reader s2) !! tag')) /\
                   (done' <> [] -> is_Some (ratingPlans (reader s2) !! tag)))
                rplBnds _ s1 (fun r s1 => is_Some r /\ I s1) (fun s1 => I s1))|..].
    + done.
    + intros done' rplBnd rest' s2 Hl' (H2 & Hdone2 & _).
      apply triple_bind, triple_get_reader.
      destruct (timings (reader s2) !! TimingId rplBnd) as [t|];
        [|apply triple_return; by eauto].
      destruct (destinationRates (reader s2) !! _) as [drs|];
        [|apply triple_return; by eauto].
      apply (triple_seq (fun s3 => I s3 /\
                           (forall tag' bnds, (tag', bnds) ∈ done -> bnds <> [] ->
                              is_Some (ratingPlans (reader s3) !! tag')) /\
                           is_Some (ratingPlans (reader s3) !! tag))).
      * destruct (ratingPlans (reader s2) !! tag) as [rpl|] eqn:Hrpl.
        -- apply triple_ret'. split_and!; [done..|by rewrite Hrpl].
        -- apply triple_modify_reader. split_and!; cbn.
           ++ apply (Hupd s2 tag); [done..|].
              intros k. destruct (decide (k = tag)) as [->|Hne].
              ** rewrite lookup_insert_eq. split; [by right|by eexists].
              ** rewrite lookup_insert_ne by done. split; [by left|].
                 by intros [?|[? _]].
           ++ intros tag' bnds Hin Hne. destruct (decide (tag' = tag)) as [->|Hne'].
              ** by rewrite lookup_insert_eq.
              ** rewrite lookup_insert_ne by done. by eapply Hdone2.
           ++ by rewrite lookup_insert_eq.
      * intros [] s3 H3.
        eapply triple_conseq;
          [apply (triple_loop
                    (fun s4 => I s4 /\
                       (forall tag' bnds, (tag', bnds) ∈ done -> bnds <> [] ->
                          is_Some (ratingPlans (reader s4) !! tag')) /\
                       is_Some (ratingPlans (reader s4) !! tag))
                    (DestinationRates drs) _ s3
                    (fun r s1 => is_Some r /\ I s1) (fun s1 => I s1))|..];
          [done| |by intros [] s4 (? & ? & ?)|done|done].
        intros dr s4 (H4 & Hdone4 & Htag4). apply triple_modify_reader.
        assert (forall k, is_Some (alter (fun plan => AddRateInterval plan
                                             (dr_DestinationId dr)
                                             (GetRateInterval (SetTiming rplBnd (Some t)) dr))
                                     tag (ratingPlans (reader s4)) !! k)
                          <-> is_Some (ratingPlans (reader s4) !! k)) as Halt.
        { intros k. destruct (decide (k = tag)) as [->|Hne].
          - rewrite lookup_alter_eq. by rewrite <-!not_eq_None_Some, fmap_None.
          - by rewrite lookup_alter_ne. }
        split_and!; cbn.
        -- apply (Hupd s4 tag); [done..|].
           intros k. rewrite !Halt. split; [by left|]. by intros [?|[-> ?]].
        -- intros tag' bnds Hin Hne. rewrite Halt. by eapply Hdone4.
        -- by rewrite Halt.
    + intros [] s2 (H2 & Hdone2 & Hlast). split; [done|].
      intros tag' bnds [Hin|[= -> ->]%list_elem_of_singleton]%elem_of_app Hne.
      * by eapply Hdone2.
      * by apply Hlast.
    + done.
    + done.
  - intros [] s1 [H1 Hall]. apply triple_return. split; [done|]. intros _. exact Hall.
  - intros r s1 [[e ->] H1]. split; [done|]. by intros [= ].
  - intros s1 H1. split; [done|]. by intros [= ].
Qed.

(** *** [LoadDestinationRates]: every line is resolved *)

Section Lines.

Variables (s : State) (m : gmap string TPDestinationRate).

(** The groups in memory are those of [m], line for line, but for the
    rates attached. *)
Let shape (s1 : State) : Prop :=
  forall key,
    (fun drs => line_ids <$> DestinationRates drs) <$> (destinationRates (reader s1) !! key)
    = (fun drs => line_ids <$> DestinationRates drs) <$> (m !! key).

Let fixed (s1 : State) : Prop :=
  rates (reader s1) = rates (reader s) /\
  destinations (reader s1) = destinations (reader s) /\
  dataStorage (reader s1) = dataStorage (reader s).

(** The [j]-th line of the group [key] is resolved. *)
Let res (s1 : State) (key : string) (j : nat) : Prop :=
  exists drs' dr' new,
    destinationRates (reader s1) !! key = Some drs' /\
    DestinationRates drs' !! j = Some dr' /\
    calls_between s s1 new /\
    line_resolved (reader s) new dr'.

Lemma line_resolved_more t cs extra dr :
  line_resolved t cs dr -> line_resolved t (cs ++ extra) dr.
Proof.
  intros [Hrate Hdst]. split; [done|].
  destruct Hdst as [?|[?|(r & Hin & ? & ?)]]; [by left|by right; left|].
  right. right. exists r. split_and!; [|done..]. apply elem_of_app. by left.
Qed.

(** One line resolved: the lines resolved before stay so, and the line is
    resolved. *)
Lemma store_dr_Rate_resolves s2 s4 key drs j dr rate extra :
  fixed s2 -> shape s2 ->
  m !! key = Some drs -> DestinationRates drs !! j = Some dr ->
  rates (reader s2) !! dr_RateId dr = Some rate ->
  reader s4 = store_dr_Rate key j rate (reader s2) ->
  calls (world s4) = calls (world s2) ++ extra ->
  (exists new, calls_between s s2 new /\
     (dr_DestinationId dr = ANY \/
      is_Some (destinations (reader s) !! dr_DestinationId dr) \/
      exists r, (HasData DESTINATION_PREFIX (dr_DestinationId dr), r) ∈ new ++ extra /\
                reply_err r = None /\ reply_bool r = true)) ->
  fixed s4 /\ shape s4 /\ res s4 key j /\
  (forall key' j', res s2 key' j' -> res s4 key' j').
Proof.
  intros (Hr & Hd & Hdb) Hshape Hm Hj Hrate Hrd Hcalls (new & Hnew & Hdst).
  assert (exists drs2 dr2,
            destinationRates (reader s2) !! key = Some drs2 /\
            DestinationRates drs2 !! j = Some dr2 /\ line_ids dr2 = line_ids dr)
    as (drs2 & dr2 & Hdrs2 & Hdr2 & Hids).
  { specialize (Hshape key). rewrite Hm in Hshape. cbn in Hshape.
    apply fmap_Some in Hshape as (drs2 & Hdrs2 & Heq).
    assert ((line_ids <$> DestinationRates drs2) !! j = Some (line_ids dr)) as Hl.
    { rewrite <-Heq. by apply list_lookup_fmap_Some_2. }
    apply list_lookup_fmap_Some_1 in Hl as (dr2 & ? & ?). by exists drs2, dr2. }
  assert (calls_between s s4 (new ++ extra)) as Hnew4.
  { unfold calls_between in *. by rewrite Hcalls, Hnew, (assoc_L (++)). }
  unfold fixed, shape, res in *. refine (conj _ (conj _ (conj _ _))).
  - rewrite Hrd. cbn. done.
  - intros key0. rewrite Hrd. cbn. destruct (decide (key0 = key)) as [->|Hne].
    + rewrite lookup_alter_eq, <-Hshape, <-!option_fmap_compose.
      apply option_fmap_ext. intros drs'. cbn.
      rewrite (list_fmap_alter line_ids _ (fun x => x)); [by rewrite list_alter_id|].
      by apply Forall_true.
    + rewrite lookup_alter_ne by done. apply Hshape.
  - eexists _, _, (new ++ extra). rewrite Hrd. cbn. split_and!.
    + by rewrite lookup_alter_eq, Hdrs2.
    + cbn. by rewrite list_lookup_alter_eq, Hdr2.
    + done.
    + injection Hids as Hid1 Hid2. split; cbn.
      * exists rate. split; [done|]. by rewrite Hid2, <-Hr.
      * by rewrite Hid1.
  - intros key' j' (drs' & dr' & new' & Hdrs' & Hdr' & Hnew' & Hres).
    assert (new' = new) as ->.
    { unfold calls_between in *. rewrite Hnew in Hnew'. by apply app_inv_head in Hnew'. }
    destruct (decide (key' = key)) as [->|Hne].
    + assert (drs' = drs2) as -> by congruence.
      destruct (decide (j' = j)) as [->|Hnej].
      * assert (dr' = dr2) as -> by congruence.
        eexists _, _, (new ++ extra). rewrite Hrd. cbn. split_and!.
        -- by rewrite lookup_alter_eq, Hdrs2.
        -- cbn. by rewrite list_lookup_alter_eq, Hdr2.
        -- done.
        -- injection Hids as Hid1 Hid2. split; cbn.
           ++ exists rate. split; [done|]. by rewrite Hid2, <-Hr.
           ++ by rewrite Hid1.
      * eexists _, dr', (new ++ extra). rewrite Hrd. cbn. split_and!.
        -- by rewrite lookup_alter_eq, Hdrs2.
        -- cbn. by rewrite list_lookup_alter_ne.
        -- done.
        -- by apply line_resolved_more.
    + exists drs', dr', (new ++ extra). rewrite Hrd. cbn. split_and!; [|done..|].
      * by rewrite lookup_alter_ne.
      * by apply line_resolved_more.
Qed.

(** The loops of [LoadDestinationRates], begun with the groups of [m] in
    memory: when they go through, every line in memory is resolved. *)
Lemma load_destination_rates_loop groups sB :
  groups ≡ₚ map_to_list m ->
  fixed sB -> shape sB -> calls (world sB) = calls (world s) ->
  triple
    (for_each groups (fun '(key, drs) =>
       for_each (imap pair (DestinationRates drs)) (fun '(j, dr) =>
         tpr ← get_reader;
         match rates tpr !! dr_RateId dr with
         | None => return_ (Some ("could not find rate for tag " +:+ dr_RateId dr))
         | Some rate =>
             modify_reader (store_dr_Rate key j rate);;
             let destinationExists := bool_decide (dr_DestinationId dr = ANY) in
             let destinationExists :=
               if negb destinationExists
               then bool_decide (is_Some (destinations tpr !! dr_DestinationId dr))
               else destinationExists in
             destinationExists ←
               (if negb destinationExists && bool_decide (is_Some (dataStorage tpr))
                then
                  r ← db_call (HasData DESTINATION_PREFIX (dr_DestinationId dr));
                  match reply_err r with
                  | Some e => return_ (Some e)
                  | None => ret (reply_bool r)
                  end
                else ret destinationExists);
             if negb destinationExists
             then return_ (Some ("could not get destination for tag "
                                 +:+ dr_DestinationId dr))
             else ret tt
         end)))
    sB
    (fun _ s' =>
       rates (reader s') = rates (reader s) /\
       exists new, calls_between s s' new /\
         forall key drs dr,
           destinationRates (reader s') !! key = Some drs -> dr ∈ DestinationRates drs ->
           line_resolved (reader s) new dr)
    (fun (r : option Error) _ => is_Some r) (fun _ => True).
Proof.
  intros Hperm HfB HshB HcB.
  set (cb := fun s1 : State => exists new, calls_between s s1 new).
  eapply triple_conseq;
    [apply (triple_for_each
              (fun done s1 =>
                 fixed s1 /\ shape s1 /\ cb s1 /\
                 forall key drs j, (key, drs) ∈ done -> j < length (DestinationRates drs) ->
                   res s1 key j)
              groups _ sB (fun (r : option Error) _ => is_Some r) (fun _ => True))|..].
  - split_and!; [done..| |by intros ? ? ? ?%elem_of_nil].
    exists []. unfold calls_between. by rewrite app_nil_r.
  - intros done [key drs] rest s1 Hl (Hf1 & Hsh1 & Hcb1 & Hdone1).
    assert (m !! key = Some drs) as Hm.
    { apply elem_of_map_to_list. rewrite <-Hperm, Hl. apply elem_of_app. right. left. }
    eapply triple_conseq;
      [apply (triple_for_each
                (fun done' s2 =>
                   fixed s2 /\ shape s2 /\ cb s2 /\
                   (forall key' drs' j, (key', drs') ∈ done ->
                      j < length (DestinationRates drs') -> res s2 key' j) /\
                   (forall j, j < length done' -> res s2 key j))
                (imap pair (DestinationRates drs)) _ s1
                (fun (r : option Error) _ => is_Some r) (fun _ => True))|..].
    + split_and!; [done..|]. cbn. lia.
    + intros done' [j dr] rest' s2 Hl' (Hf2 & Hsh2 & [new Hnew] & Hdone2 & Hin2).
      assert (j = length done' /\ DestinationRates drs !! j = Some dr) as [Hj Hdr].
      { pose proof (list_lookup_middle done' rest' (j, dr) (length done') eq_refl) as Hmid.
        rewrite <-Hl', list_lookup_imap in Hmid.
        destruct (DestinationRates drs !! length done') as [dr0|] eqn:Hdr0; [|done].
        by injection Hmid as <- <-. }
      apply triple_bind, triple_get_reader.
      destruct (rates (reader s2) !! dr_RateId dr) as [rate|] eqn:Hrate;
        [|by apply triple_return].
      apply triple_bind, triple_modify_reader.
      set (s3 := mkState (store_dr_Rate key j rate (reader s2)) (world s2)).
      assert (forall s4 extra,
                reader s4 = reader s3 -> calls (world s4) = calls (world s2) ++ extra ->
                (dr_DestinationId dr = ANY \/
                 is_Some (destinations (reader s) !! dr_DestinationId dr) \/
                 exists r, (HasData DESTINATION_PREFIX (dr_DestinationId dr), r)
                             ∈ new ++ extra /\
                           reply_err r = None /\ reply_bool r = true) ->
                fixed s4 /\ shape s4 /\ cb s4 /\
                (forall key' drs' j, (key', drs') ∈ done ->
                   j < length (DestinationRates drs') -> res s4 key' j) /\
                (forall j', j' < length (done' ++ [(j, dr)]) -> res s4 key j')) as Hstep.
      { intros s4 extra Hrd4 Hc4 Hdst.
        destruct (store_dr_Rate_resolves s2 s4 key drs j dr rate extra)
          as (Hf4 & Hsh4 & Hres4 & Hkeep); [done..|by exists new|].
        split_and!; [done..| | |].
        - exists (new ++ extra). unfold calls_between in *.
          by rewrite Hc4, Hnew, (assoc_L (++)).
        - intros key' drs' j' Hin Hlt. apply Hkeep. by eapply Hdone2.
        - intros j'. rewrite length_app. cbn. intros Hlt.
          destruct (decide (j' = j)) as [->|Hne]; [done|].
          apply Hkeep, Hin2. lia. }
      destruct Hf2 as (Hr2 & Hd2 & Hdb2).
      destruct (bool_decide (dr_DestinationId dr = ANY)) eqn:Hany; cbn [negb].
      { cbn [andb]. apply triple_bind, triple_ret'. cbn [negb]. apply triple_ret'.
        apply (Hstep s3 []); [done|by rewrite app_nil_r|].
        left. by apply bool_decide_eq_true in Hany. }
      destruct (bool_decide (is_Some (destinations (reader s2) !! dr_DestinationId dr)))
        eqn:Hmem; cbn [negb].
      { cbn [andb]. apply triple_bind, triple_ret'. cbn [negb]. apply triple_ret'.
        apply (Hstep s3 []); [done|by rewrite app_nil_r|].
        right. left. apply bool_decide_eq_true in Hmem. by rewrite <-Hd2. }
      destruct (bool_decide (is_Some (dataStorage (reader s2)))); cbn [andb].
      2:{ apply triple_bind, triple_ret'. cbn [negb]. by apply triple_return. }
      apply triple_bind. apply triple_bind, triple_db_call; [done|].
      intros r st' _. destruct (reply_err r) as [e|] eqn:Herr; [by apply triple_return|].
      apply triple_ret'. destruct (reply_bool r) eqn:Hb; cbn [negb];
        [|by apply triple_return].
      apply triple_ret'.
      apply (Hstep _ [(HasData DESTINATION_PREFIX (dr_DestinationId dr), r)]); [done..|].
      right. right. exists r. split_and!; [|done..].
      apply elem_of_app. right. left.
    + intros [] s2 (Hf2 & Hsh2 & Hcb2 & Hdone2 & Hin2). split_and!; [done..|].
      intros key' drs' j [Hin|[= -> ->]%list_elem_of_singleton]%elem_of_app Hlt.
      * by eapply Hdone2.
      * apply Hin2. by rewrite length_imap.
    + done.
    + done.
  - intros [] s' ((Hr & _ & _) & Hsh & [new Hnew] & Hall). split; [done|].
    exists new. split; [done|].
    intros key drs' dr Hdrs' [j Hj]%list_elem_of_lookup_1.
    pose proof (Hsh key) as Hk. rewrite Hdrs' in Hk. cbn in Hk. symmetry in Hk.
    apply fmap_Some in Hk as (drs0 & Hdrs0 & Heq).
    assert (j < length (DestinationRates drs0)) as Hlt.
    { apply lookup_lt_Some in Hj.
      rewrite <-(length_fmap line_ids), <-Heq, length_fmap. done. }
    destruct (Hall key drs0 j) as (drs2 & dr2 & new2 & Hdrs2 & Hdr2 & Hnew2 & Hres).
    { rewrite Hperm. by apply elem_of_map_to_list. }
    { done. }
    assert (new2 = new) as ->.
    { unfold calls_between in *. rewrite Hnew in Hnew2. by apply app_inv_head in Hnew2. }
    congruence.
  - done.
  - done.
Qed.

End Lines.

Lemma LoadDestinationRates_lines s s' :
  run LoadDestinationRates s = (Some None, s') ->
  rates (reader s') = rates (reader s) /\
  exists new, calls_between s s' new /\
    forall key drs dr,
      destinationRates (reader s') !! key = Some drs -> dr ∈ DestinationRates drs ->
      line_resolved (reader s) new dr.
Proof.
  intros Hrun.
  set (G := fun s' : State =>
    rates (reader s') = rates (reader s) /\
    exists new, calls_between s s' new /\
      forall key drs dr,
        destinationRates (reader s') !! key = Some drs -> dr ∈ DestinationRates drs ->
        line_resolved (reader s) new dr).
  apply (triple_run LoadDestinationRates s (fun r s' => r = None -> G s') None s');
    [|done..].
  unfold LoadDestinationRates. apply triple_bind, triple_get_reader.
  destruct (GetTPDestinationRates _ _ _) as [tps [e|]]; [by apply triple_return|].
  destruct (MapTPDestinationRates tps) as [m [e|]];
    apply triple_bind, triple_modify_reader; [by apply triple_return|].
  apply triple_bind, triple_range. intros groups Hperm.
  apply triple_bind.
  eapply triple_conseq; [apply (load_destination_rates_loop s m groups)|..];
    [done|done|done|done| |by intros r s1 [e ->]|done].
  intros [] s1 HG. by apply triple_return.
Qed.

(** X19. After a [LoadDestinationRates] that returned nil, every line of
    every destination-rate group in memory is resolved: it carries the rate
    that memory holds under its rate id, and its destination is [*any], is a
    destination in memory, or is one the store, asked by this call, said it
    holds. The rates in memory are as they were. *)
Theorem LoadDestinationRates_resolves s s' :
  run LoadDestinationRates s = (Some None, s') ->
  rates (reader s') = rates (reader s) /\
  exists new, calls_between s s' new /\
    forall key drs dr,
      destinationRates (reader s') !! key = Some drs -> dr ∈ DestinationRates drs ->
      line_resolved (reader s) new dr.
Proof. apply LoadDestinationRates_lines. Qed.

(** X20. [LoadRates] replaces the rates in memory by what the mapper made
    of the rows, whether or not the mapper reports an error, and returns
    that error; nothing else changes. A [LoadDestinationRates] that then
    returns nil has attached to every line the rate the rows gave for the
    line's rate id. *)
Theorem LoadRates_then_LoadDestinationRates s tps :
  GetTPRates (lr (reader s)) (tpid (reader s)) "" = (tps, None) ->
  run LoadRates s
    = (Some (MapTPRates tps).2,
       mkState (set_rates (reader s) (MapTPRates tps).1) (world s)) /\
  forall s2,
    run LoadDestinationRates (run LoadRates s).2 = (Some None, s2) ->
    forall key drs dr,
      destinationRates (reader s2) !! key = Some drs -> dr ∈ DestinationRates drs ->
      exists rate, dr_Rate dr = Some rate /\
                   (MapTPRates tps).1 !! dr_RateId dr = Some rate.
Proof.
  intros Hget.
  assert (run LoadRates s
            = (Some (MapTPRates tps).2,
               mkState (set_rates (reader s) (MapTPRates tps).1) (world s))) as Hrun.
  { unfold run, LoadRates, mbind, M_bind, bind, get_reader. rewrite Hget.
    by destruct (MapTPRates tps) as [m [e|]]. }
  split; [done|]. rewrite Hrun. cbn [snd]. intros s2 Hrun2 key drs dr Hdrs Hdr.
  destruct (LoadDestinationRates_lines _ _ Hrun2) as (_ & new & _ & Hall).
  by destruct (Hall key drs dr Hdrs Hdr) as [Hrate _].
Qed.

(** *** [LoadRatingProfiles]: what is stored *)

Lemma activation_ok_more t cs extra tpRa :
  activation_ok t cs tpRa -> activation_ok t (cs ++ extra) tpRa.
Proof.
  intros [Hparse Hplan]. split; [done|].
  destruct Hplan as [?|(r & Hin & ? & ?)]; [by left|].
  right. exists r. split_and!; [|done..]. apply elem_of_app. by left.
Qed.

(** X21. After a [LoadRatingProfiles] that returned nil, the source and
    the mapper having answered: under a key the rating profiles hold the
    profile made of the last mapped row with that key - the key as id, an
    activation for each activation of the row, in order - else what they
    held; nothing else changed in the reader; and every activation of every
    row has a time that parses and a rating plan that is in memory or that
    the store, asked by this call, said it holds. *)
Theorem LoadRatingProfiles_stores s s' tps mpTpRpfs :
  GetTPRatingProfiles (lr (reader s))
    {| rpf_TPid := tpid (reader s); rpf_LoadId := ""; rpf_Direction := "";
       rpf_Tenant := ""; rpf_Category := ""; rpf_Subject := "";
       rpf_RatingPlanActivations := [] |} = (tps, None) ->
  MapTPRatingProfiles tps = (mpTpRpfs, None) ->
  run LoadRatingProfiles s = (Some None, s') ->
  reader s' = set_ratingProfiles (reader s) (ratingProfiles (reader s')) /\
  (forall k,
     ratingProfiles (reader s') !! k =
       match last (filter (fun tpRpf => TPRatingProfile_KeyId tpRpf = k) mpTpRpfs) with
       | Some tpRpf => Some (profile_of tpRpf)
       | None => ratingProfiles (reader s) !! k
       end) /\
  exists new, calls_between s s' new /\
    forall tpRpf tpRa,
      tpRpf ∈ mpTpRpfs -> tpRa ∈ rpf_RatingPlanActivations tpRpf ->
      activation_ok (reader s) new tpRa.
Proof.
  intros Hget Hmap Hrun.
  set (stored := fun done : list TPRatingProfile =>
                   foldl (fun m tpRpf => <[TPRatingProfile_KeyId tpRpf := profile_of tpRpf]> m)
                     (ratingProfiles (reader s)) done).
  set (J := fun (done : list TPRatingProfile) (s1 : State) =>
              reader s1 = set_ratingProfiles (reader s) (stored done) /\
              exists new, calls_between s s1 new /\
                forall tpRpf tpRa, tpRpf ∈ done -> tpRa ∈ rpf_RatingPlanActivations tpRpf ->
                  activation_ok (reader s) new tpRa).
  cut (J mpTpRpfs s').
  { intros [Hrd Hok]. split_and!; [|intros k|done].
    - rewrite Hrd. done.
    - rewrite Hrd. cbn. unfold stored. apply foldl_insert_last. }
  apply (triple_run LoadRatingProfiles s (fun r s' => r = None -> J mpTpRpfs s') None s');
    [|done..].
  unfold LoadRatingProfiles. apply triple_bind, triple_get_reader.
  rewrite Hget, Hmap. apply triple_bind.
  eapply triple_conseq;
    [apply (triple_for_each J mpTpRpfs _ s (fun (r : option Error) _ => is_Some r)
              (fun _ => True))|..].
  - split; [by destruct s as [[] ?]|]. exists []. split.
    + unfold calls_between. by rewrite app_nil_r.
    + by intros ? ? ?%elem_of_nil.
  - intros done tpRpf rest s1 _ [Hrd Hok].
    set (mk := fun tpRa =>
                 {| ActivationTime := (ParseDate (ra_ActivationTime tpRa)).1;
                    RatingPlanId := ra_RatingPlanId tpRa;
                    FallbackKeys :=
                      FallbackSubjKeys (rpf_Direction tpRpf) (rpf_Tenant tpRpf)
                        (rpf_Category tpRpf) (ra_FallbackSubjects tpRa);
                    CdrStatQueueIds := Split_INFIELD_SEP (ra_CdrStatQueueIds tpRa) |}).
    set (K := fun (done' : list TPRatingActivation) (s2 : State) =>
                exists new, calls_between s s2 new /\
                  Forall (activation_ok (reader s) new) done' /\
                  forall tpRpf' tpRa, tpRpf' ∈ done ->
                    tpRa ∈ rpf_RatingPlanActivations tpRpf' ->
                    activation_ok (reader s) new tpRa).
    apply triple_bind.
    eapply triple_conseq;
      [apply (triple_for_fold
                (fun done' acts s2 =>
                   reader s2 = reader s1 /\ acts = mk <$> done' /\ K done' s2)
                (rpf_RatingPlanActivations tpRpf) _ _ s1
                (fun (r : option Error) _ => is_Some r) (fun _ => True))|..].
    + split_and!; [done..|]. destruct Hok as (new & Hnew & Hall). by exists new.
    + intros done' tpRa rest' acts s2 _ (Hrd2 & -> & new & Hnew & Hall & Hprev).
      destruct (ParseDate (ra_ActivationTime tpRa)) as [at_ [e|]] eqn:Hparse;
        [by apply triple_return|].
      apply triple_bind, triple_get_reader.
      assert (ratingPlans (reader s2) = ratingPlans (reader s) /\
              dataStorage (reader s2) = dataStorage (reader s)) as [Hpl Hdb].
      { rewrite Hrd2, Hrd. done. }
      assert (forall s3 extra,
                reader s3 = reader s2 -> calls (world s3) = calls (world s2) ++ extra ->
                is_Some (ratingPlans (reader s) !! ra_RatingPlanId tpRa) \/
                (exists r, (HasData RATING_PLAN_PREFIX (ra_RatingPlanId tpRa), r)
                             ∈ new ++ extra /\
                           reply_err r = None /\ reply_bool r = true) ->
                reader s3 = reader s1 /\
                (mk <$> done') ++ [
                  {| ActivationTime := at_;
                     RatingPlanId := ra_RatingPlanId tpRa;
                     FallbackKeys :=
                       FallbackSubjKeys (rpf_Direction tpRpf) (rpf_Tenant tpRpf)
                         (rpf_Category tpRpf) (ra_FallbackSubjects tpRa);
                     CdrStatQueueIds := Split_INFIELD_SEP (ra_CdrStatQueueIds tpRa) |}]
                  = mk <$> (done' ++ [tpRa]) /\
                K (done' ++ [tpRa]) s3) as Hstep.
      { intros s3 extra Hrd3 Hc3 Hplan. split_and!; [congruence| |].
        { rewrite fmap_app. unfold mk. cbn. by rewrite Hparse. }
        exists (new ++ extra). split_and!.
        - unfold calls_between in *. by rewrite Hc3, Hnew, (assoc_L (++)).
        - apply Forall_app. split.
          + eapply Forall_impl; [exact Hall|]. intros x. apply activation_ok_more.
          + apply Forall_singleton. split; [by rewrite Hparse|done].
        - intros tpRpf' tpRa' Hin Hact. by apply activation_ok_more, (Hprev tpRpf'). }
      rewrite Hpl, Hdb.
      destruct (bool_decide (is_Some (ratingPlans (reader s) !! ra_RatingPlanId tpRa)))
        eqn:Hmem; cbn [negb andb].
      { apply triple_bind, triple_ret'. cbn [negb]. apply triple_ret'.
        apply (Hstep s2 []); [done|by rewrite app_nil_r|].
        left. by apply bool_decide_eq_true in Hmem. }
      destruct (bool_decide (is_Some (dataStorage (reader s)))) eqn:Hst; cbn [andb].
      2:{ apply triple_bind, triple_ret'. cbn [negb]. by apply triple_return. }
      apply triple_bind. apply triple_bind, triple_db_call; [done|].
      intros r st' _. destruct (reply_err r) as [e|] eqn:Herr; [by apply triple_return|].
      apply triple_ret'. destruct (reply_bool r) eqn:Hb; cbn [negb];
        [|by apply triple_return].
      apply triple_ret'.
      apply (Hstep _ [(HasData RATING_PLAN_PREFIX (ra_RatingPlanId tpRa), r)]); [done..|].
      right. exists r. split_and!; [|done..]. apply elem_of_app. right. left.
    + intros acts s2 (Hrd2 & -> & new & Hnew & Hall & Hprev).
      apply triple_modify_reader. split; cbn.
      * rewrite Hrd2, Hrd. cbn. unfold stored. by rewrite foldl_app.
      * exists new. split; [done|].
        intros tpRpf' tpRa [Hin|[= ->]%list_elem_of_singleton]%elem_of_app Hact.
        -- by eapply Hprev.
        -- by eapply Forall_forall in Hall.
    + done.
    + done.
  - intros [] s1 HJ. by apply triple_return.
  - by intros r s1 [e ->].
  - done.
Qed.

(** *** [WriteToDatabase]: what a nil result has written *)

Lemma entity_writes_app cs1 cs2 :
  entity_writes (cs1 ++ cs2) = entity_writes cs1 ++ entity_writes cs2.
Proof. apply omap_app. Qed.

Section Wrote.

Variable s0 : State.
Hypothesis Hdb : is_Some (dataStorage (reader s0)).

Lemma wrote_world P s1 w :
  wrote s0 P s1 -> calls w = calls (world s1) -> wrote s0 P (mkState (reader s1) w).
Proof.
  intros [Hrd (new & Hc & Hw)] Hcw. split; [done|]. exists new. split; [|done].
  unfold calls_between in *. cbn. by rewrite Hcw.
Qed.

(** A write on the store, whatever it answers. *)
Lemma wrote_db_write c P s1 :
  wrote s0 P s1 ->
  triple (db_write c) s1
    (fun _ => wrote s0 (P ++ option_list (entity_write c)))
    (fun r _ => is_Some r) (fun _ => False).
Proof.
  intros [Hrd (new & Hc & Hw)]. unfold db_write. apply triple_bind, triple_db_call.
  { intros Hn. rewrite Hrd in Hn. destruct Hdb. congruence. }
  intros r st' _. destruct (reply_err r) as [e|]; [by apply triple_return|].
  apply triple_ret'. split; [done|]. exists (new ++ [(c, r)]). split.
  - unfold calls_between in *. cbn. by rewrite Hc, (assoc_L (++)).
  - rewrite entity_writes_app, Hw. unfold entity_writes. cbn.
    by destruct (entity_write c).
Qed.

(** A loop whose every turn writes one entity. *)
Lemma wrote_loop {A} (f : A -> Entity) (l : list A) (body : A -> M (option Error) unit) P s1 :
  (forall x P1 s2, wrote s0 P1 s2 ->
     triple (body x) s2 (fun _ => wrote s0 (P1 ++ [f x])) (fun r _ => is_Some r)
       (fun _ => False)) ->
  wrote s0 P s1 ->
  triple (for_each l body) s1 (fun _ => wrote s0 (P ++ (f <$> l)))
    (fun r _ => is_Some r) (fun _ => False).
Proof.
  intros Hbody H1.
  apply (triple_for_each (fun done s2 => wrote s0 (P ++ (f <$> done)) s2)).
  - by rewrite app_nil_r.
  - intros done x rest s2 _ H2. rewrite fmap_app, (assoc_L (++)). by apply Hbody.
Qed.

(** A [range] over a map, one entity written for each entry, and what
    comes after. *)
Lemma wrote_phase {V A} (f : string * V -> Entity) (m : gmap string V)
    (body : string * V -> M (option Error) unit) (k : M (option Error) A) P s1
    (Qn : A -> State -> Prop) (Qr : option Error -> State -> Prop) :
  (forall x P1 s2, wrote s0 P1 s2 ->
     triple (body x) s2 (fun _ => wrote s0 (P1 ++ [f x])) (fun r _ => is_Some r)
       (fun _ => False)) ->
  (forall r s2, is_Some r -> Qr r s2) ->
  (forall l s2, l ≡ₚ map_to_list m -> wrote s0 (P ++ (f <$> l)) s2 ->
     triple k s2 Qn Qr (fun _ => False)) ->
  wrote s0 P s1 ->
  triple (l ← range m; for_each l body;; k) s1 Qn Qr (fun _ => False).
Proof.
  intros Hbody Herr Hk H1. apply triple_bind, triple_range. intros l Hl.
  apply triple_bind.
  eapply triple_conseq; [apply (wrote_loop f l body P)|..]; [done| | |done|done].
  - by apply wrote_world.
  - intros [] s2 H2. by apply (Hk l).
Qed.

(** Pushing the tasks of an action-timing writes no entity. *)
Lemma wrote_push_tasks ap at_ P s1 :
  wrote s0 P s1 ->
  triple (push_tasks ap at_) s1 (fun _ => wrote s0 P) (fun r _ => is_Some r)
    (fun _ => False).
Proof.
  intros H1. unfold push_tasks. destruct (IsASAP at_); [|by apply triple_ret'].
  assert (forall accID s2, wrote s0 P s2 ->
            triple (uuid ← GenUUID;
                    db_write (PushTask {| task_Uuid := uuid; AccountID := accID;
                                          task_ActionsID := ActionsID at_ |}))
              s2 (fun _ => wrote s0 P) (fun r _ => is_Some r) (fun _ => False)) as Hpush.
  { intros accID s2 H2. apply triple_bind, triple_GenUUID.
    eapply triple_conseq; [apply (wrote_db_write _ P)|..]; [|cbn|done|done].
    - by apply wrote_world.
    - intros [] s3 H3. by rewrite app_nil_r in H3. }
  apply triple_bind, triple_range. intros accs _.
  apply (triple_seq (wrote s0 P)).
  { apply triple_loop; [by apply wrote_world|]. intros [accID b] s2 H2. by apply Hpush. }
  intros [] s2 H2. case_bool_decide; [by apply Hpush|by apply triple_ret'].
Qed.

End Wrote.

Ltac wrote_write :=
  intros [? ?] ? ? ?; by apply wrote_db_write.

(** X22. What [WriteToDatabase] has written when it returns nil: every
    entity of the reader, once each, immediately (under no transaction), and
    nothing else of these kinds - the destinations, then the rating plans,
    the rating profiles, the action plans, the action triggers, the shared
    groups, the LCRs, the actions, the accounts, the derived chargers, the
    CDR stats, the users, the aliases and the resource limits as converted;
    within a kind in the order the map is visited. A store was attached, and
    the reader is as it was. *)
Theorem WriteToDatabase_writes_all flush verbose disable_reverse s s' :
  run (WriteToDatabase flush verbose disable_reverse) s = (Some None, s') ->
  is_Some (dataStorage (reader s)) /\
  reader s' = reader s /\
  exists new phases,
    calls_between s s' new /\
    entity_writes new = concat phases /\
    Forall2 (≡ₚ) phases (entities (reader s)).
Proof.
  intros Hrun.
  set (Q := fun (r : option Error) (s' : State) =>
    r = None ->
    is_Some (dataStorage (reader s)) /\
    reader s' = reader s /\
    exists new phases,
      calls_between s s' new /\
      entity_writes new = concat phases /\
      Forall2 (≡ₚ) phases (entities (reader s))).
  apply (triple_run (WriteToDatabase flush verbose disable_reverse) s Q None s');
    [|done..].
  assert (forall r s2, is_Some r -> Q r s2) as Herr.
  { intros r s2 [e ->]. by intros [= ]. }
  unfold WriteToDatabase. apply triple_bind, triple_get_reader.
  destruct (dataStorage (reader s)) as [db|] eqn:Hdb; [|by apply triple_return, Herr].
  assert (is_Some (dataStorage (reader s))) as Hsome by (by rewrite Hdb).
  assert (wrote s [] s) as H0.
  { split; [done|]. exists []. split; [|done]. unfold calls_between. by rewrite app_nil_r. }
  apply (triple_conseq _ _ Q Q Q Q (fun _ => False) (fun _ => True)); [|done..].
  apply (wrote_phase s (fun kv => a_destination kv.2) _ _ _ [] s);
    [wrote_write|done| |exact H0].
  intros l1 s1 Hl1 H1. cbn [app] in H1.
  eapply (wrote_phase s (fun kv => a_ratingPlan kv.2));
    [wrote_write|done| |exact H1].
  clear s1 H1. intros l2 s1 Hl2 H1.
  eapply (wrote_phase s (fun kv => a_ratingProfile kv.2));
    [wrote_write|done| |exact H1].
  clear s1 H1. intros l3 s1 Hl3 H1.
  eapply (wrote_phase s (fun kv => an_actionPlan kv.1 kv.2)); [|done| |exact H1].
  { intros [k ap] P1 s2 H2.
    apply (triple_seq (wrote s P1)).
    - apply triple_loop; [done|]. intros at_ s3 H3. by apply wrote_push_tasks.
    - intros [] s3 H3. by apply wrote_db_write. }
  clear s1 H1. intros l4 s1 Hl4 H1.
  eapply (wrote_phase s (fun kv => some_actionTriggers kv.1 kv.2));
    [wrote_write|done| |exact H1].
  clear s1 H1. intros l5 s1 Hl5 H1.
  eapply (wrote_phase s (fun kv => a_sharedGroup kv.2));
    [wrote_write|done| |exact H1].
  clear s1 H1. intros l6 s1 Hl6 H1.
  eapply (wrote_phase s (fun kv => an_lcr kv.2));
    [wrote_write|done| |exact H1].
  clear s1 H1. intros l7 s1 Hl7 H1.
  eapply (wrote_phase s (fun kv => some_actions kv.1 kv.2));
    [wrote_write|done| |exact H1].
  clear s1 H1. intros l8 s1 Hl8 H1.
  eapply (wrote_phase s (fun kv => an_account kv.2));
    [wrote_write|done| |exact H1].
  clear s1 H1. intros l9 s1 Hl9 H1.
  eapply (wrote_phase s (fun kv => some_derivedChargers kv.1 kv.2));
    [wrote_write|done| |exact H1].
  clear s1 H1. intros l10 s1 Hl10 H1.
  eapply (wrote_phase s (fun kv => some_cdrStats kv.2));
    [wrote_write|done| |exact H1].
  clear s1 H1. intros l11 s1 Hl11 H1.
  eapply (wrote_phase s (fun kv => a_user kv.2));
    [wrote_write|done| |exact H1].
  clear s1 H1. intros l12 s1 Hl12 H1.
  eapply (wrote_phase s (fun kv => an_alias kv.2));
    [wrote_write|done| |exact H1].
  clear s1 H1. intros l13 s1 Hl13 H1.
  eapply (wrote_phase s
            (fun kv => a_resourceLimit (APItoResourceLimit kv.2 (timezone (reader s))).1));
    [|done| |exact H1].
  { intros [k tpRL] P1 s2 H2. cbn.
    destruct (APItoResourceLimit tpRL _) as [rl [e|]]; [by apply triple_return|].
    by apply wrote_db_write. }
  clear s1 H1. intros l14 s1 Hl14 H1.
  match type of H1 with wrote _ ?P _ => set (all := P) in * end.
  assert (forall s2, wrote s all s2 ->
            triple (return_ None : M (option Error) (option Error)) s2 Q Q (fun _ => False))
    as Hfinal.
  { intros s2 [Hrd (new & Hc & Hw)]. apply triple_return. intros _.
    split_and!; [done..|].
    exists new,
      [ (fun kv => a_destination kv.2) <$> l1; (fun kv => a_ratingPlan kv.2) <$> l2;
        (fun kv => a_ratingProfile kv.2) <$> l3; (fun kv => an_actionPlan kv.1 kv.2) <$> l4;
        (fun kv => some_actionTriggers kv.1 kv.2) <$> l5;
        (fun kv => a_sharedGroup kv.2) <$> l6; (fun kv => an_lcr kv.2) <$> l7;
        (fun kv => some_actions kv.1 kv.2) <$> l8; (fun kv => an_account kv.2) <$> l9;
        (fun kv => some_derivedChargers kv.1 kv.2) <$> l10;
        (fun kv => some_cdrStats kv.2) <$> l11; (fun kv => a_user kv.2) <$> l12;
        (fun kv => an_alias kv.2) <$> l13;
        (fun kv => a_resourceLimit (APItoResourceLimit kv.2 (timezone (reader s))).1)
          <$> l14 ].
    split_and!; [done| |].
    - rewrite Hw. unfold all. cbn. by rewrite app_nil_r, <-!(assoc_L (++)).
    - unfold entities.
      repeat (apply Forall2_cons; split; [by apply fmap_Permutation|]).
      apply Forall2_nil_2. }
  assert (forall (c : Call) s2, entity_write c = None -> wrote s all s2 ->
            triple (db_write c) s2 (fun _ => wrote s all) Q (fun _ => False)) as Hquiet.
  { intros c s2 Hc H2.
    eapply triple_conseq; [apply (wrote_db_write s Hsome c all)|..]; [done| |done|done].
    intros [] s3 H3. by rewrite Hc, app_nil_r in H3. }
  assert (forall (b : bool) (c : Call) s2, entity_write c = None -> wrote s all s2 ->
            triple (if b then db_write c else ret tt) s2 (fun _ => wrote s all) Q
              (fun _ => False)) as Hopt.
  { intros [] c s2 Hc H2; [by apply Hquiet|by apply triple_ret']. }
  apply (triple_seq (wrote s all)); [|intros [] s2 H2; by apply Hfinal].
  destruct disable_reverse; cbn [negb]; [by apply triple_ret'|].
  apply (triple_seq (wrote s all)); [by apply Hopt|]. clear s1 H1. intros [] s1 H1.
  apply (triple_seq (wrote s all)); [by apply Hopt|]. clear s1 H1. intros [] s1 H1.
  apply (triple_seq (wrote s all)); [by apply Hopt|]. clear s1 H1. intros [] s1 H1.
  destruct (negb _); [|by apply triple_ret'].
  apply (triple_seq (wrote s all)); [by apply Hquiet|]. clear s1 H1. intros [] s1 H1.
  apply triple_bind, triple_range. intros l _.
  apply (triple_seq (wrote s all)); [|intros rls s2 H2; by apply Hquiet].
  apply triple_fold_loop; [by apply wrote_world|]. intros rls [k tpRL] s2 H2.
  destruct (APItoResourceLimit tpRL _) as [rl [e|]]; [by apply triple_return, Herr|].
  by apply triple_ret'.
Qed.

(** *** [LoadAll] on a source that fails, and the loaders that work in memory *)

(** X23. [LoadAll] begins with the destinations. When the source answers
    the question for them with an error other than "not found", [LoadAll]
    returns that error with everything as it was: no other step runs,
    whatever the other steps are. When the error is "not found", [LoadAll]
    goes on as if the step had returned nil. *)
Theorem LoadAll_destinations_fail s tps e
    (LoadSharedGroups LoadLCRs LoadActions LoadActionTriggers LoadDerivedChargers
       LoadCdrStats LoadUsers LoadAliases : M (option Error) (option Error)) :
  GetTPDestinations (lr (reader s)) (tpid (reader s)) "" = (tps, Some e) ->
  (e <> NotFoundCaps ->
   run (LoadAll LoadDestinations LoadRates LoadSharedGroups LoadLCRs LoadActions
          LoadActionTriggers LoadDerivedChargers LoadCdrStats LoadUsers LoadAliases
          LoadResourceLimits) s
     = (Some (Some e), s)) /\
  (e = NotFoundCaps ->
   run (LoadAll LoadDestinations LoadRates LoadSharedGroups LoadLCRs LoadActions
          LoadActionTriggers LoadDerivedChargers LoadCdrStats LoadUsers LoadAliases
          LoadResourceLimits) s
     = run (LoadAll (return_ None) LoadRates LoadSharedGroups LoadLCRs LoadActions
              LoadActionTriggers LoadDerivedChargers LoadCdrStats LoadUsers LoadAliases
              LoadResourceLimits) s).
Proof.
  intros Hget.
  assert (run LoadDestinations s = (Some (Some e), s)) as Hrun.
  { unfold run, LoadDestinations, mbind, M_bind, bind, get_reader. by rewrite Hget. }
  split.
  - intros Hne.
    assert (halts (Some e) = true) as Hh by (cbn; by rewrite bool_decide_eq_false_2).
    unfold run, LoadAll. unfold mbind at 1, M_bind, bind.
    by rewrite (load_step_halt _ _ _ _ Hrun Hh).
  - intros ->.
    unfold run, LoadAll. unfold mbind at 1 18, M_bind, bind.
    rewrite (load_step_pass _ _ _ _ Hrun eq_refl).
    by rewrite (load_step_pass (return_ None) s None s eq_refl eq_refl).
Qed.

Lemma load_account_action_world aa s1 :
  triple (load_account_action aa) s1 (fun _ s2 => world s2 = world s1)
    (fun _ s2 => world s2 = world s1) (fun s2 => world s2 = world s1).
Proof.
  unfold triple, load_account_action, mbind, M_bind, bind, get_reader,
    modify_reader, ret, return_.
  destruct s1 as [t w]. cbn.
  destruct (accountActions t !! TPAccountActions_KeyId aa); [done|].
  destruct (actionPlans t !! ActionPlanId aa);
  destruct (actionsTriggers t !! ActionTriggersId aa);
  repeat case_bool_decide; cbn; done.
Qed.

(** X24. The loaders that work in memory leave the world outside the
    reader alone, whichever way they end: [LoadDestinations],
    [LoadTimings], [LoadRates], [LoadAccountActions],
    [LoadResourceLimitsFiltered] and [LoadResourceLimits] make no call on the
    store, and draw no identifier. *)
Theorem in_memory_loaders_leave_the_world s :
  world (run LoadDestinations s).2 = world s /\
  world (run LoadTimings s).2 = world s /\
  world (run LoadRates s).2 = world s /\
  world (run LoadAccountActions s).2 = world s /\
  (forall tag, world (run (LoadResourceLimitsFiltered tag) s).2 = world s) /\
  world (run LoadResourceLimits s).2 = world s.
Proof.
  assert (forall tag, world (run (LoadResourceLimitsFiltered tag) s).2 = world s) as Hrl.
  { intros tag. unfold run, LoadResourceLimitsFiltered, mbind, M_bind, bind, get_reader.
    destruct (GetTPResourceLimits _ _ _) as [rls [e|]]; [done|].
    by rewrite (for_fold_pure (fun mapRLs rl => <[TPResourceLimit_ID rl := rl]> mapRLs)). }
  split_and!.
  - unfold run, LoadDestinations, mbind, M_bind, bind, get_reader.
    destruct (GetTPDestinations _ _ _) as [tps [e|]]; [done|].
    destruct (load_destinations_loop tps s) as (s' & -> & Hw & _). done.
  - unfold run, LoadTimings, mbind, M_bind, bind, get_reader.
    destruct (GetTPTimings _ _ _) as [tps [e|]]; [done|].
    by destruct (MapTPTimings tps) as [[m|] e].
  - unfold run, LoadRates, mbind, M_bind, bind, get_reader.
    destruct (GetTPRates _ _ _) as [tps [e|]]; [done|].
    by destruct (MapTPRates tps) as [m e].
  - apply (triple_final LoadAccountActions s (fun s' => world s' = world s)).
    unfold LoadAccountActions. apply triple_bind, triple_get_reader.
    destruct (GetTPAccountActions _ _) as [tps [e|]]; [by apply triple_return|].
    destruct (MapTPAccountActions tps) as [storAts [e|]]; [by apply triple_return|].
    apply (triple_seq (fun s' => world s' = world s));
      [|intros [] s1 H1; by apply triple_return].
    apply triple_loop; [done|]. intros aa s1 H1. rewrite <-H1.
    apply load_account_action_world.
  - exact Hrl.
  - specialize (Hrl ""). unfold run, LoadResourceLimits, mbind, M_bind, bind, invoke in *.
    by destruct (LoadResourceLimitsFiltered "" s) as [[r|r|] s'].
Qed.

(** *** [LoadUsersFiltered] and [ShowStatistics] *)

(** X25. [LoadUsersFiltered] does not look at what the store answers. With
    a store attached and a source that answers, it writes one user for each
    row, in the order of the rows - the profile of a user holding for each
    attribute name the last value the row gives - and returns nil as error
    whatever the writes answered, with true exactly when there was a row;
    the reader stays as it was. On an error of the source it returns false
    and the error, and makes no call. With rows and no store it panics. *)
Theorem LoadUsersFiltered_ignores_answers s filter tpUsers err :
  GetTPUsers (lr (reader s)) filter = (tpUsers, err) ->
  (forall e, err = Some e -> run (LoadUsersFiltered filter) s = (Some (false, Some e), s)) /\
  (err = None -> is_Some (dataStorage (reader s)) ->
   exists s' replies,
     run (LoadUsersFiltered filter) s
       = (Some (negb (bool_decide (length tpUsers = 0)), None), s') /\
     reader s' = reader s /\
     length replies = length tpUsers /\
     calls_between s s' (user_writes tpUsers replies)) /\
  (err = None -> dataStorage (reader s) = None -> tpUsers <> [] ->
   (run (LoadUsersFiltered filter) s).1 = None).
Proof.
  intros Hget. split_and!.
  - intros e ->. unfold run, LoadUsersFiltered, mbind, M_bind, bind, get_reader.
    by rewrite Hget.
  - intros -> Hdb.
    set (Q := fun (r : bool * option Error) (s' : State) =>
                r = (negb (bool_decide (length tpUsers = 0)), None) /\
                reader s' = reader s /\
                exists replies, length replies = length tpUsers /\
                  calls_between s s' (user_writes tpUsers replies)).
    destruct (triple_run_total (LoadUsersFiltered filter) s Q)
      as (r & s' & Hrun & -> & Hrd & replies & Hlen & Hcalls).
    2:{ by exists s', replies. }
    unfold LoadUsersFiltered. apply triple_bind, triple_get_reader. rewrite Hget.
    apply triple_bind.
    eapply triple_conseq;
      [apply (triple_for_each
                (fun done s1 =>
                   reader s1 = reader s /\
                   exists replies, length replies = length done /\
                     calls_between s s1 (user_writes done replies))
                tpUsers _ s Q (fun _ => False))|..].
    + split; [done|]. exists []. split; [done|]. unfold calls_between. cbn.
      by rewrite app_nil_r.
    + intros done tpUser rest s1 _ (Hrd & replies & Hlen & Hcalls).
      apply triple_bind.
      unfold triple. rewrite for_fold_pure.
      apply triple_bind, triple_db_call.
      { intros Hn. rewrite Hrd in Hn. destruct Hdb. congruence. }
      intros r st' _. apply triple_ret'. split; [done|].
      exists (replies ++ [r]). split; [rewrite !length_app; cbn; lia|].
      unfold calls_between, user_writes in *. cbn.
      rewrite Hcalls, zip_with_app by done. by rewrite (assoc_L (++)).
    + intros [] s1 (Hrd & replies & Hlen & Hcalls). apply triple_return.
      split_and!; [done..|]. by exists replies.
    + intros r s1 Hr. exact Hr.
    + done.
  - intros -> Hdb Hne. unfold run, LoadUsersFiltered, mbind, M_bind, bind, get_reader.
    rewrite Hget. destruct tpUsers as [|tpUser rest]; [done|].
    cbn [for_each]. unfold mbind, M_bind, bind. rewrite for_fold_pure.
    unfold db_call. by rewrite Hdb.
Qed.

(** X26. [ShowStatistics] divides by the number of destinations, of rating
    plans and of rating profiles: it panics exactly when the reader has no
    destination, no rating plan or no rating profile - so it panics on a
    reader fresh from [NewTpReader] - and it changes neither the reader nor
    the store. *)
Theorem ShowStatistics_panics s :
  ((run ShowStatistics s).1 = None <->
   destinations (reader s) = ∅ \/ ratingPlans (reader s) = ∅ \/
   ratingProfiles (reader s) = ∅) /\
  untouched s (run ShowStatistics s).2 /\
  (forall db lr_ tpid_ timezone_ w,
     (run ShowStatistics (mkState (NewTpReader db lr_ tpid_ timezone_) w)).1 = None).
Proof.
  assert (forall s0,
            ((run ShowStatistics s0).1 = None <->
             destinations (reader s0) = ∅ \/ ratingPlans (reader s0) = ∅ \/
             ratingProfiles (reader s0) = ∅) /\
            untouched s0 (run ShowStatistics s0).2) as Hgen.
  { clear s. intros s.
    apply (triple_outcome ShowStatistics s
             (fun r s' =>
                (r = None <->
                 destinations (reader s) = ∅ \/ ratingPlans (reader s) = ∅ \/
                 ratingProfiles (reader s) = ∅) /\
                untouched s s')).
    assert (forall (a b : nat) {A} (k : M unit A) s1 (Qn : A -> State -> Prop) Qr Qp,
              (b = 0 -> Qp s1) -> (b <> 0 -> triple k s1 Qn Qr Qp) ->
              triple (div_int a b;; k) s1 Qn Qr Qp) as Hdiv.
    { intros a b A k s1 Qn Qr Qp Hz Hnz. apply triple_bind. unfold div_int.
      case_bool_decide; [by apply triple_panic, Hz|]. apply triple_ret'. by apply Hnz. }
    assert (forall {V} (m : gmap string V), size m = 0 <-> m = ∅) as Hsz.
    { intros V m. apply map_size_empty_iff. }
    assert (forall s1 w, untouched s s1 -> calls w = calls (world s1) ->
              store w = store (world s1) -> uuids w = uuids (world s1) ->
              untouched s (mkState (reader s1) w)) as Hun.
    { intros s1 w (? & ? & ? & ?) ? ? ?. unfold untouched. cbn. split_and!; congruence. }
    assert (untouched s s) as H0 by done.
    unfold ShowStatistics. apply triple_bind, triple_get_reader.
    apply triple_bind, triple_range. intros l1 _.
    apply triple_bind. unfold triple at 1. rewrite for_fold_pure.
    apply Hdiv.
    { intros Hz%Hsz. split; [|by apply Hun]. split; [by left|done]. }
    intros Hd. rewrite Hsz in Hd.
    apply triple_bind, triple_range. intros l2 _.
    apply triple_bind. unfold triple at 1. rewrite for_fold_pure.
    apply Hdiv.
    { intros Hz%Hsz. split; [|by apply Hun]. split; [by right; left|done]. }
    intros Hp. rewrite Hsz in Hp.
    apply triple_bind, triple_range. intros l3 _.
    apply triple_bind. unfold triple at 1. rewrite for_fold_pure.
    apply Hdiv.
    { intros Hz%Hsz. split; [|by apply Hun]. split; [by right; right|done]. }
    intros Hf. rewrite Hsz in Hf.
    apply triple_return. split; [|by apply Hun].
    split; [done|]. intros [?|[?|?]]; done. }
  split_and!.
  - apply (Hgen s).
  - apply (Hgen s).
  - intros db lr_ tpid_ timezone_ w.
    apply (proj1 (Hgen (mkState (NewTpReader db lr_ tpid_ timezone_) w))). by left.
Qed.

End More.

(** *** The whole load and the store *)

Section Whole.

Context {Acc : Accessors} {Sc : Scalars} {Kd : Kinds}.

(** What [quiet_since] lets through: any change of the reader that keeps
    its store, the draw of an order or of an identifier. *)
Section Quiet.

Context {R : Type} (s0 : State).




End Quiet.





















(** What [store_use] lets through. *)
Section Use.

Context {R : Type} (s0 : State) (K : Call -> Prop).






End Use.














End Whole.
End Reader.

Import Fixtures.

(** A run of [LoadTimings] on a source whose rows claim the tags [*any] and
    [*every_minute]: the first is overwritten by the sentinel. *)
Lemma LoadTimings_sentinels_witness :
  timings (reader (run LoadTimings timings_state).2) !! ANY
    = Some (sentinel_timing ANY "00:00:00") /\
  timings (reader (run LoadTimings timings_state).2) !! ASAP
    = Some (sentinel_timing ASAP ASAP).
Proof.
  destruct (LoadTimings_sentinels timings_state
              (run LoadTimings timings_state).2)
    as (tps & m & _ & _ & Hany & Hasap & _); [vm_compute; reflexivity|].
  split; [exact Hany|exact Hasap].
Defined.

(** C7, as stated, fails: after [Init] the timings map has no entry for
    [*asap], here on a reader that had one. *)
Lemma Init_drops_asap :
  is_Some (timings (NewTpReader None empty_source "TP1" "UTC") !! ASAP) /\
  timings (Init (NewTpReader None empty_source "TP1" "UTC")) !! ASAP = None.
Proof. split; [by eexists|reflexivity]. Qed.


(** *** Runs on the small tariff plan *)

(** [LoadRatingProfiles] on a reader with a store: the rating plan the
    profile names is not in memory, the store is asked and says yes, the
    load succeeds. *)
Example LoadRatingProfiles_run :
  (run LoadRatingProfiles plan_state).1 = Some None /\
  calls (world (run LoadRatingProfiles plan_state).2)
    = [(HasData RATING_PLAN_PREFIX "RP_STORE", {| reply_err := None; reply_bool := true |})].
Proof. split; vm_compute; reflexivity. Qed.


(** [LoadAll] on a source with no rows, the methods that are not embedded
    finding nothing: every step passes. With [LoadActions] failing, the
    eight steps before it pass and its error comes back. *)
Lemma LoadAll_order_witness :
  (run (LoadAll step_not_found step_not_found step_not_found step_not_found
          step_not_found step_not_found step_not_found step_not_found step_not_found
          step_not_found step_not_found) empty_state).1 = Some None /\
  (run (LoadAll step_not_found step_not_found step_not_found step_not_found
          step_fails step_not_found step_not_found step_not_found step_not_found
          step_not_found step_not_found) empty_state).1 = Some (Some "connection lost").
Proof.
  split.
  - destruct (LoadAll_order step_not_found step_not_found step_not_found step_not_found
                step_not_found step_not_found step_not_found step_not_found
                step_not_found step_not_found step_not_found empty_state) as [Hall _].
    rewrite (Hall (default empty_state
                     (pass_through
                        (load_order step_not_found step_not_found step_not_found
                           step_not_found step_not_found step_not_found step_not_found
                           step_not_found step_not_found step_not_found step_not_found)
                        empty_state))); [reflexivity|].
    apply pass_through_passes. vm_compute. reflexivity.
  - destruct (LoadAll_order step_not_found step_not_found step_not_found step_not_found
                step_fails step_not_found step_not_found step_not_found
                step_not_found step_not_found step_not_found empty_state) as [_ Hhalt].
    set (pre := [step_not_found; LoadTimings; step_not_found; LoadDestinationRates;
                 LoadRatingPlans; LoadRatingProfiles; step_not_found; step_not_found]).
    rewrite (Hhalt pre step_fails
               [LoadActionPlans; step_not_found; LoadAccountActions; step_not_found;
                step_not_found; step_not_found; step_not_found; step_not_found]
               (default empty_state (pass_through pre empty_state))
               (default empty_state (pass_through pre empty_state))
               "connection lost"); [reflexivity|reflexivity| |reflexivity|discriminate].
    apply pass_through_passes. vm_compute. reflexivity.
Defined.

(** [LoadDestinationsFiltered] on three destinations with a store that
    refuses to write the second: the write is rolled back and the third
    destination is written all the same. *)
Example LoadDestinationsFiltered_run :
  (run (LoadDestinationsFiltered "") flaky_state).1 = Some (true, None) /\
  (calls (world (run (LoadDestinationsFiltered "") flaky_state).2)).*1
    = [ SetDestination "GERMANY" "uuid"; SetReverseDestination "GERMANY" "uuid";
        SetDestination "BAD" "uuid"; RollbackTransaction "uuid";
        SetReverseDestination "BAD" "uuid";
        SetDestination "FRANCE" "uuid"; SetReverseDestination "FRANCE" "uuid";
        CommitTransaction "uuid" ].
Proof. split; vm_compute; reflexivity. Qed.

Lemma LoadDestinationsFiltered_transaction_witness :
  exists s' replies,
    run (LoadDestinationsFiltered "") flaky_state = (Some (true, None), s') /\
    length replies = 3 /\
    calls_between flaky_state s'
      (concat (zip_with (dest_block "uuid") ["GERMANY"; "BAD"; "FRANCE"] replies)
       ++ [(CommitTransaction "uuid", no_reply)]).
Proof.
  apply (LoadDestinationsFiltered_transaction flaky_state "" ["GERMANY"; "BAD"; "FRANCE"]).
  - by eexists.
  - reflexivity.
  - discriminate.
Defined.

(** [LoadAccountActions] after the action plans were loaded: the account
    [cgrates.org:acc1] is bound to [AP1]. *)
Example LoadAccountActions_run :
  (run LoadAccountActions plans_loaded).1 = Some None /\
  AccountIDs <$> actionPlans (reader (run LoadAccountActions plans_loaded).2) !! "AP1"
    = Some {[ "cgrates.org:acc1" := true ]} /\
  acntActionPlans (reader (run LoadAccountActions plans_loaded).2) !! "cgrates.org:acc1"
    = Some ["AP1"].
Proof. split_and!; vm_compute; reflexivity. Qed.


(** The one account of the plan, with the action plan it names in memory:
    the load succeeds and stores the account with its counters seeded. *)
Lemma LoadAccountActions_duplicates_witness :
  exists s',
    run LoadAccountActions plans_loaded = (Some None, s') /\
    forall aa, aa ∈ [mkTPAccountActions "" "" "cgrates.org" "acc1" "AP1" "" false false] ->
      accountActions (reader s') !! TPAccountActions_KeyId aa
        = Some (account_of (reader plans_loaded) aa).
Proof.
  destruct (LoadAccountActions_duplicates plans_loaded [("acc1", ("AP1", ""))]
              [mkTPAccountActions "" "" "cgrates.org" "acc1" "AP1" "" false false])
    as (_ & _ & Hok); [reflexivity|reflexivity|].
  apply Hok.
  - apply NoDup_singleton.
  - intros aa ->%list_elem_of_singleton. split; [vm_compute; reflexivity|].
    split; [by left|right; vm_compute; by eexists].
Defined.

(** C5, as stated, fails: an account key that occurs once does not make the
    load succeed when the action plan the record names is not in memory. *)
Lemma LoadAccountActions_single_key_fails :
  account_action_records (reader orphan_state)
    = [mkTPAccountActions "" "" "cgrates.org" "acc1" "AP_MISSING" "" false false] /\
  accountActions (reader orphan_state) = ∅ /\
  (run LoadAccountActions orphan_state).1
    = Some (Some "could not get action plan for tag AP_MISSING").
Proof. split_and!; vm_compute; reflexivity. Qed.

(** [LoadRatingPlansFiltered] on two rating plans, the second naming the
    destination-rate group [DR1] that has no rows: the error names [DR1],
    and the first plan is in the store by then. *)
Example LoadRatingPlansFiltered_run :
  (run (LoadRatingPlansFiltered "") plan_state).1
    = Some (false, Some "no DestinationRates profile with id DR1: <nil>") /\
  rating_plan_writes (calls (world (run (LoadRatingPlansFiltered "") plan_state).2))
    = ["RP1"].
Proof. split; vm_compute; reflexivity. Qed.

(** C6, as stated, fails: the call that fails on [DR1] has persisted a
    rating plan. *)
Lemma LoadRatingPlansFiltered_persists_earlier_plan :
  GetTPDestinationRates (lr (reader plan_state)) (tpid (reader plan_state)) "DR1"
    = ([], None) /\
  (run (LoadRatingPlansFiltered "") plan_state).1
    = Some (false, Some "no DestinationRates profile with id DR1: <nil>") /\
  rating_plan_writes (calls (world plan_state)) = [] /\
  rating_plan_writes (calls (world (run (LoadRatingPlansFiltered "") plan_state).2))
    <> [].
Proof.
  split_and!; [reflexivity|vm_compute; reflexivity|reflexivity|vm_compute; discriminate].
Qed.

Lemma LoadRatingPlansFiltered_missing_rates_witness :
  (run (LoadRatingPlansFiltered "") plan_state).1
    = Some (false, Some "no DestinationRates profile with id DR1: <nil>") /\
  rating_plan_writes (calls (world (run (LoadRatingPlansFiltered "") plan_state).2))
    = ["RP1"].
Proof.
  destruct (LoadRatingPlansFiltered_missing_rates plan_state ""
              [("RP1", ("T1", "DR_OK")); ("RP2", ("T1", "DR1"))]
              [("RP1", [@mkTPRatingPlanBinding test_env "DR_OK" "T1" 10%Z None])]
              "RP2" [] (@mkTPRatingPlanBinding test_env "DR1" "T1" 10%Z None) [] []
              (for_each [("RP1", [@mkTPRatingPlanBinding test_env "DR_OK" "T1" 10%Z None])]
                 (load_rating_plan (reader plan_state)) plan_state).2
              (mkRatingPlan "RP2" RatingPlanBody_zero)
              (for_each [("RP1", [@mkTPRatingPlanBinding test_env "DR_OK" "T1" 10%Z None])]
                 (load_rating_plan (reader plan_state)) plan_state).2
              [mkTPTiming "T1" [] [] [] [1%Z; 2%Z; 3%Z; 4%Z; 5%Z] "00:00:00" ""])
    as (Hrun & Hw & _).
  - reflexivity.
  - discriminate.
  - reflexivity.
  - vm_compute. reflexivity.
  - reflexivity.
  - reflexivity.
  - discriminate.
  - reflexivity.
  - reflexivity.
  - rewrite Hrun. cbn [fst snd]. rewrite Hw. split; [reflexivity|].
    vm_compute. reflexivity.
Defined.

(** [WriteToDatabase] after action plans and account actions were loaded:
    the immediate timing of [AP1] gives one task, for its one account. *)
Example WriteToDatabase_run :
  (run (WriteToDatabase false false false) (run LoadAccountActions plans_loaded).2).1
    = Some None /\
  pushed (calls (world (run (WriteToDatabase false false false)
                          (run LoadAccountActions plans_loaded).2).2))
    = [("cgrates.org:acc1", "ACT1")] /\
  pushed (calls (world (run (WriteToDatabase false false false) plans_loaded).2))
    = [("", "ACT1")].
Proof. split_and!; vm_compute; reflexivity. Qed.

(** The tasks pushed on the small plan, read off the theorem, the store
    refusing no call and the plan having no resource limit: with the
    account [cgrates.org:acc1] bound to [AP1], whose one timing is
    immediate, the method returns nil and has pushed one task for that
    account; with no account bound, one task with no account id. *)
Lemma WriteToDatabase_tasks_witness :
  (exists s' new,
     run (WriteToDatabase false false false) (run LoadAccountActions plans_loaded).2
       = (Some None, s') /\
     calls_between (run LoadAccountActions plans_loaded).2 s' new /\
     pushed new = [("cgrates.org:acc1", "ACT1")]) /\
  (exists s' new,
     run (WriteToDatabase false false false) plans_loaded = (Some None, s') /\
     calls_between plans_loaded s' new /\
     pushed new = [("", "ACT1")]).
Proof.
  set (at1 := {| Uuid := "uuid"; Timing := mkRITiming [] [] [] [] ASAP "";
                 Weight := 10%Z : @float64 test_env; ActionsID := "ACT1" |}).
  assert (forall st c, reply_err (db_exec agreeable_store st c).2 = None) as Hagree
    by reflexivity.
  split.
  - set (st := (run LoadAccountActions plans_loaded).2).
    set (ap1 := {| ap_Id := "AP1"; AccountIDs := {[ "cgrates.org:acc1" := true ]};
                   ActionTimings := [at1] |}).
    destruct (WriteToDatabase_tasks false false false st)
      as (r & s' & new & plans & blocks & Hrun & Hcb & Hperm & Hok & _ & _ & Hall & Hans).
    assert (dataStorage (reader st) = Some agreeable_store) as Hdb
      by (vm_compute; reflexivity).
    assert (limits_ok (reader st)) as Hlim.
    { assert (resLimits (reader st) = ∅) as Hno by (vm_compute; reflexivity).
      intros k tpRL Hk. by rewrite Hno in Hk. }
    destruct (Hall ltac:(by rewrite Hdb) (Hans _ Hdb Hagree)) as [Hpushed Hnil].
    rewrite (Hnil Hlim) in Hrun.
    exists s', new. split_and!; [done..|]. rewrite Hpushed.
    assert (map_to_list (actionPlans (reader st)) = [("AP1", ap1)]) as Hplans
      by (vm_compute; reflexivity).
    rewrite Hplans in Hperm. apply Permutation_singleton_r in Hperm as ->.
    apply Forall2_cons_inv_l in Hok as (b & rest & Hb & ->%Forall2_nil_inv_l & ->).
    assert (b ≡ₚ [("cgrates.org:acc1", "ACT1")]) as ->%Permutation_singleton_r
      by exact Hb.
    reflexivity.
  - set (ap1 := {| ap_Id := "AP1"; AccountIDs := ∅; ActionTimings := [at1] |}).
    destruct (WriteToDatabase_tasks false false false plans_loaded)
      as (r & s' & new & plans & blocks & Hrun & Hcb & Hperm & Hok & _ & _ & Hall & Hans).
    assert (dataStorage (reader plans_loaded) = Some agreeable_store) as Hdb
      by (vm_compute; reflexivity).
    assert (limits_ok (reader plans_loaded)) as Hlim.
    { assert (resLimits (reader plans_loaded) = ∅) as Hno by (vm_compute; reflexivity).
      intros k tpRL Hk. by rewrite Hno in Hk. }
    destruct (Hall ltac:(by rewrite Hdb) (Hans _ Hdb Hagree)) as [Hpushed Hnil].
    rewrite (Hnil Hlim) in Hrun.
    exists s', new. split_and!; [done..|]. rewrite Hpushed.
    assert (map_to_list (actionPlans (reader plans_loaded)) = [("AP1", ap1)]) as Hplans
      by (vm_compute; reflexivity).
    rewrite Hplans in Hperm. apply Permutation_singleton_r in Hperm as ->.
    apply Forall2_cons_inv_l in Hok as (b & rest & Hb & ->%Forall2_nil_inv_l & ->).
    assert (b = [("", "ACT1")]) as -> by exact Hb.
    reflexivity.
Defined.


(** *** Runs of the further methods *)

Import MoreFixtures.

(** A run read off its result. *)
Lemma run_result {R} (f : M R R) (s : State) r :
  (run f s).1 = Some r -> run f s = (Some r, (run f s).2).
Proof. destruct (run f s) as [r' s']. cbn. by intros ->. Qed.

(** The constants of the categories of the small plan are distinct. *)
Lemma test_keys_distinct c1 c2 : category_key c1 = category_key c2 -> c1 = c2.
Proof.
  intros Heq.
  assert (forall c, test_key_category (category_key c) = Some c) as Hback.
  { by intros [[]| | | | | | | | |]. }
  pose proof (Hback c1) as H1. rewrite Heq, Hback in H1. by injection H1.
Qed.

(** The loads of the source whose rows fit together go through. *)
Example full_source_loads :
  (run LoadDestinations full_state).1 = Some None /\
  (run LoadRates destinations_loaded).1 = Some None /\
  from_option (fun _ => true) false
    (pass_through [LoadTimings; LoadDestinationRates; LoadRatingPlans] rates_loaded) = true /\
  from_option (fun _ => true) false
    (pass_through [LoadRatingProfiles; LoadActionPlans; LoadAccountActions] plans_built)
    = true.
Proof. split_and!; vm_compute; reflexivity. Qed.

Lemma LoadDestinationsFiltered_nothing_to_load_witness :
  run (LoadDestinationsFiltered "GERMANY") empty_state = (Some (false, None), empty_state) /\
  exists s', run (LoadDestinationsFiltered "") dry_state = (None, s') /\
    reader s' = reader dry_state /\
    calls (world s') = calls (world dry_state) /\
    uuids (world s') = S (uuids (world dry_state)).
Proof.
  assert (GetTPDestinations (lr (reader empty_state)) (tpid (reader empty_state)) "GERMANY"
            = ([], None)) as Hget1 by (vm_compute; reflexivity).
  assert (GetTPDestinations (lr (reader dry_state)) (tpid (reader dry_state)) ""
            = (["GERMANY"; "BAD"; "FRANCE"], None)) as Hget2 by (vm_compute; reflexivity).
  split.
  - apply (proj1 (LoadDestinationsFiltered_nothing_to_load empty_state "GERMANY" [] None
                    Hget1)).
    by right.
  - apply (proj2 (LoadDestinationsFiltered_nothing_to_load dry_state ""
                    ["GERMANY"; "BAD"; "FRANCE"] None Hget2)); [done|done|].
    vm_compute. reflexivity.
Defined.

Lemma LoadTimings_failures_witness :
  run LoadTimings failing_state = (Some (Some "connection lost"), failing_state) /\
  exists s', run LoadTimings timings_state = (Some None, s') /\
    world s' = world timings_state /\
    timings (reader s') !! MetaHourly = None.
Proof.
  assert (GetTPTimings (lr (reader failing_state)) (tpid (reader failing_state)) ""
            = ([], Some "connection lost")) as Hget1 by (vm_compute; reflexivity).
  assert (exists tps m,
            GetTPTimings (lr (reader timings_state)) (tpid (reader timings_state)) ""
              = (tps, None) /\
            MapTPTimings tps = (Some m, None) /\ m !! MetaHourly = None)
    as (tps & m & Hget2 & Hmap & Hm).
  { eexists _, _. split_and!; [reflexivity|reflexivity|vm_compute; reflexivity]. }
  split.
  - by apply (proj1 (LoadTimings_failures failing_state [] (Some "connection lost") Hget1)).
  - destruct (LoadTimings_failures timings_state tps None Hget2) as (_ & Hload & _).
    destruct (Hload eq_refl m None Hmap) as (s' & Hrun & Hw & Htm).
    exists s'. split_and!; [done..|]. rewrite Htm.
    rewrite lookup_insert_ne by done. rewrite lookup_insert_ne by done. exact Hm.
Defined.

Lemma LoadDestinations_index_witness :
  exists s',
    run LoadDestinations full_state = (Some None, s') /\
    world s' = world full_state /\
    (forall prfx,
       default [] (revDests (reader s') !! prfx)
         = default [] (revDests (reader full_state) !! prfx)
           ++ listed_under prfx ["GERMANY"; "FRANCE"]) /\
    (forall prfx,
       is_Some (revDests (reader s') !! prfx) <->
       is_Some (revDests (reader full_state) !! prfx) \/
       exists tp, tp ∈ ["GERMANY"; "FRANCE"] /\
                  prfx ∈ Prefixes (NewDestinationFromTPDestination tp)).
Proof.
  assert (GetTPDestinations (lr (reader full_state)) (tpid (reader full_state)) ""
            = (["GERMANY"; "FRANCE"], None)) as Hget by (vm_compute; reflexivity).
  destruct (LoadDestinations_index full_state ["GERMANY"; "FRANCE"] None Hget)
    as [_ Hload].
  destruct (Hload eq_refl) as (s' & Hrun & Hw & _ & _ & Hidx & Hkey).
  by exists s'.
Defined.

Lemma LoadResourceLimitsFiltered_last_wins_witness :
  exists s',
    run (LoadResourceLimitsFiltered "") full_state = (Some None, s') /\
    world s' = world full_state /\
    resLimits (reader s') !! "RL1" = Some tt /\
    resLimits (reader s') !! "RL2" = None.
Proof.
  assert (GetTPResourceLimits (lr (reader full_state)) (tpid (reader full_state)) ""
            = ([tt; tt], None)) as Hget by reflexivity.
  destruct (LoadResourceLimitsFiltered_last_wins full_state "" [tt; tt] None Hget)
    as [_ Hload].
  destruct (Hload eq_refl) as (s' & Hrun & Hw & _ & Hrl).
  exists s'. split_and!; [done..| |]; rewrite Hrl; vm_compute; reflexivity.
Defined.

Lemma GetLoadedIds_keys_witness :
  (exists keys s',
     run (GetLoadedIds (category_key ACTION_PLAN_PREFIX)) plans_loaded
       = (Some (keys, None), s') /\
     NoDup keys /\
     (forall k, k ∈ keys <-> k ∈ loaded_ids (reader plans_loaded) ACTION_PLAN_PREFIX) /\
     untouched plans_loaded s') /\
  run (GetLoadedIds "tmg_") plans_loaded
    = (Some ([], Some "Unsupported load category"), plans_loaded).
Proof.
  destruct (GetLoadedIds_keys plans_loaded test_keys_distinct) as [Hkeys Hnone].
  split; [exact (Hkeys ACTION_PLAN_PREFIX)|].
  apply Hnone. by intros [[]| | | | | | | | |].
Defined.

Lemma GetLoadedIds_after_load_witness :
  exists s1 ids s2 prfxs s3,
    run LoadDestinations full_state = (Some None, s1) /\
    run (GetLoadedIds (category_key (Cat DESTINATION_PREFIX))) s1 = (Some (ids, None), s2) /\
    run (GetLoadedIds (category_key (Cat REVERSE_DESTINATION_PREFIX))) s2
      = (Some (prfxs, None), s3) /\
    NoDup ids /\ NoDup prfxs /\
    (forall id, id ∈ ids <->
       exists tp, tp ∈ ["GERMANY"; "FRANCE"] /\ TPDestination_ID tp = id) /\
    (forall p, p ∈ prfxs <->
       exists tp, tp ∈ ["GERMANY"; "FRANCE"] /\
                  p ∈ Prefixes (NewDestinationFromTPDestination tp)).
Proof.
  assert (GetTPDestinations full_source "TP1" "" = (["GERMANY"; "FRANCE"], None)) as Hget
    by (vm_compute; reflexivity).
  destruct (GetLoadedIds_after_load (Some agreeable_store) full_source "TP1" "UTC"
              test_keys_distinct) as [Hdst _].
  exact (Hdst ["GERMANY"; "FRANCE"] fresh_world Hget).
Defined.

Lemma WriteToDatabase_stops_at_failure_witness :
  run (WriteToDatabase false false false) empty_state
    = (Some (Some "no database connection"), empty_state).
Proof.
  destruct (WriteToDatabase_stops_at_failure false false false empty_state)
    as (r & s' & Hrun & _ & Hno).
  destruct (Hno eq_refl) as [-> ->]. exact Hrun.
Defined.

Lemma LoadRatingProfilesFiltered_writes_witness :
  reader (run (LoadRatingProfilesFiltered
                 (mkTPRatingProfile "TP1" "" "*out" "cgrates.org" "call" "subj1" []))
            plan_state).2 = reader plan_state /\
  is_Some (run (LoadRatingProfilesFiltered
                  (mkTPRatingProfile "TP1" "" "*out" "cgrates.org" "call" "subj1" []))
             plan_state).1.
Proof.
  assert (exists rows rpfs,
            GetTPRatingProfiles (lr (reader plan_state))
              (mkTPRatingProfile "TP1" "" "*out" "cgrates.org" "call" "subj1" [])
              = (rows, None) /\
            MapTPRatingProfiles rows = (rpfs, None)) as (rows & rpfs & Hget & Hmap).
  { eexists _, _. split; reflexivity. }
  destruct (LoadRatingProfilesFiltered_writes plan_state _ rows rpfs Hget Hmap)
    as (Hrd & _ & Hst & _).
  split; [exact Hrd|]. apply Hst. by eexists.
Defined.

Lemma LoadAccountActions_orphan_account_witness :
  exists s',
    run LoadAccountActions orphan_state
      = (Some (Some ("could not get action plan for tag " +:+ "AP_MISSING")), s') /\
    accountActions (reader s')
      = <[TPAccountActions_KeyId
            (mkTPAccountActions "" "" "cgrates.org" "acc1" "AP_MISSING" "" false false) :=
            account_of (reader orphan_state)
              (mkTPAccountActions "" "" "cgrates.org" "acc1" "AP_MISSING" "" false false)]>
          (accountActions (reader orphan_state)) /\
    actionPlans (reader s') = actionPlans (reader orphan_state) /\
    acntActionPlans (reader s') = acntActionPlans (reader orphan_state) /\
    world s' = world orphan_state.
Proof.
  apply (LoadAccountActions_orphan_account orphan_state [("acc1", ("AP_MISSING", ""))]
           [mkTPAccountActions "" "" "cgrates.org" "acc1" "AP_MISSING" "" false false]
           [] (mkTPAccountActions "" "" "cgrates.org" "acc1" "AP_MISSING" "" false false)
           [] orphan_state).
  - vm_compute. reflexivity.
  - vm_compute. reflexivity.
  - reflexivity.
  - reflexivity.
  - vm_compute. reflexivity.
  - by left.
  - discriminate.
  - vm_compute. reflexivity.
Defined.

(** [LoadRatingPlans] once the timings and the destination rates are in
    memory: it returns nil, and the plan [RP1], which memory did not hold,
    is there afterwards. *)
Lemma LoadRatingPlans_adds_witness :
  (run LoadRatingPlans lines_loaded).1 = Some None /\
  ratingPlans (reader lines_loaded) !! "RP1" = None /\
  reader (run LoadRatingPlans lines_loaded).2
    = set_ratingPlans (reader lines_loaded)
        (ratingPlans (reader (run LoadRatingPlans lines_loaded).2)) /\
  is_Some (ratingPlans (reader (run LoadRatingPlans lines_loaded).2) !! "RP1").
Proof.
  assert (GetTPRatingPlans (lr (reader lines_loaded)) (tpid (reader lines_loaded)) ""
            = ([("RP1", ("T1", "DR_DE"))], None)) as Hget
    by (vm_compute; reflexivity).
  assert ((run LoadRatingPlans lines_loaded).1 = Some None) as Hrun
    by (vm_compute; reflexivity).
  destruct (LoadRatingPlans_adds lines_loaded _ Hget) as (Hrd & _ & _ & Hnil).
  split_and!; [exact Hrun|vm_compute; reflexivity|exact Hrd|].
  apply (Hnil Hrun "RP1" [@mkTPRatingPlanBinding test_env "DR_DE" "T1" 10%Z None]).
  - left.
  - discriminate.
Defined.

Lemma LoadDestinationRates_resolves_witness :
  rates (reader (run LoadDestinationRates rates_loaded).2) = rates (reader rates_loaded) /\
  exists new,
    calls_between rates_loaded (run LoadDestinationRates rates_loaded).2 new /\
    forall key drs dr,
      destinationRates (reader (run LoadDestinationRates rates_loaded).2) !! key = Some drs ->
      dr ∈ DestinationRates drs ->
      line_resolved (reader rates_loaded) new dr.
Proof.
  apply LoadDestinationRates_resolves, run_result. vm_compute. reflexivity.
Defined.

Lemma LoadRates_then_LoadDestinationRates_witness :
  (run LoadDestinationRates (run LoadRates destinations_loaded).2).1 = Some None /\
  forall key drs dr,
    destinationRates
      (reader (run LoadDestinationRates (run LoadRates destinations_loaded).2).2) !! key
      = Some drs ->
    dr ∈ DestinationRates drs ->
    exists rate, dr_Rate dr = Some rate /\
                 (MapTPRates ["R1"]).1 !! dr_RateId dr = Some rate.
Proof.
  assert (GetTPRates (lr (reader destinations_loaded)) (tpid (reader destinations_loaded)) ""
            = (["R1"], None)) as Hget by (vm_compute; reflexivity).
  assert ((run LoadDestinationRates (run LoadRates destinations_loaded).2).1 = Some None)
    as Hrun by (vm_compute; reflexivity).
  split; [exact Hrun|].
  exact (proj2 (LoadRates_then_LoadDestinationRates destinations_loaded ["R1"] Hget)
           _ (run_result _ _ _ Hrun)).
Defined.

(** [LoadRatingProfiles] for a profile on the rating plan [RP_STORE], which
    memory does not hold: the store is asked, and vouches for it. *)
Lemma LoadRatingProfiles_stores_witness :
  ratingPlans (reader plan_state) !! "RP_STORE" = None /\
  reader (run LoadRatingProfiles plan_state).2
    = set_ratingProfiles (reader plan_state)
        (ratingProfiles (reader (run LoadRatingProfiles plan_state).2)) /\
  exists new,
    calls_between plan_state (run LoadRatingProfiles plan_state).2 new /\
    forall tpRpf tpRa,
      tpRpf ∈ (MapTPRatingProfiles [("subj1", "RP_STORE")]).1 ->
      tpRa ∈ rpf_RatingPlanActivations tpRpf ->
      activation_ok (reader plan_state) new tpRa.
Proof.
  assert (GetTPRatingProfiles (lr (reader plan_state))
            {| rpf_TPid := tpid (reader plan_state); rpf_LoadId := ""; rpf_Direction := "";
               rpf_Tenant := ""; rpf_Category := ""; rpf_Subject := "";
               rpf_RatingPlanActivations := [] |} = ([("subj1", "RP_STORE")], None)) as Hget
    by (vm_compute; reflexivity).
  assert (MapTPRatingProfiles [("subj1", "RP_STORE")]
            = ((MapTPRatingProfiles [("subj1", "RP_STORE")]).1, None)) as Hmap by reflexivity.
  assert (run LoadRatingProfiles plan_state
            = (Some None, (run LoadRatingProfiles plan_state).2)) as Hrun
    by (apply run_result; vm_compute; reflexivity).
  destruct (LoadRatingProfiles_stores plan_state _ _ _ Hget Hmap Hrun) as (Hrd & _ & Hok).
  split_and!; [vm_compute; reflexivity|exact Hrd|exact Hok].
Defined.

Lemma WriteToDatabase_writes_all_witness :
  is_Some (dataStorage (reader all_loaded)) /\
  reader (run (WriteToDatabase false false false) all_loaded).2 = reader all_loaded /\
  exists new phases,
    calls_between all_loaded (run (WriteToDatabase false false false) all_loaded).2 new /\
    entity_writes new = concat phases /\
    Forall2 (≡ₚ) phases (entities (reader all_loaded)).
Proof.
  apply (WriteToDatabase_writes_all false false false), run_result.
  vm_compute. reflexivity.
Defined.

Lemma LoadAll_destinations_fail_witness :
  run (LoadAll LoadDestinations LoadRates step_not_found step_not_found step_not_found
         step_not_found step_not_found step_not_found step_not_found step_not_found
         LoadResourceLimits) failing_state
    = (Some (Some "connection lost"), failing_state).
Proof.
  assert (GetTPDestinations (lr (reader failing_state)) (tpid (reader failing_state)) ""
            = ([], Some "connection lost")) as Hget by (vm_compute; reflexivity).
  apply (proj1 (LoadAll_destinations_fail failing_state [] "connection lost"
                  step_not_found step_not_found step_not_found step_not_found
                  step_not_found step_not_found step_not_found step_not_found Hget)).
  discriminate.
Defined.

(** Two users written to a store that refuses every write: the method
    reports success. *)
Lemma LoadUsersFiltered_ignores_answers_witness :
  exists s' replies,
    run (LoadUsersFiltered any_user) refused_state = (Some (true, None), s') /\
    reader s' = reader refused_state /\
    length replies = 2 /\
    calls_between refused_state s' (user_writes test_users replies).
Proof.
  assert (GetTPUsers (lr (reader refused_state)) any_user = (test_users, None))
    as Hget by reflexivity.
  destruct (LoadUsersFiltered_ignores_answers refused_state any_user _ None Hget)
    as (_ & Hload & _).
  apply Hload; [done|]. by eexists.
Defined.

(** *** The whole load on the small plan *)

Import MoreFixtures WholeFixtures.


End LoaderFacts.
